(* ===== verification/_CoqProject ===== *)
-Q . S2P
Prelude.v
GoLib.v
GoFloat.v
GoConf.v
Errors.v
Sessions.v
SessionStore.v
SessionMemory.v
SessionControls.v
Kvs.v
KvsMemory.v
SessionKvs.v
SessionKvsCalls.v
SessionKvsRaces.v
SiteStack.v
GoPath.v
GoGlob.v
GoFilepath.v
GoUtf8.v
GoNet.v
KvsSqlite.v
Cleanup.v
KvsRedis.v
Filter.v
ObjectTypes.v
ObjectBackend.v
Places.v
ObjectMemory.v
MultiWriter.v
Bufio.v
Ndjson.v
Channel.v
PosixFs.v
File.v
Sftp.v
FilePlaces.v
SftpPlaces.v
Transfer.v
Omnistorage.v
Dropbox.v
Compress.v
Gzip.v
Zstd.v
SyncTypes.v
Backoff.v
RateLimit.v
RateBound.v
Sync.v
SyncProgress.v
Bisync.v
SyncCheck.v
SyncCopy.v
SyncMemory.v
