(* ===== verification/Prelude.v ===== *)
(** * A verification library for omnistorage-core

    omnistorage-core is a Go module for storage: objects (files) in interchangeable backends
    (src/object), the synchronisation of two of them (src/object/sync), key-value stores
    (src/kvs) and user sessions kept in memory or in a key-value store (src/session).  This
    library translates its logic into executable definitions and proves what they do.

    ** The parts and the files

    Shared ground:
    - [Prelude]: results and early returns, int64 arithmetic, tactics, lemmas on lists,
      strings and maps.
    - [GoLib]: what is used of time, context, sort, strings, encoding/hex, encoding/base64,
      and iteration over maps.  [GoConf]: strconv.Atoi and settings.  [GoPath], [GoFilepath]:
      path and path/filepath.  [GoGlob]: Base and Match.  [GoUtf8]: characters of strings.
      [GoNet]: SplitHostPort, ParseIP, IsLoopback.  [Bufio]: bufio.Writer and bufio.Scanner.
      [GoFloat]: float64 by SpecFloat, with the lemmas on its rounding.
    - [Errors]: every error value of the module (session/errors.go, object/errors.go,
      kvs/kvs.go, multi.MultiError, the RetryError of object/sync/retry.go) with errors.Is,
      errors.As, Unwrap.

    Sessions (src/session):
    - [Sessions]: session.go.  Session, identifiers, configuration; classes for the outside
      world ([SessionEnv], [SessionJSON]) and the laws of encoding/json it relies on.
    - [SessionStore]: the Store interface as the class [SessionStore.SessionStore], and the
      contract [StoreContract] a backend owes its clients.
    - [SessionMemory] (module MemoryStore): backend/memory/memory.go, with the two lock
      regions of Get as two steps, and the interleavings of calls.
    - [SessionKvs] (module KvsStore): backend/kvs/kvs.go over any key-value store, and its
      instance of the contract.
    - [SessionKvsCalls]: the operations of kvs.go as programs of backend calls, which run whole are
      those of [SessionKvs].  [SessionKvsRaces]: their interleavings, with operations that start
      at any time and contexts that end at any call.
    - [SessionControls] (module Controls): wrapper.go over any store that keeps the contract.
      [SiteStack]: several sites' controls in front of one store, as a run of calls.
    - [Cleanup]: the cleanup goroutines of the memory, SQLite and session stores, beside their
      calls and the statements of any number of calls of Close.

    Key-value stores (src/kvs):
    - [Kvs]: kvs.go.  The interface [ListableStore] and its specification [KVSpec], a map
      with times to live.  [KvsMemory] (module KvsMem): backend/memory/memory.go, which
      meets it; [SessionKvs] is verified against the specification alone.
    - [KvsSqlite] (module Sqlite): backend/sqlite/sqlite.go over a database whose statements
      are the operations of [SqlDb].  [KvsRedis] (module RedisStore): backend/redis/redis.go
      over a client whose commands are the operations of [Redis].

    Objects (src/object):
    - [ObjectTypes]: hash.go, features.go, options.go, object_info.go, registry.go.
    - [ObjectBackend]: interfaces.go and extended.go as the class [ObjectBackend], the
      specification [BackendSpec] (a map from paths to contents; a writer publishes when it
      is closed), and copy.go and move.go with io.Copy, verified against it.
    - [ObjectMemory] (module Mem): backend/memory/backend.go, an instance of both.
    - [PosixFs]: a POSIX file system and package os over it.  [File] (module FileB):
      backend/file over them.  Its writers write in place, as os.File does, so it is no
      instance of [BackendSpec], and has its own theorems.
    - [Places]: the weaker contract [PlaceSpec] that backends which write in place keep too: the
      places an operation may change, what a reader and a writer stand on; copy.go and move.go
      over it, and the sum of two kinds of backends.  [FilePlaces] and [SftpPlaces] are its
      instances, [Transfer] the sum of the memory, file and sftp backends.
    - [Omnistorage]: omnistorage.go, with the init functions of the packages it imports.
    - [Sftp] (module SftpB): backend/sftp over the ssh and sftp clients [SftpClient].
      [Dropbox]: backend/dropbox/options.go, all there is of that backend.
    - [Channel] (module Chan): backend/channel/backend.go, Go channels as queues, with the
      interleavings of writers, readers and closers as a labelled machine.
    - [MultiWriter]: multi/writer.go over any backends.  [Ndjson]: format/ndjson over any
      backend.  [Compress], [Gzip], [Zstd]: compress/gzip and compress/zstd over any backend
      and any compressor [Codec].

    Synchronisation (src/object/sync):
    - [Filter]: filter/filter.go.  [SyncTypes]: options.go and retry.go.  [Backoff]:
      retry.go with its delays and their jitter.  [RateLimit]: ratelimit.go, with the float64
      arithmetic of refill as [GoFloat] computes it.  [RateBound]: its readers, interleaved.
    - [Sync]: sync.go.  listFiles, the comparison, the transfers, the worker pool, the
      deletions, Move and MoveFile; what a sync asks of a backend beyond [BackendSpec] is the
      class [ListingSpec].  [SyncProgress]: the workers of its pool one atomic operation at a
      time, with their counters and progress reports.  [Bisync]: bisync.go, with every conflict
      strategy.
    - [SyncCheck]: check.go and verify.go.  [SyncCopy]: copy.go.  [SyncMemory]: the memory
      backend is an instance of [ListingSpec], and runs of the syncs on it.

    ** How the code is read

    An operation is a function from the state and its arguments to the new state and the
    result; a pair of a value and an error is [result], an early return [onerr].  A mutex makes
    the code between Lock and Unlock one step, and code that releases it in between is cut
    into the steps it has (Get of [SessionMemory], Mkdir of [ObjectMemory], Write of
    [Channel]).  Backends are shared objects: an object operation acts on a world that holds
    all of them, so a copy from a backend to itself is the aliasing the code has.  A call reads
    the clock as one [now] and sees one state of its context for its whole length: nil, or the
    reason it is done.  Maps are iterated in an order the class [MapOrder] leaves open;
    theorems hold for every order.  Integers are Z; where the code can leave int64
    (differences of times, token counts) the wrap-around is written out.  A nil map is [None]
    where the code can write to one, and the panic is [None] too.

    Code outside src/ is a class of operations with no laws, which the definitions use, and a
    second class with the documented behaviour, which the theorems use: [Redis] and
    [RedisSpec], [SqlDb] and [SqlDbSpec], [SftpClient] and [SftpSpec], [Codec] and [CodecSpec].
    Each has an instance that meets its laws, on which the witnesses run.  Where a reader comes
    from outside, its reads keep to io.Reader: the last bytes may come with EOF or before it
    ([may_end]).  In [PosixFs] any
    system call may fail instead of acting, as the parameter [fault] decides; the safety
    theorem [requests_confined] holds for all faults, the others say where they need none.

    [Cleanup] runs Close a statement at a time beside the goroutine that waits on [closeCh].

    The key-value session store has no lock: [SessionKvsRaces] interleaves its operations one
    backend call at a time, while a theorem about one operation takes it as one step; [run_op]
    says that the step is the run of its calls.  A read of [closed] is a step too.

    The worker pool of Sync is a machine driven by a [Schedule]: at each step a worker takes an
    action off the channel or one of the running transfers finishes, up to [Concurrency] at a
    time, and a transfer that finishes after a cancellation may have seen it or not.  A whole
    transfer is one step; theorems hold for every schedule.  The rate limiter acts on a transfer
    only by delaying it, or by never letting its first read return: [RateLimit] proves which,
    and [Sync] uses the condition.

    ** Fuel

    [io_Copy], [read_until], [compare_loop], [integrity_loop], [wait_loop], the reads of
    [Ndjson], the walks of [File] and [Sftp] and the scan of [KvsRedis] take fuel, and [None]
    is a run that has not ended.  The theorems give enough: one more than the length of the
    content for the reads of a file ([CopyPath_correct], [Sync_correct], [Check_correct],
    [file_Copy]), two steps per byte and two more for a record ([ndjson_roundtrip]), the tokens
    asked for and one more ([wait_spec]), the depth of the tree for a walk ([file_List],
    [sftp_List]), the steps the server takes for a scan ([redis_List_exact]).  [os_MkdirAll]
    counts by the length of the path, as each call is on a shorter one.  [run_pool] counts its
    steps: two for an action, one more to stop, and [Sync] passes that number.

    ** What is proved

    - Sessions: the controls isolate sites over any store that keeps the contract
      ([site_isolation], [reads_own_site]), enforce the limits ([Create_enforces_limit],
      [accepted_within_limits]), and log no identifiers ([violations_hide_ids]); the memory
      store's index agrees with its sessions under every interleaving that keeps owners
      ([interleave_wf]); the key-value store reads back what it stored, deletes exactly, and
      cleans its indexes safely ([Create_then_Get], [Delete_exact], [cleanup_exact]); its
      concurrent operations leave alone the sessions they do not name ([interleaved_isolation]);
      sites that share a store do not reach each other's sessions ([tenants_isolated]); the
      cleanup goroutines end with their stores ([cleanup_goroutines]).
    - Key-value: the memory and SQLite stores refine the abstract table over any history
      ([Get_List_history], [sqlite_history]); SQLite's listing and its flaws ([sqlite_List]);
      Redis refuses insecure addresses, lists prefixes exactly and reads back
      ([redis_New_secure], [redis_List_exact], [redis_Set_Get]).
    - Objects: copies and moves ([CopyPath_correct], [CopyPathWithHash_correct],
      [move_correct]); in memory, stored paths stay canonical, written content reads back,
      ranges and listings are exact ([stored_paths_canonical], [write_then_read],
      [ranged_read], [List_exact], [Rmdir_safe], [Mkdir_exact]); on files, no request leaves
      the root, whatever fails, but to make the directories that lead to it
      ([requests_confined]), and each operation does what it says
      ([file_write_read], [file_Copy], [file_Move], [file_Delete], [file_List]); the same over
      sftp ([sftp_write_read], [sftp_Copy], [sftp_Move], [sftp_List], [sftp_absent],
      [sftp_Rmdir]), whose connections are always verified ([sftp_New_verified]).
    - Across backends: copies and moves between any two of the memory, file and sftp backends
      carry exactly the content, from one place to another ([any_to_any]); importing the module registers exactly the
      backends it has ([builtin_backends]).
    - Streams: channels lose and reorder nothing ([channel_fifo], [closed_channel_drains]);
      what is fanned out reaches every backend, by the mode ([fan_out], [multi_Write_modes]);
      records read back over any backend ([ndjson_roundtrip], [Reader_records]); the compression
      wrappers hand on what the compressor makes, and close and flush as it needs
      ([gzip_roundtrip], [zstd_roundtrip]).
    - Synchronisation: filters do not depend on the order of their rules ([Match_correct]); a
      sync makes the destination what the options ask for, under every schedule
      ([Sync_correct]), a dry run predicts it ([Sync_dry_run]); a bidirectional sync leaves on
      both sides what the strategy chooses ([Bisync_correct], [Bisync_dry_run],
      [keep_both_correct]); a check sorts every path exactly ([Check_correct]), tree copies
      ([TreeCopy_correct]), retries ([retryOperation_spec], [timed_retry_refines],
      [backoff_bounds], [default_backoff]), token bucket ([wait_spec],
      [limited_Read_spec]) and the bandwidth its readers use together ([bandwidth_bound]);
      progress reports under every interleaving ([progress_reports]; they may come out of order,
      [reports_go_back]).
    - Flaws, each with its theorem: [Get_drops_renewed], [Update_strands_new_owner],
      [never_expiring_session_unindexed], [Create_replaces_foreign_session],
      [Delete_purges_expired_foreign], [Mkdir_Close_panics], [move_correct] (an object moved
      onto itself), [CopyPathWithHash_correct] (an unsupported hash truncates),
      [copyFileSingle_correct] (a limit below 32 KiB per second blocks for ever),
      [move_loop_deletes], [filesMatch_metadata], [VerifyAllIntegrity_correct],
      [conflict_errors_unlimited], [Get_deletes_renewed], [redis_List_invalid],
      [rooted_path_escapes], [file_Copy] and [sftp_Move] (a file onto itself),
      [sftp_path_escapes], [late_reader], [write_close_race], [closed_path_refuses], [fan_out]
      (a failed opening empties the objects already open), [Reader_too_long],
      [update_undoes_delete], [concurrent_Creates_lose_index], [two_Closes_panic],
      [first_delay_uncapped], [overflow_never_waits], [self_copy_empties], [closes_unlocked] (two
      calls of Close panic on the closed channel).

    ** What is not modelled

    Outside src/ and so parameters: encoding/json (its round trip is a law), uuid, the digests,
    tsync.Equal, the reading of a filter file into lines, the compressors, the database, the
    Redis, ssh and sftp clients.  Left out because they change nothing: logging other than the
    violations, the progress reports outside the transfers of Sync, durations, the tickers of
    the cleanup goroutines, whose ticks come at any time.  A session's [Data] is abstract, since
    no store looks into it.  Two writes of one transfer do not interleave with another transfer of the
    same sync; their paths differ.  The file system has no links and no permission bits
    ([fault] can refuse any call), and a write is whole or fails; calls of two operations of
    the file backend do not interleave.  In [Channel] a message is a value: [Write] sends a copy,
    Broadcast the caller's own slice, so there the model speaks of callers that leave it alone.

    [default_backoff] bounds the waits of the default configuration; the conversion of a float64
    outside int64, which Go leaves to the machine, is amd64's.

    Left for later: concurrent operations on the file and sftp backends; a contract of session
    stores that speaks of later instants, which would spare [tenants_isolated] its last
    hypothesis. *)

From Stdlib Require Export ZArith Ascii.
From Stdlib Require Export Strings.Byte.
From stdpp Require Export base list gmap strings sorting pretty.

#[export] Set Warnings "-clear-no-such-hyp".

(** ** Notations *)

Declare Scope omni_scope.
Delimit Scope omni_scope with omni.
Open Scope omni_scope.

(** A Go call that returns a value and an error: either the value or the error. *)
Inductive result (E A : Type) : Type :=
  | Ok (a : A)
  | Err (e : E).
Arguments Ok {E A} a.
Arguments Err {E A} e.

Definition is_ok {E A} (r : result E A) : bool :=
  match r with Ok _ => true | Err _ => false end.

(** [if err := e; err != nil { return k }; rest], the early return on a non-nil error. *)
Notation "'onerr' x '<-' e 'return' k 'else' rest" :=
  (match e with Some x => k | None => rest end)
  (at level 10, x name, e at level 100, k at level 100, rest at level 200,
   format "'[v' 'onerr'  x  '<-'  e  'return'  k  'else' '/' rest ']'") : omni_scope.

(** ** Machine integers *)

Definition two63 : Z := 9223372036854775808.
Definition two64 : Z := 18446744073709551616.

(** The int64 a two's complement addition or multiplication leaves. *)
Definition wrap64 (z : Z) : Z := ((z + two63) mod two64 - two63)%Z.

Definition in_int64 (z : Z) : Prop := (- two63 <= z < two63)%Z.

(** ** Automation *)

Create HintDb omni.
Create Rewrite HintDb omni.

(** Case analysis on every [match] of the goal, keeping the equations. *)
Ltac go_cases := repeat (case_match; simplify_eq/=).

(** The same, finished by first-order reasoning. *)
Ltac go_solve := repeat (case_match; simplify_eq/=); eauto with omni; try naive_solver.

(** Open a pair returned by an operation. *)
Ltac destruct_pairs := repeat match goal with x : (_ * _)%type |- _ => destruct x end.

(** ** Integers *)

Lemma wrap64_id z : in_int64 z -> wrap64 z = z.
Proof. unfold in_int64, wrap64, two63, two64. intros. rewrite Z.mod_small; lia. Qed.

Lemma wrap64_range z : in_int64 (wrap64 z).
Proof.
  unfold in_int64, wrap64. pose proof (Z.mod_pos_bound (z + two63) two64 ltac:(done)).
  unfold two63, two64 in *. lia.
Qed.

(** ** Lists and strings *)

Lemma fold_left_inv {A B} (P : A -> Prop) (f : A -> B -> A) (l : list B) (a : A) :
  P a -> (forall a b, b ∈ l -> P a -> P (f a b)) -> P (fold_left f l a).
Proof.
  revert a. induction l as [|b l IH]; intros a Ha Hf; simpl; [done|].
  apply IH; [apply Hf; [left|done] | intros a' b' Hb'; apply Hf; by right].
Qed.

Lemma length_omap_all {A B} (f : A -> option B) (l : list A) :
  (forall a, a ∈ l -> is_Some (f a)) -> length (omap f l) = length l.
Proof.
  induction l as [|a l IH]; intros Hf; [done|]. csimpl.
  destruct (Hf a ltac:(left)) as [b ->]. csimpl. f_equal. apply IH. intros c Hc. apply Hf. by right.
Qed.

Lemma StronglySorted_filter {A} (R : relation A) (P : A -> Prop) `{!forall x, Decision (P x)} (l : list A) :
  StronglySorted R l -> StronglySorted R (filter P l).
Proof.
  induction 1 as [|a l Hs IH Hf]; [constructor|]. rewrite filter_cons. case_decide; [|done].
  constructor; [done|]. rewrite Forall_forall in *. intros x Hx. apply list_elem_of_filter in Hx as [_ ?]. by apply Hf.
Qed.

Lemma filter_ext_elem {A} (P Q : A -> Prop) `{!forall x, Decision (P x), !forall x, Decision (Q x)} (l : list A) :
  (forall x, x ∈ l -> P x <-> Q x) -> filter P l = filter Q l.
Proof.
  induction l as [|a l IH]; intros Hpq; [done|]. rewrite !filter_cons.
  rewrite IH by (intros x Hx; apply Hpq; by right). specialize (Hpq a ltac:(left)). repeat case_decide; tauto.
Qed.

Lemma filter_length_id {A} (P : A -> Prop) `{!forall x, Decision (P x)} (l : list A) :
  length l <= length (filter P l) -> filter P l = l.
Proof.
  induction l as [|a l IH]; intros Hl; [done|]. rewrite filter_cons in Hl |- *. case_decide.
  - f_equal. apply IH. simpl in Hl. lia.
  - pose proof (length_filter P l). simpl in Hl. lia.
Qed.

Lemma Forall_filter_elem {A} (P Q : A -> Prop) `{!forall x, Decision (P x)} (l : list A) :
  Forall Q l -> Forall Q (filter P l).
Proof. rewrite !Forall_forall. intros HQ x [_ Hx]%list_elem_of_filter. by apply HQ. Qed.

(** Filtering the values of a map and listing them commute, up to order. *)
Lemma map_filter_snd {A} (P : A -> Prop) `{!forall x, Decision (P x)} (m : gmap string A) :
  (map_to_list (filter (fun kv => P kv.2) m)).*2 ≡ₚ filter P (map_to_list m).*2.
Proof.
  induction m as [|i x m Hi IH] using map_ind; [by rewrite map_filter_empty, map_to_list_empty|].
  rewrite map_to_list_insert by done. rewrite fmap_cons, filter_cons. simpl. case_decide as HP.
  - rewrite map_filter_insert_True, map_to_list_insert; [|by apply map_lookup_filter_None; left|done].
    rewrite fmap_cons. simpl. by rewrite IH.
  - rewrite map_filter_insert_False by done. rewrite delete_id by done. exact IH.
Qed.

(** Looking up a list of keys one by one. *)
Definition entries {A} (m : gmap string A) (l : list string) : list (string * A) :=
  omap (fun i => (i,.) <$> m !! i) l.

Lemma entries_snd {A} (m : gmap string A) l : (entries m l).*2 = omap (fun i => m !! i) l.
Proof. induction l as [|i l IH]; [done|]. unfold entries. csimpl. destruct (m !! i); csimpl; [f_equal|]; exact IH. Qed.

Lemma elem_of_entries {A} (m : gmap string A) l k a :
  (k, a) ∈ entries m l <-> k ∈ l /\ m !! k = Some a.
Proof.
  unfold entries. rewrite list_elem_of_omap. split.
  - intros (i & ? & He). destruct (m !! i) eqn:?; naive_solver.
  - intros [? Hk]. exists k. by rewrite Hk.
Qed.

Lemma NoDup_entries {A} (m : gmap string A) l : NoDup l -> NoDup (entries m l).*1.
Proof.
  induction 1 as [|i l Hi Hnd IH]; [constructor|]. unfold entries. csimpl.
  destruct (m !! i) as [a|]; csimpl; [|done]. constructor; [|done].
  rewrite list_elem_of_fmap. intros ([j b] & -> & Hin). by apply elem_of_entries in Hin as [??].
Qed.

Lemma string_app_nil_r (s : string) : s +:+ "" = s.
Proof. induction s as [|c s IH]; [done|]. exact (f_equal (String c) IH). Qed.

Lemma string_app_assoc (s t u : string) : s +:+ (t +:+ u) = (s +:+ t) +:+ u.
Proof. induction s as [|c s IH]; [done|]. exact (f_equal (String c) IH). Qed.

Lemma string_app_inj (p a b : string) : p +:+ a = p +:+ b -> a = b.
Proof.
  induction p as [|c p IH]; [done|]. intros H. change (String c (p +:+ a) = String c (p +:+ b)) in H.
  apply IH. congruence.
Qed.

Lemma string_length_app (s t : string) :
  String.length (s +:+ t) = String.length s + String.length t.
Proof. induction s as [|c s IH]; [done|]. exact (f_equal S IH). Qed.

Lemma prefix_app (p s : string) : String.prefix p (p +:+ s) = true.
Proof.
  induction p as [|c p IH]; [by destruct s|].
  change (String c p +:+ s) with (String c (p +:+ s)). cbn.
  destruct (ascii_dec c c); [exact IH|done].
Qed.

Lemma prefix_split (p s : string) :
  String.prefix p s = true -> exists t, s = p +:+ t.
Proof.
  revert s. induction p as [|c p IH]; intros s H; [by exists s|].
  destruct s as [|d s]; [done|]. cbn in H.
  destruct (ascii_dec c d) as [->|]; [|done].
  destruct (IH _ H) as [t ->]. by exists t.
Qed.

#[export] Hint Rewrite string_app_nil_r string_length_app prefix_app : omni.
#[export] Hint Resolve wrap64_range prefix_app : omni.

(** A choice for each element of a list. *)
Lemma choice_on {A} (l : list string) (P : string -> A -> Prop) (a : A) :
  (forall x, x ∈ l -> exists y, P x y) -> exists g, forall x, x ∈ l -> P x (g x).
Proof.
  induction l as [|x l IH]; intros Hl; [exists (fun _ => a); intros x Hx; by apply not_elem_of_nil in Hx|].
  destruct (Hl x ltac:(by left)) as [y Hy]. destruct IH as [g Hg]; [intros z Hz; apply Hl; by right|].
  exists (fun z => if decide (z = x) then y else g z). intros z [->|Hz]%elem_of_cons; [by rewrite decide_True|].
  case_decide; [by subst|by apply Hg].
Qed.

(** The keys of a map of places are bounded in length. *)
Lemma keys_height {A} (m : gmap (list string) A) : exists h, forall k x, m !! k = Some x -> length k < h.
Proof.
  induction m as [|k x m _ [h IH]] using map_ind; [exists 0; intros k x Hk; by rewrite lookup_empty in Hk|].
  exists (max h (S (length k))). intros k' y [[-> _]|[_ Hk]]%lookup_insert_Some; [lia|]. apply IH in Hk. lia.
Qed.
