(* ===== verification/GoLib.v ===== *)
(** * What the program uses of the Go standard library

    Instants and durations ([time]), cancellation ([context]), sorting ([sort.Strings] and
    the exchange loops the stores write out), iteration over maps, byte strings and the
    text encodings of [encoding/hex] and [encoding/base64]. *)

From S2P Require Import Prelude.

(** ** time

    A [time.Time] is its distance in nanoseconds from January 1 of year 1, UTC, the zero
    [Time]; a [time.Duration] is an int64 count of nanoseconds.  The monotonic reading that
    [time.Now] carries besides the wall clock is not modelled. *)

Abbreviation time := Z (only parsing).
Abbreviation duration := Z (only parsing).

Definition Second : duration := 1000000000%Z.
Definition Minute : duration := 60000000000%Z.
Definition Hour : duration := 3600000000000%Z.

Definition zero_time : time := 0%Z.
Definition IsZero (t : time) : bool := (t =? 0)%Z.
Definition After (t u : time) : bool := (u <? t)%Z.
Definition Before (t u : time) : bool := (t <? u)%Z.
Definition Add (t : time) (d : duration) : time := (t + d)%Z.

(** [t.Sub(u)] saturates at the ends of int64. *)
Definition Sub (t u : time) : duration :=
  if (t - u <? - two63)%Z then (- two63)%Z
  else if (two63 <=? t - u)%Z then (two63 - 1)%Z
  else (t - u)%Z.

Definition Until (now t : time) : duration := Sub t now.
Definition Since (now t : time) : duration := Sub now t.

(** [expiresAt.IsZero() || !now.After(expiresAt)] is how every store reads an expiry. *)
Definition expired_at (now expires : time) : bool := negb (IsZero expires) && After now expires.

(** ** context

    What [ctx.Err()] returns during the call: nil, or why the context is done. *)

Inductive ctx_error := Canceled | DeadlineExceeded.
Definition context := option ctx_error.

(** ** sort *)

(** [sort.Strings]: ascending byte order. *)
Definition sort_strings : list string -> list string := merge_sort String.le.

(** One pass of [for j := i+1; j < len(s); j++ { if less(s[j], s[i]) { s[i], s[j] = s[j], s[i] } }]:
    the element that ends at [i] and the rest, in place. *)
Fixpoint exchange_pass {A} (less : A -> A -> bool) (x : A) (l : list A) : A * list A :=
  match l with
  | [] => (x, [])
  | y :: l' =>
      if less y x
      then let '(m, r) := exchange_pass less y l' in (m, x :: r)
      else let '(m, r) := exchange_pass less x l' in (m, y :: r)
  end.

(** The outer loop over [i]; a pass keeps the length, so [length l] rounds are enough. *)
Fixpoint exchange_rounds {A} (less : A -> A -> bool) (n : nat) (l : list A) : list A :=
  match n, l with
  | S n, x :: l' => let '(m, r) := exchange_pass less x l' in m :: exchange_rounds less n r
  | _, _ => l
  end.
Definition exchange_sort {A} (less : A -> A -> bool) (l : list A) : list A :=
  exchange_rounds less (length l) l.

(** ** strings *)

Definition HasPrefix (s p : string) : bool := String.prefix p s.

(** [s] without its first [n] bytes, as in [s[n:]]. *)
Fixpoint drop_string (n : nat) (s : string) : string :=
  match n, s with
  | S n, String _ s => drop_string n s
  | _, _ => s
  end.

Definition TrimPrefix (s p : string) : string :=
  if HasPrefix s p then drop_string (String.length p) s else s.

(** ** Iteration over a map

    [for k, v := range m] visits every entry once, in an order the language leaves open. *)
Class MapOrder := {
  range : forall {A : Type}, gmap string A -> list (string * A);
  range_perm : forall (A : Type) (m : gmap string A), range m ≡ₚ map_to_list m;
  (** the same for a [map[string]struct{}], a set *)
  range_set : gset string -> list string;
  range_set_perm : forall (X : gset string), range_set X ≡ₚ elements X
}.

Definition range_keys `{MapOrder} {A} (m : gmap string A) : list string := (range m).*1.

(** An order to run the definitions with. *)
Definition tree_order : MapOrder :=
  {| range A m := map_to_list m; range_perm A m := reflexivity _;
     range_set X := elements X; range_set_perm X := reflexivity _ |}.

(** ** Byte strings and their text encodings *)

Definition bytes := list byte.

Definition byte_eqb (a b : byte) : bool := Byte.eqb a b.
Definition string_of_bytes (b : bytes) : string := String.string_of_list_byte b.
Definition bytes_of_string (s : string) : bytes := String.list_byte_of_string s.

Definition hex_alphabet : string := "0123456789abcdef".
Definition char_at (alphabet : string) (i : N) : ascii :=
  match String.get (N.to_nat i) alphabet with Some c => c | None => zero end.

(** [hex.EncodeToString] *)
Fixpoint hex_encode (b : bytes) : string :=
  match b with
  | [] => ""
  | x :: b' =>
      String (char_at hex_alphabet (N.shiftr (Byte.to_N x) 4))
        (String (char_at hex_alphabet (N.land (Byte.to_N x) 15)) (hex_encode b'))
  end.

(** [base64.RawURLEncoding.EncodeToString]: no padding. *)
Definition url_alphabet : string :=
  "ABCDEFGHIJKLMNOPQRSTUVWXYZabcdefghijklmnopqrstuvwxyz0123456789-_".
Definition b64_char (n : N) : ascii := char_at url_alphabet (N.land n 63).

Fixpoint base64_raw_url (b : bytes) : string :=
  match b with
  | x :: y :: z :: b' =>
      let v := N.lor (N.lor (N.shiftl (Byte.to_N x) 16) (N.shiftl (Byte.to_N y) 8)) (Byte.to_N z) in
      String (b64_char (N.shiftr v 18))
        (String (b64_char (N.shiftr v 12))
          (String (b64_char (N.shiftr v 6)) (String (b64_char v) (base64_raw_url b'))))
  | [x; y] =>
      let v := N.lor (N.shiftl (Byte.to_N x) 16) (N.shiftl (Byte.to_N y) 8) in
      String (b64_char (N.shiftr v 18))
        (String (b64_char (N.shiftr v 12)) (String (b64_char (N.shiftr v 6)) ""))
  | [x] =>
      let v := N.shiftl (Byte.to_N x) 16 in
      String (b64_char (N.shiftr v 18)) (String (b64_char (N.shiftr v 12)) "")
  | [] => ""
  end.

(** ** Lemmas *)

Lemma expired_at_spec now e : expired_at now e = true <-> (e <> 0 /\ e < now)%Z.
Proof. unfold expired_at, IsZero, After. rewrite andb_true_iff, negb_true_iff. lia. Qed.

Lemma not_expired_at_spec now e : expired_at now e = false <-> (e = 0 \/ now <= e)%Z.
Proof. unfold expired_at, IsZero, After. rewrite andb_false_iff, negb_false_iff. lia. Qed.

Lemma Sub_range t u : in_int64 (Sub t u).
Proof. unfold in_int64, Sub, two63. repeat case_match; lia. Qed.

Lemma Sub_exact t u : in_int64 (t - u) -> Sub t u = (t - u)%Z.
Proof. unfold in_int64, Sub, two63. intros. repeat case_match; lia. Qed.

Lemma drop_string_app p s : drop_string (String.length p) (p +:+ s) = s.
Proof. induction p as [|c p IH]; [by destruct s|exact IH]. Qed.

Lemma TrimPrefix_app p s : TrimPrefix (p +:+ s) p = s.
Proof. unfold TrimPrefix, HasPrefix. by rewrite prefix_app, drop_string_app. Qed.

Lemma sort_strings_perm l : sort_strings l ≡ₚ l.
Proof. apply merge_sort_Permutation. Qed.

Lemma sort_strings_sorted l : StronglySorted String.le (sort_strings l).
Proof. apply StronglySorted_merge_sort; apply _. Qed.

Lemma elem_of_sort_strings x l : x ∈ sort_strings l <-> x ∈ l.
Proof. by rewrite sort_strings_perm. Qed.

(** Two lists with the same elements sort to the same list. *)
Lemma sort_strings_unique l1 l2 : l1 ≡ₚ l2 -> sort_strings l1 = sort_strings l2.
Proof.
  intros Hp. apply (StronglySorted_unique String.le); [apply sort_strings_sorted..|].
  by rewrite !sort_strings_perm.
Qed.

Lemma exchange_pass_perm {A} (less : A -> A -> bool) x l m r :
  exchange_pass less x l = (m, r) -> m :: r ≡ₚ x :: l.
Proof.
  revert x m r. induction l as [|y l IH]; intros x m r H; simpl in H; [by simplify_eq|].
  repeat case_match; simplify_eq/=.
  all: match goal with E : exchange_pass _ _ _ = _ |- _ => apply IH in E as Hp end.
  - etrans; [apply perm_swap|]. by rewrite Hp.
  - etrans; [apply perm_swap|]. rewrite Hp. apply perm_swap.
Qed.

Section exchange.
Context {A : Type} (key : A -> Z).
Local Abbreviation less := (fun a b => (key a <? key b)%Z).
Local Abbreviation le := (fun a b => (key a <= key b)%Z).

Lemma exchange_pass_min x l m r :
  exchange_pass less x l = (m, r) -> le m x /\ Forall (le m) r.
Proof.
  revert x m r. induction l as [|y l IH]; intros x m r H; simpl in H.
  { simplify_eq. split; [lia|constructor]. }
  repeat case_match; simplify_eq/=.
  all: match goal with E : exchange_pass _ _ _ = _ |- _ => apply IH in E as [? ?] end.
  all: split; [lia|constructor; [lia|done]].
Qed.

Lemma exchange_rounds_perm n l : exchange_rounds less n l ≡ₚ l.
Proof.
  revert l. induction n as [|n IH]; intros [|x l]; simpl; try done.
  case_match eqn:E. rewrite IH. by apply exchange_pass_perm in E.
Qed.

Lemma exchange_rounds_sorted n l :
  length l <= n -> StronglySorted le (exchange_rounds less n l).
Proof.
  revert l. induction n as [|n IH]; intros [|x l] Hl; simpl in *; [constructor|lia|constructor|].
  case_match eqn:E. pose proof (exchange_pass_perm _ _ _ _ _ E) as Hp.
  apply Permutation_length in Hp. simpl in Hp.
  apply exchange_pass_min in E as [_ Hmin].
  constructor; [apply IH; lia | by rewrite exchange_rounds_perm].
Qed.

Lemma exchange_sort_perm l : exchange_sort less l ≡ₚ l.
Proof. apply exchange_rounds_perm. Qed.

Lemma exchange_sort_sorted l : StronglySorted le (exchange_sort less l).
Proof. by apply exchange_rounds_sorted. Qed.
End exchange.

Lemma range_keys_perm `{MapOrder} {A} (m : gmap string A) :
  range_keys m ≡ₚ (map_to_list m).*1.
Proof. unfold range_keys. by rewrite range_perm. Qed.

Lemma elem_of_range `{MapOrder} {A} (m : gmap string A) k a :
  (k, a) ∈ range m <-> m !! k = Some a.
Proof. rewrite range_perm. apply elem_of_map_to_list. Qed.

Lemma elem_of_range_keys `{MapOrder} {A} (m : gmap string A) k :
  k ∈ range_keys m <-> is_Some (m !! k).
Proof.
  unfold range_keys. rewrite list_elem_of_fmap. split.
  - intros [[k' a] [-> Hin]]. apply elem_of_range in Hin. by eexists.
  - intros [a Ha]. exists (k, a). split; [done|]. by apply elem_of_range.
Qed.

Lemma elem_of_range_set `{MapOrder} (X : gset string) k : k ∈ range_set X <-> k ∈ X.
Proof. by rewrite range_set_perm, elem_of_elements. Qed.

Lemma length_range_set `{MapOrder} (X : gset string) : length (range_set X) = size X.
Proof. by rewrite range_set_perm. Qed.

Lemma NoDup_range_set `{MapOrder} (X : gset string) : NoDup (range_set X).
Proof. rewrite range_set_perm. apply NoDup_elements. Qed.

Lemma NoDup_range_keys `{MapOrder} {A} (m : gmap string A) : NoDup (range_keys m).
Proof. rewrite range_keys_perm. apply NoDup_fst_map_to_list. Qed.

#[export] Hint Resolve Sub_range sort_strings_sorted : omni.
