(* ===== verification/GoFloat.v ===== *)
(** * float64

    Go's float64 as the Standard Library's [SpecFloat] (IEEE 754, rounding to nearest even), its
    conversions from and to int64, and what bounds it: rounding is monotone, so a result that is
    at most (or at least) a float64 stays so after it is rounded, and above every positive
    fraction there is a float64 within a share of 2^-52. *)

From Stdlib Require Import Floats.SpecFloat.
From S2P Require Import Prelude GoLib.

Definition float64 (z : Z) : spec_float := binary_normalize 53 1024 z 0 false.

(** [int64(f)]: the integer part; out of range it is the smallest int64, as on amd64. *)
Definition int64_of (f : spec_float) : Z :=
  match f with
  | S754_zero _ => 0
  | S754_finite s m e =>
      let a := if (0 <=? e)%Z then Z.shiftl (Zpos m) e else Z.shiftr (Zpos m) (- e) in
      let z := if s then (- a)%Z else a in
      if ((- two63 <=? z) && (z <? two63))%Z then z else (- two63)%Z
  | _ => (- two63)%Z
  end.

Definition fmul : spec_float -> spec_float -> spec_float := SFmul 53 1024.
Definition fsub : spec_float -> spec_float -> spec_float := SFsub 53 1024.
Definition fdiv : spec_float -> spec_float -> spec_float := SFdiv 53 1024.
Definition fadd : spec_float -> spec_float -> spec_float := SFadd 53 1024.

(** [f <= 0] and [f > 0]; both are false of NaN. *)
Definition float_le0 (f : spec_float) : bool :=
  match f with
  | S754_zero _ => true
  | S754_infinity s | S754_finite s _ _ => s
  | S754_nan => false
  end.
Definition float_gt0 (f : spec_float) : bool :=
  match f with
  | S754_zero _ | S754_nan => false
  | S754_infinity s | S754_finite s _ _ => negb s
  end.

Local Open Scope Z_scope.

(** ** Magnitudes

    [mag m e] is m * 2^e in units of 2^-2200, below every product of two float64. *)

Definition mag (m e : Z) : Z := m * 2 ^ (e + 2200).
Definition unit_ : Z := 2 ^ 2200.

(** The value of a finite float64, in the same units. *)
Definition sval (f : spec_float) : Z :=
  match f with S754_finite s m e => cond_Zopp s (mag (Zpos m) e) | _ => 0 end.

Definition fe (e : Z) : Z := Z.max (e - 53) (-1074).

(** A mantissa with the exponent its magnitude asks for: zero, or a float64 if not too large. *)
Definition canonical (m e : Z) : Prop := 0 <= m < 2 ^ 53 /\ -1074 <= e /\ (e = -1074 \/ 2 ^ 52 <= m).

(** A finite float64. *)
Definition finite (f : spec_float) : Prop :=
  match f with
  | S754_zero _ => True
  | S754_finite _ m e => canonical (Zpos m) e /\ e <= 971
  | _ => False
  end.

Lemma digits2_spec p : 2 ^ (Zpos (digits2_pos p) - 1) <= Zpos p < 2 ^ Zpos (digits2_pos p).
Proof.
  induction p as [p IH|p IH|]; cbn [digits2_pos]; [| |cbn; lia];
    rewrite Pos2Z.inj_succ; replace (Z.succ (Zpos (digits2_pos p)) - 1) with (Z.succ (Zpos (digits2_pos p) - 1)) by lia;
    rewrite !Z.pow_succ_r by lia; lia.
Qed.

Lemma pow2_pos n : 0 <= n -> 0 < 2 ^ n.
Proof. intros. apply Z.pow_pos_nonneg; lia. Qed.

(** What steps of [shr_1] do to an exact mantissa: divide it, and note whether that was inexact. *)
Definition shifted (m : Z) (k : nat) (r : shr_record) : Prop :=
  shr_m r = m / 2 ^ Z.of_nat k /\ (m mod 2 ^ Z.of_nat k = 0 -> shr_r r || shr_s r = false).

Lemma shifted_step m k r : 0 <= m -> shifted m k r -> shifted m (S k) (shr_1 r).
Proof.
  unfold shifted. intros Hm [IH1 IH2]. assert (0 < 2 ^ Z.of_nat k) as Hk by (apply pow2_pos; lia).
  rewrite Nat2Z.inj_succ, Z.pow_succ_r, (Z.mul_comm 2), <-Z.div_div by lia.
  rewrite Z.rem_mul_r, <-IH1 by lia.
  pose proof (Z.div_pos m (2 ^ Z.of_nat k) Hm Hk) as Hq. rewrite <-IH1 in Hq.
  pose proof (Z.mod_pos_bound m (2 ^ Z.of_nat k) Hk). pose proof (Z.mod_pos_bound (shr_m r) 2 ltac:(lia)).
  assert (m mod 2 ^ Z.of_nat k + 2 ^ Z.of_nat k * (shr_m r mod 2) = 0 ->
    shr_r r || shr_s r = false /\ shr_m r mod 2 = 0) as Hmod by (intros; split; [apply IH2|]; nia).
  destruct r as [q b s]. cbn [shr_m shr_r shr_s] in *. clear IH1.
  destruct q as [|[p|p|]|p]; cbn [shr_1 shr_m shr_r shr_s orb]; [| | | |lia];
    (split; [|intros [H1 H2]%Hmod]); try done.
  - replace (Zpos p~1) with (1 + Zpos p * 2) by lia. by rewrite Z.div_add by lia.
  - replace (Zpos p~1) with (1 + Zpos p * 2) in H2 by lia. by rewrite Z.mod_add in H2.
  - replace (Zpos p~0) with (Zpos p * 2) by lia. by rewrite Z.div_mul.
Qed.

Lemma iter_pos_shifted m p k r :
  0 <= m -> shifted m k r -> shifted m (k + Pos.to_nat p) (SpecFloat.iter_pos shr_1 p r).
Proof.
  intros Hm. revert k r. induction p as [p IH|p IH|]; intros k r Hr; cbn [SpecFloat.iter_pos].
  - replace (k + Pos.to_nat p~1)%nat with (S k + Pos.to_nat p + Pos.to_nat p)%nat by lia. by apply IH, IH, shifted_step.
  - replace (k + Pos.to_nat p~0)%nat with (k + Pos.to_nat p + Pos.to_nat p)%nat by lia. by apply IH, IH.
  - rewrite Pos2Nat.inj_1, Nat.add_1_r. by apply shifted_step.
Qed.

(** Shifting right by [n] divides. *)
Lemma shr_shifted m e n r e' :
  0 <= m -> 0 <= n -> shr (shr_record_of_loc m loc_Exact) e n = (r, e') -> e' = e + n /\ shifted m (Z.to_nat n) r.
Proof.
  intros Hm Hn. assert (shifted m 0 (shr_record_of_loc m loc_Exact)) as H0
    by (split; cbn; [by rewrite Z.div_1_r|done]).
  destruct n as [|p|p]; cbn [shr]; [| |lia]; intros [= <- <-]; (split; [lia|]); [done|].
  rewrite <-(Nat.add_0_l (Z.to_nat (Zpos p))), Z2Nat.inj_pos. by apply iter_pos_shifted.
Qed.

(** The rounded mantissa: the quotient, or the next one if the division was not exact. *)
Lemma round_shifted m n r :
  0 <= m -> 0 <= n -> shifted m (Z.to_nat n) r ->
  let q := round_nearest_even (shr_m r) (loc_of_shr_record r) in
  m / 2 ^ n <= q <= m / 2 ^ n + 1 /\ (q = m / 2 ^ n + 1 -> m mod 2 ^ n <> 0).
Proof.
  intros Hm Hn [H1 H2]. rewrite Z2Nat.id in H1, H2 by done. rewrite <-H1.
  destruct r as [q b s]. cbn [shr_m shr_r shr_s] in *. clear H1.
  destruct b, s; cbn [loc_of_shr_record round_nearest_even orb] in *; try destruct (Z.even q);
    (split; [lia|]); intros ? Hz; try lia; by apply H2 in Hz.
Qed.

(** *** Comparing magnitudes *)

Lemma mag_shift m e k : -2200 <= k <= e -> mag m e = mag (m * 2 ^ (e - k)) k.
Proof. intros. unfold mag. rewrite <-Z.mul_assoc, <-Z.pow_add_r by lia. do 2 f_equal. lia. Qed.

Lemma mag_le m M e : -2200 <= e -> mag m e <= mag M e <-> m <= M.
Proof. intros. unfold mag. pose proof (pow2_pos (e + 2200)). nia. Qed.

Lemma mag_lt m M e : -2200 <= e -> mag m e < mag M e <-> m < M.
Proof. intros. unfold mag. pose proof (pow2_pos (e + 2200)). nia. Qed.

Lemma mag_pow k e E : -2200 <= e <= E -> 0 <= k -> e + k <= E -> mag (2 ^ k) e <= mag 1 E.
Proof.
  intros. rewrite (mag_shift 1 E e) by lia. apply mag_le; [lia|]. rewrite Z.mul_1_l. apply Z.pow_le_mono_r; lia.
Qed.

Lemma mag_pow_eq k e : -2200 <= e -> 0 <= k -> mag (2 ^ k) e = mag 1 (e + k).
Proof. intros. rewrite (mag_shift 1 (e + k) e) by lia. f_equal. rewrite Z.mul_1_l. f_equal. lia. Qed.

Lemma mag_1_le e E : -2200 <= e <= E -> mag 1 e <= mag 1 E.
Proof. intros. rewrite (mag_shift 1 E e) by lia. apply mag_le; [lia|]. pose proof (pow2_pos (E - e)). lia. Qed.

(** *** The rounded quotient keeps every float64 bound *)
Section quotient.
Variables (m e d q : Z).
Let e1 := fe (d + e).
Let n := e1 - e.
Hypothesis Hm : 2 ^ (d - 1) <= m < 2 ^ d.
Hypothesis Hd : 1 <= d.
Hypothesis He : -2200 <= e.
Hypothesis Hn : 0 <= n.
Hypothesis Hq : m / 2 ^ n <= q <= m / 2 ^ n + 1.
Hypothesis Hinexact : q = m / 2 ^ n + 1 -> m mod 2 ^ n <> 0.

Lemma quotient_range : 0 <= q <= 2 ^ 53 /\ -1074 <= e1 /\ (e1 = -1074 \/ 2 ^ 52 <= q).
Proof.
  assert (0 < 2 ^ n) by (by apply pow2_pos). assert (0 < 2 ^ (d - 1)) by (apply pow2_pos; lia).
  assert (m / 2 ^ n < 2 ^ 53).
  { apply Z.div_lt_upper_bound; [lia|]. rewrite <-Z.pow_add_r by lia.
    eapply Z.lt_le_trans; [apply Hm|]. apply Z.pow_le_mono_r; unfold n, e1, fe in *; lia. }
  assert (0 <= m / 2 ^ n) by (apply Z.div_pos; lia).
  split_and!; [lia|lia|unfold e1, fe; lia|]. destruct (decide (e1 = -1074)) as [|Hne]; [by left|right].
  assert (n = d - 53) as Hnd by (unfold n, e1, fe in *; lia).
  enough (2 ^ 52 <= m / 2 ^ n) by lia. apply Z.div_le_lower_bound; [lia|].
  rewrite <-Z.pow_add_r by lia. replace (n + 52) with (d - 1) by lia. lia.
Qed.

Lemma quotient_ge M E : canonical M E -> mag M E <= mag m e -> mag M E <= mag q e1.
Proof.
  intros (HM & HE & HC) Hle. pose proof quotient_range as (_ & Hr1 & Hr2). destruct (decide (e1 <= E)).
  - rewrite (mag_shift M E e1) by lia. apply mag_le; [lia|]. etrans; [|apply Hq].
    apply Z.div_le_lower_bound; [by apply pow2_pos|].
    apply (mag_le _ _ e); [lia|]. etrans; [|exact Hle]. rewrite (mag_shift M E e) by lia. apply mag_le; [lia|].
    rewrite (Z.mul_comm (2 ^ n)), <-Z.mul_assoc, <-Z.pow_add_r by lia. unfold n. apply Z.eq_le_incl. do 2 f_equal. lia.
  - destruct Hr2 as [|Hr2]; [lia|]. transitivity (mag (2 ^ 53) E); [apply mag_le; lia|].
    rewrite mag_pow_eq by lia. transitivity (mag 1 (e1 + 52)); [apply mag_1_le; lia|].
    rewrite <-mag_pow_eq by lia. apply mag_le; lia.
Qed.

Lemma quotient_le M E : canonical M E -> mag m e <= mag M E -> e1 <= E /\ mag q e1 <= mag M E.
Proof.
  intros (HM & HE & HC) Hle. pose proof quotient_range as (_ & Hr1 & _). assert (e1 <= E) as HeE.
  { destruct (decide (e1 <= E)) as [|Hgt]; [done|]. assert (e1 = d + e - 53) as Hd' by (unfold e1, fe in *; lia).
    enough (mag M E < mag m e) by lia. eapply Z.lt_le_trans; [apply (mag_lt _ (2 ^ 53)); lia|].
    rewrite mag_pow_eq by lia. transitivity (mag 1 (e + (d - 1))); [apply mag_1_le; lia|].
    rewrite <-mag_pow_eq by lia. apply mag_le; lia. }
  split; [done|]. rewrite (mag_shift M E e1) by lia. apply mag_le; [lia|].
  set (M' := M * 2 ^ (E - e1)). assert (0 < 2 ^ n) by (by apply pow2_pos).
  assert (m <= 2 ^ n * M') as Hm'.
  { apply (mag_le _ _ e); [lia|]. etrans; [exact Hle|]. rewrite (mag_shift M E e) by lia. apply mag_le; [lia|].
    unfold M'. rewrite (Z.mul_comm (2 ^ n)), <-Z.mul_assoc, <-Z.pow_add_r by lia.
    unfold n. apply Z.eq_le_incl. do 2 f_equal. lia. }
  pose proof (Z.div_mod m (2 ^ n) ltac:(lia)) as Hdm. pose proof (Z.mod_pos_bound m (2 ^ n) ltac:(lia)).
  destruct (decide (q = m / 2 ^ n + 1)) as [Heq|]; [|nia]. apply Hinexact in Heq as Hr. nia.
Qed.
End quotient.

(** *** The result of a rounding *)

(** The float64 of a canonical mantissa, infinite when it is too large. *)
Definition pack (s : bool) (m e : Z) : spec_float :=
  match m with
  | 0 => S754_zero s
  | Zpos p => if e <=? 971 then S754_finite s p e else S754_infinity s
  | Zneg _ => S754_nan
  end.

Lemma Zdigits2_spec m : 0 < m -> 2 ^ (Zdigits2 m - 1) <= m < 2 ^ Zdigits2 m /\ 1 <= Zdigits2 m.
Proof. destruct m as [|p|p]; [lia| |lia]. intros _. cbn [Zdigits2]. split; [apply digits2_spec|lia]. Qed.

(** The second pass only shifts a mantissa that was rounded up to 2^53. *)
Lemma second_pass q e r e' :
  0 <= q <= 2 ^ 53 -> -1074 <= e -> (e = -1074 \/ 2 ^ 52 <= q) ->
  shr_fexp 53 1024 q e loc_Exact = (r, e') -> canonical (shr_m r) e' /\ mag (shr_m r) e' = mag q e.
Proof.
  unfold shr_fexp. intros Hq He Hc. change (fexp 53 1024 (Zdigits2 q + e)) with (fe (Zdigits2 q + e)).
  destruct (decide (q = 2 ^ 53)) as [->|Hne].
  - change (Zdigits2 (2 ^ 53)) with 54. replace (fe (54 + e) - e) with 1 by (unfold fe; lia).
    intros (-> & -> & _)%shr_shifted; [|done..]. change (2 ^ 53 / 2 ^ Z.of_nat (Z.to_nat 1)) with (2 ^ 52).
    split; [unfold canonical; lia|]. rewrite !mag_pow_eq by lia. f_equal. lia.
  - assert (Zdigits2 q <= 53) as Hd.
    { destruct (decide (q = 0)) as [->|]; [done|]. destruct (Zdigits2_spec q ltac:(lia)) as [Hs H1].
      destruct (decide (Zdigits2 q <= 53)); [done|]. enough (2 ^ 53 <= q) by lia.
      etrans; [|apply Hs]. apply Z.pow_le_mono_r; lia. }
    assert (fe (Zdigits2 q + e) - e <= 0) as Hn by (unfold fe; lia).
    destruct (fe _ - e) as [|p|p] eqn:Hfe; [|lia|]; cbn [shr shr_record_of_loc]; intros [= <- <-]; cbn [shr_m];
      (split; [unfold canonical; lia|done]).
Qed.

(** [m] and [e] are rounded to a canonical mantissa; rounding keeps every float64 bound. *)
Lemma round_spec s m e :
  0 < m -> -2200 <= e <= fe (Zdigits2 m + e) ->
  exists m' e', binary_round_aux 53 1024 s m e loc_Exact = pack s m' e' /\ canonical m' e' /\
    forall M E, canonical M E ->
      (mag m e <= mag M E -> mag m' e' <= mag M E) /\ (mag M E <= mag m e -> mag M E <= mag m' e').
Proof.
  intros Hm He. destruct (Zdigits2_spec m Hm) as [Hd Hd1]. set (d := Zdigits2 m) in *.
  unfold binary_round_aux. destruct (shr_fexp 53 1024 m e loc_Exact) as [r e1] eqn:Hr.
  unfold shr_fexp in Hr. change (fexp 53 1024 (Zdigits2 m + e)) with (fe (d + e)) in Hr.
  apply shr_shifted in Hr as [He1 Hr]; [|lia..]. replace (e + (fe (d + e) - e)) with (fe (d + e)) in He1 by lia.
  apply round_shifted in Hr as [Hq Hx]; [|lia..]. set (q := round_nearest_even _ _) in *. clearbody q. subst e1.
  destruct (quotient_range m e d q) as (Q1 & Q2 & Q3); [lia..|].
  destruct (shr_fexp 53 1024 q _ loc_Exact) as [r2 e2] eqn:Hr2.
  apply second_pass in Hr2 as [Hc Heq]; [|done..].
  exists (shr_m r2), e2. split; [done|]. split; [done|]. intros M E HME. rewrite Heq. split; intros Hle.
  - apply (quotient_le m e d q); auto; lia.
  - apply (quotient_ge m e d q); auto; lia.
Qed.

(** A canonical mantissa below a float64 is one. *)
Lemma canonical_le m e M E : canonical m e -> canonical M E -> 0 < m -> mag m e <= mag M E -> e <= E.
Proof.
  intros (Hm & He & Hc) (HM & HE & HC) Hpos Hle. destruct (decide (e <= E)) as [|Hgt]; [done|].
  destruct Hc as [|Hc]; [lia|]. enough (mag M E < mag m e) by lia.
  eapply Z.lt_le_trans; [apply (mag_lt _ (2 ^ 53)); lia|]. rewrite mag_pow_eq by lia.
  transitivity (mag 1 (e + 52)); [apply mag_1_le; lia|]. rewrite <-mag_pow_eq by lia. apply mag_le; lia.
Qed.

(** [pack] of what is below a float64 is finite. *)
Lemma pack_finite s m e b :
  canonical m e -> finite b -> mag m e <= Z.abs (sval b) -> finite (pack s m e) /\ sval (pack s m e) = cond_Zopp s (mag m e).
Proof.
  intros Hc Hb Hle. destruct m as [|p|p]; cbn [pack finite sval];
    [|destruct b as [sb|sb| |sb mb eb]; try done; cbn [sval] in Hle|unfold canonical in Hc; lia].
  - unfold mag. rewrite Z.mul_0_l. by destruct s.
  - unfold mag in Hle. pose proof (pow2_pos (e + 2200)). unfold canonical in Hc. lia.
  - destruct Hb as [Hb Hmax]. assert (e <= eb).
    { eapply canonical_le; [exact Hc|exact Hb|done|].
      etrans; [exact Hle|]. unfold mag. pose proof (pow2_pos (eb + 2200)). unfold canonical in Hb. destruct sb; cbn; nia. }
    rewrite (proj2 (Z.leb_le e 971)) by lia. split; [split; [done|lia]|done].
Qed.

Lemma sval_abs s m e : -2200 <= e -> Z.abs (sval (S754_finite s m e)) = mag (Zpos m) e.
Proof. intros. cbn [sval]. unfold mag. pose proof (pow2_pos (e + 2200)). destruct s; cbn [cond_Zopp]; nia. Qed.

Lemma cond_Zopp_abs s z : 0 <= z -> Z.abs (cond_Zopp s z) = z.
Proof. destruct s; cbn; lia. Qed.

Lemma finite_exp s m e : finite (S754_finite s m e) -> -1074 <= e <= 971.
Proof. unfold finite, canonical. lia. Qed.

Lemma unit_pos : 0 < unit_.
Proof. apply pow2_pos. lia. Qed.

Lemma mag_mul m e m' e' : -2200 <= e -> -2200 <= e' -> -2200 <= e + e' -> mag m e * mag m' e' = mag (m * m') (e + e') * unit_.
Proof.
  intros. unfold mag, unit_. replace (m * 2 ^ (e + 2200) * (m' * 2 ^ (e' + 2200)))
    with (m * m' * (2 ^ (e + 2200) * 2 ^ (e' + 2200))) by lia.
  rewrite <-(Z.mul_assoc (m * m')), <-!Z.pow_add_r by lia. do 2 f_equal. lia.
Qed.

Lemma Zdigits2_mul m m' : 0 < m -> 0 < m' -> Zdigits2 m + Zdigits2 m' - 1 <= Zdigits2 (m * m').
Proof.
  intros H H'. destruct (Zdigits2_spec m H) as [[? _] ?], (Zdigits2_spec m' H') as [[? _] ?].
  destruct (Zdigits2_spec (m * m') ltac:(lia)) as [[_ Hlt] ?].
  destruct (decide (Zdigits2 m + Zdigits2 m' - 1 <= Zdigits2 (m * m'))) as [|Hgt]; [done|].
  enough (2 ^ Zdigits2 (m * m') <= m * m') by lia.
  transitivity (2 ^ (Zdigits2 m - 1) * 2 ^ (Zdigits2 m' - 1)); [|apply Z.mul_le_mono_nonneg; try lia; apply Z.lt_le_incl, pow2_pos; lia].
  rewrite <-Z.pow_add_r by lia. apply Z.pow_le_mono_r; lia.
Qed.

(** The digits of a canonical mantissa: 53, or fewer at the smallest exponent. *)
Lemma canonical_digits m e : 0 < m -> canonical m e -> 1 <= Zdigits2 m /\ (53 <= Zdigits2 m \/ e = -1074).
Proof.
  intros Hpos (Hm & He & Hc). destruct (Zdigits2_spec m Hpos) as [[_ Hd] ?]. split; [done|].
  destruct Hc as [->|Hc]; [by right|left]. destruct (decide (53 <= Zdigits2 m)); [done|].
  enough (2 ^ Zdigits2 m <= 2 ^ 52) by lia. apply Z.pow_le_mono_r; lia.
Qed.

(** ** Products *)

(** The exact product of two float64, and its rounding. *)
Lemma fmul_round s m e s' m' e' :
  finite (S754_finite s m e) -> finite (S754_finite s' m' e') ->
  exists q k, fmul (S754_finite s m e) (S754_finite s' m' e') = pack (xorb s s') q k /\ canonical q k /\
    forall M E, canonical M E ->
      (mag (Zpos m) e * mag (Zpos m') e' <= mag M E * unit_ -> mag q k <= mag M E) /\
      (mag M E * unit_ <= mag (Zpos m) e * mag (Zpos m') e' -> mag M E <= mag q k).
Proof.
  intros [Hc Hx] [Hc' Hx']. pose proof (canonical_digits (Zpos m) e eq_refl Hc) as Hd.
  pose proof (canonical_digits (Zpos m') e' eq_refl Hc') as Hd'. pose proof (Zdigits2_mul (Zpos m) (Zpos m') ltac:(lia) ltac:(lia)).
  destruct Hc as (_ & He & _), Hc' as (_ & He' & _).
  destruct (round_spec (xorb s s') (Zpos m * Zpos m') (e + e')) as (q & k & H1 & H2 & H3); [lia|split; [lia|unfold fe; lia]|].
  exists q, k. split; [exact H1|]. split; [done|]. intros M E HME. destruct (H3 M E HME) as [H4 H5].
  rewrite mag_mul by lia. pose proof unit_pos. split; intros Hle; [apply H4|apply H5]; apply (Z.mul_le_mono_pos_r _ _ unit_); done.
Qed.

(** A product that is at most a float64, or at least one, is so after rounding. *)
Lemma fmul_le x y b :
  finite x -> finite y -> finite b -> Z.abs (sval x) * Z.abs (sval y) <= Z.abs (sval b) * unit_ ->
  finite (fmul x y) /\ Z.abs (sval (fmul x y)) <= Z.abs (sval b).
Proof.
  intros Hx Hy Hb Hle.
  destruct x as [sx|sx| |sx mx ex], y as [sy|sy| |sy my ey]; try done; try (cbn; lia).
  destruct (fmul_round _ _ _ _ _ _ Hx Hy) as (q & k & -> & Hc & Hb').
  pose proof (finite_exp _ _ _ Hx). pose proof (finite_exp _ _ _ Hy). rewrite !sval_abs in Hle by lia.
  assert (mag q k <= Z.abs (sval b)) as Hqb.
  { pose proof unit_pos. unfold mag in Hle at 1 2. pose proof (pow2_pos (ex + 2200)). pose proof (pow2_pos (ey + 2200)).
    destruct b as [sb|sb| |sb mb eb]; try done; [cbn [sval Z.abs] in Hle; nia|].
    pose proof (finite_exp _ _ _ Hb). rewrite sval_abs in * by lia. apply Hb'; [apply Hb|exact Hle]. }
  destruct (pack_finite (xorb sx sy) q k b Hc Hb Hqb) as [Hf ->]. split; [done|].
  rewrite cond_Zopp_abs; [done|]. unfold mag. pose proof (pow2_pos (k + 2200)). unfold canonical in Hc. nia.
Qed.

(** For a positive product the rounding is at least every float64 below it, and positive. *)
Lemma fmul_ge x y b :
  finite x -> finite y -> finite b -> finite (fmul x y) -> 0 < sval x -> 0 < sval y -> 0 < sval b ->
  sval b * unit_ <= sval x * sval y -> sval b <= sval (fmul x y).
Proof.
  intros Hx Hy Hb Hf Hpx Hpy Hpb Hle.
  destruct x as [sx|sx| |[|] mx ex]; try done; try (cbn in Hpx; pose proof (pow2_pos (ex + 2200)); unfold mag in *; nia).
  destruct y as [sy|sy| |[|] my ey]; try done; try (cbn in Hpy; pose proof (pow2_pos (ey + 2200)); unfold mag in *; nia).
  destruct b as [sb|sb| |[|] mb eb]; try done; try (cbn in Hpb; pose proof (pow2_pos (eb + 2200)); unfold mag in *; nia).
  all: cbn [sval cond_Zopp] in *; try (pose proof (finite_exp _ _ _ Hx)); try (pose proof (finite_exp _ _ _ Hy));
    try (pose proof (finite_exp _ _ _ Hb)); unfold mag in *; try (pose proof (pow2_pos (ex + 2200)); pose proof (pow2_pos (ey + 2200)));
    try (pose proof (pow2_pos (eb + 2200))); try nia.
  fold (mag (Zpos mx) ex) (mag (Zpos my) ey) (mag (Zpos mb) eb) in *.
  destruct (fmul_round _ _ _ _ _ _ Hx Hy) as (q & k & Heq & Hc & Hb'). rewrite Heq in *.
  destruct (Hb' (Zpos mb) eb (proj1 Hb)) as [_ Hge]. specialize (Hge Hle).
  destruct q as [|q|q]; cbn [pack xorb] in *; [|destruct (k <=? 971); [done|done]|unfold canonical in Hc; lia].
  unfold mag in Hge at 2. lia.
Qed.

(** ** Sums and integers *)

Lemma iter_xO p n : Zpos (Pos.iter xO p n) = Zpos p * 2 ^ Zpos n.
Proof.
  induction n as [|n IH] using Pos.peano_ind; [cbn; lia|].
  rewrite Pos.iter_succ, Pos2Z.inj_succ, Z.pow_succ_r by lia.
  change (Zpos (Pos.iter xO p n)~0) with (2 * Zpos (Pos.iter xO p n)). rewrite IH. lia.
Qed.

Lemma Zdigits2_unique m d : 0 < m -> 2 ^ (d - 1) <= m < 2 ^ d -> Zdigits2 m = d.
Proof.
  intros Hm Hd. destruct (Zdigits2_spec m Hm) as [Hs H1].
  assert (0 <= d) by (destruct (decide (0 <= d)); [done|]; rewrite (Z.pow_neg_r 2 d) in Hd by lia; lia).
  destruct (Z.lt_trichotomy (Zdigits2 m) d) as [Hlt|[Heq|Hgt]]; [|done|].
  - enough (2 ^ Zdigits2 m <= 2 ^ (d - 1)) by lia. apply Z.pow_le_mono_r; lia.
  - enough (2 ^ d <= 2 ^ (Zdigits2 m - 1)) by lia. apply Z.pow_le_mono_r; lia.
Qed.

Lemma Zdigits2_shift m k : 0 < m -> 0 <= k -> Zdigits2 (m * 2 ^ k) = Zdigits2 m + k.
Proof.
  intros Hm Hk. destruct (Zdigits2_spec m Hm) as [Hs H1]. pose proof (pow2_pos k Hk). apply Zdigits2_unique; [lia|].
  replace (Zdigits2 m + k - 1) with (Zdigits2 m - 1 + k) by lia. rewrite !Z.pow_add_r by lia. nia.
Qed.

Lemma shl_align_spec p e e' : -2200 <= e' -> -2200 <= e ->
  mag (Zpos (shl_align p e e').1) (shl_align p e e').2 = mag (Zpos p) e /\
  (shl_align p e e').2 = Z.min e e' /\ Zdigits2 (Zpos (shl_align p e e').1) = Zdigits2 (Zpos p) + (e - Z.min e e').
Proof.
  intros He' He. unfold shl_align. destruct (e' - e) as [|d|d] eqn:Hd; cbn [fst snd]; [split_and!; [done|lia..]..|].
  rewrite iter_xO. split_and!; [|lia|rewrite Zdigits2_shift; lia].
  rewrite (mag_shift _ e e') by lia. f_equal. f_equal. f_equal. lia.
Qed.

(** An integer times a power of two, rounded: every float64 bound is kept. *)
Lemma binary_round_spec s p e : -2000 <= e ->
  exists q k, binary_round 53 1024 s p e = pack s q k /\ canonical q k /\
    forall M E, canonical M E ->
      (mag (Zpos p) e <= mag M E -> mag q k <= mag M E) /\ (mag M E <= mag (Zpos p) e -> mag M E <= mag q k).
Proof.
  intros He. unfold binary_round. change (fexp 53 1024 (Zpos (digits2_pos p) + e)) with (fe (Zdigits2 (Zpos p) + e)).
  assert (-2200 <= fe (Zdigits2 (Zpos p) + e)) as Hfe by (unfold fe; lia).
  destruct (shl_align_spec p e _ Hfe ltac:(lia)) as (Hv & Hs & Hd).
  destruct (shl_align p e _) as [mz ez]. cbn [fst snd] in *. rewrite <-Hv. apply round_spec; [lia|].
  rewrite Hd, Hs. pose proof (Zdigits2_spec (Zpos p) eq_refl). unfold fe in *. lia.
Qed.

Lemma normalize_le z e s b :
  -2000 <= e -> finite b -> Z.abs z * 2 ^ (e + 2200) <= Z.abs (sval b) ->
  finite (binary_normalize 53 1024 z e s) /\ Z.abs (sval (binary_normalize 53 1024 z e s)) <= Z.abs (sval b).
Proof.
  intros He Hb Hle. destruct z as [|p|p]; [cbn; lia|..]; cbn [binary_normalize];
    match goal with |- context [binary_round _ _ ?s' _ _] =>
      destruct (binary_round_spec s' p e He) as (q & k & -> & Hc & Hq);
      assert (mag q k <= Z.abs (sval b)) as Hqb;
      [|destruct (pack_finite s' q k b Hc Hb Hqb) as [? ->]; split; [done|];
        rewrite cond_Zopp_abs; [done|unfold mag; pose proof (pow2_pos (k + 2200)); unfold canonical in Hc; nia]]
    end;
    cbn [Z.abs] in Hle; pose proof (pow2_pos (e + 2200)); destruct b as [sb|sb| |sb mb eb]; try done;
    [cbn [sval Z.abs] in Hle; lia|pose proof (finite_exp _ _ _ Hb); rewrite sval_abs in * by lia; apply Hq; [apply Hb|done]
    |cbn [sval Z.abs] in Hle; lia|pose proof (finite_exp _ _ _ Hb); rewrite sval_abs in * by lia; apply Hq; [apply Hb|done]].
Qed.

(** A difference that is at most a float64 is so after rounding. *)
Lemma fsub_le x y b :
  finite x -> finite y -> finite b -> Z.abs (sval x - sval y) <= Z.abs (sval b) ->
  finite (fsub x y) /\ Z.abs (sval (fsub x y)) <= Z.abs (sval b).
Proof.
  intros Hx Hy Hb Hle. unfold fsub.
  destruct x as [sx|sx| |sx mx ex]; try done; destruct y as [sy|sy| |sy my ey]; try done; cbn [SFsub].
  - destruct sx, sy; cbn; lia.
  - split; [done|]. cbn [sval] in *. destruct sy; cbn [negb cond_Zopp] in *; lia.
  - split; [done|]. cbn [sval] in *. lia.
  - pose proof (finite_exp _ _ _ Hx). pose proof (finite_exp _ _ _ Hy). apply normalize_le; [lia|done|].
    destruct (shl_align_spec mx ex (Z.min ex ey)) as (Vx & Sx & _); [lia..|].
    destruct (shl_align_spec my ey (Z.min ex ey)) as (Vy & Sy & _); [lia..|].
    etrans; [|exact Hle]. apply Z.eq_le_incl. cbn [sval]. rewrite <-Vx, <-Vy, Sx, Sy.
    replace (Z.min ex (Z.min ex ey)) with (Z.min ex ey) by lia. replace (Z.min ey (Z.min ex ey)) with (Z.min ex ey) by lia.
    pose proof (pow2_pos (Z.min ex ey + 2200)) as Hp. specialize (Hp ltac:(lia)).
    rewrite <-(Z.abs_eq (2 ^ (Z.min ex ey + 2200))) at 1 by lia. rewrite <-Z.abs_mul. f_equal. unfold mag.
    destruct sx, sy; cbn [cond_Zopp]; lia.
Qed.

(** Integers below 2^53 are exact. *)
Lemma float64_exact z : 0 < z < 2 ^ 53 -> finite (float64 z) /\ sval (float64 z) = z * unit_.
Proof.
  intros Hz. destruct z as [|p|p]; [lia| |lia]. unfold float64. cbn [binary_normalize].
  destruct (binary_round_spec false p 0 ltac:(lia)) as (q & k & -> & Hc & Hq).
  destruct (Zdigits2_spec (Zpos p) eq_refl) as [Hd Hd1]. set (d := Zdigits2 (Zpos p)) in *.
  assert (d <= 53) as Hd53.
  { destruct (decide (d <= 53)); [done|]. enough (2 ^ 53 <= Zpos p) by lia. etrans; [|apply Hd]. apply Z.pow_le_mono_r; lia. }
  assert (canonical (Zpos p * 2 ^ (53 - d)) (d - 53)) as HC.
  { split; [|split; [lia|right]].
    - split; [pose proof (pow2_pos (53 - d)); lia|]. replace 53 with (d + (53 - d)) at 2 by lia.
      rewrite Z.pow_add_r by lia. pose proof (pow2_pos (53 - d)). nia.
    - replace 52 with (d - 1 + (53 - d)) by lia. rewrite Z.pow_add_r by lia. pose proof (pow2_pos (53 - d)). nia. }
  assert (mag (Zpos p) 0 = mag (Zpos p * 2 ^ (53 - d)) (d - 53)) as Hm
    by (rewrite (mag_shift _ 0 (d - 53)) by lia; f_equal; f_equal; f_equal; lia).
  destruct (Hq _ _ HC) as [H1 H2]. rewrite Hm in H1, H2.
  assert (mag q k = mag (Zpos p) 0) as Heq by (specialize (H1 (Z.le_refl _)); specialize (H2 (Z.le_refl _)); lia).
  assert (finite (S754_finite false (Z.to_pos (Zpos p * 2 ^ (53 - d))) (d - 53))) as Hb.
  { split; [|lia]. rewrite Z2Pos.id; [done|]. pose proof (pow2_pos (53 - d)). lia. }
  destruct (pack_finite false q k _ Hc Hb) as [Hf Hs].
  - rewrite sval_abs, Z2Pos.id by (try lia; pose proof (pow2_pos (53 - d)); lia). lia.
  - split; [done|]. rewrite Hs. cbn [cond_Zopp]. rewrite Heq. done.
Qed.

(** The integer part in [int64_of]. *)
Definition trunc_ (m e : Z) : Z := if 0 <=? e then Z.shiftl m e else Z.shiftr m (- e).

Lemma trunc_spec m e : 0 <= m -> -2200 <= e -> 0 <= trunc_ m e /\ trunc_ m e * unit_ <= mag m e < (trunc_ m e + 1) * unit_.
Proof.
  intros Hm He. unfold trunc_, mag, unit_. destruct (Z.leb_spec 0 e).
  - rewrite Z.shiftl_mul_pow2, Z.pow_add_r by lia. pose proof (pow2_pos e). pose proof (pow2_pos 2200). nia.
  - rewrite Z.shiftr_div_pow2 by lia. pose proof (pow2_pos (- e) ltac:(lia)) as Hp. pose proof (pow2_pos (e + 2200) ltac:(lia)).
    replace (2 ^ 2200) with (2 ^ (- e) * 2 ^ (e + 2200)) by (rewrite <-Z.pow_add_r by lia; f_equal; lia).
    pose proof (Z.div_mod m (2 ^ (- e)) ltac:(lia)). pose proof (Z.mod_pos_bound m (2 ^ (- e)) Hp).
    split; [apply Z.div_pos; lia|]. nia.
Qed.

Lemma int64_of_trunc s m e :
  trunc_ (Zpos m) e < two63 -> 0 <= trunc_ (Zpos m) e -> int64_of (S754_finite s m e) = cond_Zopp s (trunc_ (Zpos m) e).
Proof.
  intros Hlt Hge. unfold int64_of. fold (trunc_ (Zpos m) e). destruct s; cbn [cond_Zopp];
    match goal with |- (if ?b then _ else _) = _ => assert (b = true) as -> by (apply andb_true_iff; lia) end; done.
Qed.

(** The conversion cuts the fraction off: it never exceeds the value, in either direction. *)
Lemma int64_of_le f b :
  finite f -> 0 <= b < two63 -> Z.abs (sval f) <= b * unit_ ->
  Z.abs (int64_of f) <= b /\ Z.abs (int64_of f) * unit_ <= Z.abs (sval f) /\ (0 <= sval f -> 0 <= int64_of f).
Proof.
  intros Hf Hb Hle. pose proof unit_pos. destruct f as [s|s| |s m e]; try done; [cbn; lia|].
  pose proof (finite_exp _ _ _ Hf). rewrite sval_abs in * by lia. destruct (trunc_spec (Zpos m) e) as [Hnn Ht]; [lia..|].
  assert (trunc_ (Zpos m) e <= b) by nia. rewrite int64_of_trunc by lia. rewrite cond_Zopp_abs by done.
  split_and!; [done|lia|]. destruct s; [|done]. cbn [sval cond_Zopp]. intros. nia.
Qed.

Lemma int64_of_ge f a b :
  finite f -> 0 < a <= b -> b < two63 -> a * unit_ <= sval f <= b * unit_ -> a <= int64_of f <= b.
Proof.
  intros Hf Ha Hb Hr. pose proof unit_pos. destruct f as [s|s| |[|] m e]; try done; [cbn in *; nia| |];
    pose proof (finite_exp _ _ _ Hf); destruct (trunc_spec (Zpos m) e) as [Hnn Ht]; try lia; cbn [sval cond_Zopp] in Hr; [nia|].
  rewrite int64_of_trunc by nia. cbn [cond_Zopp]. nia.
Qed.

Lemma pack_nonneg q k : canonical q k -> 0 <= sval (pack false q k).
Proof.
  intros [Hq _]. destruct q as [|q|q]; cbn [pack]; [done| |lia].
  destruct (k <=? 971); [|done]. cbn [sval cond_Zopp]. unfold mag. nia.
Qed.

Lemma fmul_nonneg x y : finite x -> finite y -> 0 <= sval x -> 0 <= sval y -> 0 <= sval (fmul x y).
Proof.
  intros Hx Hy Hpx Hpy. destruct x as [sx|sx| |sx mx ex]; try done; destruct y as [sy|sy| |sy my ey]; try done.
  destruct (fmul_round _ _ _ _ _ _ Hx Hy) as (q & k & -> & Hc & _).
  pose proof (finite_exp _ _ _ Hx). pose proof (finite_exp _ _ _ Hy).
  pose proof (pow2_pos (ex + 2200)). pose proof (pow2_pos (ey + 2200)). unfold sval, mag in Hpx, Hpy.
  destruct sx; cbn [cond_Zopp] in Hpx; [nia|]. destruct sy; cbn [cond_Zopp] in Hpy; [nia|]. by apply pack_nonneg.
Qed.

(** Truncation is monotone. *)
Lemma int64_of_mono f g b :
  finite f -> finite g -> 0 <= b < two63 -> 0 <= sval g <= b * unit_ -> Z.abs (sval f) <= sval g ->
  Z.abs (int64_of f) <= int64_of g <= b.
Proof.
  intros Hf Hg Hb Hgb Hle. pose proof unit_pos. destruct (int64_of_le f b Hf Hb) as (_ & Hf2 & _); [lia|].
  destruct (int64_of_le g b Hg Hb) as (Hg1 & _ & Hg3); [lia|]. specialize (Hg3 (proj1 Hgb)). split; [|lia].
  enough (sval g < (int64_of g + 1) * unit_) by nia.
  destruct g as [s|s| |s m e]; try done.
  pose proof (finite_exp _ _ _ Hg). destruct (trunc_spec (Zpos m) e) as [Hnn Ht]; [lia..|].
  destruct s; cbn [sval cond_Zopp] in *; [nia|]. rewrite int64_of_trunc by nia. cbn [cond_Zopp]. lia.
Qed.

(** *** Roundings of a quotient that was not exact *)

Lemma shr_1_m r : 0 <= shr_m r -> shr_m (shr_1 r) = shr_m r / 2.
Proof.
  destruct r as [[|[p|p|]|p] b s]; cbn [shr_m shr_1]; intros H; try done; try lia.
  - replace (Zpos p~1) with (1 + Zpos p * 2) by lia. by rewrite Z.div_add by lia.
  - replace (Zpos p~0) with (Zpos p * 2) by lia. by rewrite Z.div_mul.
Qed.

Lemma iter_shr_m p r : 0 <= shr_m r -> shr_m (SpecFloat.iter_pos shr_1 p r) = shr_m r / 2 ^ Zpos p.
Proof.
  assert (forall a b, 0 <= a -> 0 <= b -> forall m, m / 2 ^ a / 2 ^ b = m / 2 ^ (a + b)) as Hdd.
  { intros a b Ha Hb m. pose proof (pow2_pos a Ha). pose proof (pow2_pos b Hb). rewrite Z.div_div, <-Z.pow_add_r by lia. done. }
  revert r. induction p as [p IH|p IH|]; intros r Hr; cbn [SpecFloat.iter_pos].
  - pose proof (pow2_pos (Zpos p)). pose proof (shr_1_m r Hr) as H1.
    assert (0 <= shr_m (shr_1 r)) as Hr1 by (rewrite H1; apply Z.div_pos; lia).
    rewrite IH, IH, H1; [|done|rewrite IH by done; apply Z.div_pos; lia].
    change 2 with (2 ^ 1) at 1. rewrite !Hdd by lia. do 2 f_equal. lia.
  - pose proof (pow2_pos (Zpos p)). rewrite IH, IH; [|done|rewrite IH by done; apply Z.div_pos; lia].
    rewrite Hdd by lia. do 2 f_equal. lia.
  - by apply shr_1_m.
Qed.

Lemma shr_quotient m l e n r e' :
  0 <= m -> 0 <= n -> shr (shr_record_of_loc m l) e n = (r, e') -> e' = e + n /\ shr_m r = m / 2 ^ n.
Proof.
  intros Hm Hn. assert (shr_m (shr_record_of_loc m l) = m) as H0 by by destruct l as [|[]].
  destruct n as [|p|p]; cbn [shr]; [| |lia]; intros [= <- <-]; (split; [lia|]).
  - by rewrite H0, Z.div_1_r.
  - by rewrite iter_shr_m, H0 by (by rewrite H0).
Qed.

(** A value above [m] and [e] is rounded to no more than the float64 above it. *)
Lemma round_inexact s m e c :
  0 < m -> -2200 <= e <= fe (Zdigits2 m + e) ->
  exists m' e', binary_round_aux 53 1024 s m e (loc_Inexact c) = pack s m' e' /\ canonical m' e' /\
    forall M E, canonical M E -> mag m e < mag M E -> mag m' e' <= mag M E.
Proof.
  intros Hm He. destruct (Zdigits2_spec m Hm) as [Hd Hd1]. set (d := Zdigits2 m) in *.
  unfold binary_round_aux. destruct (shr_fexp 53 1024 m e (loc_Inexact c)) as [r e1] eqn:Hr.
  unfold shr_fexp in Hr. change (fexp 53 1024 (Zdigits2 m + e)) with (fe (d + e)) in Hr.
  apply shr_quotient in Hr as [-> Hq0]; [|lia..]. replace (e + (fe (d + e) - e)) with (fe (d + e)) by lia.
  set (q := round_nearest_even _ _). assert (m / 2 ^ (fe (d + e) - e) <= q <= m / 2 ^ (fe (d + e) - e) + 1) as Hq.
  { unfold q. rewrite <-Hq0. destruct r as [q' [] []]; cbn [loc_of_shr_record round_nearest_even shr_m]; try destruct (Z.even q'); lia. }
  clearbody q. pose proof (pow2_pos (fe (d + e) - e) ltac:(lia)) as Hp.
  destruct (quotient_range m e d q) as (Q1 & Q2 & Q3); [lia..|].
  destruct (shr_fexp 53 1024 q _ loc_Exact) as [r2 e2] eqn:Hr2. apply second_pass in Hr2 as [Hc Heq]; [|done..].
  exists (shr_m r2), e2. split; [done|]. split; [done|]. intros M E HME Hlt. rewrite Heq.
  destruct (quotient_le m e d (m / 2 ^ (fe (d + e) - e))) with (M := M) (E := E) as [HeE _]; [lia..|done|lia|].
  destruct HME as (HM & HE & _). rewrite (mag_shift M E (fe (d + e))) by lia. apply mag_le; [lia|].
  etrans; [apply Hq|]. enough (m / 2 ^ (fe (d + e) - e) < M * 2 ^ (E - fe (d + e))) by lia. apply Z.div_lt_upper_bound; [done|].
  apply (mag_lt _ _ e); [lia|]. eapply Z.lt_le_trans; [exact Hlt|]. rewrite (mag_shift M E e) by lia. apply mag_le; [lia|].
  rewrite (Z.mul_comm (2 ^ (fe (d + e) - e))), <-Z.mul_assoc, <-Z.pow_add_r by lia. apply Z.eq_le_incl. do 2 f_equal. lia.
Qed.

(** ** Quotients and sums, from above *)

Lemma pack_bounds s q k b :
  canonical q k -> finite b -> mag q k <= Z.abs (sval b) ->
  finite (pack s q k) /\ Z.abs (sval (pack s q k)) <= Z.abs (sval b).
Proof.
  intros Hc Hb Hle. destruct (pack_finite s q k b Hc Hb Hle) as [Hf ->]. split; [done|].
  rewrite cond_Zopp_abs; [done|]. unfold mag. pose proof (pow2_pos (k + 2200)). unfold canonical in Hc. nia.
Qed.

(** What the core of a division gives: a quotient of at least 53 digits, and whether it is exact. *)
Lemma div_core m1 e1 m2 e2 q e l :
  finite (S754_finite false m1 e1) -> finite (S754_finite false m2 e2) -> -100 <= e1 -> -100 <= e2 <= 100 ->
  SFdiv_core_binary 53 1024 (Zpos m1) e1 (Zpos m2) e2 = (q, e, l) ->
  0 < q /\ -2000 <= e <= fe (Zdigits2 q + e) /\
  exists r, 0 <= r < Zpos m2 /\ mag (Zpos m1) e1 = mag (q * Zpos m2 + r) (e + e2) /\ (l = loc_Exact <-> r = 0).
Proof.
  intros Hf1 Hf2 He1 He2. pose proof (finite_exp _ _ _ Hf1). unfold SFdiv_core_binary.
  destruct (canonical_digits (Zpos m1) e1 eq_refl (proj1 Hf1)) as [Hd1 Hx1], (canonical_digits (Zpos m2) e2 eq_refl (proj1 Hf2)) as [Hd2 Hx2].
  destruct (Zdigits2_spec (Zpos m1) eq_refl) as [Hs1 _], (Zdigits2_spec (Zpos m2) eq_refl) as [Hs2 _].
  set (d1 := Zdigits2 (Zpos m1)) in *. set (d2 := Zdigits2 (Zpos m2)) in *.
  assert (d1 <= 53 /\ d2 <= 53) as [Hu1 Hu2].
  { assert (forall m, 0 < m < 2 ^ 53 -> Zdigits2 m <= 53) as Hu.
    { intros m Hm. destruct (Zdigits2_spec m ltac:(lia)) as [Hs Hd]. destruct (decide (Zdigits2 m <= 53)) as [|Hgt]; [done|].
      enough (2 ^ 53 <= m) by lia. etrans; [|apply Hs]. apply Z.pow_le_mono_r; lia. }
    destruct Hf1 as [[Hm1 _] _], Hf2 as [[Hm2 _] _]. split; apply Hu; lia. }
  change (fexp 53 1024 (d1 + e1 - (d2 + e2))) with (fe (d1 + e1 - (d2 + e2))).
  set (e' := Z.min (fe (d1 + e1 - (d2 + e2))) (e1 - e2)). assert (-2000 <= e' <= e1 - e2) as He' by (unfold e', fe; lia).
  assert (match e1 - e2 - e' with Zpos _ => Z.shiftl (Zpos m1) (e1 - e2 - e') | 0 => Zpos m1 | Zneg _ => 0 end
    = Zpos m1 * 2 ^ (e1 - e2 - e')) as ->.
  { destruct (e1 - e2 - e') as [|p|p] eqn:Hp; [cbn; lia| |lia]. by rewrite Z.shiftl_mul_pow2 by lia. }
  set (m' := Zpos m1 * 2 ^ (e1 - e2 - e')). pose proof (pow2_pos (e1 - e2 - e') ltac:(lia)) as Hp.
  assert (2 ^ 52 * Zpos m2 <= m') as Hbig.
  { transitivity (2 ^ 52 * 2 ^ d2); [apply Z.mul_le_mono_nonneg_l; lia|]. rewrite <-Z.pow_add_r by lia.
    transitivity (2 ^ (d1 - 1) * 2 ^ (e1 - e2 - e')); [|unfold m'; apply Z.mul_le_mono_nonneg_r; lia].
    rewrite <-Z.pow_add_r by lia. apply Z.pow_le_mono_r; unfold e', fe; lia. }
  pose proof (Z_div_mod m' (Zpos m2) eq_refl) as Hdiv. destruct (Z.div_eucl m' (Zpos m2)) as [q' r].
  destruct Hdiv as [Hdiv Hr]. intros [= <- <- <-]. assert (2 ^ 52 <= q') as Hq by nia.
  split; [lia|]. split.
  - split; [lia|]. destruct (Zdigits2_spec q' ltac:(lia)) as [[_ Hlt] ?].
    assert (53 <= Zdigits2 q'); [|unfold fe; lia]. destruct (decide (53 <= Zdigits2 q')); [done|].
    enough (2 ^ Zdigits2 q' <= 2 ^ 52) by lia. apply Z.pow_le_mono_r; lia.
  - exists r. split; [done|]. split.
    + replace (q' * Zpos m2 + r) with m' by lia. unfold m'. rewrite (mag_shift (Zpos m1) e1 (e' + e2)) by lia. do 2 f_equal. f_equal. lia.
    + unfold new_location, new_location_even, new_location_odd. destruct (Z.even _), (Z.eqb_spec r 0); (split; [|done]); done.
Qed.

Lemma fdiv_le m1 e1 m2 e2 b :
  finite (S754_finite false m1 e1) -> finite (S754_finite false m2 e2) -> finite b -> -100 <= e1 -> -100 <= e2 <= 100 ->
  mag (Zpos m1) e1 * unit_ <= sval b * mag (Zpos m2) e2 ->
  let f := fdiv (S754_finite false m1 e1) (S754_finite false m2 e2) in finite f /\ 0 <= sval f <= sval b.
Proof.
  intros Hf1 Hf2 Hb He1 He2 Hle. cbv zeta. unfold fdiv. cbn [SFdiv xorb].
  destruct (SFdiv_core_binary 53 1024 (Zpos m1) e1 (Zpos m2) e2) as [[q e] l] eqn:Hcore.
  apply div_core in Hcore as (Hq & He & r & Hr & Hv & Hl); [|done..]. pose proof unit_pos.
  assert (0 < mag (Zpos m2) e2) as Hp2 by (unfold mag; pose proof (pow2_pos (e2 + 2200)); nia).
  assert (mag (q * Zpos m2 + r) (e + e2) * unit_ = mag q e * mag (Zpos m2) e2 + mag r (e + e2) * unit_) as Hsplit.
  { rewrite mag_mul by lia. unfold mag. lia. }
  assert (0 <= mag r (e + e2) /\ (r <> 0 -> 0 < mag r (e + e2))) as [Hr0 Hr1]
    by (unfold mag; pose proof (pow2_pos (e + e2 + 2200)); nia).
  assert (exists M E, canonical M E /\ sval b = mag M E) as (M & E & HME & Hbv).
  { destruct b as [s|s| |[|] mb eb]; try done.
    - exists 0, (-1074). split; [unfold canonical; lia|done].
    - pose proof (finite_exp _ _ _ Hb). cbn [sval cond_Zopp] in Hle. unfold mag in Hle. pose proof (pow2_pos (eb + 2200)).
      pose proof (pow2_pos (e1 + 2200)). unfold mag in Hp2. nia.
    - exists (Zpos mb), eb. split; [apply Hb|done]. }
  rewrite Hbv in Hle. rewrite Hv in Hle. assert (exists q' k, binary_round_aux 53 1024 false q e l = pack false q' k /\ canonical q' k /\ mag q' k <= mag M E)
    as (q' & k & -> & Hc & Hqb).
  { destruct (decide (r = 0)) as [H0|H0].
    - rewrite (proj2 Hl H0). destruct (round_spec false q e) as (q' & k & H1 & H2 & H3); [done|lia|].
      exists q', k. split_and!; [done..|]. apply (H3 M E HME). subst r. nia.
    - destruct l as [|c]; [by destruct H0; apply Hl|]. destruct (round_inexact false q e c) as (q' & k & H1 & H2 & H3); [done|lia|].
      exists q', k. split_and!; [done..|]. apply (H3 M E HME). specialize (Hr1 H0). nia. }
  assert (0 <= mag M E) by (unfold mag, canonical in *; pose proof (pow2_pos (E + 2200)); nia).
  destruct (pack_bounds false q' k b Hc Hb) as [Hf Hs]; [rewrite Hbv; lia|].
  pose proof (pack_nonneg q' k Hc). split; [done|]. lia.
Qed.

(** A sum that is at most a float64 is so after rounding. *)
Lemma fadd_le x y b :
  finite x -> finite y -> finite b -> 0 <= sval x -> 0 <= sval y -> sval x + sval y <= sval b ->
  finite (fadd x y) /\ 0 <= sval (fadd x y) <= sval b.
Proof.
  intros Hx Hy Hb Hpx Hpy Hle. unfold fadd.
  destruct x as [sx|sx| |sx mx ex]; try done; destruct y as [sy|sy| |sy my ey]; try done; cbn [SFadd];
    try (split; [done|cbn [sval] in *; lia]).
  - destruct sx, sy; (split; [done|cbn [sval] in *; lia]).
  - pose proof (finite_exp _ _ _ Hx). pose proof (finite_exp _ _ _ Hy).
    pose proof (pow2_pos (ex + 2200) ltac:(lia)). pose proof (pow2_pos (ey + 2200) ltac:(lia)).
    destruct sx; [cbn [sval cond_Zopp] in Hpx; unfold mag in Hpx; nia|]. destruct sy; [cbn [sval cond_Zopp] in Hpy; unfold mag in Hpy; nia|].
    destruct (shl_align_spec mx ex (Z.min ex ey)) as (Vx & Sx & _); [lia..|].
    destruct (shl_align_spec my ey (Z.min ex ey)) as (Vy & Sy & _); [lia..|]. cbn [sval cond_Zopp] in *.
    rewrite <-Vx, <-Vy, Sx, Sy in Hle.
    replace (Z.min ex (Z.min ex ey)) with (Z.min ex ey) in Hle by lia. replace (Z.min ey (Z.min ex ey)) with (Z.min ex ey) in Hle by lia.
    destruct (normalize_le (Zpos (shl_align mx ex (Z.min ex ey)).1 + Zpos (shl_align my ey (Z.min ex ey)).1) (Z.min ex ey) false b) as [Hf Hs];
      [lia|done|unfold mag in Hle; lia|]. split; [done|].
    rewrite <-Pos2Z.inj_add in Hf, Hs |- *. cbn [binary_normalize] in *. destruct (binary_round_spec false ((shl_align mx ex (Z.min ex ey)).1 + (shl_align my ey (Z.min ex ey)).1) (Z.min ex ey)) as (q & k & Heq & Hc & _); [lia|].
    rewrite Heq in Hf, Hs |- *. pose proof (pack_nonneg q k Hc). assert (0 <= sval b) by (unfold mag in Hle; pose proof (pow2_pos (Z.min ex ey + 2200)); nia). lia.
Qed.

(** A float64 just above a positive fraction: by a share of 2^-52 at most. *)
Lemma float_above num den :
  0 < den -> 2 ^ 1500 * den <= num -> num <= 2 ^ 3000 * den ->
  exists b, finite b /\ num <= sval b * den /\ sval b * den * 2 ^ 52 <= num * (2 ^ 52 + 1).
Proof.
  intros Hden Hlo Hhi. set (n := num / den). pose proof (Z.div_mod num den ltac:(lia)) as Hdm.
  pose proof (Z.mod_pos_bound num den Hden) as Hr. fold n in Hdm.
  assert (2 ^ 1500 <= n) as Hn1 by (apply Z.div_le_lower_bound; lia).
  assert (n <= 2 ^ 3000) as Hn2 by (apply Z.div_le_upper_bound; lia).
  assert (0 < 2 ^ 1500) as H0 by (apply pow2_pos; lia).
  destruct (Z.log2_spec n ltac:(lia)) as [Hl1 Hl2]. set (k := Z.log2 n - 52).
  assert (1500 <= Z.log2 n) as Hlog1 by (rewrite <-(Z.log2_pow2 1500) by lia; by apply Z.log2_le_mono).
  assert (Z.log2 n <= 3000) as Hlog2 by (rewrite <-(Z.log2_pow2 3000) by lia; by apply Z.log2_le_mono).
  assert (0 < 2 ^ k) as Hk by (apply pow2_pos; unfold k; lia).
  replace (Z.log2 n) with (52 + k) in Hl1 by (unfold k; lia). replace (Z.succ (Z.log2 n)) with (53 + k) in Hl2 by (unfold k; lia).
  rewrite Z.pow_add_r in Hl1, Hl2 by (unfold k; lia).
  pose proof (Z.div_mod n (2 ^ k) ltac:(lia)) as Hnm. pose proof (Z.mod_pos_bound n (2 ^ k) Hk).
  set (M := n / 2 ^ k) in *. assert (2 ^ 52 <= M < 2 ^ 53) as HM by nia.
  assert (exists b, finite b /\ sval b = (M + 1) * 2 ^ k) as (b & Hb & Hv).
  { destruct (decide (M + 1 = 2 ^ 53)) as [HM1|HM1].
    - exists (S754_finite false (Z.to_pos (2 ^ 52)) (k - 2200 + 1)). cbn [finite sval cond_Zopp]. rewrite Z2Pos.id by done.
      split; [unfold canonical, k; lia|]. rewrite HM1, mag_pow_eq by (unfold k; lia). unfold mag. rewrite <-Z.pow_add_r by (unfold k; lia).
      rewrite Z.mul_1_l. f_equal. lia.
    - exists (S754_finite false (Z.to_pos (M + 1)) (k - 2200)). cbn [finite sval cond_Zopp]. rewrite Z2Pos.id by lia.
      split; [unfold canonical, k; lia|]. unfold mag. do 2 f_equal. lia. }
  exists b. split; [done|]. rewrite Hv. clearbody M k n. generalize dependent (2 ^ k). intros K **. clear Hlo Hhi Hn1 Hn2 H0 Hlog1 Hlog2 Hv Hb b.
  change (2 ^ 52) with 4503599627370496 in *. change (2 ^ 53) with 9007199254740992 in *. split; nia.
Qed.
