(* ===== verification/GoConf.v ===== *)
(** * Settings of the backends: numbers, environment variables and maps

    strconv.Atoi, and how options.go of the sftp and dropbox backends read one setting. *)

From S2P Require Import Prelude GoLib.

(** [strconv.Atoi] on base-10 integers of 64 bits. *)
Fixpoint digits (s : string) (n : Z) : option Z :=
  match s with
  | EmptyString => Some n
  | String c s =>
      let d := (Z.of_N (N_of_ascii c) - 48)%Z in
      if ((0 <=? d) && (d <=? 9))%Z then digits s (10 * n + d) else None
  end.
Definition Atoi (s : string) : option Z :=
  let signed z := if bool_decide (in_int64 z) then Some z else None in
  match s with
  | EmptyString => None
  | String c rest =>
      if decide (c = "-"%char \/ c = "+"%char) then
        if decide (rest = "") then None
        else n ← digits rest 0; signed (if decide (c = "-"%char) then (- n)%Z else n)
      else n ← digits s 0; signed n
  end.

Example Atoi_examples : (Atoi "22", Atoi "-7", Atoi "+5", Atoi "", Atoi "2x", Atoi "99999999999999999999") = (Some 22%Z, Some (-7)%Z, Some 5%Z, None, None, None).
Proof. reflexivity. Qed.

(** [os.Getenv]: an empty variable counts as unset. *)
Definition set_variable (Getenv : string -> string) (name : string) : option string :=
  let v := Getenv name in if decide (v = "") then None else Some v.

(** One setting: a text that is set, or a number that is positive. *)
Definition text_setting {C} (v : option string) (set : string -> C -> C) (c : C) : C :=
  match v with Some v => set v c | None => c end.
Definition number_setting {C} (v : option string) (set : Z -> C -> C) (c : C) : C :=
  match v ≫= Atoi with Some n => if (0 <? n)%Z then set n c else c | None => c end.

(** A setting leaves the other fields alone. *)
Lemma text_setting_keep {C A} (f : C -> A) v set c : (forall x c, f (set x c) = f c) -> f (text_setting v set c) = f c.
Proof. unfold text_setting. by destruct v. Qed.

Lemma number_setting_keep {C A} (f : C -> A) v set c : (forall x c, f (set x c) = f c) -> f (number_setting v set c) = f c.
Proof. unfold number_setting. intros Hf. destruct (v ≫= Atoi) as [n|]; [by destruct (0 <? n)%Z|done]. Qed.

(** A number is positive when its default is. *)
Lemma number_setting_pos {C} (f : C -> Z) v set c :
  (forall n c, f (set n c) = n) -> (0 < f c)%Z -> (0 < f (number_setting v set c))%Z.
Proof. unfold number_setting. intros Hf Hc. destruct (v ≫= Atoi) as [n|]; [|done]. destruct (Z.ltb_spec 0 n); [by rewrite Hf|done]. Qed.
