(* ===== verification/Errors.v ===== *)
(** * Errors

    The error values of all packages of the module: the sentinels of object/errors.go,
    session/session.go, kvs/kvs.go and kvs/backend/redis, the structured errors (session.SessionError,
    multi.MultiError, sync.RetryError) and what [fmt.Errorf] builds, with [errors.Is] and
    [errors.As] as they traverse them. *)

From S2P Require Import Prelude GoLib.

(** ** Sentinels *)

Inductive session_error :=
  | ErrNotFound | ErrExpired | ErrInvalidSession | ErrSizeLimitExceeded
  | ErrSessionLimitExceeded | ErrSiteMismatch | ErrClosed.

Inductive kvs_error := KvsErrNotFound | KvsErrClosed.

Inductive object_error :=
  | ObjErrNotFound | ObjErrAlreadyExists | ObjErrPermissionDenied | ObjErrBackendClosed
  | ObjErrWriterClosed | ObjErrReaderClosed | ObjErrInvalidPath | ObjErrNotSupported
  | ObjErrUnknownBackend.

(** Sentinels of the standard library the code returns or compares against. *)
Inductive io_error := EOF | ErrUnexpectedEOF | ErrClosedPipe | ErrShortWrite.

Inductive sentinel :=
  | SessionSentinel (e : session_error)
  | KvsSentinel (e : kvs_error)
  | ObjectSentinel (e : object_error)
  | IoSentinel (e : io_error)
  | ContextSentinel (e : ctx_error)
  (** [ErrInsecureConnection] of kvs/backend/redis *)
  | InsecureSentinel.

#[export] Instance session_error_eq_dec : EqDecision session_error.
Proof. solve_decision. Defined.
#[export] Instance kvs_error_eq_dec : EqDecision kvs_error.
Proof. solve_decision. Defined.
#[export] Instance object_error_eq_dec : EqDecision object_error.
Proof. solve_decision. Defined.
#[export] Instance io_error_eq_dec : EqDecision io_error.
Proof. solve_decision. Defined.
#[export] Instance ctx_error_eq_dec : EqDecision ctx_error.
Proof. solve_decision. Defined.
#[export] Instance sentinel_eq_dec : EqDecision sentinel.
Proof. solve_decision. Defined.

(** A value of a [Details] map: the code stores strings and ints there. *)
Inductive detail := DString (s : string) | DInt (z : Z).

(** ** Error values

    [Opaque] is an error made by code outside this module, known by its text only; [Errorf]
    is [fmt.Errorf] or [errors.New] without a wrapped error, [Wrapf] the text around the
    one [%w] operand. *)
#[warnings="-register-all"]
Inductive error :=
  | Sentinel (s : sentinel)
  | Opaque (text : string)
  | Errorf (text : string)
  | Wrapf (before : string) (cause : error) (after : string)
  | SessionError (Code Message : string) (Details : gmap string detail) (Cause : option error)
  | MultiError (Errors : list error)
  | RetryError (Attempts : Z) (LastErr : error).

Abbreviation err_session e := (Sentinel (SessionSentinel e)).
Abbreviation err_kvs e := (Sentinel (KvsSentinel e)).
Abbreviation err_object e := (Sentinel (ObjectSentinel e)).
Abbreviation err_io e := (Sentinel (IoSentinel e)).
Abbreviation err_ctx e := (Sentinel (ContextSentinel e)).

(** [ctx.Err()] as an error value. *)
Definition ctx_err (ctx : context) : option error := (fun e => err_ctx e) <$> ctx.

(** [err == s], a comparison without unwrapping. *)
Definition is_sentinel (s : sentinel) (e : error) : bool :=
  match e with Sentinel s' => bool_decide (s' = s) | _ => false end.

(** *** Error codes of session/errors.go *)

Definition ErrCodeInvalidSession : string := "SESSION_INVALID".
Definition ErrCodeSizeLimitExceeded : string := "SESSION_SIZE_EXCEEDED".
Definition ErrCodeNotSerializable : string := "SESSION_NOT_SERIALIZABLE".
Definition ErrCodeNotFound : string := "SESSION_NOT_FOUND".
Definition ErrCodeExpired : string := "SESSION_EXPIRED".
Definition ErrCodeStoreClosed : string := "STORE_CLOSED".
Definition ErrCodeSessionLimitExceeded : string := "SESSION_LIMIT_EXCEEDED".
Definition ErrCodeSiteMismatch : string := "SESSION_SITE_MISMATCH".

Definition NewSessionError (code message : string) (details : gmap string detail)
    (cause : option error) : error :=
  SessionError code message details cause.

(** The sentinel each code of [SessionError.Is]'s switch stands for. *)
Definition code_sentinel (code : string) : option session_error :=
  if decide (code = ErrCodeNotFound) then Some ErrNotFound
  else if decide (code = ErrCodeExpired) then Some ErrExpired
  else if decide (code = ErrCodeInvalidSession) then Some ErrInvalidSession
  else if decide (code = ErrCodeSizeLimitExceeded) then Some ErrSizeLimitExceeded
  else if decide (code = ErrCodeStoreClosed) then Some ErrClosed
  else if decide (code = ErrCodeSessionLimitExceeded) then Some ErrSessionLimitExceeded
  else if decide (code = ErrCodeSiteMismatch) then Some ErrSiteMismatch
  else None.

(** *** Unwrap, errors.Is, errors.As *)

(** [errors.Unwrap]: what the [Unwrap] method of each error returns. *)
Definition MultiError_Unwrap (errs : list error) : option error := match errs with c :: _ => Some c | [] => None end.
Definition RetryError_Unwrap (lastErr : error) : option error := Some lastErr.

Definition Unwrap (e : error) : option error :=
  match e with
  | Wrapf _ c _ => Some c
  | SessionError _ _ _ c => c
  | MultiError errs => MultiError_Unwrap errs
  | RetryError _ c => RetryError_Unwrap c
  | _ => None
  end.

(** [errors.Is(e, s)] for a sentinel [s]: the first error of the chain that equals [s], or
    whose [Is] method accepts it.  Only [SessionError] has such a method, and it asks
    [errors.Is(s, sentinel of its code)], that is, whether the two sentinels are equal. *)
Fixpoint errors_Is (e : error) (s : sentinel) : bool :=
  match e with
  | Sentinel s' => bool_decide (s' = s)
  | Opaque _ | Errorf _ => false
  | Wrapf _ c _ => errors_Is c s
  | SessionError code _ _ cause =>
      bool_decide (SessionSentinel <$> code_sentinel code = Some s)
      || match cause with Some c => errors_Is c s | None => false end
  | MultiError errs => match errs with c :: _ => errors_Is c s | [] => false end
  | RetryError _ c => errors_Is c s
  end.

(** The method [SessionError.Is(target)], for any target. *)
Definition SessionError_Is (code : string) (target : error) : bool :=
  match code_sentinel code with
  | Some s => errors_Is target (SessionSentinel s)
  | None => false
  end.

(** [errors.As(err, &se)] for [se *SessionError]: code and details of the first
    [SessionError] of the chain. *)
Fixpoint errors_As_SessionError (e : error) : option (string * gmap string detail) :=
  match e with
  | SessionError code _ details _ => Some (code, details)
  | Wrapf _ c _ => errors_As_SessionError c
  | MultiError errs => match errs with c :: _ => errors_As_SessionError c | [] => None end
  | RetryError _ c => errors_As_SessionError c
  | _ => None
  end.

Definition ErrorCode (e : error) : string :=
  match errors_As_SessionError e with Some (code, _) => code | None => "" end.

Definition ErrorDetails (e : error) : gmap string detail :=
  match errors_As_SessionError e with Some (_, d) => d | None => ∅ end.

(** [errors.As(err, &re)] for [re *RetryError]: sync.IsRetryError. *)
Fixpoint IsRetryError (e : error) : bool :=
  match e with
  | RetryError _ _ => true
  | Wrapf _ c _ => IsRetryError c
  | SessionError _ _ _ (Some c) => IsRetryError c
  | MultiError (c :: _) => IsRetryError c
  | _ => false
  end.

(** *** The helpers of object/errors.go *)

Definition IsNotFound (e : error) : bool := errors_Is e (ObjectSentinel ObjErrNotFound).
Definition IsPermissionDenied (e : error) : bool := errors_Is e (ObjectSentinel ObjErrPermissionDenied).
Definition IsNotSupported (e : error) : bool := errors_Is e (ObjectSentinel ObjErrNotSupported).

(** *** Error texts *)

Definition sentinel_text (s : sentinel) : string :=
  match s with
  | SessionSentinel ErrNotFound => "session not found"
  | SessionSentinel ErrExpired => "session expired"
  | SessionSentinel ErrInvalidSession => "invalid session"
  | SessionSentinel ErrSizeLimitExceeded => "session size limit exceeded"
  | SessionSentinel ErrSessionLimitExceeded => "session limit exceeded"
  | SessionSentinel ErrSiteMismatch => "session belongs to different site"
  | SessionSentinel ErrClosed => "store is closed"
  | KvsSentinel KvsErrNotFound => "key not found"
  | KvsSentinel KvsErrClosed => "storage is closed"
  | ObjectSentinel ObjErrNotFound => "omnistorage: not found"
  | ObjectSentinel ObjErrAlreadyExists => "omnistorage: already exists"
  | ObjectSentinel ObjErrPermissionDenied => "omnistorage: permission denied"
  | ObjectSentinel ObjErrBackendClosed => "omnistorage: backend closed"
  | ObjectSentinel ObjErrWriterClosed => "omnistorage: writer closed"
  | ObjectSentinel ObjErrReaderClosed => "omnistorage: reader closed"
  | ObjectSentinel ObjErrInvalidPath => "omnistorage: invalid path"
  | ObjectSentinel ObjErrNotSupported => "omnistorage: operation not supported"
  | ObjectSentinel ObjErrUnknownBackend => "omnistorage: unknown backend"
  | IoSentinel EOF => "EOF"
  | IoSentinel ErrUnexpectedEOF => "unexpected EOF"
  | IoSentinel ErrClosedPipe => "io: read/write on closed pipe"
  | IoSentinel ErrShortWrite => "short write"
  | ContextSentinel Canceled => "context canceled"
  | ContextSentinel DeadlineExceeded => "context deadline exceeded"
  | InsecureSentinel => "insecure redis connection"
  end.

(** The texts of a MultiError and of a RetryError, from those of the errors inside. *)
Definition MultiError_Error (texts : list string) : string :=
  match texts with
  | [] => "no errors"
  | [t] => t
  | t :: _ => t +:+ " (and more errors)"
  end.
Definition RetryError_Error (attempts : Z) (lastErr : string) : string :=
  "operation failed after " +:+ pretty attempts +:+ " attempts: " +:+ lastErr.

(** The [Error] methods. *)
Fixpoint error_text (e : error) : string :=
  match e with
  | Sentinel s => sentinel_text s
  | Opaque t | Errorf t => t
  | Wrapf before c after => before +:+ error_text c +:+ after
  | SessionError code msg _ (Some c) => code +:+ ": " +:+ msg +:+ ": " +:+ error_text c
  | SessionError code msg _ None => code +:+ ": " +:+ msg
  | MultiError errs => MultiError_Error (map error_text errs)
  | RetryError n c => RetryError_Error n (error_text c)
  end.

(** ** Lemmas *)

(** [errors.Is] looks through whatever [Unwrap] exposes. *)
Lemma errors_Is_unwrap e c s : Unwrap e = Some c -> errors_Is c s = true -> errors_Is e s = true.
Proof.
  destruct e as [| | | | code msg d cause|errs|]; simpl; intros H1 H2; simplify_eq; try done.
  - by rewrite H2, orb_true_r.
  - by destruct errs as [|x errs]; simplify_eq/=.
  - by injection H1 as ->.
Qed.

Lemma errors_Is_sentinel s : errors_Is (Sentinel s) s = true.
Proof. simpl. by apply bool_decide_eq_true_2. Qed.

Lemma ctx_err_Some ctx e : ctx_err ctx = Some e -> exists c, ctx = Some c /\ e = err_ctx c.
Proof. destruct ctx; simpl; naive_solver. Qed.

#[export] Hint Resolve errors_Is_sentinel : omni.
