(* ===== verification/Sessions.v ===== *)
(** * session/session.go: sessions, their identifiers and the configuration of a store *)

From S2P Require Import Prelude GoLib Errors.

(** ** The outside world of the session packages

    [uuid.UUID] is its 128 bits as a number ([0] is the zero value [uuid.UUID{}]).  A session's
    [Data] is a [map[string]any]: the stores copy the reference or hand it to encoding/json
    and never look inside, so its type stays abstract. *)
Class SessionEnv := {
  data : Type;
  (** the nil map and [make(map[string]any)] *)
  data_nil : data;
  data_make : data;
  data_is_nil : data -> bool;
  (** [UUID.String] of github.com/google/uuid *)
  uuid_string : N -> string;
  (** [sha256.Sum256] *)
  sha256 : bytes -> bytes;
  (** [strconv.Quote], the %q verb of a string *)
  quote : string -> string
}.

(** What the code relies on: distinct UUIDs print differently, a SHA-256 sum is 32 bytes. *)
Class SessionEnvLaws (E : SessionEnv) := {
  uuid_string_inj :: Inj (=) (=) uuid_string;
  sha256_length b : length (sha256 b) = 32
}.

(** An environment to run the definitions with. *)
Definition demo_env : SessionEnv :=
  {| data := nat; data_nil := 0; data_make := 1; data_is_nil d := bool_decide (d = 0);
     uuid_string n := pretty n; sha256 b := take 32 (b ++ replicate 32 x00);
     quote s := s |}.

Lemma demo_env_laws : SessionEnvLaws demo_env.
Proof.
  split; [apply _|]. intros b. change (length (take 32 (b ++ replicate 32 x00)) = 32).
  rewrite length_take, length_app, length_replicate. lia.
Qed.

Record Session `{SessionEnv} := mkSession {
  ID : string;
  UserID : N;
  SiteID : string;
  OrganizationID : option N;
  Data : data;
  CreatedAt : time;
  UpdatedAt : time;
  LastAccessedAt : time;
  ExpiresAt : time;
  IPAddress : string;
  UserAgent : string
}.

(** Assignments to one field. *)
Definition set_SiteID `{SessionEnv} (v : string) (s : Session) : Session :=
  mkSession _ s.(ID) s.(UserID) v s.(OrganizationID) s.(Data) s.(CreatedAt) s.(UpdatedAt)
    s.(LastAccessedAt) s.(ExpiresAt) s.(IPAddress) s.(UserAgent).
Definition set_UpdatedAt `{SessionEnv} (v : time) (s : Session) : Session :=
  mkSession _ s.(ID) s.(UserID) s.(SiteID) s.(OrganizationID) s.(Data) s.(CreatedAt) v
    s.(LastAccessedAt) s.(ExpiresAt) s.(IPAddress) s.(UserAgent).
Definition set_LastAccessedAt `{SessionEnv} (v : time) (s : Session) : Session :=
  mkSession _ s.(ID) s.(UserID) s.(SiteID) s.(OrganizationID) s.(Data) s.(CreatedAt) s.(UpdatedAt)
    v s.(ExpiresAt) s.(IPAddress) s.(UserAgent).
Definition set_ExpiresAt `{SessionEnv} (v : time) (s : Session) : Session :=
  mkSession _ s.(ID) s.(UserID) s.(SiteID) s.(OrganizationID) s.(Data) s.(CreatedAt) s.(UpdatedAt)
    s.(LastAccessedAt) v s.(IPAddress) s.(UserAgent).

(** encoding/json on the values the session packages give it: a [Session], its [Data] alone
    and a list of session IDs.  An error is what the package returns. *)
Class SessionJSON `{SessionEnv} := {
  marshal_session : Session -> result error bytes;
  unmarshal_session : bytes -> result error Session;
  marshal_data : data -> result error bytes;
  unmarshal_data : bytes -> result error data;
  marshal_ids : list string -> result error bytes;
  unmarshal_ids : bytes -> result error (list string)
}.

(** What the code relies on: reading back what was written gives the session with the same
    identifier (when it is ASCII), the same users and instants; [reread] leaves open what
    becomes of [Data] (numbers become float64) and of strings that are not UTF-8.  A list of
    ASCII identifiers reads back as it was. *)
Class SessionJSONLaws `{E : SessionEnv} (J : SessionJSON) (valid : string -> bool) := {
  reread : Session -> Session;
  unmarshal_marshal x b : marshal_session x = Ok b -> unmarshal_session b = Ok (reread x);
  reread_ID x : valid x.(ID) = true -> (reread x).(ID) = x.(ID);
  reread_UserID x : (reread x).(UserID) = x.(UserID);
  reread_times x :
    (reread x).(CreatedAt) = x.(CreatedAt) /\ (reread x).(UpdatedAt) = x.(UpdatedAt) /\
    (reread x).(LastAccessedAt) = x.(LastAccessedAt) /\ (reread x).(ExpiresAt) = x.(ExpiresAt);
  unmarshal_marshal_ids l :
    Forall (fun id => valid id = true) l ->
    exists b, marshal_ids l = Ok b /\ unmarshal_ids b = Ok l
}.

(** ** Expiry *)

(** [time.Now()] is the argument [now] throughout the development. *)
Definition IsExpired `{SessionEnv} (now : time) (s : Session) : bool :=
  negb (IsZero s.(ExpiresAt)) && After now s.(ExpiresAt).

Definition TTL `{SessionEnv} (now : time) (s : Session) : duration :=
  if IsZero s.(ExpiresAt) then 0%Z
  else
    let ttl := Until now s.(ExpiresAt) in
    if (ttl <? 0)%Z then 0%Z else ttl.

(** ** Identifiers *)

Definition SessionRef `{SessionEnv} (id : string) : string :=
  if decide (id = "") then ""
  else hex_encode (take 4 (sha256 (bytes_of_string id))).

Definition SessionIDLength : nat := 32.

(** [read n] is what [rand.Read] on a slice of [n] bytes gives: the filled slice or an error. *)
Definition GenerateSessionID (read : nat -> result error bytes) : result error string :=
  match read SessionIDLength with
  | Err err => Err err
  | Ok b => Ok (base64_raw_url b)
  end.

Definition MaxSessionIDLength : nat := 256.

Definition valid_id_char (c : ascii) : bool :=
  let n := N_of_ascii c in
  ((65 <=? n) && (n <=? 90) || (97 <=? n) && (n <=? 122) || (48 <=? n) && (n <=? 57)
   || (n =? 45) || (n =? 95) || (n =? 46))%N.

Fixpoint valid_id_chars (id : string) : bool :=
  match id with
  | EmptyString => true
  | String c id' => if valid_id_char c then valid_id_chars id' else false
  end.

Definition ValidSessionID (id : string) : bool :=
  if decide (id = "") then false
  else if (MaxSessionIDLength <? String.length id)%nat then false
  else valid_id_chars id.

Definition NewSession `{SessionEnv} (now : time) (read : nat -> result error bytes)
    (userID : N) (ttl : duration) : result error Session :=
  match GenerateSessionID read with
  | Err err => Err err
  | Ok id =>
      let session := mkSession _ id userID "" None data_make now now now zero_time "" "" in
      Ok (if (0 <? ttl)%Z then set_ExpiresAt (Add now ttl) session else session)
  end.

(** ** Configuration *)

Record Config := mkConfig {
  CfgSiteID : string;
  MaxSessionSize : Z;
  MaxSessionsPerUser : Z;
  DefaultTTL : duration;
  CleanupInterval : duration;
  KeyPrefix : string
}.

Definition DefaultConfig : Config := mkConfig "" (1024 * 1024) 0 (24 * Hour) (5 * Minute) "session:".

(** A session of the demonstration environment. *)
Definition demo_session (id : string) (user : N) (site : string) (created expires : time)
    : @Session demo_env :=
  @mkSession demo_env id user site None 1 created created created expires "" "".

(** A concrete codec for it: the bits of stdpp's numbering of the record, one byte per bit. *)
Fixpoint bits_of (p : positive) : bytes :=
  match p with xH => [] | xO p => x30 :: bits_of p | xI p => x31 :: bits_of p end.
Fixpoint of_bits (b : bytes) : positive :=
  match b with [] => xH | x30 :: b => xO (of_bits b) | _ :: b => xI (of_bits b) end.

Definition session_fields : Type :=
  (string * N * string * option N * nat) * (Z * Z * Z * Z * string * string).
Definition fields_of (x : @Session demo_env) : session_fields :=
  ((x.(ID), x.(UserID), x.(SiteID), x.(OrganizationID), x.(Data)),
   (x.(CreatedAt), x.(UpdatedAt), x.(LastAccessedAt), x.(ExpiresAt), x.(IPAddress), x.(UserAgent))).
Definition of_fields (f : session_fields) : @Session demo_env :=
  let '((i, u, si, o, d), (c, up, l, e, ip, ua)) := f in
  @mkSession demo_env i u si o d c up l e ip ua.

Definition demo_decode {A} `{Countable A} (b : bytes) : result error A :=
  match decode (of_bits b) with
  | Some a => Ok a
  | None => Err (Opaque "invalid character")
  end.

Definition demo_json : @SessionJSON demo_env :=
  @Build_SessionJSON demo_env
    (fun x => Ok (bits_of (encode (fields_of x))))
    (fun b => match demo_decode (A := session_fields) b with
              | Ok f => Ok (of_fields f) | Err e => Err e end)
    (fun d => Ok (bits_of (encode (d : nat))))
    (fun b => demo_decode (A := nat) b)
    (fun l => Ok (bits_of (encode l)))
    (fun b => demo_decode (A := list string) b).

(** ** Lemmas *)

Lemma of_bits_of p : of_bits (bits_of p) = p.
Proof. induction p as [p IH|p IH|]; simpl; by rewrite ?IH. Qed.

Lemma demo_decode_encode `{Countable A} (a : A) : demo_decode (bits_of (encode a)) = Ok a.
Proof. unfold demo_decode. by rewrite of_bits_of, decode_encode. Qed.

Lemma demo_json_laws : @SessionJSONLaws demo_env demo_json ValidSessionID.
Proof.
  refine (@Build_SessionJSONLaws demo_env demo_json ValidSessionID (fun x => x) _ _ _ _ _); try done.
  - intros x b. cbn [marshal_session unmarshal_session demo_json]. intros [= <-].
    rewrite demo_decode_encode. by destruct x.
  - intros l _. eexists. split; [done|]. cbn [unmarshal_ids demo_json]. apply demo_decode_encode.
Defined.

Lemma valid_id_chars_app a b :
  valid_id_chars (a +:+ b) = valid_id_chars a && valid_id_chars b.
Proof.
  induction a as [|c a IH]; [done|].
  change (String c a +:+ b) with (String c (a +:+ b)). simpl. by case_match.
Qed.

Lemma ValidSessionID_chars id : ValidSessionID id = true -> valid_id_chars id = true.
Proof. unfold ValidSessionID. repeat case_match; done. Qed.

(** No valid identifier contains a colon, the separator of the index keys. *)
Lemma valid_id_no_colon a b : valid_id_chars (a +:+ String ":" b) = false.
Proof. rewrite valid_id_chars_app. simpl. by rewrite andb_false_r. Qed.

Lemma IsExpired_expired_at `{SessionEnv} now s : IsExpired now s = expired_at now s.(ExpiresAt).
Proof. done. Qed.

Lemma url_alphabet_valid n : valid_id_char (b64_char n) = true.
Proof.
  unfold b64_char. assert (N.land n 63 < 64)%N as Hn.
  { change 63%N with (N.ones 6). rewrite N.land_ones. by apply N.mod_lt. }
  generalize dependent (N.land n 63). clear n. intros n Hn.
  assert (forallb (fun k => valid_id_char (char_at url_alphabet (N.of_nat k))) (seq 0 64) = true) as Hall.
  { vm_compute. done. }
  rewrite forallb_forall in Hall. specialize (Hall (N.to_nat n)).
  rewrite N2Nat.id in Hall. apply Hall. apply in_seq. lia.
Qed.

Lemma bytes_ind3 (P : bytes -> Prop) :
  P [] -> (forall x, P [x]) -> (forall x y, P [x; y]) ->
  (forall x y z b, P b -> P (x :: y :: z :: b)) -> forall b, P b.
Proof.
  intros H0 H1 H2 H3. fix rec 1. intros [|x [|y [|z b]]]; [done..|]. apply H3, rec.
Qed.

Lemma base64_valid_chars b : valid_id_chars (base64_raw_url b) = true.
Proof.
  induction b using bytes_ind3; cbn [base64_raw_url valid_id_chars]; by rewrite ?url_alphabet_valid.
Qed.

Lemma base64_length b :
  String.length (base64_raw_url b) = (length b * 4 + 2) `div` 3.
Proof.
  induction b as [| | |x y z b IH] using bytes_ind3; [done..|].
  cbn [base64_raw_url String.length length]. rewrite IH.
  replace (S (S (S (length b))) * 4 + 2) with (4 * 3 + (length b * 4 + 2)) by lia.
  by rewrite Nat.div_add_l.
Qed.

#[export] Hint Resolve ValidSessionID_chars : omni.
#[export] Hint Rewrite @IsExpired_expired_at : omni.

(** ** Properties *)

(** The identifiers [GenerateSessionID] makes are well formed and 43 characters long
    whenever [rand.Read] fills its slice, so every store accepts a session it just named. *)
Theorem GenerateSessionID_valid read id :
  (forall b, read SessionIDLength = Ok b -> length b = SessionIDLength) ->
  GenerateSessionID read = Ok id ->
  ValidSessionID id = true /\ String.length id = 43.
Proof.
  unfold GenerateSessionID. intros Hread H. destruct (read SessionIDLength) as [b|] eqn:E; simplify_eq.
  pose proof (base64_length b) as Hlen. rewrite (Hread b eq_refl) in Hlen.
  change ((SessionIDLength * 4 + 2) `div` 3) with 43 in Hlen.
  split; [|done]. unfold ValidSessionID. rewrite Hlen, base64_valid_chars.
  case_decide as Hd; [|done]. by rewrite Hd in Hlen.
Qed.

Lemma GenerateSessionID_valid_witness :
  let read := fun n => @Ok error bytes (replicate n x3f) in
  (forall b, read SessionIDLength = Ok b -> length b = SessionIDLength) /\
  ValidSessionID "Pz8_Pz8_Pz8_Pz8_Pz8_Pz8_Pz8_Pz8_Pz8_Pz8_Pz8" = true.
Proof.
  split; [by intros b [= <-]|].
  apply (GenerateSessionID_valid (fun n => Ok (replicate n x3f))); [by intros b [= <-]|].
  vm_compute. reflexivity.
Defined.
