(* ===== verification/SessionStore.v ===== *)
(** * The session.Store interface and its contract

    [SessionStore] is the interface of session/session.go (with the optional
    [SessionLister]); [StoreContract] is what a backend promises a client of it: which
    sessions an operation can touch.  The memory and kvs backends are instances, and the
    controls of session/wrapper.go are verified against the contract alone. *)

From S2P Require Import Prelude GoLib Errors Sessions.

(** An operation takes the context, the clock, the store and its arguments.  A [*Session]
    argument may be nil; the operations that write to it return the new value. *)
Class SessionStore `{SessionEnv} (St : Type) := {
  st_Create : context -> time -> St -> option Session -> St * option error;
  st_Get : context -> time -> St -> string -> St * result error Session;
  st_Update : context -> time -> St -> option Session -> St * option Session * option error;
  st_Delete : context -> time -> St -> string -> St * option error;
  st_DeleteByUserID : context -> time -> St -> string -> St * Z * option error;
  st_Touch : context -> time -> St -> string -> St * option error;
  st_Close : St -> St * option error;
  (** [store.(SessionLister)]: [None] when the type assertion fails *)
  st_Lister : option (context -> time -> St -> string -> St * result error (list Session))
}.

(** ** The contract

    [view now s id] is the session stored under [id] at instant [now], expired or not. *)

(** Between [v] and [v'] only sessions expired at [now] went missing. *)
Definition only_purged `{SessionEnv} (now : time) (v v' : string -> option Session) (id : string) : Prop :=
  v' id = v id \/ (v' id = None /\ exists s, v id = Some s /\ IsExpired now s = true).

Class StoreContract `{SessionStore St} := {
  view : time -> St -> string -> option Session;
  store_ok : St -> Prop;

  view_ID now s id x : store_ok s -> view now s id = Some x -> x.(ID) = id;

  Create_ok ctx now s x s' e : store_ok s -> st_Create ctx now s x = (s', e) -> store_ok s';
  Create_frame ctx now s x s' e id :
    store_ok s -> st_Create ctx now s (Some x) = (s', e) -> id <> x.(ID) -> view now s' id = view now s id;

  Get_ok ctx now s id s' r : store_ok s -> st_Get ctx now s id = (s', r) -> store_ok s';
  Get_frame ctx now s id s' r id' :
    store_ok s -> st_Get ctx now s id = (s', r) -> only_purged now (view now s) (view now s') id';
  Get_Ok ctx now s id s' x :
    store_ok s -> st_Get ctx now s id = (s', Ok x) -> view now s id = Some x;

  Update_ok ctx now s x s' x' e : store_ok s -> st_Update ctx now s x = (s', x', e) -> store_ok s';
  Update_frame ctx now s x s' x' e id :
    store_ok s -> st_Update ctx now s (Some x) = (s', x', e) -> id <> x.(ID) ->
    view now s' id = view now s id;

  Delete_ok ctx now s id s' e : store_ok s -> st_Delete ctx now s id = (s', e) -> store_ok s';
  Delete_frame ctx now s id s' e id' :
    store_ok s -> st_Delete ctx now s id = (s', e) -> id' <> id -> view now s' id' = view now s id';

  Touch_ok ctx now s id s' e : store_ok s -> st_Touch ctx now s id = (s', e) -> store_ok s';
  Touch_frame ctx now s id s' e id' :
    store_ok s -> st_Touch ctx now s id = (s', e) -> id' <> id -> view now s' id' = view now s id';

  List_ok f ctx now s u s' r :
    st_Lister = Some f -> store_ok s -> f ctx now s u = (s', r) -> store_ok s';
  List_frame f ctx now s u s' r id :
    st_Lister = Some f -> store_ok s -> f ctx now s u = (s', r) ->
    only_purged now (view now s) (view now s') id;
  List_Ok f ctx now s u s' l x :
    st_Lister = Some f -> store_ok s -> f ctx now s u = (s', Ok l) -> x ∈ l ->
    view now s x.(ID) = Some x
}.

Arguments StoreContract {_} St {_}.

(** ** Lemmas *)

Lemma only_purged_refl `{SessionEnv} now v id : only_purged now v v id.
Proof. by left. Qed.

Lemma only_purged_eq `{SessionEnv} now v v' id : v' id = v id -> only_purged now v v' id.
Proof. by left. Qed.

Lemma only_purged_trans `{SessionEnv} now v1 v2 v3 id :
  only_purged now v1 v2 id -> only_purged now v2 v3 id -> only_purged now v1 v3 id.
Proof. unfold only_purged. intros [H1|[H1 ?]] [H2|[H2 (x & Hx & ?)]]; rewrite ?H2, ?H1 in *; eauto. Qed.

#[export] Hint Resolve only_purged_refl only_purged_eq : omni.
