(* ===== verification/SessionMemory.v ===== *)
(** * session/backend/memory/memory.go: the in-memory session store

    [MemoryStore.Store] is the state its mutex guards.  Every method runs under the mutex and
    is one step, except [Get], which reads the map under the read lock, releases it and takes
    the write lock again to drop an expired session: it is the composition of its two halves,
    and [Interleaving] runs them apart. *)

From S2P Require Import Prelude GoLib Errors Sessions SessionStore.

Module MemoryStore.
Section memory.
Context `{E : SessionEnv} `{O : MapOrder}.

(** [Close] sets both maps to nil; a nil map reads like the empty one and no method writes
    to it, since they all test [closed] first. *)
Record Store := mkStore {
  sessions : gmap string Session;
  userIndex : gmap string (gset string);
  config : Config;
  closed : bool
}.

Definition set_maps (m : gmap string Session) (i : gmap string (gset string)) (s : Store) : Store :=
  mkStore m i s.(config) s.(closed).

Definition New (cfg : Config) : Store := mkStore ∅ ∅ cfg false.

Definition Create (ctx : context) (now : time) (s : Store) (sess : option Session) : Store * option error :=
  onerr e <- ctx_err ctx return (s, Some e) else
  match sess with
  | None => (s, Some (err_session ErrInvalidSession))
  | Some x =>
      if decide (x.(ID) = "") then (s, Some (err_session ErrInvalidSession))
      else if s.(closed) then (s, Some (err_session ErrClosed))
      else
        let userID := uuid_string x.(UserID) in
        let ids := default ∅ (s.(userIndex) !! userID) in
        (set_maps (<[x.(ID) := x]> s.(sessions)) (<[userID := {[x.(ID)]} ∪ ids]> s.(userIndex)) s, None)
  end.

Definition deleteSessionLocked (id : string) (s : Store) : Store :=
  match s.(sessions) !! id with
  | None => s
  | Some sess =>
      let userID := uuid_string sess.(UserID) in
      let index :=
        match s.(userIndex) !! userID with
        | None => s.(userIndex)
        | Some userSessions =>
            let rest := userSessions ∖ {[id]} in
            if decide (size rest = 0) then delete userID s.(userIndex)
            else <[userID := rest]> s.(userIndex)
        end in
      set_maps (delete id s.(sessions)) index s
  end.

(** The first half of [Get]: what the map holds while the read lock is held. *)
Definition Get_begin (id : string) (s : Store) : option Session := s.(sessions) !! id.

(** The rest of it, given what the first half read. *)
Definition Get_finish (now : time) (id : string) (read : option Session) (s : Store)
    : Store * result error Session :=
  match read with
  | None => (s, Err (err_session ErrNotFound))
  | Some sess =>
      if s.(closed) then (s, Err (err_session ErrClosed))
      else if IsExpired now sess then (deleteSessionLocked id s, Err (err_session ErrExpired))
      else (s, Ok sess)
  end.

Definition Get (ctx : context) (now : time) (s : Store) (id : string) : Store * result error Session :=
  onerr e <- ctx_err ctx return (s, Err e) else
  Get_finish now id (Get_begin id s) s.

Definition Update (ctx : context) (now : time) (s : Store) (sess : option Session)
    : Store * option Session * option error :=
  onerr e <- ctx_err ctx return (s, sess, Some e) else
  match sess with
  | None => (s, sess, Some (err_session ErrInvalidSession))
  | Some x =>
      if decide (x.(ID) = "") then (s, sess, Some (err_session ErrInvalidSession))
      else if s.(closed) then (s, sess, Some (err_session ErrClosed))
      else
        match s.(sessions) !! x.(ID) with
        | None => (s, sess, Some (err_session ErrNotFound))
        | Some _ =>
            let x' := set_UpdatedAt now x in
            (set_maps (<[x.(ID) := x']> s.(sessions)) s.(userIndex) s, Some x', None)
        end
  end.

Definition Delete (ctx : context) (now : time) (s : Store) (id : string) : Store * option error :=
  onerr e <- ctx_err ctx return (s, Some e) else
  if s.(closed) then (s, Some (err_session ErrClosed))
  else (deleteSessionLocked id s, None).

Definition DeleteByUserID (ctx : context) (now : time) (s : Store) (userID : string)
    : Store * Z * option error :=
  onerr e <- ctx_err ctx return (s, 0%Z, Some e) else
  if s.(closed) then (s, 0%Z, Some (err_session ErrClosed))
  else
    match s.(userIndex) !! userID with
    | None => (s, 0%Z, None)
    | Some sessionIDs =>
        let count := Z.of_nat (size sessionIDs) in
        let left := fold_left (fun m id => delete id m) (range_set sessionIDs) s.(sessions) in
        (set_maps left (delete userID s.(userIndex)) s, count, None)
    end.

Definition Touch (ctx : context) (now : time) (s : Store) (id : string) : Store * option error :=
  onerr e <- ctx_err ctx return (s, Some e) else
  if s.(closed) then (s, Some (err_session ErrClosed))
  else
    match s.(sessions) !! id with
    | None => (s, Some (err_session ErrNotFound))
    | Some sess => (set_maps (<[id := set_LastAccessedAt now sess]> s.(sessions)) s.(userIndex) s, None)
    end.

Definition Close (s : Store) : Store * option error :=
  if s.(closed) then (s, None) else (mkStore ∅ ∅ s.(config) true, None).

(** One tick of the [cleanup] goroutine. *)
Definition removeExpired (now : time) (s : Store) : Store :=
  if s.(closed) then s
  else
    fold_left (fun s' '(id, sess) =>
      if negb (IsZero sess.(ExpiresAt)) && After now sess.(ExpiresAt)
      then deleteSessionLocked id s' else s') (range s.(sessions)) s.

Definition Len (s : Store) : Z := Z.of_nat (size s.(sessions)).

Definition ListByUserID (ctx : context) (now : time) (s : Store) (userID : string)
    : Store * result error (list Session) :=
  onerr e <- ctx_err ctx return (s, Err e) else
  if s.(closed) then (s, Err (err_session ErrClosed))
  else
    match s.(userIndex) !! userID with
    | None => (s, Ok [])
    | Some sessionIDs =>
        let found := omap (fun id => s.(sessions) !! id) (range_set sessionIDs) in
        (s, Ok (exchange_sort (fun a b => Before a.(CreatedAt) b.(CreatedAt)) found))
    end.

#[global] Instance memory_store : SessionStore Store := {
  st_Create := Create; st_Get := Get; st_Update := Update; st_Delete := Delete;
  st_DeleteByUserID := DeleteByUserID; st_Touch := Touch; st_Close := Close;
  st_Lister := Some ListByUserID
}.

(** ** Histories

    A history is a list of calls with the instant of each. *)
Inductive call :=
  | CallCreate (ctx : context) (x : option Session)
  | CallGet (ctx : context) (id : string)
  | CallUpdate (ctx : context) (x : option Session)
  | CallDelete (ctx : context) (id : string)
  | CallDeleteByUserID (ctx : context) (userID : string)
  | CallTouch (ctx : context) (id : string)
  | CallListByUserID (ctx : context) (userID : string)
  | CallCleanup
  | CallClose.

Definition call_step (now : time) (c : call) (s : Store) : Store :=
  match c with
  | CallCreate ctx x => (Create ctx now s x).1
  | CallGet ctx id => (Get ctx now s id).1
  | CallUpdate ctx x => (Update ctx now s x).1.1
  | CallDelete ctx id => (Delete ctx now s id).1
  | CallDeleteByUserID ctx u => (DeleteByUserID ctx now s u).1.1
  | CallTouch ctx id => (Touch ctx now s id).1
  | CallListByUserID ctx u => (ListByUserID ctx now s u).1
  | CallCleanup => removeExpired now s
  | CallClose => (Close s).1
  end.

(** Writing a session that exists keeps its owner. *)
Definition keeps_owner (c : call) (s : Store) : Prop :=
  match c with
  | CallCreate _ (Some x) | CallUpdate _ (Some x) =>
      forall y, s.(sessions) !! x.(ID) = Some y -> y.(UserID) = x.(UserID)
  | _ => True
  end.

(** *** Interleavings of [Get] with other calls *)

(** A configuration: the store and the [Get] calls that have read but not finished. *)
Definition config_state : Type := Store * list (string * option Session).

Inductive interleave : config_state -> config_state -> Prop :=
  | il_call now c s ts : keeps_owner c s -> interleave (s, ts) (call_step now c s, ts)
  | il_begin id s ts : interleave (s, ts) (s, (id, Get_begin id s) :: ts)
  | il_finish now id r s ts1 ts2 :
      interleave (s, ts1 ++ (id, r) :: ts2) ((Get_finish now id r s).1, ts1 ++ ts2).

(** ** Invariant

    The index lists exactly the stored sessions, under the text of their user's id. *)
Record wf (s : Store) : Prop := {
  wf_id id x : s.(sessions) !! id = Some x -> x.(ID) = id;
  wf_complete id x :
    s.(sessions) !! id = Some x ->
    exists ids, s.(userIndex) !! uuid_string x.(UserID) = Some ids /\ id ∈ ids;
  wf_sound u ids id :
    s.(userIndex) !! u = Some ids -> id ∈ ids ->
    exists x, s.(sessions) !! id = Some x /\ uuid_string x.(UserID) = u;
  wf_nonempty u ids : s.(userIndex) !! u = Some ids -> ids <> ∅
}.

(** The part of it that holds without any discipline. *)
Definition keyed_by_id (s : Store) : Prop :=
  forall id x, s.(sessions) !! id = Some x -> x.(ID) = id.

(** The sessions of a user, as the maps have them. *)
Definition owned_by (u : string) (s : Store) : gmap string Session :=
  filter (fun kv => uuid_string kv.2.(UserID) = u) s.(sessions).

End memory.
End MemoryStore.

Import MemoryStore.

(** ** Lemmas *)

Section lemmas.
Context `{E : SessionEnv} `{O : MapOrder}.
Implicit Types (s : Store) (x : Session).

(** [id] is in the index set of [u]. *)
Definition listed s (u id : string) : Prop :=
  exists ids, s.(userIndex) !! u = Some ids /\ id ∈ ids.

Lemma wf_listed s :
  wf s <-> keyed_by_id s /\
    (forall u id, listed s u id <-> exists x, s.(sessions) !! id = Some x /\ uuid_string x.(UserID) = u) /\
    (forall u ids, s.(userIndex) !! u = Some ids -> ids <> ∅).
Proof.
  split.
  - intros [H1 H2 H3 H4]. split; [exact H1|]. split; [|exact H4]. intros u id. split.
    + intros (ids & ? & ?). eauto.
    + intros (x & Hx & <-). by apply H2.
  - intros (H1 & H2 & H3). split; [exact H1| |intros u ids id ? ?; apply H2; by eexists|exact H3].
    intros id x Hx. apply H2. eauto.
Qed.

Lemma listed_delete s id u id' :
  wf s ->
  listed (deleteSessionLocked id s) u id' <-> (listed s u id' /\ id' <> id).
Proof.
  intros Hwf. unfold deleteSessionLocked. destruct (s.(sessions) !! id) as [x|] eqn:Hx.
  - destruct (wf_complete _ Hwf _ _ Hx) as (ids & Hids & Hin). rewrite Hids.
    set (w := uuid_string (UserID x)) in *. assert (forall u' ids', s.(userIndex) !! u' = Some ids' -> id ∈ ids' -> u' = w) as Hu.
    { intros u' ids' H1 H2. destruct (wf_sound _ Hwf _ _ _ H1 H2) as (y & Hy & <-). by simplify_eq. }
    unfold listed, set_maps. simpl. case_decide as Hsz.
    + apply size_empty_inv in Hsz. split.
      * intros (ids' & H' & Hin'). rewrite lookup_delete_Some in H'. destruct H' as [Hne H'].
        split; [by eexists|]. intros ->. by apply Hne, eq_sym, (Hu _ _ H').
      * intros [(ids' & H' & Hin') Hne]. exists ids'. split; [|done].
        rewrite lookup_delete_Some. split; [|done]. intros <-. assert (ids' = ids) as -> by congruence. set_solver.
    + split.
      * intros (ids' & H' & Hin'). rewrite lookup_insert_Some in H'. destruct H' as [[<- <-]|[Hne H']].
        -- split; [exists ids; set_solver|set_solver].
        -- split; [by eexists|]. intros ->. by apply Hne, eq_sym, (Hu _ _ H').
      * intros [(ids' & H' & Hin') Hne]. destruct (decide (w = u)) as [<-|Hwu].
        -- assert (ids' = ids) as -> by congruence. exists (ids ∖ {[id]}).
           rewrite lookup_insert_eq. split; [done|set_solver].
        -- exists ids'. by rewrite lookup_insert_ne.
  - split; [|tauto]. intros Hl. split; [done|]. intros ->. destruct Hl as (ids & H1 & H2).
    destruct (wf_sound _ Hwf _ _ _ H1 H2) as (y & Hy & _). congruence.
Qed.

Lemma deleteSessionLocked_sessions id s :
  (deleteSessionLocked id s).(sessions) = delete id s.(sessions).
Proof.
  unfold deleteSessionLocked. destruct (s.(sessions) !! id) eqn:Hx; [done|]. by rewrite delete_id.
Qed.

Lemma deleteSessionLocked_closed id s : (deleteSessionLocked id s).(closed) = s.(closed).
Proof. unfold deleteSessionLocked. by case_match. Qed.

Lemma wf_deleteSessionLocked id s : wf s -> wf (deleteSessionLocked id s).
Proof.
  intros Hwf. apply wf_listed. pose proof (proj1 (wf_listed s) Hwf) as (H1 & H2 & H3). split_and!.
  - intros id' x. rewrite deleteSessionLocked_sessions, lookup_delete_Some. intros [_ ?]. by apply H1.
  - intros u id'. rewrite listed_delete, H2 by done. rewrite deleteSessionLocked_sessions.
    setoid_rewrite lookup_delete_Some. naive_solver.
  - intros u ids. unfold deleteSessionLocked. case_match; [|by apply H3]. unfold set_maps; simpl.
    case_match; [|by apply H3]. case_decide as Hsz.
    + rewrite lookup_delete_Some. intros [_ ?]. by eapply H3.
    + rewrite lookup_insert_Some. intros [[_ <-]|[_ ?]]; [|by eapply H3].
      intros He. by rewrite He, size_empty in Hsz.
Qed.

(** Storing [x] where nobody else's session is. *)
Lemma wf_Create ctx (now : time) s (x : option Session) :
  wf s -> keeps_owner (CallCreate ctx x) s -> wf (Create ctx now s x).1.
Proof.
  intros Hwf Hown. unfold Create. destruct (ctx_err ctx); [done|]. destruct x as [x|]; [|done].
  case_decide; [done|]. case_match; [done|]. simpl in *.
  pose proof (proj1 (wf_listed s) Hwf) as (H1 & H2 & H3). apply wf_listed. split_and!.
  - intros id y. simpl. rewrite lookup_insert_Some. intros [[<- <-]|[_ ?]]; [done|by apply H1].
  - intros u id. simpl. setoid_rewrite lookup_insert_Some. unfold listed. simpl.
    setoid_rewrite lookup_insert_Some. specialize (H2 u id). unfold listed in H2. split.
    + intros (ids & [[Hu Hids]|[Hne Hids]] & Hin).
      * destruct (decide (id = x.(ID))) as [->|Hid]; [exists x; eauto|].
        destruct H2 as [H2 _]. destruct H2 as (y & Hy & Hyu); [|exists y; eauto].
        subst u ids. destruct (s.(userIndex) !! _) as [ids|]; [|set_solver]. exists ids; set_solver.
      * destruct H2 as [H2 _]. destruct H2 as (y & Hy & Hyu); [by eexists|]. exists y.
        split; [|done]. right. split; [|done]. intros Hc. rewrite <- Hc in Hy. apply Hown in Hy. congruence.
    + intros (y & [[<- <-]|[Hne Hy]] & Hyu).
      * eexists. split; [by left|set_solver].
      * destruct H2 as [_ H2]. destruct H2 as (ids & Hids & Hin); [by eexists|].
        destruct (decide (uuid_string (UserID x) = u)) as [->|Hu].
        -- eexists. split; [by left|]. rewrite Hids. set_solver.
        -- exists ids. eauto.
  - intros u ids. simpl. rewrite lookup_insert_Some. intros [[_ <-]|[_ ?]]; [set_solver|by eapply H3].
Qed.

(** Rewriting a stored session in place, owner and key kept. *)
Lemma wf_rewrite s id x y :
  wf s -> s.(sessions) !! id = Some y -> x.(ID) = id -> x.(UserID) = y.(UserID) ->
  wf (set_maps (<[id := x]> s.(sessions)) s.(userIndex) s).
Proof.
  intros Hwf Hy Hid Hown. pose proof (proj1 (wf_listed s) Hwf) as (H1 & H2 & H3).
  apply wf_listed. split_and!; [| |done].
  - intros id' z. simpl. rewrite lookup_insert_Some. intros [[<- <-]|[_ ?]]; [done|by apply H1].
  - intros u id'. transitivity (listed s u id'); [done|]. rewrite H2. simpl.
    setoid_rewrite lookup_insert_Some. split.
    + intros (z & Hz & Hu). destruct (decide (id = id')) as [->|]; [|eauto].
      simplify_eq. exists x. split; [by left|congruence].
    + intros (z & [[<- <-]|[? ?]] & Hu); [|eauto]. exists y. split; [done|congruence].
Qed.

Lemma fold_delete_lookup (l : list string) (m : gmap string Session) id :
  fold_left (fun m id => delete id m) l m !! id = if decide (id ∈ l) then None else m !! id.
Proof.
  revert m. induction l as [|i l IH]; intros m; cbn [fold_left].
  { rewrite decide_False; [done|]. apply not_elem_of_nil. }
  rewrite IH. destruct (decide (id = i)) as [->|Hne].
  - rewrite lookup_delete_eq. rewrite (decide_True (P := i ∈ i :: l)) by left. by case_decide.
  - rewrite lookup_delete_ne by done. apply decide_ext. rewrite elem_of_cons. naive_solver.
Qed.

Lemma DeleteByUserID_sessions s u ids id :
  s.(userIndex) !! u = Some ids ->
  fold_left (fun m id => delete id m) (range_set ids) s.(sessions) !! id
  = if decide (id ∈ ids) then None else s.(sessions) !! id.
Proof.
  intros _. rewrite fold_delete_lookup. repeat case_decide; rewrite elem_of_range_set in *; naive_solver.
Qed.

Lemma wf_DeleteByUserID ctx now s u : wf s -> wf (DeleteByUserID ctx now s u).1.1.
Proof.
  intros Hwf. unfold DeleteByUserID. destruct (ctx_err ctx); [done|]. case_match; [done|].
  destruct (s.(userIndex) !! u) as [ids|] eqn:Hu; [|done].
  pose proof (proj1 (wf_listed s) Hwf) as (H1 & H2 & H3). apply wf_listed. split_and!; simpl.
  - intros id x. simpl. rewrite (DeleteByUserID_sessions s u) by done. case_decide; [done|]. apply H1.
  - intros u' id. specialize (H2 u' id). unfold listed in *. simpl. setoid_rewrite lookup_delete_Some.
    rewrite (DeleteByUserID_sessions s u) by done. split.
    + intros (ids' & [Hne Hids'] & Hin). destruct H2 as [H2 _]. destruct H2 as (x & Hx & Hxu); [by eexists|].
      exists x. case_decide as Hd; [|done]. destruct (wf_sound _ Hwf _ _ _ Hu Hd) as (y & Hy & Hyu). congruence.
    + case_decide as Hd; [naive_solver|]. intros Hx. destruct H2 as [_ H2].
      destruct (H2 Hx) as (ids' & Hids' & Hin). exists ids'. split; [|done]. split; [|done]. intros <-. congruence.
  - intros u' ids'. rewrite lookup_delete_Some. intros [_ ?]. by eapply H3.
Qed.

Lemma wf_removeExpired now s : wf s -> wf (removeExpired now s).
Proof.
  intros Hwf. unfold removeExpired. case_match; [done|]. apply fold_left_inv; [done|].
  intros s' [id x] _ Hs'. case_match; [by apply wf_deleteSessionLocked|done].
Qed.

Lemma wf_Get_finish now id r s : wf s -> wf (Get_finish now id r s).1.
Proof.
  intros Hwf. unfold Get_finish. repeat case_match; try done. by apply wf_deleteSessionLocked.
Qed.

Lemma wf_call now c s : wf s -> keeps_owner c s -> wf (call_step now c s).
Proof.
  intros Hwf Hown. destruct c; simpl.
  - by apply wf_Create.
  - unfold Get. case_match; [done|]. by apply wf_Get_finish.
  - unfold Update. case_match; [done|]. destruct x as [x|]; [|done].
    repeat case_match; try done. simpl.
    eapply wf_rewrite; [done|eassumption|done|]. simpl. symmetry. by apply Hown.
  - unfold Delete. repeat case_match; try done. by apply wf_deleteSessionLocked.
  - by apply wf_DeleteByUserID.
  - unfold Touch. repeat case_match; try done. simpl.
    eapply wf_rewrite; [done|eassumption| |done]. simpl. by apply (wf_id _ Hwf).
  - unfold ListByUserID. by repeat case_match.
  - by apply wf_removeExpired.
  - unfold Close. case_match; [done|]. by split; intros; simplify_map_eq.
Qed.

Lemma fold_removeExpired_sessions now l s id :
  (fold_left (fun s' '(id, sess) =>
     if negb (IsZero sess.(ExpiresAt)) && After now sess.(ExpiresAt)
     then deleteSessionLocked id s' else s') l s).(sessions) !! id
  = if decide (Exists (fun kv => kv.1 = id /\ IsExpired now kv.2 = true) l) then None
    else s.(sessions) !! id.
Proof.
  revert s. induction l as [|[i x] l IH]; intros s; cbn [fold_left].
  { rewrite decide_False; [done|]. by intros ?%Exists_nil. }
  rewrite IH. unfold IsExpired in *. destruct (negb _ && _) eqn:Hx.
  - rewrite deleteSessionLocked_sessions. destruct (decide (i = id)) as [->|Hne].
    + rewrite lookup_delete_eq. rewrite (decide_True (P := Exists _ (_ :: _))); [by case_decide|].
      by left.
    + rewrite lookup_delete_ne by done. apply decide_ext. rewrite Exists_cons. naive_solver.
  - apply decide_ext. rewrite Exists_cons. simpl. naive_solver congruence.
Qed.

Lemma listed_DeleteByUserID_frame s u ids id x :
  wf s -> s.(userIndex) !! u = Some ids -> s.(sessions) !! id = Some x ->
  id ∈ ids <-> uuid_string x.(UserID) = u.
Proof.
  intros Hwf Hu Hx. split.
  - intros Hin. destruct (wf_sound _ Hwf _ _ _ Hu Hin) as (y & Hy & <-). congruence.
  - intros <-. destruct (wf_complete _ Hwf _ _ Hx) as (ids' & ? & ?). congruence.
Qed.

Lemma wf_interleave cs cs' : interleave cs cs' -> wf cs.1 -> wf cs'.1.
Proof. destruct 1; simpl; intros; auto using wf_call, wf_Get_finish. Qed.

Lemma rtc_call now c s ts cs :
  keeps_owner c s -> rtc interleave (call_step now c s, ts) cs -> rtc interleave (s, ts) cs.
Proof. intros. eapply rtc_l; [by apply (il_call now c)|done]. Qed.

Lemma wf_New cfg : wf (New cfg).
Proof. by split; intros; simplify_map_eq. Qed.

(** The sessions the index lists are the user's, each once. *)
Lemma listed_sessions s u ids :
  wf s -> s.(userIndex) !! u = Some ids -> omap (fun id => s.(sessions) !! id) (range_set ids)
    ≡ₚ (map_to_list (owned_by u s)).*2.
Proof.
  intros Hwf Hu. pose proof (NoDup_entries s.(sessions) _ (NoDup_range_set ids)) as Hnd.
  rewrite <- entries_snd. rewrite <- (map_to_list_to_map (entries s.(sessions) (range_set ids))) by done.
  apply Permutation_map. f_equiv. apply map_eq. intros id. apply option_eq. intros x.
  unfold owned_by. rewrite map_lookup_filter_Some, <- elem_of_list_to_map by done.
  rewrite elem_of_entries, elem_of_range_set. simpl. split.
  - intros [Hin Hx]. split; [done|]. by eapply listed_DeleteByUserID_frame.
  - intros [Hx Hxu]. split; [|done]. by apply (listed_DeleteByUserID_frame s u ids id x).
Qed.

Lemma owned_by_unlisted s u : wf s -> s.(userIndex) !! u = None -> owned_by u s = ∅.
Proof.
  intros Hwf Hu. apply map_empty. intros id. apply map_lookup_filter_None. right. intros x Hx Hxu.
  simpl in Hxu.
  destruct (wf_complete _ Hwf _ _ Hx) as (ids & ? & ?). congruence.
Qed.

Lemma list_memory now s u :
  wf s -> s.(closed) = false ->
  exists l, ListByUserID None now s u = (s, Ok l) /\
    l ≡ₚ (map_to_list (owned_by u s)).*2 /\
    StronglySorted (fun a b => (CreatedAt a <= CreatedAt b)%Z) l.
Proof.
  intros Hwf Hc. unfold ListByUserID. simpl. rewrite Hc. destruct (s.(userIndex) !! u) as [ids|] eqn:Hu.
  - eexists. split; [done|]. unfold Before. split; [|by apply exchange_sort_sorted].
    by rewrite exchange_sort_perm, listed_sessions.
  - exists []. rewrite owned_by_unlisted, map_to_list_empty by done. split_and!; [done|done|constructor].
Qed.

End lemmas.

(** ** The contract *)

Section contract.
Context `{E : SessionEnv} `{O : MapOrder}.

Lemma deleteSessionLocked_keyed id s : keyed_by_id s -> keyed_by_id (deleteSessionLocked id s).
Proof. intros H id' x. rewrite deleteSessionLocked_sessions, lookup_delete_Some. intros [_ ?]. by apply H. Qed.

Lemma insert_keyed s i x :
  keyed_by_id s -> keyed_by_id (set_maps (<[x.(ID) := x]> s.(sessions)) i s).
Proof. intros H id y. simpl. rewrite lookup_insert_Some. intros [[<- <-]|[_ ?]]; [done|by apply H]. Qed.

#[export] Program Instance memory_contract : StoreContract Store := {|
  view now s id := s.(sessions) !! id;
  store_ok := keyed_by_id
|}.
Next Obligation. intros now s id x H. apply H. Qed.
Next Obligation.
  intros ctx now s x s' e H. simpl. unfold Create. intros. go_cases; try done. by apply insert_keyed.
Qed.
Next Obligation.
  intros ctx now s x s' e id H. simpl. unfold Create. intros. go_cases; try done. by rewrite lookup_insert_ne.
Qed.
Next Obligation.
  intros ctx now s id s' r H. simpl. unfold Get, Get_finish. intros. go_cases; try done.
  by apply deleteSessionLocked_keyed.
Qed.
Next Obligation.
  intros ctx now s id s' r id' H. simpl. unfold Get, Get_finish, Get_begin. intros Hg.
  repeat case_match; simplify_eq; try (by left). rewrite deleteSessionLocked_sessions.
  destruct (decide (id = id')) as [->|Hne].
  - right. rewrite lookup_delete_eq. split; [done|]. by eexists.
  - left. by rewrite lookup_delete_ne.
Qed.
Next Obligation.
  intros ctx now s id s' x H. simpl. unfold Get, Get_finish, Get_begin. intros. go_cases. done.
Qed.
Next Obligation.
  intros ctx now s x s' x' e H. simpl. unfold Update. intros. go_cases; try done.
  by apply (insert_keyed s (userIndex s) (set_UpdatedAt now _)).
Qed.
Next Obligation.
  intros ctx now s x s' x' e id H. simpl. unfold Update. intros. go_cases; try done. by rewrite lookup_insert_ne.
Qed.
Next Obligation.
  intros ctx now s id s' e H. simpl. unfold Delete. intros. go_cases; try done. by apply deleteSessionLocked_keyed.
Qed.
Next Obligation.
  intros ctx now s id s' e id' H. simpl. unfold Delete. intros. go_cases; try done.
  by rewrite deleteSessionLocked_sessions, lookup_delete_ne.
Qed.
Next Obligation.
  intros ctx now s id s' e H. simpl. unfold Touch. intros. go_cases; try done.
  intros id' y. simpl. rewrite lookup_insert_Some. intros [[<- <-]|[_ ?]]; [|by apply H]. simpl. by apply H.
Qed.
Next Obligation.
  intros ctx now s id s' e id' H. simpl. unfold Touch. intros. go_cases; try done. by rewrite lookup_insert_ne.
Qed.
Next Obligation.
  intros f ctx now s u s' r. simpl. intros [= <-] H. unfold ListByUserID. intros. by go_cases.
Qed.
Next Obligation.
  intros f ctx now s u s' r id. simpl. intros [= <-] H. unfold ListByUserID. intros. go_cases; by left.
Qed.
Next Obligation.
  intros f ctx now s u s' l x. simpl. intros [= <-] H. unfold ListByUserID. intros Hl Hx.
  go_cases; [|by apply not_elem_of_nil in Hx].
  change (fun a b => Before (CreatedAt a) (CreatedAt b))
    with (fun a b => (CreatedAt a <? CreatedAt b)%Z) in Hx.
  rewrite exchange_sort_perm in Hx. apply list_elem_of_omap in Hx as (i & _ & Hi). by rewrite (H _ _ Hi).
Qed.

End contract.

(** ** Properties *)

Section properties.
Context `{E : SessionEnv} `{O : MapOrder}.

(** Claim C7. In every interleaving of calls, cleanup ticks and half-finished [Get]s from an
    empty store, as long as no write hands a session over to another user, the user index lists
    exactly the stored sessions under their user, and no index set is empty. *)
Theorem interleave_wf cfg s ts :
  rtc interleave (New cfg, []) (s, ts) -> wf s.
Proof.
  intros H. change (wf (s, ts).1).
  enough (forall cs, rtc interleave cs (s, ts) -> wf cs.1 -> wf (s, ts).1) as Hall by exact (Hall _ H (wf_New cfg)).
  clear H. intros cs H. remember (s, ts) as cs'. induction H; eauto using wf_interleave.
Qed.

(** [DeleteByUserID] on a well-formed open store removes exactly the user's sessions,
    leaves every other session as it is and returns how many it removed. *)
Theorem DeleteByUserID_exact now s u :
  wf s -> s.(closed) = false ->
  let '(s', n, e) := DeleteByUserID None now s u in
  e = None /\ n = Z.of_nat (size (owned_by u s)) /\
  forall id, s'.(sessions) !! id =
    match s.(sessions) !! id with
    | Some x => if decide (uuid_string x.(UserID) = u) then None else Some x
    | None => None
    end.
Proof.
  intros Hwf Hc. unfold DeleteByUserID. simpl. rewrite Hc. destruct (s.(userIndex) !! u) as [ids|] eqn:Hu.
  - split; [done|]. split.
    + f_equal. rewrite <- length_range_set, <- (length_map_to_list (owned_by u s)), <- (length_fmap snd (map_to_list _)).
      rewrite <- (listed_sessions s u ids) by done. symmetry. apply length_omap_all.
      intros id Hid. apply elem_of_range_set in Hid.
      destruct (wf_sound _ Hwf _ _ _ Hu Hid) as (x & -> & _). by eexists.
    + intros id. cbn [set_maps sessions]. rewrite (DeleteByUserID_sessions s u) by done.
      destruct (s.(sessions) !! id) as [x|] eqn:Hx; [|by case_decide].
      apply decide_ext. rewrite (listed_DeleteByUserID_frame s u ids id x); done.
  - rewrite (owned_by_unlisted s u Hwf Hu). split_and!; [done|done|]. intros id.
    destruct (s.(sessions) !! id) as [x|] eqn:Hx; [|done]. rewrite decide_False; [done|].
    intros Hxu. destruct (wf_complete _ Hwf _ _ Hx) as (ids & ? & _). congruence.
Qed.

(** [ListByUserID] returns each of the user's sessions once, oldest first, whatever
    order the map iteration visits them in. *)
Theorem ListByUserID_sorted now s u :
  wf s -> s.(closed) = false ->
  exists l, ListByUserID None now s u = (s, Ok l) /\
    l ≡ₚ (map_to_list (owned_by u s)).*2 /\
    StronglySorted (fun a b => (CreatedAt a <= CreatedAt b)%Z) l.
Proof. apply list_memory. Qed.

(** One cleanup tick removes exactly the expired sessions. *)
Theorem removeExpired_exact now s id :
  s.(closed) = false ->
  (removeExpired now s).(sessions) !! id =
    match s.(sessions) !! id with
    | Some x => if IsExpired now x then None else Some x
    | None => None
    end.
Proof.
  intros Hc. unfold removeExpired. rewrite Hc, fold_removeExpired_sessions. case_decide as Hex.
  - apply Exists_exists in Hex as ([i x] & Hin & <- & Hx). apply elem_of_range in Hin. simpl in *.
    by rewrite Hin, Hx.
  - destruct (s.(sessions) !! id) as [x|] eqn:Hx; [|done]. destruct (IsExpired now x) eqn:He; [|done].
    destruct Hex. apply Exists_exists. exists (id, x). by rewrite elem_of_range.
Qed.

(** [Get] can delete a live session: if a session is renewed by a successful [Update]
    between [Get]'s read of the expired one and its second lock, [Get] then removes the
    renewed session. *)
Theorem Get_drops_renewed s id old new now now' :
  s.(closed) = false -> id <> "" ->
  s.(sessions) !! id = Some old -> IsExpired now' old = true ->
  new.(ID) = id -> new.(UserID) = old.(UserID) -> IsExpired now' new = false ->
  exists s1 s2,
    Update None now s (Some new) = (s1, Some (set_UpdatedAt now new), None) /\
    s1.(sessions) !! id = Some (set_UpdatedAt now new) /\
    rtc interleave (s, []) (s1, [(id, Some old)]) /\
    rtc interleave (s1, [(id, Some old)]) (s2, []) /\
    s2.(sessions) !! id = None.
Proof.
  intros Hc Hne Hold Hexp <- Hown _.
  assert (Update None now s (Some new)
    = (set_maps (<[ID new := set_UpdatedAt now new]> (sessions s)) (userIndex s) s,
       Some (set_UpdatedAt now new), None)) as Hup.
  { unfold Update. cbn [ctx_err fmap option_fmap option_map]. by rewrite decide_False, Hc, Hold by done. }
  eexists _, _. split; [exact Hup|]. split; [apply lookup_insert_eq|]. split; [|split].
  - apply rtc_l with (s, [(ID new, Some old)]); [rewrite <- Hold; apply il_begin|].
    apply rtc_once. pose proof (il_call now (CallUpdate None (Some new)) s [(ID new, Some old)]) as Hs.
    simpl in Hs. rewrite Hup in Hs. apply Hs. intros y Hy. congruence.
  - apply rtc_once. apply (il_finish now' (ID new) (Some old) _ [] []).
  - simpl. rewrite Hc, Hexp. simpl. by rewrite deleteSessionLocked_sessions, lookup_delete_eq.
Qed.

(** [Update] with a session whose [UserID] changed leaves the index behind: the new
    owner's [DeleteByUserID] reports zero sessions and the session stays readable, although it
    belongs to that user. *)
Theorem Update_strands_new_owner now s x y :
  wf s -> s.(closed) = false -> x.(ID) <> "" ->
  s.(sessions) !! x.(ID) = Some y -> IsExpired now x = false ->
  s.(userIndex) !! uuid_string x.(UserID) = None ->
  let s1 := (Update None now s (Some x)).1.1 in
  let '(s2, n, e) := DeleteByUserID None now s1 (uuid_string x.(UserID)) in
  n = 0%Z /\ e = None /\ Get None now s2 x.(ID) = (s2, Ok (set_UpdatedAt now x)) /\ ~ wf s1.
Proof.
  intros Hwf Hc Hne Hy Hexp Hu. unfold Update. cbn [ctx_err fmap option_fmap option_map].
  rewrite decide_False, Hc, Hy by done. unfold DeleteByUserID. simpl. rewrite Hc, Hu.
  split_and!; [done|done| |].
  - unfold Get, Get_begin, Get_finish. cbn [sessions set_maps ctx_err fmap option_fmap option_map].
    rewrite lookup_insert_eq. cbn [closed set_maps]. rewrite Hc.
    change (IsExpired now (set_UpdatedAt now x)) with (IsExpired now x). by rewrite Hexp.
  - intros Hwf'. destruct (wf_complete _ Hwf' (ID x) (set_UpdatedAt now x)) as (ids & Hids & _).
    + apply lookup_insert_eq.
    + simpl in Hids. congruence.
Qed.

(** A closed store answers every call with [ErrClosed] except [Get], which answers
    [ErrNotFound]: it looks the session up before it tests [closed]. *)
Theorem Close_then_calls now s ctx x id u :
  ctx = None -> x.(ID) <> "" ->
  let s' := (Close s).1 in
  (s.(closed) = true -> s.(sessions) = ∅) ->
  (Create ctx now s' (Some x)).2 = Some (err_session ErrClosed) /\
  (Update ctx now s' (Some x)).2 = Some (err_session ErrClosed) /\
  (Delete ctx now s' id).2 = Some (err_session ErrClosed) /\
  (DeleteByUserID ctx now s' u).2 = Some (err_session ErrClosed) /\
  (Touch ctx now s' id).2 = Some (err_session ErrClosed) /\
  (ListByUserID ctx now s' u).2 = Err (err_session ErrClosed) /\
  (Get ctx now s' id).2 = Err (err_session ErrNotFound).
Proof.
  intros -> Hne s' Hs. assert (s'.(closed) = true /\ s'.(sessions) = ∅) as [Hc Hm].
  { subst s'. unfold Close. destruct (closed s) eqn:Hc; simpl; auto. }
  unfold Create, Update, Delete, DeleteByUserID, Touch, ListByUserID, Get, Get_begin, ctx_err.
  cbn [fmap option_fmap option_map]. by rewrite !decide_False, Hc, Hm, lookup_empty by done.
Qed.

End properties.

(** ** Witnesses *)

#[local] Existing Instance demo_env.
#[local] Existing Instance tree_order.

(** User 1 has sessions "a" (expiring at 50) and "b", user 2 has "c". *)
Definition demo_calls : list call :=
  [CallCreate None (Some (demo_session "b" 1 "" 20 0));
   CallCreate None (Some (demo_session "a" 1 "" 10 50));
   CallCreate None (Some (demo_session "c" 2 "" 15 0))].
Definition demo_store : Store := fold_left (fun s c => call_step 0 c s) demo_calls (New DefaultConfig).

Lemma demo_reachable : rtc interleave (New DefaultConfig, []) (demo_store, []).
Proof.
  unfold demo_store, demo_calls, fold_left.
  eapply (rtc_call 0); [|eapply (rtc_call 0); [|eapply (rtc_call 0); [|apply rtc_refl]]].
  all: hnf; intros y Hy; vm_compute in Hy; discriminate.
Qed.

Lemma demo_wf : wf demo_store.
Proof. repeat (apply wf_call; [|hnf; intros y Hy; vm_compute in Hy; discriminate]). apply wf_New. Qed.

Lemma interleave_wf_witness : wf demo_store.
Proof. apply (interleave_wf DefaultConfig _ []), demo_reachable. Defined.

Lemma DeleteByUserID_exact_witness :
  exists s' n, DeleteByUserID None 0 demo_store "1" = (s', n, None) /\
    n = Z.of_nat (size (owned_by "1" demo_store)) /\ s'.(sessions) !! "a" = None.
Proof.
  pose proof (DeleteByUserID_exact 0 demo_store "1" demo_wf eq_refl) as H.
  destruct (DeleteByUserID None 0 demo_store "1") as [[s' n] e]. destruct H as (-> & Hn & H).
  exists s', n. split; [done|]. split; [done|]. rewrite (H "a"). vm_compute. reflexivity.
Defined.

Lemma ListByUserID_sorted_witness :
  exists l, ListByUserID None 0 demo_store "1" = (demo_store, Ok l) /\ length l = 2 /\
    StronglySorted (fun a b => (CreatedAt a <= CreatedAt b)%Z) l.
Proof.
  destruct (ListByUserID_sorted 0 demo_store "1" demo_wf eq_refl) as (l & Hl & Hp & Hs).
  exists l. split_and!; [done| |done]. rewrite Hp. vm_compute. reflexivity.
Defined.

Lemma removeExpired_exact_witness :
  (removeExpired 60 demo_store).(sessions) !! "a" = None /\
  is_Some ((removeExpired 60 demo_store).(sessions) !! "b").
Proof.
  split.
  - rewrite (removeExpired_exact 60 demo_store "a" eq_refl). vm_compute. reflexivity.
  - rewrite (removeExpired_exact 60 demo_store "b" eq_refl). vm_compute. by eexists.
Defined.

Lemma Get_drops_renewed_witness :
  exists s1 s2,
    (Update None 60 demo_store (Some (demo_session "a" 1 "" 10 100))).1.1 = s1 /\
    rtc interleave (demo_store, []) (s2, []) /\ s2.(sessions) !! "a" = None.
Proof.
  destruct (Get_drops_renewed demo_store "a" (demo_session "a" 1 "" 10 50)
    (demo_session "a" 1 "" 10 100) 60 61) as (s1 & s2 & Hup & _ & H1 & H2 & H3); try reflexivity; try done.
  exists s1, s2. rewrite Hup. split; [done|]. split; [by etrans|done].
Defined.

Lemma Update_strands_new_owner_witness :
  let s1 := (Update None 0 demo_store (Some (demo_session "b" 7 "" 20 0))).1.1 in
  let '(s2, n, e) := DeleteByUserID None 0 s1 "7" in
  n = 0%Z /\ e = None /\
  Get None 0 s2 "b" = (s2, Ok (set_UpdatedAt 0 (demo_session "b" 7 "" 20 0))) /\ ~ wf s1.
Proof.
  apply (Update_strands_new_owner 0 demo_store (demo_session "b" 7 "" 20 0)
    (demo_session "b" 1 "" 20 0)); [apply demo_wf|done..].
Defined.

Lemma Close_then_calls_witness :
  (Get None 0 (Close demo_store).1 "b").2 = Err (err_session ErrNotFound) /\
  (Delete None 0 (Close demo_store).1 "b").2 = Some (err_session ErrClosed).
Proof.
  destruct (Close_then_calls 0 demo_store None (demo_session "b" 1 "" 0 0) "b" "1")
    as (_ & _ & H1 & _ & _ & _ & H2); [done|done|done|]. split; [exact H2|exact H1].
Defined.
