(* ===== verification/SessionControls.v ===== *)
(** * session/wrapper.go: the controls around a session store

    [Controls.ControlledStore] wraps any [SessionStore] with validation, a size limit, a limit
    on the sessions of a user and the isolation of sites.  The slog output other than the
    violations is not modelled; the violations are, as two histories: what was logged and what
    the configured handler was called with. *)

From S2P Require Import Prelude GoLib Errors Sessions SessionStore SessionMemory.

Module Controls.
Section controls.
Context `{E : SessionEnv} `{J : !SessionJSON} {St : Type} `{SS : !SessionStore St}.

Inductive ViolationType :=
  | ViolationSizeExceeded | ViolationNotSerializable | ViolationInvalidSession
  | ViolationSessionLimitExceeded | ViolationSiteMismatch.

Record ViolationEvent := mkEvent {
  EvType : ViolationType;
  EvSessionID : string;
  EvSessionRef : string;
  EvUserID : N;
  EvSiteID : string;
  EvSize : Z;
  EvLimit : Z;
  EvMessage : string
}.

Record ControlledStore := mkControlled {
  store : St;
  config : Config;
  violationHandler : bool;
  logged : list ViolationEvent;
  handled : list ViolationEvent
}.

Definition with_store (st : St) (s : ControlledStore) : ControlledStore :=
  mkControlled st s.(config) s.(violationHandler) s.(logged) s.(handled).

(** [handler] says whether an option set a violation handler. *)
Definition WithControls (st : St) (cfg : Config) (handler : bool) : ControlledStore :=
  mkControlled st cfg handler [] [].

Definition reportViolation (event : ViolationEvent) (s : ControlledStore) : ControlledStore :=
  mkControlled s.(store) s.(config) s.(violationHandler) (s.(logged) ++ [event])
    (if s.(violationHandler) then s.(handled) ++ [event] else s.(handled)).

(** *** Validation *)

Definition validateSession (session : option Session) (s : ControlledStore)
    : ControlledStore * option error :=
  match session with
  | None =>
      (reportViolation (mkEvent ViolationInvalidSession "" "" 0 "" 0 0 "session is nil") s,
       Some (NewSessionError ErrCodeInvalidSession "session is nil" ∅
               (Some (err_session ErrInvalidSession))))
  | Some x =>
      if decide (x.(ID) = "") then
        (reportViolation
           (mkEvent ViolationInvalidSession "" "" x.(UserID) "" 0 0 "empty session ID") s,
         Some (NewSessionError ErrCodeInvalidSession "empty session ID"
                 {[ "user_id" := DString (uuid_string x.(UserID)) ]}
                 (Some (err_session ErrInvalidSession))))
      else if decide (x.(UserID) = 0%N) then
        (reportViolation
           (mkEvent ViolationInvalidSession "" (SessionRef x.(ID)) 0 "" 0 0 "empty user ID") s,
         Some (NewSessionError ErrCodeInvalidSession "empty user ID"
                 {[ "session_ref" := DString (SessionRef x.(ID)) ]}
                 (Some (err_session ErrInvalidSession))))
      else (s, None)
  end.

(** The error and the report of a failed round trip; [what] is the failing step. *)
Definition not_serializable (x : Session) (msg what : string) (err : error) (s : ControlledStore)
    : ControlledStore * option error :=
  (reportViolation
     (mkEvent ViolationNotSerializable "" (SessionRef x.(ID)) x.(UserID) "" 0 0
        (what +:+ " failed: " +:+ error_text err)) s,
   Some (NewSessionError ErrCodeNotSerializable msg
           {[ "session_ref" := DString (SessionRef x.(ID));
              "user_id" := DString (uuid_string x.(UserID));
              "error" := DString (error_text err) ]} (Some err))).

Definition validateSerializable (x : Session) (s : ControlledStore) : ControlledStore * option error :=
  if data_is_nil x.(Data) then (s, None)
  else
    match marshal_data x.(Data) with
    | Err err => not_serializable x "session data is not JSON-serializable" "marshal" err s
    | Ok b =>
        match unmarshal_data b with
        | Err err => not_serializable x "session data JSON is malformed" "unmarshal" err s
        | Ok _ => (s, None)
        end
    end.

Definition checkSizeLimit (x : Session) (s : ControlledStore) : ControlledStore * option error :=
  if (s.(config).(MaxSessionSize) <=? 0)%Z then (s, None)
  else
    match marshal_session x with
    | Err err =>
        (s, Some (NewSessionError ErrCodeNotSerializable "failed to serialize session for size check"
                    {[ "session_ref" := DString (SessionRef x.(ID)) ]} (Some err)))
    | Ok b =>
        let size := Z.of_nat (length b) in
        let limit := s.(config).(MaxSessionSize) in
        if (limit <? size)%Z then
          (reportViolation
             (mkEvent ViolationSizeExceeded "" (SessionRef x.(ID)) x.(UserID) "" size limit
                ("size " +:+ pretty size +:+ " exceeds limit " +:+ pretty limit)) s,
           Some (NewSessionError ErrCodeSizeLimitExceeded
                   ("session size " +:+ pretty size +:+ " bytes exceeds limit " +:+ pretty limit +:+ " bytes")
                   {[ "session_ref" := DString (SessionRef x.(ID));
                      "user_id" := DString (uuid_string x.(UserID));
                      "size" := DInt size; "limit" := DInt limit ]}
                   (Some (err_session ErrSizeLimitExceeded))))
        else (s, None)
    end.

(** *** The session limit *)

(** Keep the sessions of the configured site; all of them when none is configured. *)
Definition filter_site (site : string) (l : list Session) : list Session :=
  if decide (site = "") then l else filter (fun x => x.(SiteID) = site) l.

(** [for i := 0; i < n && i < len(sessions); i++ { store.Delete(...) }]; failures are logged only. *)
Definition evict (ctx : context) (now : time) (l : list Session) (st : St) : St :=
  fold_left (fun st x => (st_Delete ctx now st x.(ID)).1) l st.

(** It always returns nil. *)
Definition enforceSessionLimit (ctx : context) (now : time) (x : Session) (s : ControlledStore)
    : ControlledStore :=
  let limit := s.(config).(MaxSessionsPerUser) in
  if (limit <=? 0)%Z then s
  else
    match st_Lister with
    | None => s
    | Some lister =>
        let userID := uuid_string x.(UserID) in
        match lister ctx now s.(store) userID with
        | (st, Err _) => with_store st s
        | (st, Ok allSessions) =>
            let sessions := filter_site s.(config).(CfgSiteID) allSessions in
            let count := Z.of_nat (length sessions) in
            let sessionsToDelete := (count - limit + 1)%Z in
            if (sessionsToDelete <=? 0)%Z then with_store st s
            else
              let event := mkEvent ViolationSessionLimitExceeded "" (SessionRef x.(ID)) x.(UserID)
                s.(config).(CfgSiteID) count limit
                ("user has " +:+ pretty count +:+ " sessions, limit is " +:+ pretty limit +:+
                 ", evicting " +:+ pretty sessionsToDelete +:+ " oldest") in
              let s := reportViolation event (with_store st s) in
              with_store (evict ctx now (take (Z.to_nat sessionsToDelete) sessions) s.(store)) s
        end
    end.

(** *** Operations *)

(** [session.SiteID = s.config.SiteID] when a site is configured. *)
Definition stamp_site (site : string) (x : Session) : Session :=
  if decide (site = "") then x else set_SiteID site x.

(** [Create] returns the session as it left it: the caller's value carries the site. *)
Definition Create (ctx : context) (now : time) (s : ControlledStore) (session : option Session)
    : ControlledStore * option Session * option error :=
  match validateSession session s with
  | (s, Some err) => (s, session, Some err)
  | (s, None) =>
      match session with
      | None => (s, session, None)
      | Some x =>
          let x := stamp_site s.(config).(CfgSiteID) x in
          match validateSerializable x s with
          | (s, Some err) => (s, Some x, Some err)
          | (s, None) =>
              match checkSizeLimit x s with
              | (s, Some err) => (s, Some x, Some err)
              | (s, None) =>
                  let s := enforceSessionLimit ctx now x s in
                  let '(st, e) := st_Create ctx now s.(store) (Some x) in
                  (with_store st s, Some x, e)
              end
          end
      end
  end.

Definition checkSite (x : Session) (s : ControlledStore) : ControlledStore * option error :=
  let site := s.(config).(CfgSiteID) in
  if decide (site = "" \/ x.(SiteID) = site) then (s, None)
  else
    (reportViolation
       (mkEvent ViolationSiteMismatch "" (SessionRef x.(ID)) x.(UserID) x.(SiteID) 0 0
          ("session belongs to site " +:+ quote x.(SiteID) +:+ ", expected " +:+ quote site)) s,
     Some (err_session ErrNotFound)).

Definition Get (ctx : context) (now : time) (s : ControlledStore) (id : string)
    : ControlledStore * result error Session :=
  match st_Get ctx now s.(store) id with
  | (st, Err err) => (with_store st s, Err err)
  | (st, Ok x) =>
      match checkSite x (with_store st s) with
      | (s, Some err) => (s, Err err)
      | (s, None) => (s, Ok x)
      end
  end.

Definition verifyOwnership (ctx : context) (now : time) (id : string) (s : ControlledStore)
    : ControlledStore * option error :=
  if decide (s.(config).(CfgSiteID) = "") then (s, None)
  else
    match st_Get ctx now s.(store) id with
    | (st, Err err) => (with_store st s, Some err)
    | (st, Ok stored) => checkSite stored (with_store st s)
    end.

Definition Update (ctx : context) (now : time) (s : ControlledStore) (session : option Session)
    : ControlledStore * option Session * option error :=
  match validateSession session s with
  | (s, Some err) => (s, session, Some err)
  | (s, None) =>
      match session with
      | None => (s, session, None)
      | Some x =>
          match verifyOwnership ctx now x.(ID) s with
          | (s, Some err) => (s, session, Some err)
          | (s, None) =>
              let x := stamp_site s.(config).(CfgSiteID) x in
              match validateSerializable x s with
              | (s, Some err) => (s, Some x, Some err)
              | (s, None) =>
                  match checkSizeLimit x s with
                  | (s, Some err) => (s, Some x, Some err)
                  | (s, None) =>
                      let '(st, x', e) := st_Update ctx now s.(store) (Some x) in
                      (with_store st s, x', e)
                  end
              end
          end
      end
  end.

Definition Delete (ctx : context) (now : time) (s : ControlledStore) (id : string)
    : ControlledStore * option error :=
  match verifyOwnership ctx now id s with
  | (s, Some err) =>
      if errors_Is err (SessionSentinel ErrNotFound) then (s, None) else (s, Some err)
  | (s, None) =>
      let '(st, e) := st_Delete ctx now s.(store) id in (with_store st s, e)
  end.

(** The loop of [DeleteByUserID] over the user's sessions of all sites. *)
Fixpoint delete_site (ctx : context) (now : time) (site userID : string) (l : list Session)
    (count : Z) (st : St) : St * Z * option error :=
  match l with
  | [] => (st, count, None)
  | x :: l =>
      if decide (x.(SiteID) <> site) then delete_site ctx now site userID l count st
      else
        match st_Delete ctx now st x.(ID) with
        | (st, Some err) =>
            (st, count, Some (Wrapf ("delete session for user " +:+ userID +:+ ": ") err ""))
        | (st, None) => delete_site ctx now site userID l (count + 1) st
        end
  end.

Definition DeleteByUserID (ctx : context) (now : time) (s : ControlledStore) (userID : string)
    : ControlledStore * Z * option error :=
  let site := s.(config).(CfgSiteID) in
  if decide (site = "") then
    let '(st, n, e) := st_DeleteByUserID ctx now s.(store) userID in (with_store st s, n, e)
  else
    match st_Lister with
    | None =>
        (s, 0%Z, Some (Errorf ("underlying store does not implement SessionLister, cannot delete sessions for site "
           +:+ quote site +:+ " only")))
    | Some lister =>
        match lister ctx now s.(store) userID with
        | (st, Err err) => (with_store st s, 0%Z, Some err)
        | (st, Ok sessions) =>
            let '(st, n, e) := delete_site ctx now site userID sessions 0 st in
            (with_store st s, n, e)
        end
    end.

Definition Touch (ctx : context) (now : time) (s : ControlledStore) (id : string)
    : ControlledStore * option error :=
  match verifyOwnership ctx now id s with
  | (s, Some err) => (s, Some err)
  | (s, None) => let '(st, e) := st_Touch ctx now s.(store) id in (with_store st s, e)
  end.

Definition Close (s : ControlledStore) : ControlledStore * option error :=
  let '(st, e) := st_Close s.(store) in (with_store st s, e).

(** The method named [Unwrap] (of the store, not of an error). *)
Definition UnwrapStore (s : ControlledStore) : St := s.(store).

Definition ListByUserID (ctx : context) (now : time) (s : ControlledStore) (userID : string)
    : ControlledStore * result error (list Session) :=
  match st_Lister with
  | None => (s, Err (Errorf "underlying store does not implement SessionLister"))
  | Some lister =>
      match lister ctx now s.(store) userID with
      | (st, Err err) => (with_store st s, Err err)
      | (st, Ok sessions) => (with_store st s, Ok (filter_site s.(config).(CfgSiteID) sessions))
      end
  end.

(** A controlled store is a store again. *)
#[global] Instance controlled_store : SessionStore ControlledStore := {
  st_Create ctx now s x := let '(s', _, e) := Create ctx now s x in (s', e);
  st_Get := Get; st_Update := Update; st_Delete := Delete;
  st_DeleteByUserID := DeleteByUserID; st_Touch := Touch; st_Close := Close;
  st_Lister := Some ListByUserID
}.

(** The calls a site can make on sessions that exist. *)
Inductive site_call :=
  | SiteGet (id : string) | SiteUpdate (x : Session) | SiteDelete (id : string)
  | SiteDeleteByUserID (userID : string) | SiteTouch (id : string) | SiteListByUserID (userID : string).

Definition site_step (ctx : context) (now : time) (c : site_call) (s : ControlledStore) : ControlledStore :=
  match c with
  | SiteGet id => (Get ctx now s id).1
  | SiteUpdate x => (Update ctx now s (Some x)).1.1
  | SiteDelete id => (Delete ctx now s id).1
  | SiteDeleteByUserID u => (DeleteByUserID ctx now s u).1.1
  | SiteTouch id => (Touch ctx now s id).1
  | SiteListByUserID u => (ListByUserID ctx now s u).1
  end.

End controls.
Arguments ControlledStore : clear implicits.
End Controls.

(** [memory.NewWithControls]: the memory store behind the controls. *)
Definition NewWithControls `{SessionEnv} (cfg : Config) (handler : bool)
    : Controls.ControlledStore MemoryStore.Store :=
  Controls.WithControls (MemoryStore.New cfg) cfg handler.

Import Controls.

(** ** Lemmas *)

Section lemmas.
Context `{E : SessionEnv} `{J : !SessionJSON} {St : Type} `{SS : !SessionStore St}.
Implicit Types (s : ControlledStore St) (st : St) (x : Session).

(** The parts of the controls that never touch the wrapped store. *)
Definition same_core s s' : Prop := s'.(store) = s.(store) /\ s'.(config) = s.(config).

Lemma same_core_refl s : same_core s s.
Proof. done. Qed.
Lemma same_core_trans s1 s2 s3 : same_core s1 s2 -> same_core s2 s3 -> same_core s1 s3.
Proof. intros [] []. split; congruence. Qed.
Lemma reportViolation_core ev s : same_core s (reportViolation ev s).
Proof. done. Qed.

Lemma validateSession_core (x : option Session) s s' e : validateSession x s = (s', e) -> same_core s s'.
Proof. unfold validateSession. intros. by go_cases. Qed.

Lemma validateSession_ok (x : option Session) s s' :
  validateSession x s = (s', None) -> s' = s /\ exists y, x = Some y /\ y.(ID) <> "" /\ y.(UserID) <> 0%N.
Proof. unfold validateSession. intros. go_cases. eauto. Qed.

Lemma validateSerializable_core x s s' e : validateSerializable x s = (s', e) -> same_core s s'.
Proof. unfold validateSerializable, not_serializable. intros. by go_cases. Qed.

Lemma validateSerializable_none x s s' : validateSerializable x s = (s', None) -> s' = s.
Proof. unfold validateSerializable, not_serializable. intros. by go_cases. Qed.

Lemma verifyOwnership_config ctx now id s s' e :
  verifyOwnership ctx now id s = (s', e) -> s'.(config) = s.(config).
Proof. unfold verifyOwnership, checkSite. intros. by go_cases. Qed.

Lemma checkSizeLimit_core x s s' e : checkSizeLimit x s = (s', e) -> same_core s s'.
Proof. unfold checkSizeLimit. cbv zeta. intros. by go_cases. Qed.

Lemma checkSite_core x s s' e : checkSite x s = (s', e) -> same_core s s'.
Proof. unfold checkSite. intros. by go_cases. Qed.

Lemma checkSite_result x s s' e :
  checkSite x s = (s', e) ->
  (e = None /\ s' = s /\ (s.(config).(CfgSiteID) = "" \/ x.(SiteID) = s.(config).(CfgSiteID))) \/
  (e = Some (err_session ErrNotFound) /\ s.(config).(CfgSiteID) <> "" /\ x.(SiteID) <> s.(config).(CfgSiteID)).
Proof. unfold checkSite. intros. go_cases; [by left|right]. naive_solver. Qed.

Lemma elem_of_filter_site site l x :
  x ∈ filter_site site l <-> x ∈ l /\ (site = "" \/ x.(SiteID) = site).
Proof. unfold filter_site. case_decide; [naive_solver|]. rewrite list_elem_of_filter. naive_solver. Qed.

Lemma ID_stamp_site site x : (stamp_site site x).(ID) = x.(ID).
Proof. unfold stamp_site. by case_decide. Qed.

Lemma SiteID_stamp_site site x : site <> "" -> (stamp_site site x).(SiteID) = site.
Proof. unfold stamp_site. intros. by rewrite decide_False. Qed.

Context `{C : !StoreContract St}.

Lemma verifyOwnership_spec ctx now id s s' e :
  store_ok s.(store) -> verifyOwnership ctx now id s = (s', e) ->
  store_ok s'.(store) /\ s'.(config) = s.(config) /\
  (forall i, only_purged now (view now s.(store)) (view now s'.(store)) i) /\
  (e = None -> s.(config).(CfgSiteID) = "" \/
     exists y, view now s.(store) id = Some y /\ y.(SiteID) = s.(config).(CfgSiteID)).
Proof.
  intros Hok. unfold verifyOwnership. case_decide as Hsite.
  { intros. simplify_eq. eauto with omni. }
  destruct (st_Get ctx now s.(store) id) as [st [y|err]] eqn:Hg.
  - intros Hc. pose proof (checkSite_core _ _ _ _ Hc) as [Hst Hcfg]. simpl in *. rewrite Hst.
    split_and!; [by eapply Get_ok|done|intros i; by eapply Get_frame|].
    intros ->. right. exists y. split; [by eapply Get_Ok|].
    apply checkSite_result in Hc. naive_solver.
  - intros. simplify_eq. simpl. split_and!; [by eapply Get_ok|done|intros i; by eapply Get_frame|done].
Qed.

Lemma delete_site_spec ctx now site u l n st st' n' e :
  store_ok st -> delete_site ctx now site u l n st = (st', n', e) ->
  store_ok st' /\
  forall id, (forall x, x ∈ l -> x.(SiteID) = site -> x.(ID) <> id) -> view now st' id = view now st id.
Proof.
  revert n st. induction l as [|x l IH]; intros n st Hok H; simpl in H; [by simplify_eq|].
  case_decide as Hs.
  - apply IH in H as [? Hf]; [|done]. split; [done|]. intros id Hid. apply Hf. intros y Hy. apply Hid. by right.
  - destruct (st_Delete ctx now st x.(ID)) as [st1 [err|]] eqn:Hd; simplify_eq.
    + split; [by eapply Delete_ok|]. intros id Hid. eapply Delete_frame; [done..|].
      apply not_eq_sym, Hid; [by left|done].
    + apply IH in H as [? Hf]; [|by eapply Delete_ok]. split; [done|]. intros id Hid. rewrite Hf.
      * eapply Delete_frame; [done..|]. apply not_eq_sym, Hid; [by left|done].
      * intros y Hy. apply Hid. by right.
Qed.

(** Once the controls let a call through to the store, it is about a session of the site. *)
Lemma owned_other ctx now id s s' id' x :
  store_ok s.(store) -> verifyOwnership ctx now id s = (s', None) -> s.(config).(CfgSiteID) <> "" ->
  view now s.(store) id' = Some x -> x.(SiteID) <> s.(config).(CfgSiteID) -> id' <> id.
Proof.
  intros Hok Hv Hsite Hx Hne ->. apply verifyOwnership_spec in Hv as (_ & _ & _ & Hv); [|done].
  destruct Hv as [|(y & ? & ?)]; naive_solver.
Qed.

Lemma Get_site_frame ctx now s i id :
  store_ok s.(store) -> only_purged now (view now s.(store)) (view now (Get ctx now s i).1.(store)) id.
Proof.
  intros Hok. unfold Get. destruct (st_Get ctx now s.(store) i) as [st [y|err]] eqn:Hg; simpl.
  - destruct (checkSite y (with_store st s)) as [s1 [err|]] eqn:Hc; simpl.
    all: apply checkSite_core in Hc as [-> _]; simpl; by eapply Get_frame.
  - by eapply Get_frame.
Qed.

Lemma List_site_frame ctx now s u id :
  store_ok s.(store) -> only_purged now (view now s.(store)) (view now (ListByUserID ctx now s u).1.(store)) id.
Proof.
  intros Hok. unfold ListByUserID. destruct st_Lister as [f|] eqn:Hf; [|by left].
  destruct (f ctx now s.(store) u) as [st [l|]] eqn:Hl; simpl; by eapply List_frame.
Qed.

(** After a successful [verifyOwnership], an operation on [i] alone cannot touch [id]. *)
Lemma after_verify ctx now s s1 st2 i id x :
  store_ok s.(store) -> verifyOwnership ctx now i s = (s1, None) -> s.(config).(CfgSiteID) <> "" ->
  view now s.(store) id = Some x -> x.(SiteID) <> s.(config).(CfgSiteID) ->
  (id <> i -> view now st2 id = view now s1.(store) id) ->
  only_purged now (view now s.(store)) (view now st2) id.
Proof.
  intros Hok Hv Hsite Hx Hne Hf. pose proof (owned_other _ _ _ _ _ _ _ Hok Hv Hsite Hx Hne) as Hid.
  apply verifyOwnership_spec in Hv as (_ & _ & Hp & _); [|done].
  eapply only_purged_trans; [apply Hp|]. left. by apply Hf.
Qed.

Lemma verify_failed ctx now s s1 err i id :
  store_ok s.(store) -> verifyOwnership ctx now i s = (s1, Some err) ->
  only_purged now (view now s.(store)) (view now s1.(store)) id.
Proof. intros Hok Hv. by apply verifyOwnership_spec in Hv as (_ & _ & Hp & _). Qed.

Lemma Delete_site_frame ctx now s i id x :
  store_ok s.(store) -> s.(config).(CfgSiteID) <> "" ->
  view now s.(store) id = Some x -> x.(SiteID) <> s.(config).(CfgSiteID) ->
  only_purged now (view now s.(store)) (view now (Delete ctx now s i).1.(store)) id.
Proof.
  intros Hok Hsite Hx Hne. unfold Delete. destruct (verifyOwnership ctx now i s) as [s1 [err|]] eqn:Hv.
  - case_match; simpl; by eapply verify_failed.
  - destruct (st_Delete ctx now s1.(store) i) as [st e] eqn:Hd. simpl.
    eapply after_verify; [done..|]. intros Hid. eapply Delete_frame; [|done..].
    by apply verifyOwnership_spec in Hv as [? _].
Qed.

Lemma Touch_site_frame ctx now s i id x :
  store_ok s.(store) -> s.(config).(CfgSiteID) <> "" ->
  view now s.(store) id = Some x -> x.(SiteID) <> s.(config).(CfgSiteID) ->
  only_purged now (view now s.(store)) (view now (Touch ctx now s i).1.(store)) id.
Proof.
  intros Hok Hsite Hx Hne. unfold Touch. destruct (verifyOwnership ctx now i s) as [s1 [err|]] eqn:Hv.
  - simpl; by eapply verify_failed.
  - destruct (st_Touch ctx now s1.(store) i) as [st e] eqn:Hd. simpl.
    eapply after_verify; [done..|]. intros Hid. eapply Touch_frame; [|done..].
    by apply verifyOwnership_spec in Hv as [? _].
Qed.

Lemma Update_site_frame ctx now s y id x :
  store_ok s.(store) -> s.(config).(CfgSiteID) <> "" ->
  view now s.(store) id = Some x -> x.(SiteID) <> s.(config).(CfgSiteID) ->
  only_purged now (view now s.(store)) (view now (Update ctx now s (Some y)).1.1.(store)) id.
Proof.
  intros Hok Hsite Hx Hne. unfold Update. destruct (validateSession (Some y) s) as [s0 [err|]] eqn:Hval.
  { apply validateSession_core in Hval as [Hst _]. simpl. rewrite Hst. by left. }
  apply validateSession_ok in Hval as [-> _].
  destruct (verifyOwnership ctx now y.(ID) s) as [s1 [err|]] eqn:Hv; [simpl; by eapply verify_failed|].
  destruct (validateSerializable _ s1) as [s2 [err|]] eqn:Hser;
    apply validateSerializable_core in Hser as [Hst2 _].
  { simpl. eapply after_verify; [done..|]. intros _. by rewrite Hst2. }
  destruct (checkSizeLimit _ s2) as [s3 [err|]] eqn:Hsize; apply checkSizeLimit_core in Hsize as [Hst3 _].
  { simpl. eapply after_verify; [done..|]. intros _. by rewrite Hst3, Hst2. }
  destruct (st_Update ctx now s3.(store) _) as [[st x'] e] eqn:Hu. simpl.
  eapply after_verify; [done..|]. intros Hid. rewrite Hst3, Hst2 in Hu.
  eapply Update_frame; [|done|by rewrite ID_stamp_site]. by apply verifyOwnership_spec in Hv as [? _].
Qed.

Lemma DeleteByUserID_site_frame ctx now s u id x :
  store_ok s.(store) -> s.(config).(CfgSiteID) <> "" ->
  view now s.(store) id = Some x -> x.(SiteID) <> s.(config).(CfgSiteID) ->
  only_purged now (view now s.(store)) (view now (DeleteByUserID ctx now s u).1.1.(store)) id.
Proof.
  intros Hok Hsite Hx Hne. unfold DeleteByUserID. rewrite decide_False by done.
  destruct st_Lister as [f|] eqn:Hf; [|by left].
  destruct (f ctx now s.(store) u) as [st [l|err]] eqn:Hl; [|simpl; by eapply List_frame].
  destruct (delete_site ctx now _ u l 0 st) as [[st' n] e] eqn:Hd. simpl.
  apply delete_site_spec in Hd as [_ Hd]; [|by eapply List_ok].
  eapply only_purged_trans; [by eapply List_frame|]. left. apply Hd.
  intros y Hy Hys Hyid. assert (view now s.(store) y.(ID) = Some y) by by eapply List_Ok.
  naive_solver.
Qed.

End lemmas.

(** ** Properties *)

Section properties.
Context `{E : SessionEnv} `{J : !SessionJSON} {St : Type} `{SS : !SessionStore St} `{C : !StoreContract St}.
Implicit Types (s : ControlledStore St) (x : Session).

(** Claim C1. Site isolation: over any store that keeps the contract, no Get, Update, Delete,
    DeleteByUserID, Touch or ListByUserID made through the controls of one site changes a
    session of another site; at most the backend purges it because it has expired. *)
Theorem site_isolation ctx now c s id x :
  store_ok s.(store) -> s.(config).(CfgSiteID) <> "" ->
  view now s.(store) id = Some x -> x.(SiteID) <> s.(config).(CfgSiteID) ->
  only_purged now (view now s.(store)) (view now (site_step ctx now c s).(store)) id.
Proof.
  intros Hok Hsite Hx Hne. destruct c as [i|y|i|u|i|u]; simpl.
  - by apply Get_site_frame.
  - by eapply Update_site_frame.
  - by eapply Delete_site_frame.
  - by eapply DeleteByUserID_site_frame.
  - by eapply Touch_site_frame.
  - by apply List_site_frame.
Qed.

(** What a site can read is its own: a session returned by Get or ListByUserID is
    stored, and carries the configured site. *)
Theorem reads_own_site ctx now s id u s' x l :
  store_ok s.(store) -> s.(config).(CfgSiteID) <> "" ->
  (Get ctx now s id = (s', Ok x) -> view now s.(store) id = Some x /\ x.(SiteID) = s.(config).(CfgSiteID)) /\
  (ListByUserID ctx now s u = (s', Ok l) -> x ∈ l ->
     view now s.(store) x.(ID) = Some x /\ x.(SiteID) = s.(config).(CfgSiteID)).
Proof.
  intros Hok Hsite. split.
  - unfold Get. destruct (st_Get ctx now s.(store) id) as [st [y|]] eqn:Hg; [|done].
    destruct (checkSite y (with_store st s)) as [s1 [err|]] eqn:Hc; [done|]. intros [= <- <-].
    split; [by eapply Get_Ok|]. apply checkSite_result in Hc. naive_solver.
  - unfold ListByUserID. destruct st_Lister as [f|] eqn:Hf; [|done].
    destruct (f ctx now s.(store) u) as [st [all|]] eqn:Hl; [|done]. intros [= <- <-].
    rewrite elem_of_filter_site. intros [Hin [?|?]]; [done|]. split; [by eapply List_Ok|done].
Qed.

(** Claim C35. Whatever Create or Update lets through to the store is well formed, stamped with
    the configured site, serializable, and no larger than the limit. *)
Theorem accepted_within_limits ctx now s x s' (x' : option Session) :
  Create ctx now s (Some x) = (s', x', None) \/ Update ctx now s (Some x) = (s', x', None) ->
  let y := stamp_site s.(config).(CfgSiteID) x in
  x.(ID) <> "" /\ x.(UserID) <> 0%N /\
  (s.(config).(CfgSiteID) <> "" -> y.(SiteID) = s.(config).(CfgSiteID)) /\
  (data_is_nil y.(Data) = false -> exists b d, marshal_data y.(Data) = Ok b /\ unmarshal_data b = Ok d) /\
  ((0 < s.(config).(MaxSessionSize))%Z ->
     exists b, marshal_session y = Ok b /\ (Z.of_nat (length b) <= s.(config).(MaxSessionSize))%Z) /\
  exists st, st_Create ctx now st (Some y) = (s'.(store), None) \/
             st_Update ctx now st (Some y) = (s'.(store), x', None).
Proof.
  intros H y. assert (exists s1 s2 s3, validateSession (Some x) s = (s, None) /\
    s1.(config) = s.(config) /\ validateSerializable y s1 = (s2, None) /\ checkSizeLimit y s1 = (s3, None) /\
    exists st, st_Create ctx now st (Some y) = (s'.(store), None) \/
               st_Update ctx now st (Some y) = (s'.(store), x', None))
    as (s1 & s2 & s3 & Hval & Hcfg & Hser & Hsize & Hst).
  { subst y. destruct H as [H|H]; unfold Create, Update in H.
    - destruct (validateSession (Some x) s) as [s0 [err|]] eqn:Hval; [done|].
      apply validateSession_ok in Hval as Hval'. destruct Hval' as [-> _].
      destruct (validateSerializable _ s) as [s2 [err|]] eqn:Hser; [done|].
      apply validateSerializable_none in Hser as Hs2. subst s2.
      destruct (checkSizeLimit _ s) as [s3 [err|]] eqn:Hsize; [done|].
      destruct (st_Create _ _ _ _) as [st e] eqn:Hc. simplify_eq. eexists s, _, _. split_and!; eauto.
    - destruct (validateSession (Some x) s) as [s0 [err|]] eqn:Hval; [done|].
      apply validateSession_ok in Hval as Hval'. destruct Hval' as [-> _].
      destruct (verifyOwnership ctx now x.(ID) s) as [s1 [err|]] eqn:Hv; [done|].
      apply verifyOwnership_config in Hv as Hcfg. rewrite Hcfg in H.
      destruct (validateSerializable _ s1) as [s2 [err|]] eqn:Hser; [done|].
      apply validateSerializable_none in Hser as Hs2. subst s2.
      destruct (checkSizeLimit _ s1) as [s3 [err|]] eqn:Hsize; [done|].
      destruct (st_Update _ _ _ _) as [[st x1] e] eqn:Hc. simplify_eq. eexists s1, _, _. split_and!; eauto. }
  apply validateSession_ok in Hval as (_ & ? & [= <-] & Hid & Hu). split_and!; [done|done| | | |done].
  - intros Hsite. by apply SiteID_stamp_site.
  - intros Hnil. unfold validateSerializable in Hser. rewrite Hnil in Hser. go_cases. eauto.
  - intros Hmax. rewrite <- Hcfg in *. unfold checkSizeLimit in Hsize. cbv zeta in Hsize.
    repeat case_match; simplify_eq; [lia|]. eexists. split; [done|lia].
Qed.

End properties.

(** ** The controls over the memory store *)

Module MS := MemoryStore.

(** The sessions of user [u] that count against the limit of [site]. *)
Definition site_sessions `{SessionEnv} (site u : string) (m : gmap string Session) : gmap string Session :=
  filter (fun kv => uuid_string kv.2.(UserID) = u /\ (site = "" \/ kv.2.(SiteID) = site)) m.

Section over_memory.
Context `{E : SessionEnv} `{J : !SessionJSON} `{O : MapOrder}.
Implicit Types (s : ControlledStore MS.Store) (st : MS.Store) (x : Session).

Lemma evict_memory now l st id :
  MS.closed st = false ->
  MS.closed (evict None now l st) = false /\
  MS.sessions (evict None now l st) !! id =
    if decide (id ∈ ID <$> l) then None else MS.sessions st !! id.
Proof.
  revert st. induction l as [|x l IH]; intros st Hc.
  { split; [done|]. rewrite decide_False; [done|]. apply not_elem_of_nil. }
  assert (evict None now (x :: l) st = evict None now l (MS.deleteSessionLocked x.(ID) st)) as ->.
  { change (evict None now (x :: l) st) with (evict None now l (MS.Delete None now st x.(ID)).1).
    unfold MS.Delete. cbn [ctx_err fmap option_fmap option_map]. by rewrite Hc. }
  destruct (IH (MS.deleteSessionLocked x.(ID) st)) as [IHc IHs];
    [by rewrite deleteSessionLocked_closed|]. split; [done|].
  rewrite IHs, deleteSessionLocked_sessions, fmap_cons. destruct (decide (id = x.(ID))) as [->|Hne].
  - rewrite lookup_delete_eq. rewrite (decide_True (P := x.(ID) ∈ _ :: _)) by left. by case_decide.
  - rewrite lookup_delete_ne by done. apply decide_ext. rewrite elem_of_cons. naive_solver.
Qed.

(** The candidates of [enforceSessionLimit]: the user's sessions of the site, oldest first. *)
Lemma candidates_memory now st u site :
  MS.wf st -> MS.closed st = false ->
  exists l, MS.ListByUserID None now st u = (st, Ok l) /\
    filter_site site l ≡ₚ (map_to_list (site_sessions site u (MS.sessions st))).*2 /\
    StronglySorted (fun a b => (CreatedAt a <= CreatedAt b)%Z) (filter_site site l).
Proof.
  intros Hwf Hc. destruct (list_memory now st u Hwf Hc) as (l & Hl & Hp & Hs). exists l. split; [done|].
  split.
  - unfold filter_site, site_sessions. case_decide as Hsite.
    + rewrite Hp. unfold MS.owned_by. apply Permutation_map. f_equiv. apply map_filter_ext.
      intros i y _. simpl. naive_solver.
    + rewrite Hp. unfold MS.owned_by.
      rewrite <- (map_filter_snd (fun y => y.(SiteID) = site)). apply Permutation_map. f_equiv.
      rewrite map_filter_filter. apply map_filter_ext. intros i y _. simpl. naive_solver.
  - unfold filter_site. case_decide; [done|]. by apply StronglySorted_filter.
Qed.

Lemma site_sessions_ids st site u :
  MS.keyed_by_id st -> (map_to_list (site_sessions site u (MS.sessions st))).*1
    = ID <$> (map_to_list (site_sessions site u (MS.sessions st))).*2.
Proof.
  intros Hk. rewrite <- list_fmap_compose. apply list_fmap_ext. intros i [k y] Hi. simpl. symmetry.
  apply list_elem_of_lookup_2, elem_of_map_to_list in Hi. apply map_lookup_filter_Some in Hi as [Hi _]. by apply Hk.
Qed.

Lemma candidates_NoDup st site u l :
  MS.keyed_by_id st -> l ≡ₚ (map_to_list (site_sessions site u (MS.sessions st))).*2 -> NoDup (ID <$> l).
Proof.
  intros Hk Hp. rewrite Hp, <- site_sessions_ids by done. apply NoDup_fst_map_to_list.
Qed.

Lemma elem_of_candidates st site u l y :
  MS.keyed_by_id st -> l ≡ₚ (map_to_list (site_sessions site u (MS.sessions st))).*2 ->
  y ∈ l <-> MS.sessions st !! y.(ID) = Some y /\ uuid_string y.(UserID) = u /\ (site = "" \/ y.(SiteID) = site).
Proof.
  intros Hk Hp. rewrite Hp, list_elem_of_fmap. split.
  - intros ([k z] & -> & Hin). apply elem_of_map_to_list, map_lookup_filter_Some in Hin as [Hin ?].
    simpl in *. by rewrite (Hk _ _ Hin).
  - intros (Hy & ?). exists (y.(ID), y). split; [done|]. apply elem_of_map_to_list, map_lookup_filter_Some. eauto.
Qed.

(** Removing the first [k] candidates leaves the others. *)
Lemma evict_candidates now st site u l k :
  MS.keyed_by_id st -> MS.closed st = false ->
  l ≡ₚ (map_to_list (site_sessions site u (MS.sessions st))).*2 ->
  size (site_sessions site u (MS.sessions (evict None now (take k l) st))) = length l - k.
Proof.
  intros Hk Hc Hp. pose proof (candidates_NoDup st site u l Hk Hp) as Hnd.
  assert (site_sessions site u (MS.sessions (evict None now (take k l) st))
    = list_to_map ((fun y => (y.(ID), y)) <$> drop k l)) as ->.
  2: { rewrite <- length_drop, <- length_map_to_list, map_to_list_to_map; [by rewrite length_fmap|].
       rewrite <- list_fmap_compose. simpl. rewrite <- (take_drop k l), fmap_app in Hnd.
       by apply NoDup_app in Hnd as (_ & _ & ?). }
  rewrite <- (take_drop k l), fmap_app in Hnd. apply NoDup_app in Hnd as (_ & Hdisj & Hnd).
  apply map_eq. intros id. apply option_eq. intros y. unfold site_sessions.
  rewrite map_lookup_filter_Some, <- elem_of_list_to_map; [|by rewrite <- list_fmap_compose].
  destruct (evict_memory now (take k l) st id Hc) as [_ ->]. simpl. split.
  - intros [Hy Hyu]. case_decide as Hid; [done|]. pose proof (Hk _ _ Hy) as <-.
    apply list_elem_of_fmap. exists y. split; [done|].
    assert (y ∈ l) as Hin by by apply (elem_of_candidates st site u l).
    rewrite <- (take_drop k l), elem_of_app in Hin. destruct Hin as [Hin|]; [|done].
    destruct Hid. by apply list_elem_of_fmap_2.
  - intros Hin. apply list_elem_of_fmap in Hin as (z & [= -> ->] & Hin).
    assert (z ∈ l) as Hz by (rewrite <- (take_drop k l), elem_of_app; by right).
    apply (elem_of_candidates st site u l) in Hz as (Hz & Hzu & Hzs); [|done..].
    rewrite decide_False; [done|]. intros Hid. apply (Hdisj z.(ID)); [done|]. by apply list_elem_of_fmap_2.
Qed.

Lemma site_sessions_insert site u (m : gmap string Session) id x :
  m !! id = None -> size (site_sessions site u (<[id := x]> m)) <= S (size (site_sessions site u m)).
Proof.
  intros Hid. unfold site_sessions.
  destruct (decide (uuid_string x.(UserID) = u /\ (site = "" \/ x.(SiteID) = site))).
  - rewrite map_filter_insert_True by done. rewrite map_size_insert_None; [done|].
    apply map_lookup_filter_None. by left.
  - rewrite map_filter_insert_False by done. rewrite delete_id by done. lia.
Qed.

(** What a successful [Create] does to the store: the oldest candidates go, the session comes. *)
Lemma Create_memory now s x s' (x' : option Session) :
  MS.wf s.(store) -> MS.closed s.(store) = false -> (0 < s.(config).(MaxSessionsPerUser))%Z ->
  Create None now s (Some x) = (s', x', None) ->
  exists l st, filter_site s.(config).(CfgSiteID) l
      ≡ₚ (map_to_list (site_sessions s.(config).(CfgSiteID) (uuid_string x.(UserID)) (MS.sessions s.(store)))).*2 /\
    StronglySorted (fun a b => (CreatedAt a <= CreatedAt b)%Z) (filter_site s.(config).(CfgSiteID) l) /\
    st = evict None now
      (take (Z.to_nat (Z.of_nat (length (filter_site s.(config).(CfgSiteID) l))
                       - s.(config).(MaxSessionsPerUser) + 1)) (filter_site s.(config).(CfgSiteID) l)) s.(store) /\
    MS.sessions s'.(store) = <[x.(ID) := stamp_site s.(config).(CfgSiteID) x]> (MS.sessions st).
Proof.
  intros Hwf Hc Hlim H. unfold Create in H.
  destruct (validateSession (Some x) s) as [s0 [err|]] eqn:Hval; [done|].
  apply validateSession_ok in Hval as (-> & y & [= <-] & Hid & _).
  destruct (validateSerializable _ s) as [s2 [err|]] eqn:Hser; [done|].
  apply validateSerializable_core in Hser as [Hst2 Hcfg2].
  destruct (checkSizeLimit _ s2) as [s3 [err|]] eqn:Hsize; [done|].
  apply checkSizeLimit_core in Hsize as [Hst3 Hcfg3].
  set (z := stamp_site s.(config).(CfgSiteID) x) in *.
  assert (z.(UserID) = x.(UserID) /\ z.(ID) = x.(ID)) as [Hzu Hzi].
  { subst z. unfold stamp_site. by case_decide. }
  destruct (candidates_memory now s.(store) (uuid_string x.(UserID)) s.(config).(CfgSiteID) Hwf Hc)
    as (l & Hl & Hp & Hs).
  exists l. eexists. split; [done|]. split; [done|]. split; [done|].
  assert ((enforceSessionLimit None now z s3).(store) = evict None now
      (take (Z.to_nat (Z.of_nat (length (filter_site s.(config).(CfgSiteID) l))
                       - s.(config).(MaxSessionsPerUser) + 1)) (filter_site s.(config).(CfgSiteID) l)) s.(store)) as He.
  { unfold enforceSessionLimit. rewrite Hcfg3, Hcfg2, Hst3, Hst2, Hzu. cbn [st_Lister MS.memory_store]. rewrite Hl. cbv zeta.
    rewrite (proj2 (Z.leb_gt _ _)) by lia. destruct (_ <=? 0)%Z eqn:Hle; [|done]. simpl.
    replace (Z.to_nat _) with 0 by lia. done. }
  rewrite He in H. destruct (st_Create _ _ _ _) as [st e] eqn:Hcr. simplify_eq/=.
  unfold MS.Create in Hcr. cbn [ctx_err fmap option_fmap option_map] in Hcr.
  rewrite Hzi in Hcr. go_cases. done.
Qed.

End over_memory.

Section limit.
Context `{E : SessionEnv} `{J : !SessionJSON} `{O : MapOrder}.

(** Claim C8. The session limit over the in-memory store.  When that store is open and well formed,
    the limit is positive, the session's ID is not taken and the context is not done, then
    after a [Create] that succeeds the user has at most [MaxSessionsPerUser] sessions at the
    site, the new one is among them, and of the user's earlier sessions at the site none that
    survived is older than one that was evicted.  Over a store that cannot list, or whose
    listing or deletions fail, [enforceSessionLimit] does what it can and [Create] goes on. *)
Theorem Create_enforces_limit now (s s' : ControlledStore MS.Store) (x : Session) (x' : option Session) :
  MS.wf s.(store) -> MS.closed s.(store) = false ->
  (0 < s.(config).(MaxSessionsPerUser))%Z -> MS.sessions s.(store) !! x.(ID) = None ->
  Create None now s (Some x) = (s', x', None) ->
  let site := s.(config).(CfgSiteID) in
  let u := uuid_string x.(UserID) in
  (Z.of_nat (size (site_sessions site u (MS.sessions s'.(store)))) <= s.(config).(MaxSessionsPerUser))%Z /\
  MS.sessions s'.(store) !! x.(ID) = Some (stamp_site site x) /\
  forall y z,
    site_sessions site u (MS.sessions s.(store)) !! y.(ID) = Some y ->
    site_sessions site u (MS.sessions s.(store)) !! z.(ID) = Some z ->
    MS.sessions s'.(store) !! y.(ID) = None -> MS.sessions s'.(store) !! z.(ID) = Some z ->
    (y.(CreatedAt) <= z.(CreatedAt))%Z.
Proof.
  intros Hwf Hc Hlim Hfresh H site u.
  destruct (Create_memory _ _ _ _ _ Hwf Hc Hlim H) as (l & st & Hp & Hs & -> & ->). fold site u in Hp, Hs |- *.
  set (L := filter_site site l) in *. set (k := Z.to_nat _).
  assert (MS.keyed_by_id s.(store)) as Hk by exact (MS.wf_id _ Hwf).
  split_and!.
  - assert (MS.sessions (evict None now (take k L) s.(store)) !! x.(ID) = None) as Hx.
    { destruct (evict_memory now (take k L) s.(store) x.(ID) Hc) as [_ ->]. by case_decide. }
    pose proof (site_sessions_insert site u _ _ (stamp_site site x) Hx) as Hi.
    rewrite (evict_candidates now s.(store) site u L k Hk Hc Hp) in Hi. subst k. lia.
  - apply lookup_insert_eq.
  - intros y z Hy Hz Hye Hze.
    apply map_lookup_filter_Some in Hy as [Hy Hyu], Hz as [Hz Hzu]. simpl in *.
    assert (y ∈ L) as HyL by by apply (elem_of_candidates s.(store) site u).
    assert (z ∈ L) as HzL by by apply (elem_of_candidates s.(store) site u).
    rewrite lookup_insert_ne in Hye by congruence. rewrite lookup_insert_ne in Hze by congruence.
    destruct (evict_memory now (take k L) s.(store) y.(ID) Hc) as [_ Hye']. rewrite Hye' in Hye.
    destruct (evict_memory now (take k L) s.(store) z.(ID) Hc) as [_ Hze']. rewrite Hze' in Hze.
    case_decide as Hzk; [congruence|]. case_decide as Hyk; [|congruence].
    rewrite <- (take_drop k L) in Hs, HzL. apply elem_of_app in HzL as [HzL|HzL].
    { destruct Hzk. by apply list_elem_of_fmap_2. }
    apply list_elem_of_fmap in Hyk as (y' & Hid & Hyk).
    assert (y' = y) as ->.
    { assert (y' ∈ L) as Hy' by (rewrite <- (take_drop k L); apply elem_of_app; by left).
      apply (elem_of_candidates s.(store) site u) in Hy' as [Hy' _]; [|done..]. congruence. }
    by apply (StronglySorted_app_1_elem_of _ _ _ y z Hs).
Qed.

End limit.

(** ** Violations *)

Section violations.
Context `{E : SessionEnv} `{J : !SessionJSON} {St : Type} `{SS : !SessionStore St}.
Implicit Types (s : ControlledStore St) (x : Session).

(** What a violation may say about a session: never its ID, only a reference. *)
Definition hides_id (ev : ViolationEvent) : Prop :=
  ev.(EvSessionID) = "" /\ exists id, ev.(EvSessionRef) = SessionRef id.

(** From [s] to [s'] some violations were logged, and the handler saw the same ones. *)
Definition reports s s' : Prop :=
  s'.(config) = s.(config) /\ s'.(violationHandler) = s.(violationHandler) /\
  exists evs, s'.(logged) = s.(logged) ++ evs /\ Forall hides_id evs /\
    s'.(handled) = s.(handled) ++ (if s.(violationHandler) then evs else []).

Lemma reports_none s st : reports s (with_store st s).
Proof. split_and!; [done..|]. exists []. rewrite !app_nil_r. split_and!; [done|constructor|]. by case_match; rewrite ?app_nil_r. Qed.

Lemma reports_refl s : reports s s.
Proof. split_and!; [done..|]. exists []. rewrite !app_nil_r. split_and!; [done|constructor|]. by case_match; rewrite ?app_nil_r. Qed.

Lemma reports_trans s1 s2 s3 : reports s1 s2 -> reports s2 s3 -> reports s1 s3.
Proof.
  intros (Hc1 & Hh1 & e1 & Hl1 & Hf1 & Hd1) (Hc2 & Hh2 & e2 & Hl2 & Hf2 & Hd2). split_and!; [congruence..|].
  exists (e1 ++ e2). split_and!; [by rewrite Hl2, Hl1, app_assoc|by apply Forall_app|].
  rewrite Hd2, Hd1, Hh1. destruct (violationHandler s1); [by rewrite app_assoc|by rewrite !app_nil_r].
Qed.

Lemma reports_one ev s : hides_id ev -> reports s (reportViolation ev s).
Proof.
  intros Hev. split_and!; [done..|]. exists [ev]. split_and!; [done|by apply Forall_singleton|].
  simpl. destruct (violationHandler s); [done|by rewrite app_nil_r].
Qed.

Lemma SessionRef_empty : SessionRef "" = "".
Proof. done. Qed.

Lemma hides_no_ref ty u site size limit msg : hides_id (mkEvent ty "" "" u site size limit msg).
Proof. split; [done|]. by exists "". Qed.

Lemma hides_ref ty id u site size limit msg : hides_id (mkEvent ty "" (SessionRef id) u site size limit msg).
Proof. split; [done|]. by exists id. Qed.

#[local] Hint Resolve reports_none reports_refl reports_one hides_no_ref hides_ref : omni.

Lemma validateSession_reports (x : option Session) s : reports s (validateSession x s).1.
Proof. unfold validateSession. repeat case_match; simpl; auto with omni. Qed.

Lemma validateSerializable_reports x s : reports s (validateSerializable x s).1.
Proof. unfold validateSerializable, not_serializable. repeat case_match; simpl; auto with omni. Qed.

Lemma checkSizeLimit_reports x s : reports s (checkSizeLimit x s).1.
Proof. unfold checkSizeLimit. cbv zeta. repeat case_match; simpl; auto with omni. Qed.

Lemma checkSite_reports x s : reports s (checkSite x s).1.
Proof. unfold checkSite. case_decide; simpl; auto with omni. Qed.

Lemma verifyOwnership_reports ctx now id s : reports s (verifyOwnership ctx now id s).1.
Proof.
  unfold verifyOwnership. case_decide; [simpl; auto with omni|].
  destruct (st_Get _ _ _ _) as [st [y|err]]; simpl; [|auto with omni].
  eapply reports_trans; [apply (reports_none s st)|apply checkSite_reports].
Qed.

Lemma enforceSessionLimit_reports ctx now x s : reports s (enforceSessionLimit ctx now x s).
Proof.
  unfold enforceSessionLimit. cbv zeta. case_match; [auto with omni|]. case_match; [|auto with omni].
  destruct (_ ctx now _ _) as [st [l|err]]; [|auto with omni]. case_match; [auto with omni|].
  eapply reports_trans; [apply (reports_none s st)|].
  eapply reports_trans; [|apply reports_none]. auto with omni.
Qed.

(** Chain the report of a first step with the rest of the operation. *)
Lemma reports_step {A} (f : ControlledStore St * A) s s' :
  reports s f.1 -> reports f.1 s' -> reports s s'.
Proof. apply reports_trans. Qed.

(** Claim C37. Session IDs never reach a violation: whatever call is made through the controls,
    the violations it logs carry an empty [SessionID] and at most the reference of a session,
    and a configured handler is called with exactly the logged violations, in order. *)
Theorem violations_hide_ids ctx now (c : site_call + option Session) s :
  reports s (match c with inl c => site_step ctx now c s | inr x => (Create ctx now s x).1.1 end).
Proof.
  destruct c as [[id|x|id|u|id|u]|x]; simpl.
  - unfold Get. destruct (st_Get _ _ _ _) as [st [y|err]]; simpl; [|auto with omni].
    pose proof (checkSite_reports y (with_store st s)) as Hr.
    destruct (checkSite _ _) as [s1 [err|]]; simpl in *; eauto using reports_trans with omni.
  - unfold Update. pose proof (validateSession_reports (Some x) s) as H0.
    destruct (validateSession _ s) as [s0 [err|]]; simpl in *; [done|].
    pose proof (verifyOwnership_reports ctx now x.(ID) s0) as H1.
    destruct (verifyOwnership _ _ _ _) as [s1 [err|]]; simpl in *; [by eapply reports_trans|].
    pose proof (validateSerializable_reports (stamp_site (CfgSiteID (config s1)) x) s1) as H2.
    destruct (validateSerializable _ _) as [s2 [err|]]; simpl in *; [eauto using reports_trans|].
    pose proof (checkSizeLimit_reports (stamp_site (CfgSiteID (config s1)) x) s2) as H3.
    destruct (checkSizeLimit _ _) as [s3 [err|]]; simpl in *; [eauto using reports_trans|].
    destruct (st_Update _ _ _ _) as [[st x'] e]; simpl. eauto 6 using reports_trans, reports_none.
  - unfold Delete. pose proof (verifyOwnership_reports ctx now id s) as H1.
    destruct (verifyOwnership _ _ _ _) as [s1 [err|]]; simpl in *; [by case_match|].
    destruct (st_Delete _ _ _ _) as [st e]; simpl. eauto using reports_trans with omni.
  - unfold DeleteByUserID. case_decide.
    + destruct (st_DeleteByUserID _ _ _ _) as [[st n] e]. simpl. auto with omni.
    + case_match; [|simpl; auto with omni]. destruct (_ ctx now _ _) as [st [l|err]]; simpl; [|auto with omni].
      destruct (delete_site _ _ _ _ _ _ _) as [[st' n] e]. simpl.
      exact (reports_trans _ _ _ (reports_none s st) (reports_none (with_store st s) st')).
  - unfold Touch. pose proof (verifyOwnership_reports ctx now id s) as H1.
    destruct (verifyOwnership _ _ _ _) as [s1 [err|]]; simpl in *; [done|].
    destruct (st_Touch _ _ _ _) as [st e]; simpl. eauto using reports_trans with omni.
  - unfold ListByUserID. case_match; [|simpl; auto with omni].
    destruct (_ ctx now _ _) as [st [l|err]]; simpl; auto with omni.
  - unfold Create. pose proof (validateSession_reports x s) as H0.
    destruct (validateSession _ s) as [s0 [err|]]; simpl in *; [done|]. destruct x as [x|]; [|done].
    pose proof (validateSerializable_reports (stamp_site (CfgSiteID (config s0)) x) s0) as H2.
    destruct (validateSerializable _ _) as [s2 [err|]]; simpl in *; [eauto using reports_trans|].
    pose proof (checkSizeLimit_reports (stamp_site (CfgSiteID (config s0)) x) s2) as H3.
    destruct (checkSizeLimit _ _) as [s3 [err|]]; simpl in *; [eauto using reports_trans|].
    destruct (st_Create _ _ _ _) as [st e]; simpl.
    eauto 6 using reports_trans, reports_none, enforceSessionLimit_reports.
Qed.

(** A nil session, one without an ID and one without a user are refused alike by
    Create and Update: the error has code SESSION_INVALID, matches [ErrInvalidSession], and the
    wrapped store is not called. *)
Theorem invalid_session_refused ctx now s (x : option Session) :
  match x with None => True | Some y => y.(ID) = "" \/ y.(UserID) = 0%N end ->
  exists s' err,
    Create ctx now s x = (s', x, Some err) /\ Update ctx now s x = (s', x, Some err) /\
    s'.(store) = s.(store) /\ length s'.(logged) = S (length s.(logged)) /\
    ErrorCode err = ErrCodeInvalidSession /\ errors_Is err (SessionSentinel ErrInvalidSession) = true /\
    ErrorDetails err !! "session_id" = None.
Proof.
  intros Hx. assert (exists s' err, validateSession x s = (s', Some err) /\
    s'.(store) = s.(store) /\ length s'.(logged) = S (length s.(logged)) /\
    ErrorCode err = ErrCodeInvalidSession /\ errors_Is err (SessionSentinel ErrInvalidSession) = true /\
    ErrorDetails err !! "session_id" = None) as (s' & err & Hv & Hrest).
  { unfold validateSession. repeat case_match; try naive_solver; eexists _, _; split_and!; try done;
      simpl; rewrite length_app; simpl; lia. }
  exists s', err. unfold Create, Update. by rewrite Hv.
Qed.

(** A session larger than the limit never reaches the store: Create answers with code
    SESSION_SIZE_EXCEEDED, matching [ErrSizeLimitExceeded], and reports the size and the limit. *)
Theorem oversize_refused ctx now s x b :
  let y := stamp_site s.(config).(CfgSiteID) x in
  x.(ID) <> "" -> x.(UserID) <> 0%N -> data_is_nil y.(Data) = true ->
  marshal_session y = Ok b ->
  (0 < s.(config).(MaxSessionSize) < Z.of_nat (length b))%Z ->
  exists s' err, Create ctx now s (Some x) = (s', Some y, Some err) /\ s'.(store) = s.(store) /\
    ErrorCode err = ErrCodeSizeLimitExceeded /\
    errors_Is err (SessionSentinel ErrSizeLimitExceeded) = true /\
    ErrorDetails err !! "size" = Some (DInt (Z.of_nat (length b))) /\
    ErrorDetails err !! "limit" = Some (DInt s.(config).(MaxSessionSize)) /\
    exists ev, s'.(logged) = s.(logged) ++ [ev] /\ ev.(EvType) = ViolationSizeExceeded.
Proof.
  intros y Hid Hu Hnil Hm Hmax.
  assert (validateSession (Some x) s = (s, None)) as Hv by (unfold validateSession; by rewrite !decide_False).
  unfold Create. rewrite Hv. fold y. unfold validateSerializable. rewrite Hnil.
  unfold checkSizeLimit. rewrite (proj2 (Z.leb_gt _ _)) by lia. rewrite Hm. cbv zeta.
  rewrite (proj2 (Z.ltb_lt _ _)) by lia. eexists _, _. split_and!; try done. by eexists.
Qed.

(** Controls that configure nothing change nothing: without a site and without limits
    every operation is the wrapped store's own, for Create and Update once the session is
    valid and has no data to check. *)
Theorem unconfigured_controls_transparent ctx now s x id u :
  s.(config).(CfgSiteID) = "" -> (s.(config).(MaxSessionSize) <= 0)%Z ->
  (s.(config).(MaxSessionsPerUser) <= 0)%Z ->
  x.(ID) <> "" -> x.(UserID) <> 0%N -> data_is_nil x.(Data) = true ->
  Create ctx now s (Some x)
    = (let '(st, e) := st_Create ctx now s.(store) (Some x) in (with_store st s, Some x, e)) /\
  Update ctx now s (Some x)
    = (let '(st, x', e) := st_Update ctx now s.(store) (Some x) in (with_store st s, x', e)) /\
  Get ctx now s id = (let '(st, r) := st_Get ctx now s.(store) id in (with_store st s, r)) /\
  Delete ctx now s id = (let '(st, e) := st_Delete ctx now s.(store) id in (with_store st s, e)) /\
  Touch ctx now s id = (let '(st, e) := st_Touch ctx now s.(store) id in (with_store st s, e)) /\
  DeleteByUserID ctx now s u
    = (let '(st, n, e) := st_DeleteByUserID ctx now s.(store) u in (with_store st s, n, e)).
Proof.
  intros Hsite Hsize Hlim Hid Hu Hnil.
  assert (validateSession (Some x) s = (s, None)) as Hv by (unfold validateSession; by rewrite !decide_False).
  assert (stamp_site s.(config).(CfgSiteID) x = x) as Hst by (unfold stamp_site; by rewrite decide_True).
  assert (validateSerializable x s = (s, None)) as Hser by (unfold validateSerializable; by rewrite Hnil).
  assert (checkSizeLimit x s = (s, None)) as Hsz by (unfold checkSizeLimit; by rewrite (proj2 (Z.leb_le _ _))).
  assert (verifyOwnership ctx now id s = (s, None) /\ verifyOwnership ctx now x.(ID) s = (s, None)) as [Ho Hox]
    by (unfold verifyOwnership; split; by rewrite decide_True).
  assert (enforceSessionLimit ctx now x s = s) as Hl by (unfold enforceSessionLimit; by rewrite (proj2 (Z.leb_le _ _))).
  unfold Create, Update, Delete, Touch, DeleteByUserID, Get.
  rewrite Hv, Hox, Ho, Hst, Hser, Hsz, Hl, (decide_True (P := CfgSiteID (config s) = "")) by done.
  split_and!; try done. destruct (st_Get _ _ _ _) as [st [y|err]]; [|done].
  unfold checkSite. simpl. by rewrite decide_True by (by left).
Qed.

End violations.

(** ** Where the isolation ends *)

Section boundaries.
Context `{E : SessionEnv} `{J : !SessionJSON} `{O : MapOrder}.

(** Create is outside the isolation: over the memory store it never looks at what is
    stored under the new session's ID, so it replaces a live session of another site. *)
Theorem Create_replaces_foreign_session now (s : ControlledStore MS.Store) (x y : Session) :
  MS.closed s.(store) = false -> (s.(config).(MaxSessionSize) <= 0)%Z ->
  (s.(config).(MaxSessionsPerUser) <= 0)%Z ->
  x.(ID) <> "" -> x.(UserID) <> 0%N -> data_is_nil (stamp_site s.(config).(CfgSiteID) x).(Data) = true ->
  MS.sessions s.(store) !! x.(ID) = Some y -> y.(SiteID) <> s.(config).(CfgSiteID) ->
  s.(config).(CfgSiteID) <> "" ->
  exists s', Create None now s (Some x) = (s', Some (set_SiteID s.(config).(CfgSiteID) x), None) /\
    (MS.sessions s'.(store)) !! x.(ID) = Some (set_SiteID s.(config).(CfgSiteID) x) /\
    s'.(logged) = s.(logged).
Proof.
  intros Hc Hsize Hlim Hid Hu Hnil Hy Hne Hsite.
  unfold Create, validateSession. rewrite !decide_False by done.
  unfold validateSerializable. rewrite Hnil. unfold checkSizeLimit, enforceSessionLimit.
  rewrite !(proj2 (Z.leb_le _ _)) by done. unfold stamp_site. rewrite decide_False by done.
  cbn [st_Create MS.memory_store]. unfold MS.Create. simpl. rewrite decide_False, Hc by done.
  eexists. split_and!; [done| |done]. apply lookup_insert_eq.
Qed.

(** A session of another site that has expired is not left in place: Delete through
    the controls returns [ErrExpired], not nil, and the memory store purges the session. *)
Theorem Delete_purges_expired_foreign now (s : ControlledStore MS.Store) id (y : Session) :
  MS.closed s.(store) = false -> s.(config).(CfgSiteID) <> "" ->
  MS.sessions s.(store) !! id = Some y -> y.(SiteID) <> s.(config).(CfgSiteID) ->
  IsExpired now y = true ->
  let '(s', e) := Delete None now s id in
  e = Some (err_session ErrExpired) /\ MS.sessions s'.(store) !! id = None.
Proof.
  intros Hc Hsite Hy Hne Hexp. unfold Delete, verifyOwnership. rewrite decide_False by done.
  cbn [st_Get MS.memory_store]. unfold MS.Get, MS.Get_begin, MS.Get_finish. simpl.
  rewrite Hy, Hc, Hexp. simpl. split; [done|].
  rewrite deleteSessionLocked_sessions. apply lookup_delete_eq.
Qed.

End boundaries.

(** ** Witnesses *)

#[local] Existing Instance demo_env.
#[local] Existing Instance demo_json.
#[local] Existing Instance tree_order.

(** User 1 at sites "A" ("a1", "a2") and "B" ("b1", expiring at 50). *)
Definition demo_memory : MS.Store :=
  fold_left (fun s c => MS.call_step 0 c s)
    [MS.CallCreate None (Some (demo_session "a1" 1 "A" 10 0));
     MS.CallCreate None (Some (demo_session "b1" 1 "B" 15 50));
     MS.CallCreate None (Some (demo_session "a2" 1 "A" 20 0))] (MS.New DefaultConfig).

Definition demo_site (site : string) (max_size max_sessions : Z) : ControlledStore MS.Store :=
  WithControls demo_memory (mkConfig site max_size max_sessions 0 0 "session:") true.

Lemma demo_memory_wf : MS.wf demo_memory.
Proof. repeat (apply wf_call; [|hnf; intros y Hy; vm_compute in Hy; discriminate]). apply wf_New. Qed.

Lemma demo_site_ok : store_ok demo_memory.
Proof. exact (MS.wf_id _ demo_memory_wf). Qed.

Lemma site_isolation_witness :
  view 0 (DeleteByUserID None 0 (demo_site "A" 0 0) "1").1.1.(store) "b1"
    = Some (demo_session "b1" 1 "B" 15 50) /\
  view 0 (DeleteByUserID None 0 (demo_site "A" 0 0) "1").1.1.(store) "a1" = None.
Proof.
  split; [|reflexivity].
  destruct (site_isolation None 0 (SiteDeleteByUserID "1") (demo_site "A" 0 0) "b1"
    (demo_session "b1" 1 "B" 15 50)) as [H|[_ (x & Hx & Hexp)]];
    [exact demo_site_ok|done|reflexivity|done|exact H|].
  change (Some (demo_session "b1" 1 "B" 15 50) = Some x) in Hx. by simplify_eq.
Defined.

Lemma reads_own_site_witness :
  exists s' x, Get None 0 (demo_site "A" 0 0) "a1" = (s', Ok x) /\ x.(SiteID) = "A".
Proof.
  destruct (Get None 0 (demo_site "A" 0 0) "a1") as [s' [x|err]] eqn:Hg; [|discriminate].
  exists s', x. split; [done|].
  by apply (proj1 (reads_own_site None 0 (demo_site "A" 0 0) "a1" "1" s' x [] demo_site_ok ltac:(done)) Hg).
Defined.

Lemma accepted_within_limits_witness :
  let s := demo_site "A" 1000 0 in
  let x := demo_session "a3" 1 "" 30 0 in
  exists b, marshal_session (stamp_site "A" x) = Ok b /\ (Z.of_nat (length b) <= 1000)%Z.
Proof.
  intros s x. destruct (Create None 0 s (Some x)) as [[s' x'] [e|]] eqn:Hc; [vm_compute in Hc; discriminate|].
  destruct (accepted_within_limits None 0 s x s' x' (or_introl Hc)) as (_ & _ & _ & _ & H & _).
  by apply H.
Defined.

Lemma Create_enforces_limit_witness :
  exists t x', Create None 0 (demo_site "A" 0 2) (Some (demo_session "a3" 1 "" 30 0)) = (t, x', None) /\
    (Z.of_nat (size (site_sessions "A" "1" (MS.sessions t.(store)))) <= 2)%Z.
Proof.
  destruct (Create None 0 (demo_site "A" 0 2) (Some (demo_session "a3" 1 "" 30 0))) as [[t x'] e] eqn:Hc.
  assert (e = None) as -> by (change e with (t, x', e).2; rewrite <- Hc; vm_compute; reflexivity).
  exists t, x'. split; [done|].
  apply (Create_enforces_limit 0 (demo_site "A" 0 2) t (demo_session "a3" 1 "" 30 0) x'
    demo_memory_wf eq_refl ltac:(done) ltac:(reflexivity) Hc).
Defined.

Lemma invalid_session_refused_witness :
  exists err, (Create None 0 (demo_site "A" 0 0) None).2 = Some err /\
    errors_Is err (SessionSentinel ErrInvalidSession) = true.
Proof.
  destruct (invalid_session_refused None 0 (demo_site "A" 0 0) None I)
    as (s' & err & -> & _ & _ & _ & _ & H & _). by exists err.
Defined.

(** A session without data, for the refusals that come after the check of the data. *)
Definition bare_session (id site : string) : Session :=
  @mkSession demo_env id 1 site None 0 0 0 0 0 "" "".

Lemma oversize_refused_witness :
  exists err, (Create None 0 (demo_site "A" 10 0) (Some (bare_session "a3" ""))).2 = Some err /\
    ErrorCode err = ErrCodeSizeLimitExceeded.
Proof.
  destruct (oversize_refused None 0 (demo_site "A" 10 0) (bare_session "a3" "")
    (bits_of (encode (fields_of (bare_session "a3" "A"))))) as (s' & err & Hc & _ & H & _);
    [done|done|reflexivity|reflexivity|vm_compute; split; reflexivity|].
  rewrite Hc. by exists err.
Defined.

Lemma unconfigured_controls_transparent_witness :
  Get None 0 (demo_site "" 0 0) "b1"
    = (demo_site "" 0 0, Ok (demo_session "b1" 1 "B" 15 50)).
Proof.
  destruct (unconfigured_controls_transparent None 0 (demo_site "" 0 0) (bare_session "a3" "") "b1" "1")
    as (_ & _ & H & _); [done..|]. exact H.
Defined.

Lemma Create_replaces_foreign_session_witness :
  exists s', Create None 0 (demo_site "A" 0 0) (Some (bare_session "b1" ""))
      = (s', Some (bare_session "b1" "A"), None) /\
    MS.sessions s'.(store) !! "b1" = Some (bare_session "b1" "A").
Proof.
  destruct (Create_replaces_foreign_session 0 (demo_site "A" 0 0) (bare_session "b1" "")
    (demo_session "b1" 1 "B" 15 50)) as (s' & H1 & H2 & _); [done..|]. by exists s'.
Defined.

Lemma Delete_purges_expired_foreign_witness :
  (Delete None 60 (demo_site "A" 0 0) "b1").2 = Some (err_session ErrExpired).
Proof.
  apply (Delete_purges_expired_foreign 60 (demo_site "A" 0 0) "b1" (demo_session "b1" 1 "B" 15 50)); done.
Defined.
