(* ===== verification/Kvs.v ===== *)
(** * kvs/kvs.go: the key-value interface and its contract

    [ListableStore] is the interface; the abstract specification of a store is a map from keys
    to a value and an optional expiry, [table], and [KVSpec] states that each operation of an
    implementation acts on it as its doc comment says: an expired key reads as a missing one,
    and what an operation is not about stays. *)

From S2P Require Import Prelude GoLib Errors.

Class ListableStore (St : Type) := {
  kv_Get : context -> time -> St -> string -> St * result error bytes;
  kv_Set : context -> time -> St -> string -> bytes -> duration -> St * option error;
  kv_Delete : context -> time -> St -> string -> St * option error;
  kv_List : context -> time -> St -> string -> St * result error (list string);
  kv_Close : St -> St * option error
}.

(** ** Specification *)

(** What the keys hold at an instant: only values that have not expired. *)
Abbreviation table := (gmap string bytes) (only parsing).

(** The keys that start with [prefix], ascending. *)
Definition keys_with_prefix (prefix : string) (t : table) : list string :=
  sort_strings (filter (fun k => String.prefix prefix k = true) (map_to_list t).*1).

(** An entry set at [now] with [ttl] is readable at [later]. *)
Definition outlives (now : time) (ttl : duration) (later : time) : bool :=
  (ttl <=? 0)%Z || (later <=? now + ttl)%Z.

(** [kv_at now s] reads the store at an instant; time only takes entries away.  Instants are
    after the zero [Time].  With a live context the operations do what they promise; with any
    context they leave the other keys alone. *)
Module Documents.

(** [Document] and [Config]; [Any] stands for the values of Go's type any. *)
Record Document (Any : Type) := mkDocument {
  DocID : string;
  Data : gmap string Any;
  Metadata : gmap string string;
  CreatedAt : time;
  UpdatedAt : time
}.
Record Config := mkConfig { Type_ : string; Path : string; TableName : string; Region : string }.

(** The interface [DocumentStore], which nothing in the module implements. *)
Class DocumentStore (Any St : Type) := {
  doc_store :: ListableStore St;
  Put : context -> time -> St -> string -> Document Any -> St * option error;
  Query : context -> time -> St -> string -> gmap string Any -> St * result error (list (Document Any));
  DeleteDoc : context -> time -> St -> string -> string -> St * option error
}.

End Documents.

Class KVSpec (St : Type) `{ListableStore St} := {
  kv_at : time -> St -> table;
  kv_open : St -> Prop;

  kv_mono now later s k v :
    (now <= later)%Z -> kv_at later s !! k = Some v -> kv_at now s !! k = Some v;

  kv_Get_any ctx now s k s' r :
    kv_open s -> kv_Get ctx now s k = (s', r) ->
    s' = s /\ forall v, r = Ok v -> kv_at now s !! k = Some v;
  kv_Get_spec now s k :
    kv_open s ->
    kv_Get None now s k =
      (s, match kv_at now s !! k with Some v => Ok v | None => Err (err_kvs KvsErrNotFound) end);

  kv_Set_frame ctx now s k v ttl s' e :
    kv_open s -> kv_Set ctx now s k v ttl = (s', e) ->
    kv_open s' /\ forall later i, (now <= later)%Z -> i <> k -> kv_at later s' !! i = kv_at later s !! i;
  (** a call that fails or is cancelled has happened or not *)
  kv_Set_any ctx now s k v ttl s' e later w :
    kv_open s -> kv_Set ctx now s k v ttl = (s', e) -> (now <= later)%Z ->
    kv_at later s' !! k = Some w -> w = v \/ kv_at later s !! k = Some w;
  kv_Set_spec now s k v ttl s' e :
    (0 < now)%Z -> kv_open s -> kv_Set None now s k v ttl = (s', e) ->
    e = None /\ forall later, (now <= later)%Z ->
      kv_at later s' !! k = if outlives now ttl later then Some v else None;

  kv_Delete_frame ctx now s k s' e :
    kv_open s -> kv_Delete ctx now s k = (s', e) ->
    kv_open s' /\
    forall later i, (now <= later)%Z ->
      kv_at later s' !! i = kv_at later s !! i \/ (i = k /\ kv_at later s' !! i = None);
  kv_Delete_spec now s k s' e :
    kv_open s -> kv_Delete None now s k = (s', e) ->
    e = None /\ forall later, (now <= later)%Z -> kv_at later s' !! k = None;

  kv_List_spec now s p :
    kv_open s -> kv_List None now s p = (s, Ok (keys_with_prefix p (kv_at now s)));

  kv_Close_spec s s' e : kv_Close s = (s', e) -> e = None /\ ~ kv_open s'
}.

(** ** Lemmas *)

Lemma elem_of_keys_with_prefix p t k :
  k ∈ keys_with_prefix p t <-> String.prefix p k = true /\ is_Some (t !! k).
Proof.
  unfold keys_with_prefix. rewrite elem_of_sort_strings, list_elem_of_filter, list_elem_of_fmap.
  split.
  - intros [? ([k' v] & -> & Hin)]. apply elem_of_map_to_list in Hin. simpl in *. eauto.
  - intros [? [v Hv]]. split; [done|]. exists (k, v). by rewrite elem_of_map_to_list.
Qed.

Lemma keys_with_prefix_sorted p t : StronglySorted String.le (keys_with_prefix p t).
Proof. apply sort_strings_sorted. Qed.

Lemma NoDup_keys_with_prefix p t : NoDup (keys_with_prefix p t).
Proof. unfold keys_with_prefix. rewrite sort_strings_perm. apply NoDup_filter, NoDup_fst_map_to_list. Qed.

Lemma outlives_now now ttl : outlives now ttl now = true.
Proof. unfold outlives. destruct (ttl <=? 0)%Z eqn:?; [done|]. simpl. lia. Qed.

Lemma outlives_forever now later : outlives now 0 later = true.
Proof. done. Qed.
