(* ===== verification/KvsMemory.v ===== *)
(** * kvs/backend/memory/memory.go: the in-memory key-value store

    Every method holds the mutex from its first line to its return, so each is one step on
    the guarded state.  Values are copied on the way in and out, which is what a value of
    [bytes] is here. *)

From S2P Require Import Prelude GoLib Errors Kvs.

Module KvsMem.
Section memory.
Context `{O : MapOrder}.

Record entry := mkEntry { value : bytes; expiresAt : time }.

(** [Close] sets the map to nil, which reads like the empty one. *)
Record Store := mkStore { data : gmap string entry; closed : bool }.

Definition New : Store := mkStore ∅ false.

(** [!e.expiresAt.IsZero() && now.After(e.expiresAt)] *)
Definition entry_expired (now : time) (e : entry) : bool :=
  negb (IsZero e.(expiresAt)) && After now e.(expiresAt).

Definition Get (_ : context) (now : time) (s : Store) (key : string) : Store * result error bytes :=
  if s.(closed) then (s, Err (err_kvs KvsErrClosed))
  else
    match s.(data) !! key with
    | None => (s, Err (err_kvs KvsErrNotFound))
    | Some e => if entry_expired now e then (s, Err (err_kvs KvsErrNotFound)) else (s, Ok e.(value))
    end.

Definition Set_ (_ : context) (now : time) (s : Store) (key : string) (value : bytes) (ttl : duration)
    : Store * option error :=
  if s.(closed) then (s, Some (err_kvs KvsErrClosed))
  else
    let e := mkEntry value (if (0 <? ttl)%Z then Add now ttl else zero_time) in
    (mkStore (<[key := e]> s.(data)) s.(closed), None).

Definition Delete (_ : context) (now : time) (s : Store) (key : string) : Store * option error :=
  if s.(closed) then (s, Some (err_kvs KvsErrClosed))
  else (mkStore (delete key s.(data)) s.(closed), None).

Definition List (_ : context) (now : time) (s : Store) (prefix : string)
    : Store * result error (list string) :=
  if s.(closed) then (s, Err (err_kvs KvsErrClosed))
  else
    let keys := fold_left (fun keys '(key, e) =>
      if entry_expired now e then keys
      else if bool_decide (prefix = "") || String.prefix prefix key then keys ++ [key] else keys)
      (range s.(data)) [] in
    (s, Ok (sort_strings keys)).

Definition Close (s : Store) : Store * option error :=
  if s.(closed) then (s, None) else (mkStore ∅ true, None).

(** One tick of [cleanup]. *)
Definition removeExpired (now : time) (s : Store) : Store :=
  if s.(closed) then s
  else
    mkStore (fold_left (fun m '(key, e) => if entry_expired now e then delete key m else m)
               (range s.(data)) s.(data)) s.(closed).

Definition Len (s : Store) : Z := Z.of_nat (size s.(data)).

#[global] Instance memory_kvs : ListableStore Store := {
  kv_Get := Get; kv_Set := Set_; kv_Delete := Delete; kv_List := List; kv_Close := Close
}.

(** The entries readable at [now]. *)
Definition live (now : time) (s : Store) : table :=
  omap (fun e => if entry_expired now e then None else Some e.(value)) s.(data).

(** A history of calls, newest first, each with its instant. *)
Inductive call :=
  | CallSet (key : string) (v : bytes) (ttl : duration) | CallDelete (key : string) | CallCleanup.

Definition call_step (now : time) (c : call) (s : Store) : Store :=
  match c with
  | CallSet k v ttl => (Set_ None now s k v ttl).1
  | CallDelete k => (Delete None now s k).1
  | CallCleanup => removeExpired now s
  end.

Definition run (h : list (time * call)) : Store :=
  fold_right (fun '(t, c) s => call_step t c s) New h.

(** The set that decides what a key holds: the newest, unless a deletion is newer. *)
Fixpoint last_write (k : string) (h : list (time * call)) : option (time * bytes * duration) :=
  match h with
  | [] => None
  | (t, CallSet k' v ttl) :: h => if decide (k' = k) then Some (t, v, ttl) else last_write k h
  | (_, CallDelete k') :: h => if decide (k' = k) then None else last_write k h
  | (_, CallCleanup) :: h => last_write k h
  end.

(** The clock of a history never steps back, and starts after the zero [Time]. *)
Fixpoint clock_ok (now : time) (h : list (time * call)) : Prop :=
  match h with
  | [] => (0 < now)%Z
  | (t, _) :: h => (t <= now)%Z /\ clock_ok t h
  end.

End memory.
End KvsMem.

Import KvsMem.

(** ** Lemmas *)

Section lemmas.
Context `{O : MapOrder}.
Implicit Types s : Store.

Lemma entry_expired_spec now e :
  entry_expired now e = true <-> (e.(expiresAt) <> 0 /\ e.(expiresAt) < now)%Z.
Proof. apply expired_at_spec. Qed.

Lemma lookup_live now s k :
  live now s !! k =
    match s.(data) !! k with
    | Some e => if entry_expired now e then None else Some e.(value)
    | None => None
    end.
Proof. unfold live. rewrite lookup_omap. by destruct (s.(data) !! k). Qed.

(** What [List] collects before sorting. *)
Lemma List_keys now prefix (l : list (string * entry)) acc :
  fold_left (fun keys '(key, e) =>
      if entry_expired now e then keys
      else if bool_decide (prefix = "") || String.prefix prefix key then keys ++ [key] else keys) l acc
  = acc ++ (filter (fun kv => entry_expired now kv.2 = false /\ String.prefix prefix kv.1 = true) l).*1.
Proof.
  revert acc. induction l as [|[k e] l IH]; intros acc; [by rewrite app_nil_r|].
  simpl. rewrite IH, filter_cons. simpl.
  destruct (entry_expired now e) eqn:He.
  { rewrite decide_False by naive_solver. done. }
  destruct (bool_decide (prefix = "") || String.prefix prefix k) eqn:Hp.
  - rewrite decide_True, fmap_cons; [by rewrite <- app_assoc|]. split; [done|].
    apply orb_true_iff in Hp as [Hp|]; [|done]. apply bool_decide_eq_true in Hp as ->. by destruct k.
  - apply orb_false_iff in Hp as [_ Hp]. rewrite decide_False; [done|]. intros [_ ?]. congruence.
Qed.

Lemma removeExpired_fold now (l : list (string * entry)) (m : gmap string entry) k :
  NoDup l.*1 ->
  fold_left (fun m '(key, e) => if entry_expired now e then delete key m else m) l m !! k
  = match (list_to_map l : gmap string entry) !! k with
    | Some e => if entry_expired now e then None else m !! k
    | None => m !! k
    end.
Proof.
  revert m. induction l as [|[i e] l IH]; intros m Hnd; simpl; [done|].
  apply NoDup_cons in Hnd as [Hi Hnd]. rewrite IH by done. destruct (decide (i = k)) as [->|Hne].
  - assert ((list_to_map l : gmap string entry) !! k = None) as -> by by apply not_elem_of_list_to_map_1.
    simpl. rewrite lookup_insert_eq.
    destruct (entry_expired now e); [by rewrite lookup_delete_eq|done].
  - simpl. rewrite lookup_insert_ne by done. destruct (entry_expired now e); [|done].
    by rewrite !lookup_delete_ne.
Qed.

Lemma list_to_map_range (m : gmap string entry) : list_to_map (range m) = m.
Proof. rewrite <- (list_to_map_to_list m) at 2. apply list_to_map_proper, range_perm. apply NoDup_range_keys. Qed.

Lemma lookup_removeExpired now s k :
  s.(closed) = false ->
  (removeExpired now s).(data) !! k =
    match s.(data) !! k with Some e => if entry_expired now e then None else Some e | None => None end.
Proof.
  intros Hc. unfold removeExpired. rewrite Hc. cbn [data].
  rewrite removeExpired_fold, list_to_map_range by apply NoDup_range_keys.
  by destruct (s.(data) !! k).
Qed.

End lemmas.

(** ** The specification holds *)

Section spec.
Context `{O : MapOrder}.
Implicit Types s : Store.

Lemma live_mono now later s k v :
  (now <= later)%Z -> live later s !! k = Some v -> live now s !! k = Some v.
Proof.
  rewrite !lookup_live. intros Hle. destruct (s.(data) !! k) as [e|]; [|done].
  destruct (entry_expired later e) eqn:Hl; [done|]. destruct (entry_expired now e) eqn:Hn; [|done].
  apply entry_expired_spec in Hn. apply not_expired_at_spec in Hl. lia.
Qed.

Lemma Get_live now s k :
  s.(closed) = false ->
  Get None now s k =
    (s, match live now s !! k with Some v => Ok v | None => Err (err_kvs KvsErrNotFound) end).
Proof. intros Hc. unfold Get. rewrite Hc, lookup_live. repeat case_match; simplify_eq; done. Qed.

Lemma Set_live now s k v ttl s' e :
  (0 < now)%Z -> s.(closed) = false -> Set_ None now s k v ttl = (s', e) ->
  e = None /\ s'.(closed) = false /\
  forall later, (now <= later)%Z -> live later s' =
    if outlives now ttl later then <[k := v]> (live later s) else delete k (live later s).
Proof.
  intros Hnow Hc. unfold Set_. rewrite Hc. intros [= <- <-]. split_and!; [done..|]. intros later Hle.
  assert (forall e, entry_expired later e = false -> live later (mkStore (<[k := e]> s.(data)) false)
    = <[k := e.(value)]> (live later s)) as Hin.
  { intros e He. apply map_eq. intros i. rewrite lookup_live. simpl.
    destruct (decide (k = i)) as [->|]; [by rewrite !lookup_insert_eq, He|].
    by rewrite !lookup_insert_ne, lookup_live by done. }
  destruct (outlives now ttl later) eqn:Ho; unfold outlives in Ho.
  - apply Hin. apply not_expired_at_spec. simpl. unfold Add, zero_time. case_match; lia.
  - apply map_eq. intros i. rewrite lookup_live. simpl. destruct (decide (k = i)) as [->|].
    + rewrite lookup_insert_eq, lookup_delete_eq.
      assert (entry_expired later (mkEntry v (if (0 <? ttl)%Z then Add now ttl else zero_time)) = true) as ->;
        [|done]. apply entry_expired_spec. simpl. unfold Add, zero_time. case_match; lia.
    + by rewrite lookup_insert_ne, lookup_delete_ne, lookup_live.
Qed.

Lemma Delete_live now s k s' e :
  s.(closed) = false -> Delete None now s k = (s', e) ->
  e = None /\ s'.(closed) = false /\ forall later, live later s' = delete k (live later s).
Proof.
  intros Hc. unfold Delete. rewrite Hc. intros [= <- <-]. split_and!; [done..|]. intros later.
  apply map_eq. intros i. rewrite lookup_live. simpl. destruct (decide (k = i)) as [->|].
  - by rewrite !lookup_delete_eq.
  - by rewrite !lookup_delete_ne, lookup_live.
Qed.

Lemma List_live now s p :
  s.(closed) = false -> List None now s p = (s, Ok (keys_with_prefix p (live now s))).
Proof.
  intros Hc. unfold List. rewrite Hc. do 2 f_equal. rewrite List_keys. simpl.
  apply sort_strings_unique. apply NoDup_Permutation.
  - eapply sublist_NoDup; [apply (NoDup_range_keys s.(data))|apply fmap_sublist, sublist_filter].
  - apply NoDup_filter, NoDup_fst_map_to_list.
  - intros k. rewrite list_elem_of_filter, !list_elem_of_fmap. split.
    + intros ([i e] & -> & Hin). apply list_elem_of_filter in Hin as [[He Hp] Hin]. simpl in *.
      split; [done|]. exists (i, e.(value)). split; [done|]. apply elem_of_map_to_list.
      apply elem_of_range in Hin. rewrite lookup_live, Hin, He. done.
    + intros [Hp ([i v] & -> & Hin)]. apply elem_of_map_to_list in Hin. rewrite lookup_live in Hin.
      destruct (s.(data) !! i) as [e|] eqn:Hi; [|done]. destruct (entry_expired now e) eqn:He; [done|].
      exists (i, e). split; [done|]. apply list_elem_of_filter. split; [done|]. by apply elem_of_range.
Qed.

#[export] Instance memory_spec : KVSpec Store.
Proof.
  refine {| kv_at := live; kv_open s := s.(closed) = false |}; cbn.
  - exact live_mono.
  - intros ctx now s k s' r Hc. change (Get ctx now s k) with (Get None now s k). rewrite Get_live by done.
    intros [= <- <-]. split; [done|]. intros v. by destruct (live now s !! k); intros [= ->].
  - exact Get_live.
  - intros ctx now s k v ttl s' e Hc. unfold Set_. rewrite Hc. intros [= <- <-]. split; [done|].
    intros later i _ Hne. rewrite !lookup_live. simpl. by rewrite lookup_insert_ne.
  - intros ctx now s k v ttl s' e later w Hc. unfold Set_. rewrite Hc. intros [= <- <-] _. rewrite lookup_live. cbn [data].
    rewrite lookup_insert_eq. case_match; [done|]. intros [= <-]. by left.
  - intros now s k v ttl s' e Hnow Hc Hs. apply Set_live in Hs as (-> & _ & Hs); [|done..].
    split; [done|]. intros later Hle. rewrite Hs by done.
    case_match; [apply lookup_insert_eq|apply lookup_delete_eq].
  - intros ctx now s k s' e Hc. change (Delete ctx now s k) with (Delete None now s k).
    intros Hs. apply Delete_live in Hs as (_ & Hc' & Hs); [|done]. split; [done|]. intros later i _.
    rewrite Hs. destruct (decide (i = k)) as [->|]; [rewrite lookup_delete_eq; by right|].
    left. by rewrite lookup_delete_ne.
  - intros now s k s' e Hc Hs. apply Delete_live in Hs as (-> & _ & Hs); [|done].
    split; [done|]. intros later _. rewrite Hs. apply lookup_delete_eq.
  - exact List_live.
  - intros s s' e. unfold Close. destruct s.(closed) eqn:Hc; intros [= <- <-]; simpl; by rewrite ?Hc.
Defined.

Lemma run_closed h : (run h).(closed) = false.
Proof.
  induction h as [|[t [k v ttl|k|]] h IH]; simpl; [done|..].
  - unfold Set_. by rewrite IH.
  - unfold Delete. by rewrite IH.
  - unfold removeExpired. by rewrite IH.
Qed.

Lemma clock_pos now h : clock_ok now h -> (0 < now)%Z.
Proof. revert now. induction h as [|[t c] h IH]; intros now; simpl; [done|]. intros [? ?%IH]. lia. Qed.

Lemma removeExpired_live t now s :
  (t <= now)%Z -> s.(closed) = false -> live now (removeExpired t s) = live now s.
Proof.
  intros Hle Hc. apply map_eq. intros k. rewrite !lookup_live, lookup_removeExpired by done.
  destruct (s.(data) !! k) as [e|]; [|done]. destruct (entry_expired t e) eqn:Ht; [|done].
  destruct (entry_expired now e) eqn:Hn; [done|].
  apply entry_expired_spec in Ht. apply not_expired_at_spec in Hn. lia.
Qed.

Lemma run_live now h k :
  clock_ok now h ->
  live now (run h) !! k =
    match last_write k h with
    | Some (t, v, ttl) => if outlives t ttl now then Some v else None
    | None => None
    end.
Proof.
  revert now. induction h as [|[t c] h IH]; intros now Hclock; [done|].
  destruct Hclock as [Hle Hclock]. pose proof (run_closed h) as Hc.
  assert (clock_ok now h) as Hnow.
  { destruct h as [|[t' c'] h]; simpl in *; [lia|]. destruct Hclock. split; [lia|done]. }
  specialize (IH now Hnow). destruct c as [k' v ttl|k'|]; cbn [run fold_right call_step last_write].
  - destruct (Set_ None t _ k' v ttl) as [s' e] eqn:Hs.
    apply Set_live in Hs as (_ & _ & Hs); [|by eapply clock_pos|done]. simpl. rewrite Hs by done.
    case_decide as Hk.
    + subst k'. destruct (outlives t ttl now); [by rewrite lookup_insert_eq|by rewrite lookup_delete_eq].
    + rewrite <- IH. destruct (outlives t ttl now); [by rewrite lookup_insert_ne|by rewrite lookup_delete_ne].
  - destruct (Delete None t _ k') as [s' e] eqn:Hs. apply Delete_live in Hs as (_ & _ & Hs); [|done].
    simpl. rewrite Hs. case_decide as Hk; [subst; by rewrite lookup_delete_eq|].
    by rewrite lookup_delete_ne.
  - rewrite removeExpired_live by done. exact IH.
Qed.

(** *** Properties *)

(** Claim C16. The store is a map with time-to-live: after any history of sets, deletions and
    cleanups whose clock never steps back, [Get] answers the value of the last set of the key
    that no deletion followed, as long as its time-to-live has not run out, and [ErrNotFound]
    otherwise; [List] names exactly the keys [Get] finds, ascending. *)
Theorem Get_List_history now h k p :
  clock_ok now h ->
  Get None now (run h) k =
    (run h, match last_write k h with
            | Some (t, v, ttl) => if outlives t ttl now then Ok v else Err (err_kvs KvsErrNotFound)
            | None => Err (err_kvs KvsErrNotFound)
            end) /\
  exists l, List None now (run h) p = (run h, Ok l) /\ StronglySorted String.le l /\ NoDup l /\
    forall i, i ∈ l <-> String.prefix p i = true /\ exists v, Get None now (run h) i = (run h, Ok v).
Proof.
  intros Hclock. pose proof (run_closed h) as Hc. split.
  - rewrite Get_live, run_live by done. repeat case_match; simplify_eq; done.
  - eexists. split; [by apply List_live|]. split; [apply keys_with_prefix_sorted|]. split.
    { unfold keys_with_prefix. rewrite sort_strings_perm. apply NoDup_filter, NoDup_fst_map_to_list. }
    intros i. rewrite elem_of_keys_with_prefix. apply and_iff_compat_l. rewrite Get_live by done. split.
    + intros [v ->]. by exists v.
    + intros [v Hv]. destruct (live now (run h) !! i); [by eexists|done].
Qed.

(** A closed store answers [ErrClosed] to every operation, closing again succeeds, and
    the cleanup of a closed store does nothing. *)
Theorem closed_store now ctx s k v ttl p :
  let s' := (Close s).1 in
  Get ctx now s' k = (s', Err (err_kvs KvsErrClosed)) /\
  Set_ ctx now s' k v ttl = (s', Some (err_kvs KvsErrClosed)) /\
  Delete ctx now s' k = (s', Some (err_kvs KvsErrClosed)) /\
  List ctx now s' p = (s', Err (err_kvs KvsErrClosed)) /\
  Close s' = (s', None) /\ removeExpired now s' = s'.
Proof.
  intros s'. assert (s'.(closed) = true) as Hc by (subst s'; unfold Close; by destruct s.(closed) eqn:?).
  unfold Get, Set_, Delete, List, Close, removeExpired. rewrite Hc. done.
Qed.

End spec.

(** ** Witnesses *)

#[local] Existing Instance tree_order.

(** Newest first: "a" set for 10 ns at 5, "b" set forever at 6, "a" set again at 8. *)
Definition demo_history : list (time * call) :=
  [(20%Z, CallCleanup); (8%Z, CallSet "a" [x02] 10); (6%Z, CallSet "b" [x01] 0); (5%Z, CallSet "a" [x00] 10)].

Lemma Get_List_history_witness :
  Get None 18 (run (tail demo_history)) "a" = (run (tail demo_history), Ok [x02]) /\
  Get None 20 (run demo_history) "a" = (run demo_history, Err (err_kvs KvsErrNotFound)).
Proof.
  split.
  - apply (Get_List_history 18 (tail demo_history) "a" ""). repeat split; done.
  - apply (Get_List_history 20 demo_history "a" ""). repeat split; done.
Defined.
