(* ===== verification/SessionKvs.v ===== *)
(** * session/backend/kvs/kvs.go: the session store over a key-value store

    [KvsStore.Store] keeps each session as JSON under [KeyPrefix ++ id] and, per user, a JSON
    list of session IDs under [KeyPrefix ++ "user:" ++ userID].  It has no lock; each method is
    one step here, on the clock reading [now].  It is verified against [Kvs.KVSpec]. *)

From S2P Require Import Prelude GoLib Errors Sessions SessionStore Kvs KvsMemory.

Module KvsStore.
Section kvs.
Context `{E : SessionEnv} `{J : !SessionJSON} {B : Type} `{KV : !ListableStore B}.

Record Store := mkStore { backend : B; config : Config; closed : bool }.

Definition with_backend (b : B) (s : Store) : Store := mkStore b s.(config) s.(closed).

Definition New (b : B) (cfg : Config) : Store :=
  mkStore b
    (if decide (cfg.(KeyPrefix) = "")
     then mkConfig cfg.(CfgSiteID) cfg.(MaxSessionSize) cfg.(MaxSessionsPerUser) cfg.(DefaultTTL)
            cfg.(CleanupInterval) "session:"
     else cfg) false.

Definition sessionKey (s : Store) (id : string) : string := s.(config).(KeyPrefix) +:+ id.
Definition userSessionsKey (s : Store) (userID : string) : string :=
  s.(config).(KeyPrefix) +:+ "user:" +:+ userID.

(** [err == kvs.ErrNotFound] *)
Definition is_ErrNotFound (e : error) : bool :=
  match e with Sentinel (KvsSentinel KvsErrNotFound) => true | _ => false end.

(** The backend's operations on the store that holds it. *)
Definition backend_Get ctx now (s : Store) k : Store * result error bytes :=
  let '(b, r) := kv_Get ctx now s.(backend) k in (with_backend b s, r).
Definition backend_Set ctx now (s : Store) k v ttl : Store * option error :=
  let '(b, e) := kv_Set ctx now s.(backend) k v ttl in (with_backend b s, e).
Definition backend_Delete ctx now (s : Store) k : Store * option error :=
  let '(b, e) := kv_Delete ctx now s.(backend) k in (with_backend b s, e).
Definition backend_List ctx now (s : Store) p : Store * result error (list string) :=
  let '(b, r) := kv_List ctx now s.(backend) p in (with_backend b s, r).

(** *** The user index *)

Definition getUserSessionIDs ctx now (s : Store) (userKey : string) : Store * result error (list string) :=
  match backend_Get ctx now s userKey with
  | (s, Err err) => if is_ErrNotFound err then (s, Ok []) else (s, Err err)
  | (s, Ok data) => (s, unmarshal_ids data)
  end.

Definition addToUserIndex ctx now (s : Store) (userKey sessionID : string) (ttl : duration)
    : Store * option error :=
  match getUserSessionIDs ctx now s userKey with
  | (s, Err err) => (s, Some (Wrapf "read user index: " err ""))
  | (s, Ok sessionIDs) =>
      if decide (sessionID ∈ sessionIDs) then (s, None)
      else
        match marshal_ids (sessionIDs ++ [sessionID]) with
        | Err err => (s, Some err)
        | Ok data => backend_Set ctx now s userKey data (wrap64 (ttl + Hour))
        end
  end.

Definition removeFromUserIndex ctx now (s : Store) (userKey sessionID : string) : Store * option error :=
  match getUserSessionIDs ctx now s userKey with
  | (s, Err err) => (s, Some err)
  | (s, Ok []) => (s, None)
  | (s, Ok sessionIDs) =>
      match filter (fun id => id <> sessionID) sessionIDs with
      | [] => backend_Delete ctx now s userKey
      | filtered =>
          match marshal_ids filtered with
          | Err err => (s, Some err)
          | Ok data => backend_Set ctx now s userKey data 0
          end
      end
  end.

(** *** Operations *)

(** [ttl := sess.TTL(); if ttl <= 0 && s.config.DefaultTTL > 0 { ttl = s.config.DefaultTTL }] *)
Definition effective_ttl (now : time) (s : Store) (x : Session) : duration :=
  let ttl := TTL now x in
  if (ttl <=? 0)%Z && (0 <? s.(config).(DefaultTTL))%Z then s.(config).(DefaultTTL) else ttl.

Definition Create (ctx : context) (now : time) (s : Store) (sess : option Session) : Store * option error :=
  if s.(closed) then (s, Some (err_session ErrClosed))
  else
    match sess with
    | None => (s, Some (err_session ErrInvalidSession))
    | Some x =>
        if negb (ValidSessionID x.(ID)) then (s, Some (err_session ErrInvalidSession))
        else
          match marshal_session x with
          | Err err => (s, Some (Wrapf "failed to marshal session: " err ""))
          | Ok data =>
              let ttl := effective_ttl now s x in
              match backend_Set ctx now s (sessionKey s x.(ID)) data ttl with
              | (s, Some err) => (s, Some (Wrapf "failed to store session: " err ""))
              | (s, None) =>
                  let userID := uuid_string x.(UserID) in
                  let '(s, _) := addToUserIndex ctx now s (userSessionsKey s userID) x.(ID) ttl in
                  (s, None)
              end
          end
    end.

Definition Delete (ctx : context) (now : time) (s : Store) (id : string) : Store * option error :=
  if s.(closed) then (s, Some (err_session ErrClosed))
  else if negb (ValidSessionID id) then (s, None)
  else
    match backend_Get ctx now s (sessionKey s id) with
    | (s, Err err) =>
        if is_ErrNotFound err then (s, None)
        else (s, Some (Wrapf "failed to get session: " err ""))
    | (s, Ok data) =>
        match unmarshal_session data with
        | Err _ => (s, None)
        | Ok sess =>
            if decide (sess.(ID) <> id) then (s, None)
            else
              let userID := uuid_string sess.(UserID) in
              let '(s, _) := removeFromUserIndex ctx now s (userSessionsKey s userID) id in
              backend_Delete ctx now s (sessionKey s id)
        end
    end.

Definition Get (ctx : context) (now : time) (s : Store) (id : string) : Store * result error Session :=
  if s.(closed) then (s, Err (err_session ErrClosed))
  else if negb (ValidSessionID id) then (s, Err (err_session ErrNotFound))
  else
    match backend_Get ctx now s (sessionKey s id) with
    | (s, Err err) =>
        if is_ErrNotFound err then (s, Err (err_session ErrNotFound))
        else (s, Err (Wrapf "failed to get session: " err ""))
    | (s, Ok data) =>
        match unmarshal_session data with
        | Err err => (s, Err (Wrapf "failed to unmarshal session: " err ""))
        | Ok sess =>
            if decide (sess.(ID) <> id) then (s, Err (err_session ErrNotFound))
            else if IsExpired now sess then
              let '(s, _) := Delete ctx now s id in (s, Err (err_session ErrExpired))
            else (s, Ok sess)
        end
    end.

Definition Update (ctx : context) (now : time) (s : Store) (sess : option Session)
    : Store * option Session * option error :=
  if s.(closed) then (s, sess, Some (err_session ErrClosed))
  else
    match sess with
    | None => (s, sess, Some (err_session ErrInvalidSession))
    | Some x =>
        if negb (ValidSessionID x.(ID)) then (s, sess, Some (err_session ErrInvalidSession))
        else
          match backend_Get ctx now s (sessionKey s x.(ID)) with
          | (s, Err err) =>
              if is_ErrNotFound err then (s, sess, Some (err_session ErrNotFound))
              else (s, sess, Some (Wrapf "failed to check session existence: " err ""))
          | (s, Ok _) =>
              let x := set_UpdatedAt now x in
              match marshal_session x with
              | Err err => (s, Some x, Some (Wrapf "failed to marshal session: " err ""))
              | Ok data =>
                  match backend_Set ctx now s (sessionKey s x.(ID)) data (effective_ttl now s x) with
                  | (s, Some err) => (s, Some x, Some (Wrapf "failed to update session: " err ""))
                  | (s, None) => (s, Some x, None)
                  end
              end
          end
    end.

(** The loop of [DeleteByUserID]; a failure is logged and not counted. *)
Fixpoint delete_ids ctx now (ids : list string) (count : Z) (s : Store) : Store * Z :=
  match ids with
  | [] => (s, count)
  | id :: ids =>
      match backend_Delete ctx now s (sessionKey s id) with
      | (s, Some _) => delete_ids ctx now ids count s
      | (s, None) => delete_ids ctx now ids (count + 1) s
      end
  end.

Definition DeleteByUserID (ctx : context) (now : time) (s : Store) (userID : string)
    : Store * Z * option error :=
  if s.(closed) then (s, 0%Z, Some (err_session ErrClosed))
  else
    let userKey := userSessionsKey s userID in
    match getUserSessionIDs ctx now s userKey with
    | (s, Err err) => (s, 0%Z, Some err)
    | (s, Ok sessionIDs) =>
        let '(s, count) := delete_ids ctx now sessionIDs 0 s in
        let '(s, _) := backend_Delete ctx now s userKey in
        (s, count, None)
    end.

Definition Touch (ctx : context) (now : time) (s : Store) (id : string) : Store * option error :=
  match Get ctx now s id with
  | (s, Err err) => (s, Some err)
  | (s, Ok sess) => let '(s, _, e) := Update ctx now s (Some (set_LastAccessedAt now sess)) in (s, e)
  end.

Definition Close (s : Store) : Store * option error :=
  if s.(closed) then (s, None)
  else let '(b, e) := kv_Close s.(backend) in (mkStore b s.(config) true, e).

(** The loop of [ListByUserID]: sessions that cannot be read are skipped. *)
Fixpoint get_all ctx now (ids : list string) (s : Store) : Store * list Session :=
  match ids with
  | [] => (s, [])
  | id :: ids =>
      let '(s, r) := Get ctx now s id in
      let '(s, l) := get_all ctx now ids s in
      (s, match r with Ok x => x :: l | Err _ => l end)
  end.

Definition ListByUserID (ctx : context) (now : time) (s : Store) (userID : string)
    : Store * result error (list Session) :=
  if s.(closed) then (s, Err (err_session ErrClosed))
  else
    match getUserSessionIDs ctx now s (userSessionsKey s userID) with
    | (s, Err err) => (s, Err err)
    | (s, Ok []) => (s, Ok [])
    | (s, Ok sessionIDs) =>
        let '(s, l) := get_all ctx now sessionIDs s in
        (s, Ok (exchange_sort (fun a b => Before a.(CreatedAt) b.(CreatedAt)) l))
    end.

(** *** Cleanup of the indexes *)

(** The sessions of an index that the backend still holds. *)
Fixpoint keep_stored ctx now (ids : list string) (s : Store) : Store * list string :=
  match ids with
  | [] => (s, [])
  | id :: ids =>
      let '(s, r) := backend_Get ctx now s (sessionKey s id) in
      let '(s, l) := keep_stored ctx now ids s in
      (s, match r with Ok _ => id :: l | Err _ => l end)
  end.

(** One index; [None] is the panic of a list that does not marshal. *)
Definition cleanup_key ctx now (key : string) (s : Store) : option Store :=
  let userID := TrimPrefix key (s.(config).(KeyPrefix) +:+ "user:") in
  match getUserSessionIDs ctx now s key with
  | (s, Err _) => Some s
  | (s, Ok sessionIDs) =>
      let '(s, validIDs) := keep_stored ctx now sessionIDs s in
      if decide (length validIDs = 0) then
        let '(s, _) := backend_Delete ctx now s (userSessionsKey s userID) in Some s
      else if decide (length validIDs < length sessionIDs) then
        match marshal_ids validIDs with
        | Err _ => None
        | Ok data => let '(s, _) := backend_Set ctx now s key data 0 in Some s
        end
      else Some s
  end.

(** One tick of [cleanup], with [context.Background()]. *)
Definition cleanupOrphanedIndexes (now : time) (s : Store) : option Store :=
  match backend_List None now s (s.(config).(KeyPrefix) +:+ "user:") with
  | (s, Err _) => Some s
  | (s, Ok keys) => fold_left (fun s key => s ≫= cleanup_key None now key) keys (Some s)
  end.

#[global] Instance kvs_store : SessionStore Store := {
  st_Create := Create; st_Get := Get; st_Update := Update; st_Delete := Delete;
  st_DeleteByUserID := DeleteByUserID; st_Touch := Touch; st_Close := Close;
  st_Lister := Some ListByUserID
}.

End kvs.
Arguments Store : clear implicits.
End KvsStore.

Import KvsStore.

(** ** Lemmas *)

Section lemmas.
Context `{E : SessionEnv} `{J : !SessionJSON} {B : Type} `{KV : !ListableStore B} `{KS : !KVSpec B}.
Implicit Types (s : Store B) (x : Session).

Definition ok s : Prop := kv_open s.(backend).

(** The keys an operation on session [id] may write: its own and the indexes. *)
Definition own_keys (cfg : Config) (id : string) : string -> Prop :=
  fun k => k = cfg.(KeyPrefix) +:+ id \/ exists u, k = cfg.(KeyPrefix) +:+ "user:" +:+ u.

(** [s'] differs from [s] at most at the keys [K], now and later. *)
Record touches (now : time) (K : string -> Prop) s s' : Prop := {
  touches_config : s'.(config) = s.(config);
  touches_closed : s'.(closed) = s.(closed);
  touches_ok : ok s -> ok s';
  touches_frame later i :
    ok s -> (now <= later)%Z -> ~ K i -> kv_at later s'.(backend) !! i = kv_at later s.(backend) !! i
}.

Lemma touches_refl now K s : touches now K s s.
Proof. by split. Qed.

Lemma touches_trans now K s1 s2 s3 : touches now K s1 s2 -> touches now K s2 s3 -> touches now K s1 s3.
Proof.
  intros [c1 d1 o1 f1] [c2 d2 o2 f2]. split; [congruence..|auto|].
  intros later i Hok Hle Hi. rewrite f2, f1; auto.
Qed.

Lemma touches_weaken now (K K' : string -> Prop) s s' :
  (forall k, K k -> K' k) -> touches now K s s' -> touches now K' s s'.
Proof. intros HK []. split; eauto. Qed.

Lemma with_backend_id s : with_backend s.(backend) s = s.
Proof. by destruct s. Qed.

(** *** The backend's operations *)

Lemma backend_Get_any ctx now s k s' r :
  ok s -> backend_Get ctx now s k = (s', r) ->
  s' = s /\ forall v, r = Ok v -> kv_at now s.(backend) !! k = Some v.
Proof.
  unfold backend_Get. destruct (kv_Get _ _ _ _) as [b r'] eqn:Hg. intros Hok [= <- <-].
  apply kv_Get_any in Hg as [-> ?]; [|done]. split; [apply with_backend_id|done].
Qed.

Lemma backend_Get_None now s k :
  ok s -> backend_Get None now s k =
    (s, match kv_at now s.(backend) !! k with Some v => Ok v | None => Err (err_kvs KvsErrNotFound) end).
Proof. intros Hok. unfold backend_Get. rewrite kv_Get_spec by done. by rewrite with_backend_id. Qed.

Lemma backend_Set_touches ctx now s k v ttl s' e :
  ok s -> backend_Set ctx now s k v ttl = (s', e) -> touches now (fun i => i = k) s s'.
Proof.
  unfold backend_Set. destruct (kv_Set _ _ _ _ _ _) as [b e'] eqn:Hg. intros Hok [= <- <-].
  apply kv_Set_frame in Hg as [Hok' Hf]; [|done]. split; try done. intros later i _ ? ?. by apply Hf.
Qed.

Lemma backend_Set_None now s k v ttl s' e :
  (0 < now)%Z -> ok s -> backend_Set None now s k v ttl = (s', e) ->
  e = None /\ touches now (fun i => i = k) s s' /\
  forall later, (now <= later)%Z -> kv_at later s'.(backend) !! k = if outlives now ttl later then Some v else None.
Proof.
  intros Hnow Hok H. split; [|split; [by eapply backend_Set_touches|]]; revert H; unfold backend_Set;
    destruct (kv_Set _ _ _ _ _ _) as [b e'] eqn:Hg; intros [= <- <-];
    by apply kv_Set_spec in Hg as [-> ?].
Qed.

Lemma backend_Delete_touches ctx now s k s' e :
  ok s -> backend_Delete ctx now s k = (s', e) ->
  touches now (fun i => i = k) s s' /\
  (kv_at now s'.(backend) !! k = kv_at now s.(backend) !! k \/ kv_at now s'.(backend) !! k = None).
Proof.
  unfold backend_Delete. destruct (kv_Delete _ _ _ _) as [b e'] eqn:Hg. intros Hok [= <- <-].
  apply kv_Delete_frame in Hg as [Hok' Hf]; [|done]. split.
  - split; try done. intros later i _ Hle Hne. by destruct (Hf later i Hle) as [|[? _]].
  - destruct (Hf now k ltac:(lia)) as [|[_ ?]]; eauto.
Qed.

Lemma backend_Delete_None now s k s' e :
  ok s -> backend_Delete None now s k = (s', e) ->
  e = None /\ touches now (fun i => i = k) s s' /\
  forall later, (now <= later)%Z -> kv_at later s'.(backend) !! k = None.
Proof.
  intros Hok H. split; [|split; [by eapply backend_Delete_touches|]]; revert H; unfold backend_Delete;
    destruct (kv_Delete _ _ _ _) as [b e'] eqn:Hg; intros [= <- <-];
    by apply kv_Delete_spec in Hg as [-> ?].
Qed.

(** *** Keys *)

Lemma sessionKey_inj s a b : sessionKey s a = sessionKey s b -> a = b.
Proof. apply string_app_inj. Qed.

Lemma userSessionsKey_inj s a b : userSessionsKey s a = userSessionsKey s b -> a = b.
Proof. intros H%string_app_inj. by apply (string_app_inj "user:"). Qed.

(** A valid identifier is never at the key of an index: it has no colon. *)
Lemma sessionKey_not_index s id u : ValidSessionID id = true -> sessionKey s id <> userSessionsKey s u.
Proof.
  intros Hv H%string_app_inj. apply ValidSessionID_chars in Hv.
  rewrite H in Hv. change ("user:" +:+ u) with ("user" +:+ String ":" u) in Hv.
  by rewrite valid_id_no_colon in Hv.
Qed.

Lemma own_keys_other s id id' :
  ValidSessionID id' = true -> id' <> id -> ~ own_keys s.(config) id (sessionKey s id').
Proof.
  intros Hv Hne [H|[u H]]; [by apply sessionKey_inj in H|by apply sessionKey_not_index in H].
Qed.

(** *** The helpers of the index *)

Lemma getUserSessionIDs_same ctx now s k s' r : ok s -> getUserSessionIDs ctx now s k = (s', r) -> s' = s.
Proof.
  unfold getUserSessionIDs. intros Hok. destruct (backend_Get ctx now s k) as [s1 [v|err]] eqn:Hg;
    apply backend_Get_any in Hg as [-> _]; try done; repeat case_match; congruence.
Qed.

Lemma addToUserIndex_touches ctx now s k id ttl s' e :
  ok s -> addToUserIndex ctx now s k id ttl = (s', e) -> touches now (fun i => i = k) s s'.
Proof.
  unfold addToUserIndex. intros Hok. destruct (getUserSessionIDs ctx now s k) as [s1 [l|err]] eqn:Hg;
    apply getUserSessionIDs_same in Hg as ->; try done; [|intros [= <- <-]; apply touches_refl].
  case_decide; [intros [= <- <-]; apply touches_refl|].
  destruct (marshal_ids _); [by apply backend_Set_touches|intros [= <- <-]; apply touches_refl].
Qed.

Lemma removeFromUserIndex_touches ctx now s k id s' e :
  ok s -> removeFromUserIndex ctx now s k id = (s', e) -> touches now (fun i => i = k) s s'.
Proof.
  unfold removeFromUserIndex. intros Hok. destruct (getUserSessionIDs ctx now s k) as [s1 [l|err]] eqn:Hg;
    apply getUserSessionIDs_same in Hg as ->; try done; [|intros [= <- <-]; apply touches_refl].
  destruct l as [|i l]; [intros [= <- <-]; apply touches_refl|].
  destruct (filter _ _) as [|j r]; [intros H; by apply backend_Delete_touches in H as [? _]|].
  destruct (marshal_ids _); [by apply backend_Set_touches|intros [= <- <-]; apply touches_refl].
Qed.

Lemma own_key cfg id s : s.(config) = cfg -> own_keys cfg id (sessionKey s id).
Proof. intros <-. by left. Qed.
Lemma index_key cfg id s u : s.(config) = cfg -> own_keys cfg id (userSessionsKey s u).
Proof. intros <-. right. by exists u. Qed.

(** *** The operations *)

Lemma Create_touches ctx now s (x : Session) s' e :
  ok s -> Create ctx now s (Some x) = (s', e) -> touches now (own_keys s.(config) x.(ID)) s s'.
Proof.
  intros Hok. unfold Create. destruct s.(closed); [intros [= <- <-]; apply touches_refl|].
  case_match; [intros [= <- <-]; apply touches_refl|].
  destruct (marshal_session x) as [data|]; [|intros [= <- <-]; apply touches_refl]. cbv zeta.
  destruct (backend_Set _ _ _ _ _ _) as [s1 [err|]] eqn:Hs; apply backend_Set_touches in Hs as Ht; try done.
  { intros [= <- <-]. eapply touches_weaken; [|done]. intros k ->. by apply own_key. }
  destruct (addToUserIndex _ _ _ _ _ _) as [s2 e2] eqn:Ha. intros [= <- <-].
  apply addToUserIndex_touches in Ha; [|by eapply touches_ok]. eapply touches_trans.
  - eapply touches_weaken; [|done]. intros k ->. by apply own_key.
  - eapply touches_weaken; [|done]. intros k ->. apply index_key. by eapply touches_config.
Qed.

Lemma Delete_touches ctx now s id s' e :
  ok s -> Delete ctx now s id = (s', e) ->
  touches now (own_keys s.(config) id) s s' /\
  (ValidSessionID id = true ->
   kv_at now s'.(backend) !! sessionKey s id = kv_at now s.(backend) !! sessionKey s id \/
   kv_at now s'.(backend) !! sessionKey s id = None).
Proof.
  intros Hok. unfold Delete. destruct s.(closed); [intros [= <- <-]; auto using touches_refl|].
  destruct (ValidSessionID id) eqn:Hv; [|intros [= <- <-]; auto using touches_refl]. cbn [negb].
  destruct (backend_Get _ _ _ _) as [s1 r] eqn:Hg. apply backend_Get_any in Hg as [-> _]; [|done].
  destruct r as [data|err]; [|case_match; intros [= <- <-]; auto using touches_refl].
  destruct (unmarshal_session data) as [y|]; [|intros [= <- <-]; auto using touches_refl].
  case_decide; [intros [= <- <-]; auto using touches_refl|].
  destruct (removeFromUserIndex _ _ _ _ _) as [s1 e1] eqn:Hr. intros Hd.
  apply removeFromUserIndex_touches in Hr; [|done].
  apply backend_Delete_touches in Hd as [Hd Hk]; [|by eapply touches_ok].
  assert (sessionKey s1 id = sessionKey s id) as Hkey by (unfold sessionKey; by rewrite (touches_config _ _ _ _ Hr)).
  rewrite Hkey in Hd, Hk. split.
  - eapply touches_trans; (eapply touches_weaken; [|done]); intros k ->; [by apply index_key|by apply own_key].
  - intros _. rewrite <- (touches_frame _ _ _ _ Hr now); [done..|]. by apply sessionKey_not_index.
Qed.

Lemma Get_touches ctx now s id s' r :
  ok s -> Get ctx now s id = (s', r) -> touches now (own_keys s.(config) id) s s'.
Proof.
  intros Hok. unfold Get. destruct s.(closed); [intros [= <- <-]; apply touches_refl|].
  case_match; [intros [= <- <-]; apply touches_refl|].
  destruct (backend_Get _ _ _ _) as [s1 r1] eqn:Hg. apply backend_Get_any in Hg as [-> _]; [|done].
  destruct r1 as [data|err]; [|case_match; intros [= <- <-]; apply touches_refl].
  destruct (unmarshal_session data) as [y|]; [|intros [= <- <-]; apply touches_refl].
  case_decide; [intros [= <- <-]; apply touches_refl|].
  destruct (IsExpired now y); [|intros [= <- <-]; apply touches_refl].
  destruct (Delete _ _ _ _) as [s1 e1] eqn:Hd. intros [= <- <-]. by apply Delete_touches in Hd as [? _].
Qed.

Lemma Update_touches ctx now s x s' (x' : option Session) e :
  ok s -> Update ctx now s (Some x) = (s', x', e) -> touches now (own_keys s.(config) x.(ID)) s s'.
Proof.
  intros Hok. unfold Update. destruct s.(closed); [intros [= <- <- <-]; apply touches_refl|].
  case_match; [intros [= <- <- <-]; apply touches_refl|].
  destruct (backend_Get _ _ _ _) as [s1 r1] eqn:Hg. apply backend_Get_any in Hg as [-> _]; [|done].
  destruct r1 as [data|err]; [|case_match; intros [= <- <- <-]; apply touches_refl]. cbv zeta.
  destruct (marshal_session _) as [b|]; [|intros [= <- <- <-]; apply touches_refl].
  destruct (backend_Set _ _ _ _ _ _) as [s1 e1] eqn:Hs. apply backend_Set_touches in Hs; [|done].
  intros H1. assert (s' = s1) as -> by (by destruct e1; simplify_eq).
  eapply touches_weaken; [|done]. intros k ->. by apply own_key.
Qed.

(** The session the store holds under [id]: what [Get] reads, expired or not. *)
Definition stored (now : time) (s : Store B) (id : string) : option Session :=
  if ValidSessionID id then
    match kv_at now s.(backend) !! sessionKey s id with
    | Some data =>
        match unmarshal_session data with
        | Ok x => if decide (x.(ID) = id) then Some x else None
        | Err _ => None
        end
    | None => None
    end
  else None.

Lemma stored_ID now s id x : stored now s id = Some x -> x.(ID) = id.
Proof. unfold stored. repeat case_match; naive_solver. Qed.

Lemma stored_valid now s id x : stored now s id = Some x -> ValidSessionID id = true.
Proof. unfold stored. repeat case_match; naive_solver. Qed.

Lemma stored_eq now s s' id :
  s'.(config) = s.(config) ->
  (ValidSessionID id = true -> kv_at now s'.(backend) !! sessionKey s id = kv_at now s.(backend) !! sessionKey s id) ->
  stored now s' id = stored now s id.
Proof.
  intros Hc Hk. unfold stored. destruct (ValidSessionID id); [|done].
  assert (sessionKey s' id = sessionKey s id) as -> by (unfold sessionKey; by rewrite Hc). by rewrite Hk.
Qed.

Lemma stored_frame now s s' id id' :
  ok s -> touches now (own_keys s.(config) id) s s' -> id' <> id -> stored now s' id' = stored now s id'.
Proof.
  intros Hok Ht Hne. apply stored_eq; [by eapply touches_config|]. intros Hv.
  eapply touches_frame; [done..|lia|]. by apply own_keys_other.
Qed.

(** A successful [Get] read a stored, unexpired session and changed nothing. *)
Lemma Get_result ctx now s id s' x :
  ok s -> Get ctx now s id = (s', Ok x) ->
  s' = s /\ s.(closed) = false /\ stored now s id = Some x /\ IsExpired now x = false.
Proof.
  intros Hok. unfold Get, stored. destruct s.(closed); [done|]. destruct (ValidSessionID id); [|done].
  cbn [negb]. destruct (backend_Get _ _ _ _) as [s1 r1] eqn:Hg.
  apply backend_Get_any in Hg as [-> Hr]; [|done].
  destruct r1 as [data|err]; [|by case_match]. rewrite (Hr data eq_refl).
  destruct (unmarshal_session data) as [y|]; [|done].
  case_decide as Hy; [done|]. destruct (IsExpired now y) eqn:?; [by destruct (Delete _ _ _ _)|].
  intros [= <- <-]. rewrite decide_True; [done|]. by destruct (decide (y.(ID) = id)).
Qed.

(** [Get] never loses a session that has not expired. *)
Lemma Get_purges ctx now s id s' r id' :
  ok s -> Get ctx now s id = (s', r) -> only_purged now (stored now s) (stored now s') id'.
Proof.
  intros Hok Hg. pose proof (Get_touches _ _ _ _ _ _ Hok Hg) as Ht.
  destruct (decide (id' = id)) as [->|Hne]; [|left; by eapply stored_frame].
  revert Hg. unfold Get. destruct s.(closed); [intros [= <- <-]; by left|].
  destruct (ValidSessionID id) eqn:Hv; [|intros [= <- <-]; by left]. cbn [negb].
  destruct (backend_Get _ _ _ _) as [s1 r1] eqn:Hb. apply backend_Get_any in Hb as [-> Hr]; [|done].
  destruct r1 as [data|err]; [|case_match; intros [= <- <-]; by left].
  destruct (unmarshal_session data) as [y|] eqn:Hu; [|intros [= <- <-]; by left].
  case_decide as Hy; [intros [= <- <-]; by left|].
  destruct (IsExpired now y) eqn:Hexp; [|intros [= <- <-]; by left].
  destruct (Delete _ _ _ _) as [s1 e1] eqn:Hd. intros [= <- <-].
  apply Delete_touches in Hd as [_ Hd]; [|done]. destruct (Hd Hv) as [Hk|Hk].
  - left. apply stored_eq; [by eapply touches_config|done].
  - right. unfold stored. rewrite Hv.
    assert (sessionKey s1 id = sessionKey s id) as -> by (unfold sessionKey; by rewrite (touches_config _ _ _ _ Ht)).
    rewrite Hk, (Hr data eq_refl), Hu. split; [done|]. exists y. rewrite decide_True; [done|].
    by destruct (decide (y.(ID) = id)).
Qed.

Lemma Touch_touches ctx now s id s' e :
  ok s -> Touch ctx now s id = (s', e) -> touches now (own_keys s.(config) id) s s'.
Proof.
  intros Hok. unfold Touch. destruct (Get _ _ _ _) as [s1 r] eqn:Hg. apply Get_touches in Hg as Ht; [|done].
  destruct r as [x|err]; [|by intros [= <- <-]].
  destruct (Update _ _ _ _) as [[s2 x2] e2] eqn:Hu. intros [= <- <-].
  apply Update_touches in Hu; [|by eapply touches_ok]. rewrite (touches_config _ _ _ _ Ht) in Hu.
  eapply touches_trans; [done|]. apply Get_result in Hg as (_ & _ & Hx & _); [|done].
  change (ID (set_LastAccessedAt now x)) with x.(ID) in Hu. by rewrite (stored_ID _ _ _ _ Hx) in Hu.
Qed.

(** *** Listing *)

Lemma get_all_spec ctx now ids s s' l :
  ok s -> get_all ctx now ids s = (s', l) ->
  ok s' /\ s'.(config) = s.(config) /\
  (forall id, only_purged now (stored now s) (stored now s') id) /\
  forall x, x ∈ l -> x.(ID) ∈ ids /\ stored now s x.(ID) = Some x /\ IsExpired now x = false.
Proof.
  revert s s' l. induction ids as [|i ids IH]; intros s s' l Hok; simpl.
  { intros [= <- <-]. split_and!; [done..|by left|]. intros x Hx. by apply not_elem_of_nil in Hx. }
  destruct (Get ctx now s i) as [s1 r] eqn:Hg. destruct (get_all ctx now ids s1) as [s2 l'] eqn:Ha.
  intros [= <- <-]. apply Get_touches in Hg as Ht; [|done].
  apply IH in Ha as (Hok2 & Hc2 & Hp2 & Hl2); [|by eapply touches_ok].
  assert (forall id, only_purged now (stored now s) (stored now s1) id) as Hp by (intros id; by eapply Get_purges).
  split_and!; [done|rewrite Hc2; by eapply touches_config|intros id; by eapply only_purged_trans|].
  assert (forall x, x ∈ l' -> x.(ID) ∈ i :: ids /\ stored now s x.(ID) = Some x /\ IsExpired now x = false) as Hl'.
  { intros x Hx. apply Hl2 in Hx as (Hi & Hx & He). split_and!; [by right| |done].
    destruct (Hp x.(ID)) as [<-|[Hn _]]; congruence. }
  destruct r as [y|err]; [|exact Hl']. intros x [->|Hx]%elem_of_cons; [|by apply Hl'].
  apply Get_result in Hg as (_ & _ & Hx & He); [|done]. rewrite (stored_ID _ _ _ _ Hx). split_and!; [left|done..].
Qed.

Lemma ListByUserID_spec ctx now s u s' r :
  ok s -> ListByUserID ctx now s u = (s', r) ->
  ok s' /\ s'.(config) = s.(config) /\
  (forall id, only_purged now (stored now s) (stored now s') id) /\
  forall l x, r = Ok l -> x ∈ l -> stored now s x.(ID) = Some x /\ IsExpired now x = false.
Proof.
  intros Hok. unfold ListByUserID. destruct s.(closed).
  { intros [= <- <-]. split_and!; [done..|by left|done]. }
  destruct (getUserSessionIDs _ _ _ _) as [s1 [ids|err]] eqn:Hg; apply getUserSessionIDs_same in Hg as ->; try done.
  2: { intros [= <- <-]. split_and!; [done..|by left|done]. }
  destruct ids as [|i ids].
  { intros [= <- <-]. split_and!; [done..|by left|]. intros l x [= <-] Hx. by apply not_elem_of_nil in Hx. }
  destruct (get_all _ _ _ _) as [s1 l] eqn:Ha. intros [= <- <-].
  apply get_all_spec in Ha as (? & ? & ? & Hl); [|done]. split_and!; [done..|].
  intros l' x [= <-] Hx. unfold Before in Hx. rewrite (exchange_sort_perm CreatedAt) in Hx.
  apply Hl in Hx as (_ & ? & ?). done.
Qed.

(** The store keeps the contract of a session store. *)
#[export] Instance kvs_contract : StoreContract (Store B).
Proof.
  refine {| view := stored; store_ok := ok |}.
  - intros. by eapply stored_ID.
  - intros ctx now s [x|] s' e Hok H; [exact (touches_ok _ _ _ _ (Create_touches _ _ _ _ _ _ Hok H) Hok)|].
    revert H. cbn. unfold Create. case_match; by intros [= <- <-].
  - intros ctx now s x s' e id Hok H Hne. exact (stored_frame _ _ _ _ _ Hok (Create_touches _ _ _ _ _ _ Hok H) Hne).
  - intros ctx now s id s' r Hok H. exact (touches_ok _ _ _ _ (Get_touches _ _ _ _ _ _ Hok H) Hok).
  - intros ctx now s id s' r id' Hok H. exact (Get_purges _ _ _ _ _ _ _ Hok H).
  - intros ctx now s id s' x Hok H. by destruct (Get_result _ _ _ _ _ _ Hok H) as (_ & _ & ? & _).
  - intros ctx now s [x|] s' x' e Hok H; [exact (touches_ok _ _ _ _ (Update_touches _ _ _ _ _ _ _ Hok H) Hok)|].
    revert H. cbn. unfold Update. case_match; by intros [= <- <- <-].
  - intros ctx now s x s' x' e id Hok H Hne. exact (stored_frame _ _ _ _ _ Hok (Update_touches _ _ _ _ _ _ _ Hok H) Hne).
  - intros ctx now s id s' e Hok H. exact (touches_ok _ _ _ _ (proj1 (Delete_touches _ _ _ _ _ _ Hok H)) Hok).
  - intros ctx now s id s' e id' Hok H Hne. exact (stored_frame _ _ _ _ _ Hok (proj1 (Delete_touches _ _ _ _ _ _ Hok H)) Hne).
  - intros ctx now s id s' e Hok H. exact (touches_ok _ _ _ _ (Touch_touches _ _ _ _ _ _ Hok H) Hok).
  - intros ctx now s id s' e id' Hok H Hne. exact (stored_frame _ _ _ _ _ Hok (Touch_touches _ _ _ _ _ _ Hok H) Hne).
  - intros f ctx now s u s' r [= <-] Hok H. by destruct (ListByUserID_spec _ _ _ _ _ _ Hok H) as (? & _ & ? & _).
  - intros f ctx now s u s' r id [= <-] Hok H. by destruct (ListByUserID_spec _ _ _ _ _ _ Hok H) as (? & _ & ? & _).
  - intros f ctx now s u s' l x [= <-] Hok H Hx.
    destruct (ListByUserID_spec _ _ _ _ _ _ Hok H) as (_ & _ & _ & Hl). by apply (Hl l x).
Defined.

End lemmas.

#[export] Hint Resolve touches_refl : omni.

(** ** Properties *)

Section properties.
Context `{E : SessionEnv} `{J : !SessionJSON} {B : Type} `{KV : !ListableStore B} `{KS : !KVSpec B}.
Context `{JL : !SessionJSONLaws J ValidSessionID}.
Implicit Types (s : Store B) (x : Session).

Lemma Get_None now s id :
  ok s -> s.(closed) = false -> ValidSessionID id = true ->
  (Get None now s id).2 =
    match kv_at now s.(backend) !! sessionKey s id with
    | None => Err (err_session ErrNotFound)
    | Some d =>
        match unmarshal_session d with
        | Err err => Err (Wrapf "failed to unmarshal session: " err "")
        | Ok y => if decide (y.(ID) <> id) then Err (err_session ErrNotFound)
                  else if IsExpired now y then Err (err_session ErrExpired) else Ok y
        end
    end.
Proof.
  intros Hok Hc Hv. unfold Get. rewrite Hc, Hv. cbn [negb]. rewrite backend_Get_None by done.
  destruct (kv_at _ _ !! _) as [d|]; [|done]. destruct (unmarshal_session d); [|done].
  case_decide; [done|]. destruct (IsExpired now a); [|done]. by destruct (Delete _ _ _ _).
Qed.

Lemma getUserSessionIDs_None now s k :
  ok s -> getUserSessionIDs None now s k =
    (s, match kv_at now s.(backend) !! k with Some d => unmarshal_ids d | None => Ok [] end).
Proof.
  intros Hok. unfold getUserSessionIDs. rewrite backend_Get_None by done.
  by destruct (kv_at _ _ !! _).
Qed.

Lemma reread_expired now x : IsExpired now (reread x) = IsExpired now x.
Proof. unfold IsExpired. by destruct (reread_times x) as (_ & _ & _ & ->). Qed.

(** What [Create] writes, with a live context. *)
Lemma Create_None now s x data s' e :
  (0 < now)%Z -> ok s -> s.(closed) = false -> ValidSessionID x.(ID) = true ->
  marshal_session x = Ok data -> Create None now s (Some x) = (s', e) ->
  let ttl := effective_ttl now s x in
  let k := userSessionsKey s (uuid_string x.(UserID)) in
  e = None /\ touches now (own_keys s.(config) x.(ID)) s s' /\
  (forall later, (now <= later)%Z -> kv_at later s'.(backend) !! sessionKey s x.(ID)
     = if outlives now ttl later then Some data else None) /\
  (kv_at now s.(backend) !! k = None -> exists d, unmarshal_ids d = Ok [x.(ID)] /\
     forall later, (now <= later)%Z -> kv_at later s'.(backend) !! k
       = if outlives now (wrap64 (ttl + Hour)) later then Some d else None).
Proof.
  intros Hnow Hok Hc Hv Hm H ttl k. pose proof (Create_touches _ _ _ _ _ _ Hok H) as Ht.
  revert H. unfold Create. rewrite Hc, Hv, Hm. cbn [negb]. fold ttl.
  destruct (backend_Set _ _ _ _ _ _) as [s1 e1] eqn:Hs. apply backend_Set_None in Hs as (-> & Ht1 & Hk); [|done..].
  destruct (addToUserIndex _ _ _ _ _ _) as [s2 e2] eqn:Ha. intros [= <- <-].
  assert (userSessionsKey s1 (uuid_string x.(UserID)) = k) as Hk1
    by (unfold k, userSessionsKey; by rewrite (touches_config _ _ _ _ Ht1)). rewrite Hk1 in Ha.
  assert (ok s1) as Hok1 by by eapply touches_ok.
  pose proof (addToUserIndex_touches _ _ _ _ _ _ _ _ Hok1 Ha) as Ht2.
  assert (sessionKey s x.(ID) <> k) as Hne by by apply sessionKey_not_index.
  split_and!; [done..| |].
  - intros later Hle. rewrite (touches_frame _ _ _ _ Ht2); auto.
  - intros Hnone. assert (kv_at now s1.(backend) !! k = None) as Hn1.
    { rewrite (touches_frame _ _ _ _ Ht1); auto; lia. }
    revert Ha. unfold addToUserIndex. rewrite getUserSessionIDs_None, Hn1 by done.
    rewrite decide_False by apply not_elem_of_nil. simpl.
    destruct (unmarshal_marshal_ids [x.(ID)]) as (d & -> & Hd); [by apply Forall_singleton|].
    intros Ha. apply backend_Set_None in Ha as (_ & _ & Ha); [|done..]. by exists d.
Qed.

(** Claim C11. What [Create] stored, [Get] returns: from then on the session reads back (as JSON
    gives it back) until it expires, or until the time-to-live the store gave the record has run
    out; a record that has run out is not found. *)
Theorem Create_then_Get now later s x data s' e :
  (0 < now <= later)%Z -> ok s -> s.(closed) = false -> ValidSessionID x.(ID) = true ->
  marshal_session x = Ok data -> Create None now s (Some x) = (s', e) ->
  e = None /\
  (Get None later s' x.(ID)).2 =
    if outlives now (effective_ttl now s x) later
    then if IsExpired later x then Err (err_session ErrExpired) else Ok (reread x)
    else Err (err_session ErrNotFound).
Proof.
  intros Hnow Hok Hc Hv Hm H. apply Create_None with (data := data) in H as (-> & Ht & Hk & _); [|done || lia..].
  split; [done|]. rewrite Get_None; [|by eapply touches_ok|by rewrite (touches_closed _ _ _ _ Ht)|done].
  assert (sessionKey s' x.(ID) = sessionKey s x.(ID)) as -> by (unfold sessionKey; by rewrite (touches_config _ _ _ _ Ht)).
  rewrite Hk by lia. destruct (outlives _ _ _); [|done]. rewrite (unmarshal_marshal _ _ Hm).
  rewrite decide_False by (rewrite reread_ID by done; tauto). by rewrite reread_expired.
Qed.

(** The index forgets a session that never expires: stored without a time-to-live for
    a user without an index, it is still readable an hour later, but [ListByUserID] no longer
    names it and [DeleteByUserID] deletes nothing and reports success. *)
Theorem never_expiring_session_unindexed now later s x data s' e :
  (0 < now)%Z -> (now + Hour < later)%Z -> ok s -> s.(closed) = false ->
  ValidSessionID x.(ID) = true -> marshal_session x = Ok data ->
  x.(ExpiresAt) = 0%Z -> (s.(config).(DefaultTTL) <= 0)%Z ->
  kv_at now s.(backend) !! userSessionsKey s (uuid_string x.(UserID)) = None ->
  Create None now s (Some x) = (s', e) ->
  e = None /\ (Get None later s' x.(ID)).2 = Ok (reread x) /\
  ListByUserID None later s' (uuid_string x.(UserID)) = (s', Ok []) /\
  (DeleteByUserID None later s' (uuid_string x.(UserID))).1.2 = 0%Z /\
  (DeleteByUserID None later s' (uuid_string x.(UserID))).2 = None.
Proof.
  intros Hnow Hlater Hok Hc Hv Hm Hexp Hd Hnone H. unfold Hour in Hlater.
  assert (effective_ttl now s x = 0%Z) as Httl.
  { unfold effective_ttl, TTL. rewrite Hexp. simpl. by rewrite (proj2 (Z.ltb_ge _ _)). }
  apply Create_None with (data := data) in H as (-> & Ht & Hk & Hidx); [|done || lia..].
  rewrite Httl in *. destruct (Hidx Hnone) as (d & Hd1 & Hd2).
  assert (ok s') as Hok' by by eapply touches_ok.
  assert (s'.(closed) = false) as Hc' by (by rewrite (touches_closed _ _ _ _ Ht)).
  assert (getUserSessionIDs None later s' (userSessionsKey s' (uuid_string x.(UserID))) = (s', Ok [])) as Hg.
  { rewrite getUserSessionIDs_None by done.
    assert (userSessionsKey s' (uuid_string x.(UserID)) = userSessionsKey s (uuid_string x.(UserID))) as ->
      by (unfold userSessionsKey; by rewrite (touches_config _ _ _ _ Ht)).
    rewrite Hd2 by lia. unfold outlives. rewrite wrap64_id by (vm_compute; split; congruence). unfold Hour.
    rewrite (proj2 (Z.leb_gt later _)) by lia. done. }
  split_and!; [done| | | |].
  - rewrite Get_None by done.
    assert (sessionKey s' x.(ID) = sessionKey s x.(ID)) as -> by (unfold sessionKey; by rewrite (touches_config _ _ _ _ Ht)).
    rewrite Hk by lia. simpl. rewrite (unmarshal_marshal _ _ Hm).
    rewrite decide_False by (rewrite reread_ID by done; tauto). rewrite reread_expired. unfold IsExpired. by rewrite Hexp.
  - unfold ListByUserID. rewrite Hc', Hg. done.
  - unfold DeleteByUserID. rewrite Hc', Hg. simpl. by destruct (backend_Delete _ _ _ _).
  - unfold DeleteByUserID. rewrite Hc', Hg. simpl. by destruct (backend_Delete _ _ _ _).
Qed.

(** What [removeFromUserIndex] leaves of an index that reads as [ids]. *)
Lemma removeFromUserIndex_None now s k id d ids s' e :
  (0 < now)%Z -> ok s -> kv_at now s.(backend) !! k = Some d -> unmarshal_ids d = Ok ids ->
  Forall (fun i => ValidSessionID i = true) ids ->
  removeFromUserIndex None now s k id = (s', e) ->
  e = None /\ getUserSessionIDs None now s' k = (s', Ok (filter (fun i => i <> id) ids)).
Proof.
  intros Hnow Hok Hk Hd Hv H. pose proof (removeFromUserIndex_touches _ _ _ _ _ _ _ Hok H) as Ht.
  assert (ok s') as Hok' by by eapply touches_ok. rewrite getUserSessionIDs_None by done.
  revert H. unfold removeFromUserIndex. rewrite getUserSessionIDs_None by done. rewrite Hk, Hd.
  destruct ids as [|i ids]; [intros [= <- <-]; by rewrite Hk, Hd|].
  destruct (filter _ (i :: ids)) as [|j r] eqn:Hf.
  - intros H. apply backend_Delete_None in H as (-> & _ & Hn); [|done]. by rewrite Hn by lia.
  - destruct (unmarshal_marshal_ids (j :: r)) as (d' & -> & Hd').
    { rewrite <- Hf. by apply Forall_filter_elem. }
    intros H. apply backend_Set_None in H as (-> & _ & Hn); [|done..]. rewrite Hn, outlives_now by lia. by rewrite Hd'.
Qed.

(** [Delete] removes the session stored under the identifier, takes it out of its
    owner's index, and touches no other record; an identifier under which no session is stored,
    whatever else is there, is a no-op that succeeds. *)
Theorem Delete_exact now s id s' e :
  (0 < now)%Z -> ok s -> s.(closed) = false -> Delete None now s id = (s', e) ->
  e = None /\
  match stored now s id with
  | None => s' = s
  | Some x =>
      let k := userSessionsKey s (uuid_string x.(UserID)) in
      stored now s' id = None /\
      (forall i, i <> sessionKey s id -> i <> k ->
         kv_at now s'.(backend) !! i = kv_at now s.(backend) !! i) /\
      forall d ids, kv_at now s.(backend) !! k = Some d -> unmarshal_ids d = Ok ids ->
        Forall (fun i => ValidSessionID i = true) ids ->
        getUserSessionIDs None now s' k = (s', Ok (filter (fun i => i <> id) ids))
  end.
Proof.
  intros Hnow Hok Hc. unfold Delete, stored. rewrite Hc.
  destruct (ValidSessionID id) eqn:Hv; cbn [negb]; [|by intros [= <- <-]].
  rewrite backend_Get_None by done. destruct (kv_at _ _ !! _) as [data|] eqn:Hk; [|by intros [= <- <-]].
  destruct (unmarshal_session data) as [x|]; [|by intros [= <- <-]].
  destruct (decide (x.(ID) = id)) as [Hx|Hx]; [|rewrite decide_True by done; by intros [= <- <-]].
  rewrite decide_False by tauto. set (k := userSessionsKey s (uuid_string (UserID x))).
  destruct (removeFromUserIndex _ _ _ _ _) as [s1 e1] eqn:Hr.
  pose proof (removeFromUserIndex_touches _ _ _ _ _ _ _ Hok Hr) as Ht.
  assert (ok s1) as Hok1 by by eapply touches_ok.
  assert (sessionKey s1 id = sessionKey s id) as -> by (unfold sessionKey; by rewrite (touches_config _ _ _ _ Ht)).
  intros H. apply backend_Delete_None in H as (-> & Ht2 & Hgone); [|done]. split; [done|].
  assert (sessionKey s' id = sessionKey s id) as ->
    by (unfold sessionKey; by rewrite (touches_config _ _ _ _ Ht2), (touches_config _ _ _ _ Ht)).
  split_and!.
  - by rewrite Hgone by lia.
  - intros i Hi1 Hi2. rewrite (touches_frame _ _ _ _ Ht2), (touches_frame _ _ _ _ Ht); auto; lia.
  - intros d ids Hkd Hd Hall. eapply removeFromUserIndex_None in Hr as [_ Hr]; [|done..].
    assert (ok s') as Hok' by by eapply touches_ok.
    rewrite getUserSessionIDs_None in Hr |- * by done. rewrite (touches_frame _ _ _ _ Ht2); [congruence|done|lia|].
    apply not_eq_sym. by apply sessionKey_not_index.
Qed.

(** *** Listing, completely *)

Lemma Get_stored now s id x :
  ok s -> s.(closed) = false -> stored now s id = Some x -> IsExpired now x = false ->
  Get None now s id = (s, Ok x).
Proof.
  intros Hok Hc Hx He. pose proof (stored_valid _ _ _ _ Hx) as Hv.
  pose proof (Get_None now s id Hok Hc Hv) as Hg. destruct (Get None now s id) as [s' r] eqn:Hget.
  simpl in Hg. revert Hx. unfold stored. rewrite Hv. destruct (kv_at _ _ !! _) as [d|]; [|done].
  destruct (unmarshal_session d) as [y|]; [|done]. destruct (decide (y.(ID) = id)) as [Hy|]; [|done]. intros [= ->].
  rewrite decide_False, He in Hg by tauto. subst r. by apply Get_result in Hget as [-> _].
Qed.

Lemma get_all_complete now ids s s' l x :
  ok s -> s.(closed) = false -> get_all None now ids s = (s', l) ->
  x.(ID) ∈ ids -> stored now s x.(ID) = Some x -> IsExpired now x = false -> x ∈ l.
Proof.
  revert s s' l. induction ids as [|i ids IH]; intros s s' l Hok Hc; simpl.
  { intros _ Hi. by apply not_elem_of_nil in Hi. }
  destruct (Get None now s i) as [s1 r] eqn:Hg. destruct (get_all None now ids s1) as [s2 l'] eqn:Ha.
  intros [= <- <-] Hi Hx He. pose proof (Get_touches _ _ _ _ _ _ Hok Hg) as Ht.
  apply elem_of_cons in Hi as [Hi|Hi].
  - subst i. rewrite Get_stored with (x := x) in Hg by done. simplify_eq. left.
  - assert (x ∈ l') as Hl.
    { apply (IH s1 s2); [by eapply touches_ok|by rewrite (touches_closed _ _ _ _ Ht)|done|done| |done].
      destruct (Get_purges _ _ _ _ _ _ x.(ID) Hok Hg) as [|[_ (y & Hy & Hye)]]; congruence. }
    destruct r; [by right|done].
Qed.

(** [ListByUserID] returns, oldest first, exactly the sessions that the user's index
    names, that are stored and that have not expired; it purges no other session. *)
Theorem ListByUserID_exact now s u d ids :
  ok s -> s.(closed) = false ->
  kv_at now s.(backend) !! userSessionsKey s u = Some d -> unmarshal_ids d = Ok ids ->
  exists s' l, ListByUserID None now s u = (s', Ok l) /\
    StronglySorted (fun a b => (a.(CreatedAt) <= b.(CreatedAt))%Z) l /\
    (forall x, x ∈ l <-> x.(ID) ∈ ids /\ stored now s x.(ID) = Some x /\ IsExpired now x = false) /\
    forall id, only_purged now (stored now s) (stored now s') id.
Proof.
  intros Hok Hc Hk Hd. unfold ListByUserID. rewrite Hc, getUserSessionIDs_None, Hk, Hd by done.
  destruct ids as [|i ids].
  { exists s, []. split_and!; [done|constructor| |by left]. intros x. split.
    - intros Hx. by apply not_elem_of_nil in Hx.
    - intros [Hx _]. by apply not_elem_of_nil in Hx. }
  destruct (get_all None now (i :: ids) s) as [s' l] eqn:Ha. exists s', (exchange_sort (fun a b => Before (CreatedAt a) (CreatedAt b)) l).
  pose proof (get_all_spec _ _ _ _ _ _ Hok Ha) as (_ & _ & Hp & Hl).
  split_and!; [done|apply (exchange_sort_sorted CreatedAt)| |done].
  intros x. unfold Before. rewrite (exchange_sort_perm CreatedAt). split; [apply Hl|].
  intros (? & ? & ?). by eapply get_all_complete.
Qed.

(** *** Cleanup *)

(** The backend holds something at the session's key. *)
Definition present (now : time) (s : Store B) (id : string) : bool :=
  match kv_at now s.(backend) !! sessionKey s id with Some _ => true | None => false end.

Definition present_ids (now : time) (s : Store B) (ids : list string) : list string :=
  filter (fun id => present now s id = true) ids.

Lemma keep_stored_None now ids s :
  ok s -> keep_stored None now ids s = (s, present_ids now s ids).
Proof.
  intros Hok. induction ids as [|id ids IH]; [done|]. cbn [keep_stored].
  rewrite backend_Get_None, IH by done. unfold present_ids. rewrite filter_cons.
  destruct (kv_at _ _ !! _) eqn:Hk; case_decide as Hp; unfold present in Hp; by rewrite Hk in Hp.
Qed.

(** Every live index reads as a list of valid identifiers. *)
Definition indexes_ok (now : time) (s : Store B) : Prop :=
  forall u d, kv_at now s.(backend) !! userSessionsKey s u = Some d ->
    exists ids, unmarshal_ids d = Ok ids /\ Forall (fun id => ValidSessionID id = true) ids.

Lemma cleanup_key_None now s u d ids :
  (0 < now)%Z -> ok s -> kv_at now s.(backend) !! userSessionsKey s u = Some d -> unmarshal_ids d = Ok ids ->
  Forall (fun id => ValidSessionID id = true) ids ->
  exists s', cleanup_key None now (userSessionsKey s u) s = Some s' /\
    touches now (fun i => i = userSessionsKey s u) s s' /\
    getUserSessionIDs None now s' (userSessionsKey s u) = (s', Ok (present_ids now s ids)).
Proof.
  intros Hnow Hok Hk Hd Hall. unfold cleanup_key.
  assert (TrimPrefix (userSessionsKey s u) (KeyPrefix (config s) +:+ "user:") = u) as ->.
  { unfold userSessionsKey. rewrite string_app_assoc. apply TrimPrefix_app. }
  rewrite getUserSessionIDs_None, Hk, Hd, keep_stored_None by done. cbv zeta.
  case_decide as Hlen.
  - destruct (backend_Delete _ _ _ _) as [s' e] eqn:Hs. apply backend_Delete_None in Hs as (_ & Ht & Hn); [|done].
    exists s'. split_and!; [done..|]. rewrite getUserSessionIDs_None by (by eapply touches_ok).
    rewrite Hn by lia. by apply nil_length_inv in Hlen as ->.
  - case_decide as Hlt.
    + destruct (unmarshal_marshal_ids (present_ids now s ids)) as (d' & -> & Hd').
      { by apply Forall_filter_elem. }
      destruct (backend_Set _ _ _ _ _ _) as [s' e] eqn:Hs. apply backend_Set_None in Hs as (_ & Ht & Hn); [|done..].
      exists s'. split_and!; [done..|]. rewrite getUserSessionIDs_None by (by eapply touches_ok).
      rewrite Hn, outlives_now by lia. by rewrite Hd'.
    + exists s. split_and!; [done|apply touches_refl|]. rewrite getUserSessionIDs_None, Hk, Hd by done.
      do 2 f_equal. symmetry. apply filter_length_id. unfold present_ids in Hlt. lia.
Qed.

Lemma present_frame now s s' (K : string -> Prop) id :
  ok s -> touches now K s s' -> ~ K (sessionKey s id) -> present now s' id = present now s id.
Proof.
  intros Hok Ht HK. unfold present.
  assert (sessionKey s' id = sessionKey s id) as -> by (unfold sessionKey; by rewrite (touches_config _ _ _ _ Ht)).
  by rewrite (touches_frame _ _ _ _ Ht) by (done || lia).
Qed.

(** Cleaning up an index keeps the others and what is present. *)
Lemma after_cleanup now u s s1 :
  ok s -> touches now (fun i => i = userSessionsKey s u) s s1 ->
  ok s1 /\
  (forall v, userSessionsKey s1 v = userSessionsKey s v) /\
  (forall v, v <> u -> kv_at now s1.(backend) !! userSessionsKey s v = kv_at now s.(backend) !! userSessionsKey s v) /\
  forall ids, Forall (fun id => ValidSessionID id = true) ids -> present_ids now s1 ids = present_ids now s ids.
Proof.
  intros Hok Ht. split_and!.
  - by eapply touches_ok.
  - intros v. unfold userSessionsKey. by rewrite (touches_config _ _ _ _ Ht).
  - intros v Hne. apply (touches_frame _ _ _ _ Ht); [done|lia|]. by intros ?%userSessionsKey_inj.
  - intros ids Hv. apply filter_ext_elem. intros id Hid. rewrite Forall_forall in Hv.
    rewrite (present_frame _ _ _ _ _ Hok Ht); [done|]. apply sessionKey_not_index. by apply Hv.
Qed.

Lemma cleanup_keys_None now us s :
  (0 < now)%Z -> ok s -> NoDup us -> indexes_ok now s ->
  Forall (fun u => is_Some (kv_at now s.(backend) !! userSessionsKey s u)) us ->
  exists s', fold_left (fun o key => o ≫= cleanup_key None now key) (userSessionsKey s <$> us) (Some s) = Some s' /\
    touches now (fun i => exists u, u ∈ us /\ i = userSessionsKey s u) s s' /\
    forall u d ids, u ∈ us -> kv_at now s.(backend) !! userSessionsKey s u = Some d -> unmarshal_ids d = Ok ids ->
      getUserSessionIDs None now s' (userSessionsKey s u) = (s', Ok (present_ids now s ids)).
Proof.
  intros Hnow. revert s. induction us as [|u us IH]; intros s Hok Hnd Hidx Hall.
  { exists s. split_and!; [done|apply touches_refl|]. intros u d ids Hu. by apply not_elem_of_nil in Hu. }
  apply NoDup_cons in Hnd as [Hu Hnd]. apply Forall_cons in Hall as [[d Hd] Hall].
  destruct (Hidx u d Hd) as (ids & Hids & Hv).
  destruct (cleanup_key_None now s u d ids Hnow Hok Hd Hids Hv) as (s1 & Hc & Ht & Hg).
  destruct (after_cleanup now u s s1 Hok Ht) as (Hok1 & Hkey & Hother & Hpres).
  destruct (IH s1) as (s2 & Hf & Ht2 & Hg2); [done|done| | |].
  { intros v dv. rewrite Hkey. destruct (decide (v = u)) as [->|Hne]; [|rewrite Hother by done; apply Hidx].
    intros Hdv. rewrite getUserSessionIDs_None, Hdv in Hg by done.
    exists (present_ids now s ids). split; [congruence|by apply Forall_filter_elem]. }
  { rewrite Forall_forall in Hall |- *. intros v Hvin. rewrite Hkey, Hother by (by intros ->). by apply Hall. }
  exists s2. split_and!.
  - rewrite fmap_cons. cbn [fold_left mbind option_bind]. rewrite Hc. rewrite <- (list_fmap_ext (userSessionsKey s1) (userSessionsKey s) us); [done|].
    intros; apply Hkey.
  - eapply touches_trans; (eapply touches_weaken; [|done]); simpl.
    + intros k ->. exists u. split; [left|done].
    + intros k (v & Hvin & ->). rewrite Hkey. exists v. split; [by right|done].
  - intros v dv idv Hvin Hdv Hidv. destruct (decide (v = u)) as [->|Hne].
    + assert (idv = ids) as -> by congruence. assert (ok s2) as Hok2 by by eapply touches_ok.
      rewrite getUserSessionIDs_None in Hg |- * by done. rewrite (touches_frame _ _ _ _ Ht2); [congruence|done|lia|].
      intros (w & Hw & Heq). rewrite Hkey in Heq. by apply userSessionsKey_inj in Heq as ->.
    + apply elem_of_cons in Hvin as [|Hvin]; [done|]. destruct (Hidx v dv Hdv) as (idv' & Hidv' & Hvv).
      assert (idv' = idv) as -> by congruence.
      rewrite <- Hpres, <- Hkey by done. apply (Hg2 v dv); [done|by rewrite Hkey, Hother|done].
Qed.

(** The live keys below the prefix of the indexes. *)
Lemma index_keys now s :
  exists us, keys_with_prefix (KeyPrefix (config s) +:+ "user:") (kv_at now s.(backend)) = userSessionsKey s <$> us /\
    NoDup us /\ forall u, u ∈ us <-> is_Some (kv_at now s.(backend) !! userSessionsKey s u).
Proof.
  set (p := KeyPrefix (config s) +:+ "user:"). set (l := keys_with_prefix p _).
  assert (forall u, userSessionsKey s u = p +:+ u) as Hkey by (intros u; apply string_app_assoc).
  exists ((fun k => TrimPrefix k p) <$> l).
  assert (userSessionsKey s <$> ((fun k => TrimPrefix k p) <$> l) = l) as Hl.
  { rewrite <- list_fmap_compose. rewrite <- (list_fmap_id l) at 2. apply list_fmap_ext. intros i k Hk. simpl.
    apply list_elem_of_lookup_2 in Hk. apply elem_of_keys_with_prefix in Hk as [Hp _].
    apply prefix_split in Hp as [t ->]. by rewrite TrimPrefix_app, Hkey. }
  split_and!; [done| |].
  - apply (NoDup_fmap_1 (userSessionsKey s)). rewrite Hl. apply NoDup_keys_with_prefix.
  - intros u. rewrite list_elem_of_fmap. split.
    + intros (k & -> & Hk). apply elem_of_keys_with_prefix in Hk as [Hp Hs].
      apply prefix_split in Hp as [t ->]. by rewrite TrimPrefix_app, Hkey.
    + intros Hs. exists (p +:+ u). rewrite TrimPrefix_app. split; [done|].
      apply elem_of_keys_with_prefix. rewrite <- Hkey. split; [|done]. rewrite Hkey. apply prefix_app.
Qed.

(** Claim C34. The cleanup of the indexes never touches a session and never panics: afterwards
    every session is as it was, and each index reads as its former identifiers less those under
    which the backend holds nothing any more. *)
Theorem cleanup_exact now s :
  (0 < now)%Z -> ok s -> indexes_ok now s ->
  exists s', cleanupOrphanedIndexes now s = Some s' /\
    (forall id, stored now s' id = stored now s id) /\
    forall u d ids, kv_at now s.(backend) !! userSessionsKey s u = Some d -> unmarshal_ids d = Ok ids ->
      getUserSessionIDs None now s' (userSessionsKey s u) = (s', Ok (present_ids now s ids)).
Proof.
  intros Hnow Hok Hidx. unfold cleanupOrphanedIndexes, backend_List.
  rewrite kv_List_spec, with_backend_id by done. destruct (index_keys now s) as (us & -> & Hnd & Hus).
  destruct (cleanup_keys_None now us s) as (s' & Hf & Ht & Hg); [done..| |].
  { apply Forall_forall. intros u. apply Hus. }
  exists s'. split_and!; [done| |].
  - intros id. apply stored_eq; [by eapply touches_config|]. intros Hv.
    apply (touches_frame _ _ _ _ Ht); [done|lia|]. intros (u & _ & Heq). by apply sessionKey_not_index in Heq.
  - intros u d ids Hd Hids. apply (Hg u d); [|done..]. apply Hus. by eexists.
Qed.

End properties.

(** ** Witnesses *)

#[local] Existing Instance demo_env.
#[local] Existing Instance demo_json.
#[local] Existing Instance demo_json_laws.
#[local] Existing Instance tree_order.

(** No default time-to-live, over the memory key-value store; user 1 has "a" (stored at 5, no
    expiry) and "b" (stored at 6, expiring at 50). *)
Definition demo_empty : Store KvsMem.Store := New KvsMem.New (mkConfig "" 0 0 0 0 "").
Definition demo_one : Store KvsMem.Store := (Create None 5 demo_empty (Some (demo_session "a" 1 "" 20 0))).1.
Definition demo_two : Store KvsMem.Store := (Create None 6 demo_one (Some (demo_session "b" 1 "" 10 50))).1.

Definition demo_index : bytes := bits_of (encode ["a"; "b"]).

Lemma demo_index_at now :
  (now = 7 \/ now = 60)%Z -> kv_at now demo_two.(backend) !! userSessionsKey demo_two "1" = Some demo_index.
Proof. intros [-> | ->]; vm_compute; reflexivity. Qed.

Lemma demo_index_ids : unmarshal_ids demo_index = Ok ["a"; "b"].
Proof. vm_compute. reflexivity. Qed.

Lemma Create_then_Get_witness :
  exists s' e, Create None 6 demo_one (Some (demo_session "b" 1 "" 10 50)) = (s', e) /\
    (Get None 50 s' "b").2 = Ok (demo_session "b" 1 "" 10 50) /\
    (Get None 51 s' "b").2 = Err (err_session ErrNotFound).
Proof.
  destruct (Create None 6 demo_one (Some (demo_session "b" 1 "" 10 50))) as [s' e] eqn:Hc.
  exists s', e. split; [done|]. split.
  - destruct (Create_then_Get 6 50 demo_one (demo_session "b" 1 "" 10 50)
      (bits_of (encode (fields_of (demo_session "b" 1 "" 10 50)))) s' e) as [_ H]; try done; exact H.
  - destruct (Create_then_Get 6 51 demo_one (demo_session "b" 1 "" 10 50)
      (bits_of (encode (fields_of (demo_session "b" 1 "" 10 50)))) s' e) as [_ H]; try done; exact H.
Defined.

Lemma never_expiring_session_unindexed_witness :
  exists s' e, Create None 5 demo_empty (Some (demo_session "a" 1 "" 20 0)) = (s', e) /\
    (Get None 3600000000006 s' "a").2 = Ok (demo_session "a" 1 "" 20 0) /\
    (DeleteByUserID None 3600000000006 s' "1").1.2 = 0%Z.
Proof.
  destruct (Create None 5 demo_empty (Some (demo_session "a" 1 "" 20 0))) as [s' e] eqn:Hc.
  exists s', e. split; [done|].
  destruct (never_expiring_session_unindexed 5 3600000000006 demo_empty (demo_session "a" 1 "" 20 0)
      (bits_of (encode (fields_of (demo_session "a" 1 "" 20 0)))) s' e) as (_ & Hg & _ & Hd & _);
    try done; (exact (conj Hg Hd) || (vm_compute; done)).
Defined.

Lemma Delete_exact_witness :
  exists s', Delete None 7 demo_two "a" = (s', None) /\ stored 7 s' "a" = None /\
    getUserSessionIDs None 7 s' (userSessionsKey demo_two "1") = (s', Ok ["b"]).
Proof.
  destruct (Delete None 7 demo_two "a") as [s' e] eqn:Hd.
  destruct (Delete_exact 7 demo_two "a" s' e) as [-> H]; [done|vm_compute; done|vm_compute; done|done|].
  exists s'. split; [done|].
  assert (stored 7 demo_two "a" = Some (demo_session "a" 1 "" 20 0)) as Hs by (vm_compute; reflexivity).
  rewrite Hs in H. destruct H as (Hgone & _ & Hidx). split; [done|].
  apply (Hidx demo_index ["a"; "b"]); [by apply demo_index_at; left|apply demo_index_ids|].
  repeat constructor.
Defined.

Lemma ListByUserID_exact_witness :
  exists s' l, ListByUserID None 7 demo_two "1" = (s', Ok l) /\ demo_session "b" 1 "" 10 50 ∈ l.
Proof.
  destruct (ListByUserID_exact 7 demo_two "1" demo_index ["a"; "b"]) as (s' & l & Hl & _ & Hx & _);
    [vm_compute; done|vm_compute; done|by apply demo_index_at; left|apply demo_index_ids|].
  exists s', l. split; [done|]. apply Hx. split; [by right; left|].
  split; vm_compute; reflexivity.
Defined.

Lemma demo_indexes_ok : indexes_ok 60 demo_two.
Proof.
  intros u d Hd. change (kv_at 60 demo_two.(backend)) with (KvsMem.live 60 demo_two.(backend)) in Hd.
  assert (KvsMem.live 60 demo_two.(backend)
    = list_to_map [(sessionKey demo_two "a", bits_of (encode (fields_of (demo_session "a" 1 "" 20 0))));
                   (userSessionsKey demo_two "1", demo_index)]) as Hm by (vm_compute; reflexivity).
  rewrite Hm in Hd. apply elem_of_list_to_map_2 in Hd.
  apply elem_of_cons in Hd as [Hd|Hd%list_elem_of_singleton].
  - apply (f_equal fst) in Hd. cbn [fst] in Hd. by apply eq_sym, sessionKey_not_index in Hd.
  - apply (f_equal snd) in Hd. cbn [snd] in Hd. subst d. exists ["a"; "b"]. split; [apply demo_index_ids|repeat constructor].
Qed.

Lemma cleanup_exact_witness :
  exists s', cleanupOrphanedIndexes 60 demo_two = Some s' /\
    getUserSessionIDs None 60 s' (userSessionsKey demo_two "1") = (s', Ok ["a"]).
Proof.
  destruct (cleanup_exact 60 demo_two) as (s' & Hs & _ & Hi); [done|vm_compute; done|apply demo_indexes_ok|].
  exists s'. split; [done|].
  rewrite (Hi "1" demo_index ["a"; "b"]); [|by apply demo_index_at; right|apply demo_index_ids].
  reflexivity.
Defined.
