(* ===== verification/SessionKvsCalls.v ===== *)
(** * session/backend/kvs/kvs.go, one backend call at a time

    The store of kvs.go has no lock: between two calls to its backend any other operation may run.
    Here each operation is a program that asks the backend one request after the other, with what
    it does next given by the answer; run without interruption it is the operation of
    [SessionKvs] ([run_op]).  [SessionKvsRaces] interleaves them. *)

From S2P Require Import Prelude GoLib Errors Sessions SessionStore Kvs SessionKvs.

Import KvsStore.

(** ** Programs *)

(** What an operation asks of the state it shares: whether the store is closed, and the calls of
    its backend. *)
Inductive request :=
  | IsClosed
  | KGet (key : string)
  | KSet (key : string) (value : bytes) (ttl : duration)
  | KDelete (key : string)
  | KList (prefix : string).

Definition answer (r : request) : Type :=
  match r with
  | IsClosed => bool
  | KGet _ => result error bytes
  | KSet _ _ _ | KDelete _ => option error
  | KList _ => result error (list string)
  end.

Inductive prog (A : Type) :=
  | Ret (a : A)
  | Ask (r : request) (k : answer r -> prog A).
Arguments Ret {A} a.
Arguments Ask {A} r k.

#[export] Instance prog_bind : MBind prog := fun A B f =>
  fix bind p := match p with Ret a => f a | Ask r k => Ask r (fun x => bind (k x)) end.

Definition ask (r : request) : prog (answer r) := Ask r Ret.

Section programs.
Context `{E : SessionEnv} `{J : !SessionJSON}.

(** What an operation gives back. *)
Inductive outcome :=
  | GaveError (e : option error)
  | GaveSession (r : result error Session)
  | GaveUpdate (x : option Session) (e : option error)
  | GaveCount (count : Z) (e : option error)
  | GaveList (r : result error (list Session))
  | Ticked
  | Panicked.

(** The operations, and a tick of [cleanup]. *)
Inductive op :=
  | OpCreate (sess : option Session)
  | OpGet (id : string)
  | OpUpdate (sess : option Session)
  | OpDelete (id : string)
  | OpDeleteByUserID (userID : string)
  | OpTouch (id : string)
  | OpListByUserID (userID : string)
  | OpCleanup.

Variables (cfg : Config) (now : time).

Definition session_key (id : string) : string := cfg.(KeyPrefix) +:+ id.
Definition user_key (userID : string) : string := cfg.(KeyPrefix) +:+ "user:" +:+ userID.

Definition p_getUserSessionIDs (userKey : string) : prog (result error (list string)) :=
  r ← ask (KGet userKey);
  match r with
  | Err err => Ret (if is_ErrNotFound err then Ok [] else Err err)
  | Ok data => Ret (unmarshal_ids data)
  end.

Definition p_addToUserIndex (userKey sessionID : string) (ttl : duration) : prog (option error) :=
  r ← p_getUserSessionIDs userKey;
  match r with
  | Err err => Ret (Some (Wrapf "read user index: " err ""))
  | Ok sessionIDs =>
      if decide (sessionID ∈ sessionIDs) then Ret None
      else
        match marshal_ids (sessionIDs ++ [sessionID]) with
        | Err err => Ret (Some err)
        | Ok data => ask (KSet userKey data (wrap64 (ttl + Hour)))
        end
  end.

Definition p_removeFromUserIndex (userKey sessionID : string) : prog (option error) :=
  r ← p_getUserSessionIDs userKey;
  match r with
  | Err err => Ret (Some err)
  | Ok [] => Ret None
  | Ok sessionIDs =>
      match filter (fun id => id <> sessionID) sessionIDs with
      | [] => ask (KDelete userKey)
      | filtered =>
          match marshal_ids filtered with
          | Err err => Ret (Some err)
          | Ok data => ask (KSet userKey data 0)
          end
      end
  end.

Definition ttl_of (x : Session) : duration :=
  let ttl := TTL now x in
  if (ttl <=? 0)%Z && (0 <? cfg.(DefaultTTL))%Z then cfg.(DefaultTTL) else ttl.

Definition p_Create (sess : option Session) : prog (option error) :=
  closed ← ask IsClosed;
  if closed : bool then Ret (Some (err_session ErrClosed))
  else
    match sess with
    | None => Ret (Some (err_session ErrInvalidSession))
    | Some x =>
        if negb (ValidSessionID x.(ID)) then Ret (Some (err_session ErrInvalidSession))
        else
          match marshal_session x with
          | Err err => Ret (Some (Wrapf "failed to marshal session: " err ""))
          | Ok data =>
              e ← ask (KSet (session_key x.(ID)) data (ttl_of x));
              match e with
              | Some err => Ret (Some (Wrapf "failed to store session: " err ""))
              | None => _ ← p_addToUserIndex (user_key (uuid_string x.(UserID))) x.(ID) (ttl_of x); Ret None
              end
          end
    end.

Definition p_Delete (id : string) : prog (option error) :=
  closed ← ask IsClosed;
  if closed : bool then Ret (Some (err_session ErrClosed))
  else if negb (ValidSessionID id) then Ret None
  else
    r ← ask (KGet (session_key id));
    match r with
    | Err err => Ret (if is_ErrNotFound err then None else Some (Wrapf "failed to get session: " err ""))
    | Ok data =>
        match unmarshal_session data with
        | Err _ => Ret None
        | Ok sess =>
            if decide (sess.(ID) <> id) then Ret None
            else
              _ ← p_removeFromUserIndex (user_key (uuid_string sess.(UserID))) id;
              ask (KDelete (session_key id))
        end
    end.

Definition p_Get (id : string) : prog (result error Session) :=
  closed ← ask IsClosed;
  if closed : bool then Ret (Err (err_session ErrClosed))
  else if negb (ValidSessionID id) then Ret (Err (err_session ErrNotFound))
  else
    r ← ask (KGet (session_key id));
    match r with
    | Err err =>
        Ret (Err (if is_ErrNotFound err then err_session ErrNotFound else Wrapf "failed to get session: " err ""))
    | Ok data =>
        match unmarshal_session data with
        | Err err => Ret (Err (Wrapf "failed to unmarshal session: " err ""))
        | Ok sess =>
            if decide (sess.(ID) <> id) then Ret (Err (err_session ErrNotFound))
            else if IsExpired now sess then _ ← p_Delete id; Ret (Err (err_session ErrExpired))
            else Ret (Ok sess)
        end
    end.

(** [Update] with its session, whose [UpdatedAt] it sets. *)
Definition p_Update (sess : option Session) : prog (option Session * option error) :=
  closed ← ask IsClosed;
  if closed : bool then Ret (sess, Some (err_session ErrClosed))
  else
    match sess with
    | None => Ret (sess, Some (err_session ErrInvalidSession))
    | Some x =>
        if negb (ValidSessionID x.(ID)) then Ret (sess, Some (err_session ErrInvalidSession))
        else
          r ← ask (KGet (session_key x.(ID)));
          match r with
          | Err err =>
              Ret (sess, Some (if is_ErrNotFound err then err_session ErrNotFound
                               else Wrapf "failed to check session existence: " err ""))
          | Ok _ =>
              let x := set_UpdatedAt now x in
              match marshal_session x with
              | Err err => Ret (Some x, Some (Wrapf "failed to marshal session: " err ""))
              | Ok data =>
                  e ← ask (KSet (session_key x.(ID)) data (ttl_of x));
                  Ret (Some x, match e with Some err => Some (Wrapf "failed to update session: " err "") | None => None end)
              end
          end
    end.

Definition p_Touch (id : string) : prog (option error) :=
  r ← p_Get id;
  match r with
  | Err err => Ret (Some err)
  | Ok sess => '(_, e) ← p_Update (Some (set_LastAccessedAt now sess)); Ret e
  end.

Fixpoint p_delete_ids (ids : list string) (count : Z) : prog Z :=
  match ids with
  | [] => Ret count
  | id :: ids =>
      e ← ask (KDelete (session_key id));
      match e with
      | Some _ => p_delete_ids ids count
      | None => p_delete_ids ids (count + 1)%Z
      end
  end.

Definition p_DeleteByUserID (userID : string) : prog (Z * option error) :=
  closed ← ask IsClosed;
  if closed : bool then Ret (0%Z, Some (err_session ErrClosed))
  else
    r ← p_getUserSessionIDs (user_key userID);
    match r with
    | Err err => Ret (0%Z, Some err)
    | Ok sessionIDs =>
        count ← p_delete_ids sessionIDs 0;
        _ ← ask (KDelete (user_key userID));
        Ret (count, None)
    end.

Fixpoint p_get_all (ids : list string) : prog (list Session) :=
  match ids with
  | [] => Ret []
  | id :: ids => r ← p_Get id; l ← p_get_all ids; Ret (match r with Ok x => x :: l | Err _ => l end)
  end.

Definition p_ListByUserID (userID : string) : prog (result error (list Session)) :=
  closed ← ask IsClosed;
  if closed : bool then Ret (Err (err_session ErrClosed))
  else
    r ← p_getUserSessionIDs (user_key userID);
    match r with
    | Err err => Ret (Err err)
    | Ok [] => Ret (Ok [])
    | Ok sessionIDs =>
        l ← p_get_all sessionIDs;
        Ret (Ok (exchange_sort (fun a b => Before a.(CreatedAt) b.(CreatedAt)) l))
    end.

Fixpoint p_keep_stored (ids : list string) : prog (list string) :=
  match ids with
  | [] => Ret []
  | id :: ids =>
      r ← ask (KGet (session_key id)); l ← p_keep_stored ids;
      Ret (match r with Ok _ => id :: l | Err _ => l end)
  end.

(** Whether it ended without a panic. *)
Definition p_cleanup_key (key : string) : prog bool :=
  let userID := TrimPrefix key (cfg.(KeyPrefix) +:+ "user:") in
  r ← p_getUserSessionIDs key;
  match r with
  | Err _ => Ret true
  | Ok sessionIDs =>
      validIDs ← p_keep_stored sessionIDs;
      if decide (length validIDs = 0) then _ ← ask (KDelete (user_key userID)); Ret true
      else if decide (length validIDs < length sessionIDs) then
        match marshal_ids validIDs with
        | Err _ => Ret false
        | Ok data => _ ← ask (KSet key data 0); Ret true
        end
      else Ret true
  end.

Fixpoint p_cleanup_keys (keys : list string) : prog bool :=
  match keys with
  | [] => Ret true
  | key :: keys => ok ← p_cleanup_key key; if ok : bool then p_cleanup_keys keys else Ret false
  end.

Definition p_cleanup : prog bool :=
  r ← ask (KList (cfg.(KeyPrefix) +:+ "user:"));
  match r with
  | Err _ => Ret true
  | Ok keys => p_cleanup_keys keys
  end.

Definition op_prog (o : op) : prog outcome :=
  match o with
  | OpCreate sess => e ← p_Create sess; Ret (GaveError e)
  | OpGet id => r ← p_Get id; Ret (GaveSession r)
  | OpUpdate sess => '(x, e) ← p_Update sess; Ret (GaveUpdate x e)
  | OpDelete id => e ← p_Delete id; Ret (GaveError e)
  | OpDeleteByUserID userID => '(n, e) ← p_DeleteByUserID userID; Ret (GaveCount n e)
  | OpTouch id => e ← p_Touch id; Ret (GaveError e)
  | OpListByUserID userID => r ← p_ListByUserID userID; Ret (GaveList r)
  | OpCleanup => ok ← p_cleanup; Ret (if ok : bool then Ticked else Panicked)
  end.

End programs.

(** ** Running a program by itself *)

Section running.
Context `{E : SessionEnv} `{J : !SessionJSON} {B : Type} `{KV : !ListableStore B}.

Definition handle (ctx : context) (now : time) (r : request) (s : Store B) : Store B * answer r :=
  match r with
  | IsClosed => (s, s.(closed))
  | KGet key => backend_Get ctx now s key
  | KSet key value ttl => backend_Set ctx now s key value ttl
  | KDelete key => backend_Delete ctx now s key
  | KList prefix => backend_List ctx now s prefix
  end.

Fixpoint run {A} (ctx : context) (now : time) (p : prog A) (s : Store B) : Store B * A :=
  match p with
  | Ret a => (s, a)
  | Ask r k => let '(s, x) := handle ctx now r s in run ctx now (k x) s
  end.

(** The operations of [SessionKvs]; [None] is a panic. *)
Definition whole_op (ctx : context) (now : time) (o : op) (s : Store B) : option (Store B * outcome) :=
  match o with
  | OpCreate sess => let '(s, e) := Create ctx now s sess in Some (s, GaveError e)
  | OpGet id => let '(s, r) := Get ctx now s id in Some (s, GaveSession r)
  | OpUpdate sess => let '(s, x, e) := Update ctx now s sess in Some (s, GaveUpdate x e)
  | OpDelete id => let '(s, e) := Delete ctx now s id in Some (s, GaveError e)
  | OpDeleteByUserID userID => let '(s, n, e) := DeleteByUserID ctx now s userID in Some (s, GaveCount n e)
  | OpTouch id => let '(s, e) := Touch ctx now s id in Some (s, GaveError e)
  | OpListByUserID userID => let '(s, r) := ListByUserID ctx now s userID in Some (s, GaveList r)
  | OpCleanup => s ← cleanupOrphanedIndexes now s; Some (s, Ticked)
  end.

(** [cleanup] calls with the background context. *)
Definition op_ctx (ctx : context) (o : op) : context := match o with OpCleanup => None | _ => ctx end.

Lemma run_bind {A A'} ctx now (p : prog A) (f : A -> prog A') s :
  run ctx now (p ≫= f) s = (let '(s, a) := run ctx now p s in run ctx now (f a) s).
Proof.
  revert s. induction p as [a|r k IH]; intros s; [done|]. cbn. destruct (handle ctx now r s) as [s' x]. apply IH.
Qed.

Lemma run_IsClosed ctx now s : run (A:=bool) ctx now (ask IsClosed) s = (s, s.(closed)).
Proof. done. Qed.
Lemma run_KGet ctx now s k : run (A:=result error bytes) ctx now (ask (KGet k)) s = backend_Get ctx now s k.
Proof. cbn. by destruct (backend_Get _ _ _ _). Qed.
Lemma run_KSet ctx now s k v ttl : run (A:=option error) ctx now (ask (KSet k v ttl)) s = backend_Set ctx now s k v ttl.
Proof. cbn. by destruct (backend_Set _ _ _ _ _ _). Qed.
Lemma run_KDelete ctx now s k : run (A:=option error) ctx now (ask (KDelete k)) s = backend_Delete ctx now s k.
Proof. cbn. by destruct (backend_Delete _ _ _ _). Qed.
Lemma run_KList ctx now s p : run (A:=result error (list string)) ctx now (ask (KList p)) s = backend_List ctx now s p.
Proof. cbn. by destruct (backend_List _ _ _ _). Qed.

(** Requests change neither the configuration nor [closed]. *)
Lemma handle_config ctx now r s s' x :
  handle ctx now r s = (s', x) -> s'.(config) = s.(config) /\ s'.(closed) = s.(closed).
Proof.
  destruct r; cbn; unfold backend_Get, backend_Set, backend_Delete, backend_List; try (repeat case_match; intros; by simplify_eq/=).
Qed.

Lemma run_config {A} ctx now (p : prog A) s s' a :
  run ctx now p s = (s', a) -> s'.(config) = s.(config) /\ s'.(closed) = s.(closed).
Proof.
  revert s. induction p as [b|r k IH]; intros s; cbn; [by intros [= <- <-]|].
  destruct (handle ctx now r s) as [s1 x] eqn:Hh. apply handle_config in Hh as [<- <-]. apply IH.
Qed.

Lemma run_getUserSessionIDs ctx now s k :
  run ctx now (p_getUserSessionIDs k) s = getUserSessionIDs ctx now s k.
Proof.
  unfold p_getUserSessionIDs, getUserSessionIDs. rewrite run_bind, run_KGet. cbn.
  destruct (backend_Get ctx now s k) as [s1 [d|err]]; [done|]. cbn. by case_match.
Qed.

Lemma run_addToUserIndex ctx now s k id ttl :
  run ctx now (p_addToUserIndex k id ttl) s = addToUserIndex ctx now s k id ttl.
Proof.
  unfold p_addToUserIndex, addToUserIndex. rewrite run_bind, run_getUserSessionIDs.
  destruct (getUserSessionIDs ctx now s k) as [s1 [l|err]]; [|done]. case_decide; [done|].
  destruct (marshal_ids _); [first [apply run_KSet|apply run_KDelete]|done].
Qed.

Lemma run_removeFromUserIndex ctx now s k id :
  run ctx now (p_removeFromUserIndex k id) s = removeFromUserIndex ctx now s k id.
Proof.
  unfold p_removeFromUserIndex, removeFromUserIndex. rewrite run_bind, run_getUserSessionIDs.
  destruct (getUserSessionIDs ctx now s k) as [s1 [[|i l]|err]]; [done| |done].
  destruct (filter _ (i :: l)); [first [apply run_KSet|apply run_KDelete]|]. destruct (marshal_ids _); [first [apply run_KSet|apply run_KDelete]|done].
Qed.

Lemma run_Create ctx now s sess : run ctx now (p_Create s.(config) now sess) s = Create ctx now s sess.
Proof.
  unfold p_Create, Create. rewrite run_bind, run_IsClosed. destruct s.(closed); [done|].
  destruct sess as [x|]; [|done]. case_match; [done|]. destruct (marshal_session x) as [data|]; [|done].
  rewrite run_bind, run_KSet. change (effective_ttl now s x) with (ttl_of s.(config) now x).
  change (session_key s.(config)) with (sessionKey s).
  destruct (backend_Set ctx now s (sessionKey s x.(ID)) data (ttl_of s.(config) now x)) as [s1 [err|]] eqn:Hs; [done|].
  apply (handle_config _ _ (KSet _ _ _)) in Hs as [Hc _]. rewrite run_bind, run_addToUserIndex.
  unfold userSessionsKey. rewrite Hc. by destruct (addToUserIndex _ _ _ _ _ _).
Qed.

Lemma run_Delete ctx now s id : run ctx now (p_Delete s.(config) id) s = Delete ctx now s id.
Proof.
  unfold p_Delete, Delete. rewrite run_bind, run_IsClosed. destruct s.(closed); [done|].
  case_match; [done|]. rewrite run_bind, run_KGet. change (session_key s.(config)) with (sessionKey s).
  destruct (backend_Get ctx now s (sessionKey s id)) as [s1 [data|err]] eqn:Hg; [|cbn; by case_match].
  apply (handle_config _ _ (KGet _)) in Hg as [Hc _]. destruct (unmarshal_session data) as [y|]; [|done].
  case_decide; [done|]. rewrite run_bind, run_removeFromUserIndex.
  change (user_key s.(config)) with (userSessionsKey s). unfold userSessionsKey, sessionKey. rewrite Hc.
  destruct (removeFromUserIndex _ _ _ _ _) as [s2 e2] eqn:Hr. rewrite run_KDelete.
  rewrite <-run_removeFromUserIndex in Hr. apply run_config in Hr as [Hc2 _]. by rewrite Hc2, Hc.
Qed.

Lemma run_Get ctx now s id : run ctx now (p_Get s.(config) now id) s = Get ctx now s id.
Proof.
  unfold p_Get, Get. rewrite run_bind, run_IsClosed. destruct s.(closed); [done|].
  case_match; [done|]. rewrite run_bind, run_KGet. change (session_key s.(config)) with (sessionKey s).
  destruct (backend_Get ctx now s (sessionKey s id)) as [s1 [data|err]] eqn:Hg; [|cbn; by case_match].
  apply (handle_config _ _ (KGet _)) in Hg as [Hc _]. destruct (unmarshal_session data) as [y|]; [|done].
  case_decide; [done|]. destruct (IsExpired now y); [|done]. rewrite run_bind, <-Hc, run_Delete.
  by destruct (Delete ctx now s1 id).
Qed.

Lemma run_Update ctx now s sess :
  run ctx now (p_Update s.(config) now sess) s = (let '(s, x, e) := Update ctx now s sess in (s, (x, e))).
Proof.
  unfold p_Update, Update. rewrite run_bind, run_IsClosed. destruct s.(closed); [done|].
  destruct sess as [x|]; [|done]. case_match; [done|]. rewrite run_bind, run_KGet.
  change (session_key s.(config)) with (sessionKey s).
  destruct (backend_Get ctx now s (sessionKey s x.(ID))) as [s1 [data|err]] eqn:Hg; [|cbn; by case_match].
  apply (handle_config _ _ (KGet _)) in Hg as [Hc _]. cbv zeta. destruct (marshal_session _) as [d|]; [|done].
  rewrite run_bind, run_KSet. change (ttl_of s.(config) now) with (effective_ttl now s).
  unfold effective_ttl, sessionKey. rewrite Hc. by destruct (backend_Set _ _ _ _ _ _) as [? [?|]].
Qed.

Lemma run_Touch ctx now s id : run ctx now (p_Touch s.(config) now id) s = Touch ctx now s id.
Proof.
  unfold p_Touch, Touch. rewrite run_bind, run_Get. destruct (Get ctx now s id) as [s1 [x|err]] eqn:Hg; [|done].
  rewrite <-run_Get in Hg. apply run_config in Hg as [<- _]. rewrite run_bind, run_Update.
  by destruct (Update _ _ _ _) as [[??]?].
Qed.

Lemma run_delete_ids ctx now ids count s :
  run ctx now (p_delete_ids s.(config) ids count) s = delete_ids ctx now ids count s.
Proof.
  revert count s. induction ids as [|id ids IH]; intros count s; [done|]. cbn [p_delete_ids delete_ids].
  rewrite run_bind, run_KDelete. change (session_key s.(config) id) with (sessionKey s id).
  destruct (backend_Delete ctx now s (sessionKey s id)) as [s1 [err|]] eqn:Hd;
    apply (handle_config _ _ (KDelete _)) in Hd as [<- _]; apply IH.
Qed.

Lemma run_DeleteByUserID ctx now s u :
  run ctx now (p_DeleteByUserID s.(config) u) s = (let '(s, n, e) := DeleteByUserID ctx now s u in (s, (n, e))).
Proof.
  unfold p_DeleteByUserID, DeleteByUserID. rewrite run_bind, run_IsClosed. destruct s.(closed); [done|].
  change (user_key s.(config) u) with (userSessionsKey s u). rewrite run_bind, run_getUserSessionIDs.
  destruct (getUserSessionIDs ctx now s (userSessionsKey s u)) as [s1 [l|err]] eqn:Hg; [|done].
  rewrite <-run_getUserSessionIDs in Hg. apply run_config in Hg as [<- _]. rewrite run_bind, run_delete_ids.
  destruct (delete_ids ctx now l 0 s1) as [s2 n]. rewrite run_bind, run_KDelete.
  by destruct (backend_Delete _ _ _ _).
Qed.

Lemma run_get_all ctx now ids s : run ctx now (p_get_all s.(config) now ids) s = get_all ctx now ids s.
Proof.
  revert s. induction ids as [|id ids IH]; intros s; [done|]. cbn [p_get_all get_all]. rewrite run_bind, run_Get.
  destruct (Get ctx now s id) as [s1 r] eqn:Hg. rewrite <-run_Get in Hg. apply run_config in Hg as [<- _].
  rewrite run_bind, IH. by destruct (get_all ctx now ids s1).
Qed.

Lemma run_ListByUserID ctx now s u : run ctx now (p_ListByUserID s.(config) now u) s = ListByUserID ctx now s u.
Proof.
  unfold p_ListByUserID, ListByUserID. rewrite run_bind, run_IsClosed. destruct s.(closed); [done|].
  change (user_key s.(config) u) with (userSessionsKey s u). rewrite run_bind, run_getUserSessionIDs.
  destruct (getUserSessionIDs ctx now s (userSessionsKey s u)) as [s1 [l|err]] eqn:Hg; [|done].
  rewrite <-run_getUserSessionIDs in Hg. apply run_config in Hg as [<- _]. destruct l as [|i l]; [done|].
  rewrite run_bind, run_get_all. by destruct (get_all ctx now (i :: l) s1).
Qed.

Lemma run_keep_stored ctx now ids s : run ctx now (p_keep_stored s.(config) ids) s = keep_stored ctx now ids s.
Proof.
  revert s. induction ids as [|id ids IH]; intros s; [done|]. cbn [p_keep_stored keep_stored]. rewrite run_bind, run_KGet.
  change (session_key s.(config) id) with (sessionKey s id).
  destruct (backend_Get ctx now s (sessionKey s id)) as [s1 r] eqn:Hg.
  apply (handle_config _ _ (KGet _)) in Hg as [<- _]. rewrite run_bind, IH. by destruct (keep_stored ctx now ids s1).
Qed.

Lemma run_cleanup_key ctx now key s :
  match cleanup_key ctx now key s with
  | Some s' => run ctx now (p_cleanup_key s.(config) key) s = (s', true)
  | None => (run ctx now (p_cleanup_key s.(config) key) s).2 = false
  end.
Proof.
  unfold p_cleanup_key, cleanup_key. cbv zeta. rewrite run_bind, run_getUserSessionIDs.
  destruct (getUserSessionIDs ctx now s key) as [s1 [l|err]] eqn:Hg; [|done].
  rewrite <-run_getUserSessionIDs in Hg. apply run_config in Hg as [<- _]. rewrite run_bind, run_keep_stored.
  destruct (keep_stored ctx now l s1) as [s2 valid] eqn:Hk. rewrite <-run_keep_stored in Hk. apply run_config in Hk as [<- _].
  case_decide as Hlen; cbn [answer].
  - rewrite run_bind, run_KDelete. unfold userSessionsKey, user_key. by destruct (backend_Delete _ _ _ _).
  - case_decide; [|done]. destruct (marshal_ids valid); [|done]. rewrite run_bind, run_KSet.
    by destruct (backend_Set _ _ _ _ _ _).
Qed.

Lemma cleanup_keys_panic ctx now keys : fold_left (fun s key => s ≫= cleanup_key (KV:=KV) ctx now key) keys None = None.
Proof. by induction keys. Qed.

Lemma run_cleanup_keys ctx now keys s :
  match fold_left (fun s key => s ≫= cleanup_key ctx now key) keys (Some s) with
  | Some s' => run ctx now (p_cleanup_keys s.(config) keys) s = (s', true)
  | None => (run ctx now (p_cleanup_keys s.(config) keys) s).2 = false
  end.
Proof.
  revert s. induction keys as [|key keys IH]; intros s; [done|]. cbn [p_cleanup_keys fold_left mbind option_bind].
  pose proof (run_cleanup_key ctx now key s) as Hk. rewrite run_bind. destruct (cleanup_key ctx now key s) as [s1|].
  - rewrite Hk. apply run_config in Hk as [<- _]. apply IH.
  - rewrite cleanup_keys_panic. destruct (run _ _ _ _) as [s1 ok]. simpl in Hk. by subst.
Qed.

Lemma run_cleanup now s :
  match cleanupOrphanedIndexes now s with
  | Some s' => run None now (p_cleanup s.(config)) s = (s', true)
  | None => (run None now (p_cleanup s.(config)) s).2 = false
  end.
Proof.
  unfold p_cleanup, cleanupOrphanedIndexes. rewrite run_bind, run_KList.
  destruct (backend_List _ _ _ _) as [s1 [keys|err]] eqn:Hl; [|done].
  apply (handle_config _ _ (KList _)) in Hl as [<- _]. apply run_cleanup_keys.
Qed.

(** One call at a time, uninterrupted, every program is its operation: it leaves the same
    store and gives the same outcome, a panic where the operation panics. *)
Theorem run_op ctx now o s :
  match whole_op ctx now o s with
  | Some (s', a) => run (op_ctx ctx o) now (op_prog s.(config) now o) s = (s', a)
  | None => (run (op_ctx ctx o) now (op_prog s.(config) now o) s).2 = Panicked
  end.
Proof.
  destruct o as [x|i|x|i|u|i|u|]; cbn [whole_op op_prog op_ctx]; rewrite run_bind.
  - rewrite run_Create. by destruct (Create _ _ _ _).
  - rewrite run_Get. by destruct (Get _ _ _ _).
  - rewrite run_Update. by destruct (Update _ _ _ _) as [[??]?].
  - rewrite run_Delete. by destruct (Delete _ _ _ _).
  - rewrite run_DeleteByUserID. by destruct (DeleteByUserID _ _ _ _) as [[??]?].
  - rewrite run_Touch. by destruct (Touch _ _ _ _).
  - rewrite run_ListByUserID. by destruct (ListByUserID _ _ _ _).
  - pose proof (run_cleanup now s) as Hc. destruct (cleanupOrphanedIndexes now s) as [s1|]; cbn [mbind option_bind].
    + by rewrite Hc.
    + destruct (run _ _ _ _) as [s1 ok]. simpl in Hc. by subst.
Qed.

End running.
