(* ===== verification/SessionKvsRaces.v ===== *)
(** * session/backend/kvs/kvs.go under concurrent calls

    session.Store is documented as safe for concurrent use.  Here any number of operations of one
    store run at once, one backend call of one of them at a time, in every order: what stays safe
    ([interleaved_isolation]), and what does not ([update_undoes_delete],
    [concurrent_Creates_lose_index]). *)

From S2P Require Import Prelude GoLib Errors Sessions SessionStore Kvs KvsMemory SessionKvs SessionKvsCalls.

Import KvsStore.

(** ** The machine *)

Section machine.
Context `{E : SessionEnv} `{J : !SessionJSON} {B : Type} `{KV : !ListableStore B}.

(** An operation under way, with what is left of it; the context of a [live] one does not end. *)
Record thread := mkThread { t_op : op; t_live : bool; t_prog : prog outcome }.

Record state := mkState { clock : time; shared : Store B; threads : list thread }.

(** A thread makes its next call, or an operation of [allowed] starts. *)
Inductive step (allowed : op -> Prop) : state -> state -> Prop :=
  | step_call now now' s ts i o live r k ctx s' x :
      (now <= now')%Z -> ts !! i = Some (mkThread o live (Ask r k)) -> (live = true -> ctx = None) ->
      handle ctx now' r s = (s', x) ->
      step allowed (mkState now s ts) (mkState now' s' (<[i := mkThread o live (k x)]> ts))
  | step_start now now' s ts o live :
      (now <= now')%Z -> allowed o -> (o = OpCleanup -> live = true) ->
      step allowed (mkState now s ts) (mkState now' s (ts ++ [mkThread o live (op_prog s.(config) now' o)])).

(** The machine by a list of moves, each a thread's number and the time of its call. *)
Fixpoint schedule (moves : list (nat * time)) (st : state) : state :=
  match moves with
  | [] => st
  | (i, now) :: moves =>
      schedule moves
        match st.(threads) !! i with
        | Some (mkThread o live (Ask r k)) =>
            let '(s, x) := handle None now r st.(shared) in
            mkState now s (<[i := mkThread o live (k x)]> st.(threads))
        | _ => st
        end
  end.

Definition outcome_of (st : state) (i : nat) : option outcome :=
  match st.(threads) !! i with Some (mkThread _ _ (Ret a)) => Some a | _ => None end.

Lemma clock_mono allowed st st' : rtc (step allowed) st st' -> (st.(clock) <= st'.(clock))%Z.
Proof. induction 1 as [|? ? ? Hs _ IH]; [lia|]. destruct Hs; cbn in *; lia. Qed.

Lemma schedule_steps allowed moves st :
  StronglySorted Z.le (st.(clock) :: map snd moves) -> rtc (step allowed) st (schedule moves st).
Proof.
  revert st. induction moves as [|[i now] moves IH]; intros [t s ts] Hs; [constructor|]. cbn [map fst snd clock schedule] in *.
  apply StronglySorted_inv in Hs as [Hs Hle]. apply Forall_cons in Hle as [Hnow Hle].
  assert (StronglySorted Z.le (t :: map snd moves)) as Hs'.
  { constructor; [by apply StronglySorted_inv in Hs as []|done]. }
  destruct (ts !! i) as [[o live [a|r k]]|] eqn:Hi; cbn [threads shared]; rewrite ?Hi; try by apply IH.
  destruct (handle None now r s) as [s' x] eqn:Hh. eapply rtc_l; [by eapply step_call|]. by apply IH.
Qed.

(** A thread that makes all its calls at once. *)
Lemma run_thread allowed now now' s ts i o live p s' a :
  (now <= now')%Z -> ts !! i = Some (mkThread o live p) -> run None now' p s = (s', a) ->
  exists now'', rtc (step allowed) (mkState now s ts) (mkState now'' s' (<[i := mkThread o live (Ret a)]> ts)) /\ (now <= now'' <= now')%Z.
Proof.
  intros Hle. revert now s ts Hle. induction p as [b|r k IH]; intros now s ts Hle Hi; cbn.
  - intros [= <- <-]. exists now. rewrite list_insert_id by done. by split; [constructor|lia].
  - destruct (handle None now' r s) as [s1 x] eqn:Hh. intros Hr.
    destruct (IH x now' s1 (<[i := mkThread o live (k x)]> ts)) as (now'' & Hs & ?); [lia| |done|].
    { rewrite list_lookup_insert_eq; [done|]. by eapply lookup_lt_Some. }
    exists now''. rewrite list_insert_insert_eq in Hs. split; [|lia]. eapply rtc_l; [|exact Hs]. by eapply step_call.
Qed.

End machine.
Arguments state {E} B.

(** *** Two [Close]s

    [Close] before its call of the backend: the test of [closed], the assignment, the close of
    [closeCh], which panics when it is closed already. *)

Record flags := mkFlags { closed_flag : bool; closeCh_closed : bool }.
Inductive closing := AtTest | AtAssignment | AtClose | Closed | ClosePanicked.

Definition close_step (c : closing) (f : flags) : closing * flags :=
  match c with
  | AtTest => (if f.(closed_flag) then Closed else AtAssignment, f)
  | AtAssignment => (AtClose, mkFlags true f.(closeCh_closed))
  | AtClose => if f.(closeCh_closed) then (ClosePanicked, f) else (Closed, mkFlags f.(closed_flag) true)
  | Closed | ClosePanicked => (c, f)
  end.

(** Some calls of [Close], a step of one of them at a time. *)
Fixpoint closes (moves : list nat) (cs : list closing) (f : flags) : list closing * flags :=
  match moves with
  | [] => (cs, f)
  | i :: moves =>
      match cs !! i with
      | Some c => let '(c, f) := close_step c f in closes moves (<[i := c]> cs) f
      | None => closes moves cs f
      end
  end.

(** ** What an interleaving keeps *)

Section isolation.
Context `{E : SessionEnv} `{J : !SessionJSON} {B : Type} `{KV : !ListableStore B} `{KS : !KVSpec B}.
Context `{JL : !SessionJSONLaws J ValidSessionID}.
Implicit Types (s : Store B) (st : state B).

(** A session [x], stored as [d] and not expired at the instant [T]. *)
Variables (cfg : Config) (T : time) (x : Session) (d : bytes).
Hypotheses (Hvalid : ValidSessionID x.(ID) = true) (Hd : unmarshal_session d = Ok x) (Hexp : IsExpired T x = false).

Definition owner : string := uuid_string x.(UserID).

(** An operation that is not meant to change [x]. *)
Definition foreign (o : op) : Prop :=
  match o with
  | OpCreate (Some y) | OpUpdate (Some y) => y.(ID) <> x.(ID)
  | OpDelete i | OpTouch i => i <> x.(ID)
  | OpDeleteByUserID u => u <> owner
  | _ => True
  end.

Definition other_id (i : string) : Prop := ValidSessionID i = true /\ i <> x.(ID).

(** What the index of another user may hold, under a key of [other_key]. *)
Definition index_ok (v : bytes) : Prop := forall ids, unmarshal_ids v = Ok ids -> Forall other_id ids.
Definition other_key (k : string) : Prop := exists u, u <> owner /\ k = user_key cfg u.

Definition own : string := session_key cfg x.(ID).

(** What a thread may ask, and what it may count on being answered. *)
Definition may_ask (live : bool) (r : request) : Prop :=
  match r with
  | IsClosed | KGet _ => True
  | KSet k v _ => k <> own /\ (other_key k -> index_ok v)
  | KDelete k => k <> own
  | KList _ => live = true
  end.

Definition answered (live : bool) (r : request) : answer r -> Prop :=
  match r with
  | IsClosed => fun c => c = false
  | KGet k => fun a =>
      match a with
      | Ok v => (k = own -> v = d) /\ (other_key k -> index_ok v)
      | Err _ => live = true -> k <> own
      end
  | KSet _ _ _ | KDelete _ => fun _ => True
  | KList p => fun a => forall keys, a = Ok keys -> Forall (fun k => String.prefix p k = true) keys
  end.

Fixpoint safe {A} (live : bool) (post : A -> Prop) (p : prog A) : Prop :=
  match p with
  | Ret a => post a
  | Ask r k => may_ask live r /\ forall a, answered live r a -> safe live post (k a)
  end.

Lemma safe_mono {A} live (P Q : A -> Prop) p : (forall a, P a -> Q a) -> safe live P p -> safe live Q p.
Proof. intros HPQ. induction p as [a|r k IH]; cbn; [apply HPQ|]. intros [Hr Hk]. split; [done|]. intros a Ha. by apply IH, Hk. Qed.

Lemma safe_bind {A A'} live (P : A -> Prop) (Q : A' -> Prop) p (f : A -> prog A') :
  safe live P p -> (forall a, P a -> safe live Q (f a)) -> safe live Q (p ≫= f).
Proof.
  intros Hp Hf. induction p as [a|r k IH]; cbn in *; [by apply Hf|]. destruct Hp as [Hr Hk].
  split; [done|]. intros a Ha. by apply IH, Hk.
Qed.

Lemma safe_ask {A} live r (Q : A -> Prop) (f : answer r -> prog A) :
  may_ask live r -> (forall a, answered live r a -> safe live Q (f a)) -> safe live Q (ask r ≫= f).
Proof. intros Hr Hf. cbn. by split. Qed.

(** *** Keys *)

Lemma own_not_user u : user_key cfg u <> own.
Proof. intros H. by apply (sessionKey_not_index (mkStore (B:=unit) tt cfg false) x.(ID) u). Qed.

Lemma key_of_other i : i <> x.(ID) -> session_key cfg i <> own.
Proof. intros Hne H%string_app_inj. done. Qed.

Lemma other_user_key u : other_key (user_key cfg u) -> u <> owner.
Proof. intros (u' & Hu & Heq). apply string_app_inj, (string_app_inj "user:") in Heq. by subst. Qed.

Lemma valid_not_other k : ValidSessionID k = true -> ~ other_key (session_key cfg k).
Proof. intros Hv (u & _ & H). by apply (sessionKey_not_index (mkStore (B:=unit) tt cfg false) k u). Qed.

Lemma marshal_ok ids v : Forall other_id ids -> marshal_ids ids = Ok v -> index_ok v.
Proof.
  intros Hids Hm. destruct (unmarshal_marshal_ids ids) as (b & Hb & Hu).
  { eapply Forall_impl; [done|]. by intros i []. }
  rewrite Hm in Hb. injection Hb as <-. intros ids' Hids'. congruence.
Qed.

(** *** The programs are safe *)

(** What a read of the index of [u] gives. *)
Definition listed (u : string) (r : result error (list string)) : Prop :=
  forall ids, r = Ok ids -> u <> owner -> Forall other_id ids.

Lemma safe_getUserSessionIDs live u : safe live (listed u) (p_getUserSessionIDs (user_key cfg u)).
Proof.
  apply safe_ask; [done|]. intros [v|err] Ha; cbn.
  - intros ids Hv Hu. apply (proj2 Ha); [by exists u|done].
  - case_match; intros ids Hi _; by simplify_eq.
Qed.

Lemma safe_Set_index live u v ttl : (u <> owner -> index_ok v) -> may_ask live (KSet (user_key cfg u) v ttl).
Proof. intros Hv. split; [apply own_not_user|]. intros Ho. by apply Hv, other_user_key. Qed.

Lemma safe_addToUserIndex live u i ttl :
  other_id i -> safe live (fun _ => True) (p_addToUserIndex (user_key cfg u) i ttl).
Proof.
  intros Hi. eapply safe_bind; [apply safe_getUserSessionIDs|]. intros [ids|err] Hl; [|done].
  case_decide; [done|]. destruct (marshal_ids _) as [v|] eqn:Hm; [|done]. split; [|done]. apply safe_Set_index.
  intros Hu. eapply marshal_ok; [|done]. apply Forall_app. split; [by apply Hl|by apply Forall_singleton].
Qed.

Lemma safe_removeFromUserIndex live u i :
  safe live (fun _ => True) (p_removeFromUserIndex (user_key cfg u) i).
Proof.
  eapply safe_bind; [apply safe_getUserSessionIDs|]. intros [[|j ids]|err] Hl; [done| |done].
  destruct (filter _ (j :: ids)) as [|j' ids'] eqn:Hf; [split; [apply own_not_user|done]|].
  destruct (marshal_ids _) as [v|] eqn:Hm; [|done]. split; [|done]. apply safe_Set_index.
  intros Hu. eapply marshal_ok; [|done]. rewrite <-Hf. by apply Forall_filter_elem, Hl.
Qed.

Lemma safe_IsClosed {A} live (Q : A -> Prop) (f : bool -> prog A) :
  safe live Q (f false) -> safe live Q (ask IsClosed ≫= f).
Proof. intros Hf. apply safe_ask; [done|]. by intros [] Ha. Qed.

Lemma safe_Create live now y : y.(ID) <> x.(ID) -> safe live (fun _ => True) (p_Create cfg now (Some y)).
Proof.
  intros Hy. apply safe_IsClosed. destruct (ValidSessionID y.(ID)) eqn:Hv; [|done]. cbn [negb].
  destruct (marshal_session y); [|done]. apply safe_ask.
  - split; [by apply key_of_other|]. intros Ho. by apply valid_not_other in Ho.
  - intros [err|] _; [done|]. eapply safe_bind; [by apply safe_addToUserIndex|done].
Qed.

Lemma safe_Delete live i : i <> x.(ID) -> safe live (fun _ => True) (p_Delete cfg i).
Proof.
  intros Hi. apply safe_IsClosed. case_match; [done|]. apply safe_ask; [done|]. intros [v|err] _; [|done].
  destruct (unmarshal_session v); [|done]. case_decide; [done|]. eapply safe_bind; [apply safe_removeFromUserIndex|].
  intros _ _. by split; [apply key_of_other|].
Qed.

(** What [Get] gives: a session with the identifier; and [x], when its own is asked for. *)
Definition got (live : bool) (i : string) (r : result error Session) : Prop :=
  (forall y, r = Ok y -> y.(ID) = i) /\ (i = x.(ID) -> live = true -> r = Ok x).

Lemma not_expired now : (now <= T)%Z -> IsExpired now x = false.
Proof.
  unfold IsExpired, After in *. destruct (IsZero (ExpiresAt x)); [done|]. intros Hle.
  apply Z.ltb_ge. apply Z.ltb_ge in Hexp. lia.
Qed.

Lemma safe_Get live now i : (now <= T)%Z -> safe live (got live i) (p_Get cfg now i).
Proof.
  intros Hle. apply safe_IsClosed. destruct (ValidSessionID i) eqn:Hv; cbn [negb].
  2: { split; [done|]. intros ->. by rewrite Hvalid in Hv. }
  apply safe_ask; [done|]. intros [v|err] Ha.
  2: { split; [done|]. intros -> Hl. by destruct (Ha Hl). }
  destruct (unmarshal_session v) as [y|err] eqn:Hy.
  2: { split; [done|]. intros -> Hl. rewrite (proj1 Ha eq_refl) in Hy. congruence. }
  destruct (decide (y.(ID) <> i)) as [Hne|Hi].
  { split; [done|]. intros -> Hl. rewrite (proj1 Ha eq_refl) in Hy. congruence. }
  apply dec_stable in Hi. destruct (decide (i = x.(ID))) as [->|Hx].
  - rewrite (proj1 Ha eq_refl) in Hy. assert (y = x) as -> by congruence. rewrite not_expired by done.
    split; [by intros ? [= ->]|done].
  - destruct (IsExpired now y); [|split; [by intros ? [= <-]|done]].
    eapply safe_bind; [by apply safe_Delete|]. intros _ _. split; [done|]. by intros.
Qed.

Lemma safe_Update live now y : y.(ID) <> x.(ID) -> safe live (fun _ => True) (p_Update cfg now (Some y)).
Proof.
  intros Hy. apply safe_IsClosed. destruct (ValidSessionID y.(ID)) eqn:Hv; [|done]. cbn [negb].
  apply safe_ask; [done|]. intros [v|err] _; [|done]. cbv zeta. destruct (marshal_session _); [|done].
  apply safe_ask; [|done]. split; [by apply key_of_other|]. intros Ho. by apply valid_not_other in Ho.
Qed.

Lemma safe_Touch live now i : (now <= T)%Z -> i <> x.(ID) -> safe live (fun _ => True) (p_Touch cfg now i).
Proof.
  intros Hle Hi. eapply safe_bind; [by apply safe_Get|]. intros [y|err] [Hy _]; [|done].
  eapply safe_bind; [|by intros []]. apply safe_Update. specialize (Hy y eq_refl). cbn. congruence.
Qed.

Lemma safe_delete_ids live ids n : Forall other_id ids -> safe live (fun _ => True) (p_delete_ids cfg ids n).
Proof.
  intros Hids. revert n. induction Hids as [|i ids [_ Hi] _ IH]; intros n; [done|]. cbn [p_delete_ids].
  apply safe_ask; [by apply key_of_other|]. by intros [] _.
Qed.

Lemma safe_DeleteByUserID live u : u <> owner -> safe live (fun _ => True) (p_DeleteByUserID cfg u).
Proof.
  intros Hu. apply safe_IsClosed. eapply safe_bind; [apply safe_getUserSessionIDs|]. intros [ids|err] Hl; [|done].
  eapply safe_bind; [by apply safe_delete_ids, Hl|]. intros n _. apply safe_ask; [apply own_not_user|done].
Qed.

Lemma safe_get_all live now ids : (now <= T)%Z -> safe live (fun _ => True) (p_get_all cfg now ids).
Proof.
  intros Hle. induction ids as [|i ids IH]; [done|]. cbn [p_get_all]. eapply safe_bind; [by apply safe_Get|].
  intros r _. by eapply safe_bind; [exact IH|].
Qed.

Lemma safe_ListByUserID live now u : (now <= T)%Z -> safe live (fun _ => True) (p_ListByUserID cfg now u).
Proof.
  intros Hle. apply safe_IsClosed. eapply safe_bind; [apply safe_getUserSessionIDs|]. intros [[|i ids]|err] _; [done| |done].
  by eapply safe_bind; [apply safe_get_all|].
Qed.

Lemma safe_keep_stored live ids :
  safe live (fun l => Forall other_id ids -> Forall other_id l) (p_keep_stored cfg ids).
Proof.
  induction ids as [|i ids IH]; [by constructor|]. cbn [p_keep_stored]. apply safe_ask; [done|]. intros r _.
  eapply safe_bind; [exact IH|]. intros l Hl [Hi Hids]%Forall_cons. destruct r; [constructor; [done|]|]; by apply Hl.
Qed.

Lemma safe_cleanup_key live u : safe live (fun _ => True) (p_cleanup_key cfg (user_key cfg u)).
Proof.
  unfold p_cleanup_key. cbv zeta. eapply safe_bind; [apply safe_getUserSessionIDs|]. intros [ids|err] Hl; [|done].
  eapply safe_bind; [apply safe_keep_stored|]. intros l Hkeep. case_decide.
  { apply safe_ask; [apply own_not_user|done]. }
  case_decide; [|done]. destruct (marshal_ids l) as [v|] eqn:Hm; [|done]. apply safe_ask; [|done].
  apply safe_Set_index. intros Hu. eapply marshal_ok; [|done]. by apply Hkeep, Hl.
Qed.

Lemma safe_cleanup : safe true (fun _ => True) (p_cleanup cfg).
Proof.
  apply safe_ask; [done|]. intros [keys|err] Ha; [|done]. specialize (Ha keys eq_refl).
  induction Ha as [|k keys [u ->]%prefix_split _ IH]; [done|]. cbn [p_cleanup_keys].
  rewrite <-string_app_assoc. eapply safe_bind; [apply safe_cleanup_key|]. by intros [] _.
Qed.

(** What an operation may give back. *)
Definition gives (live : bool) (o : op) (a : outcome) : Prop :=
  match o with OpGet i => i = x.(ID) -> live = true -> a = GaveSession (Ok x) | _ => True end.

Lemma safe_op live now o :
  (now <= T)%Z -> foreign o -> (o = OpCleanup -> live = true) -> safe live (gives live o) (op_prog cfg now o).
Proof.
  intros Hle Ho Hlive. destruct o as [[y|]|i|[y|]|i|u|i|u|]; cbn [op_prog foreign] in *.
  - by eapply safe_bind; [apply safe_Create|].
  - eapply (safe_bind _ (fun _ => True)); [by apply safe_IsClosed|done].
  - eapply safe_bind; [by apply safe_Get|]. intros r [_ Hr] Hi Hl. by rewrite Hr.
  - by eapply safe_bind; [apply safe_Update|intros []].
  - eapply (safe_bind _ (fun _ => True)); [by apply safe_IsClosed|by intros []].
  - by eapply safe_bind; [apply safe_Delete|].
  - by eapply safe_bind; [apply safe_DeleteByUserID|intros []].
  - by eapply safe_bind; [apply safe_Touch|].
  - by eapply safe_bind; [apply safe_ListByUserID|].
  - rewrite Hlive by done. by eapply safe_bind; [apply safe_cleanup|].
Qed.

(** *** The invariant *)

(** The shared store at [now]. *)
Record store_inv (now : time) s : Prop := mkInv {
  inv_ok : ok s;
  inv_config : s.(config) = cfg;
  inv_closed : s.(closed) = false;
  inv_own : kv_at T s.(backend) !! own = Some d;
  inv_index k v : other_key k -> kv_at now s.(backend) !! k = Some v -> index_ok v
}.

Definition inv st : Prop :=
  store_inv st.(clock) st.(shared) /\
  forall i o live p, st.(threads) !! i = Some (mkThread o live p) -> safe live (gives live o) p.

Lemma inv_later now now' s : (now <= now')%Z -> store_inv now s -> store_inv now' s.
Proof. intros Hle [H1 H2 H3 H4 H5]. split; [done..|]. intros k v Hk Hv. eapply H5, kv_mono; done. Qed.

(** Calls that change nothing but one key, which is not [x]'s. *)
Lemma touches_inv now s s' k :
  (now <= T)%Z -> store_inv now s -> touches now (fun i => i = k) s s' -> k <> own ->
  (other_key k -> forall v, kv_at now s'.(backend) !! k = Some v -> index_ok v) -> store_inv now s'.
Proof.
  intros Hle [H1 H2 H3 H4 H5] [Tc Td To Tf] Hk Hv. split; [by apply To|congruence|congruence| |].
  - rewrite Tf; auto.
  - intros k' v Hk' Hv'. destruct (decide (k' = k)) as [->|Hne]; [by eapply Hv|].
    rewrite Tf in Hv' by (done || lia). by eapply H5.
Qed.

Lemma handle_inv ctx now live r s s' a :
  (now <= T)%Z -> store_inv now s -> may_ask live r -> (live = true -> ctx = None) ->
  handle ctx now r s = (s', a) -> store_inv now s' /\ answered live r a.
Proof.
  intros Hle Hinv Hask Hctx. pose proof (inv_ok _ _ Hinv) as Hok. destruct r as [|k|k v ttl|k|p]; cbn in *.
  - intros [= <- <-]. split; [done|]. apply Hinv.
  - intros Hg. destruct a as [v|err].
    + apply backend_Get_any in Hg as [-> Hv]; [|done]. specialize (Hv v eq_refl). split; [done|]. split.
      * intros ->. pose proof (inv_own _ _ Hinv) as Ho. apply (kv_mono now) in Ho; [congruence|done].
      * intros Hk. by eapply inv_index.
    + pose proof Hg as Hg'. apply backend_Get_any in Hg as [-> _]; [|done]. split; [done|]. intros Hl ->.
      rewrite (Hctx Hl), backend_Get_None in Hg' by done.
      pose proof (inv_own _ _ Hinv) as Ho. apply (kv_mono now) in Ho; [|done]. by rewrite Ho in Hg'.
  - intros Hs. split; [|done]. destruct Hask as [Hk Hv]. eapply touches_inv; [done..|by eapply backend_Set_touches|done|].
    intros Hko w. unfold backend_Set in Hs. destruct (kv_Set _ _ _ _ _ _) as [b e] eqn:Hkv. injection Hs as <- <-.
    cbn. intros Hw. eapply kv_Set_any in Hw as [->|Hw]; [by apply Hv|by eapply inv_index|done|done|lia].
  - intros Hs. split; [|done]. apply backend_Delete_touches in Hs as [Ht Hv]; [|done].
    eapply touches_inv; [done..|]. intros Hko w Hw. destruct Hv as [Hv|Hv]; rewrite Hv in Hw; [by eapply inv_index|done].
  - unfold backend_List. rewrite (Hctx Hask), kv_List_spec by done. intros [= <- <-]. rewrite with_backend_id. split; [done|].
    intros keys [= <-]. apply Forall_forall. intros k Hk. by apply elem_of_keys_with_prefix in Hk as [].
Qed.

Lemma step_inv st st' : inv st -> step foreign st st' -> (st'.(clock) <= T)%Z -> inv st'.
Proof.
  intros [Hs Hts] Hstep Hle. destruct Hstep as [now now' s ts i o live r k ctx s' a Hnow Hi Hctx Hh|now now' s ts o live Hnow Ho Hlive];
    cbn in *; apply (inv_later now now') in Hs; [|done| |done].
  - pose proof (Hts _ _ _ _ Hi) as [Hask Hk]. destruct (handle_inv ctx now' live r s s' a) as [Hs' Ha]; [done..|].
    split; [done|]. intros j o' live' p [(<- & [= <- <- <-] & _)|[_ Hj]]%list_lookup_insert_Some; [by apply Hk|by eapply Hts].
  - split; [done|]. intros j o' live' p [Hj|[_ Hj]]%lookup_app_Some; [by eapply Hts|].
    apply list_lookup_singleton_Some in Hj as [_ [= <- <- <-]]. rewrite (inv_config _ _ Hs). by apply safe_op.
Qed.

Lemma steps_inv st st' : inv st -> rtc (step foreign) st st' -> (st'.(clock) <= T)%Z -> inv st'.
Proof.
  intros Hinv Hsteps. revert Hinv. induction Hsteps as [|st1 st2 st3 Hs Hr IH]; [done|]. intros Hinv Hle.
  apply IH; [|done]. eapply step_inv; [done..|]. apply clock_mono in Hr. lia.
Qed.

End isolation.

(** ** Properties *)

Section properties.
Context `{E : SessionEnv} `{J : !SessionJSON} {B : Type} `{KV : !ListableStore B} `{KS : !KVSpec B}.
Context `{JL : !SessionJSONLaws J ValidSessionID}.
Implicit Types (s : Store B) (st : state B).

Lemma stored_data now s id x : stored now s id = Some x ->
  ValidSessionID id = true /\ x.(ID) = id /\ exists d, kv_at now s.(backend) !! session_key s.(config) id = Some d /\ unmarshal_session d = Ok x.
Proof.
  unfold stored. destruct (ValidSessionID id); [|done]. change (sessionKey s id) with (session_key s.(config) id).
  destruct (kv_at now s.(backend) !! session_key s.(config) id) as [d|]; [|done].
  destruct (unmarshal_session d) as [y|] eqn:Hy; [|done]. case_decide; [|done]. intros [= ->]. split_and!; [done..|]. by exists d.
Qed.

(** Claim C5. What concurrent calls cannot do to each other: while any number of operations run
    interleaved, one backend call at a time, with contexts that may end at any call, and the
    cleanup of the indexes among them, a session that none of them names to change, and whose
    user's sessions none of them deletes, stays stored exactly as it is until it expires or its
    time-to-live runs out, and every [Get] of it with a live context returns it. *)
Theorem interleaved_isolation T st st' x :
  st.(threads) = [] -> ok st.(shared) -> st.(shared).(closed) = false ->
  stored T st.(shared) x.(ID) = Some x -> IsExpired T x = false ->
  (forall u v ids, u <> uuid_string x.(UserID) -> kv_at st.(clock) st.(shared).(backend) !! userSessionsKey st.(shared) u = Some v ->
     unmarshal_ids v = Ok ids -> Forall (fun i => ValidSessionID i = true /\ i <> x.(ID)) ids) ->
  rtc (step (foreign x)) st st' -> (st'.(clock) <= T)%Z ->
  (forall t, (t <= T)%Z -> stored t st'.(shared) x.(ID) = Some x) /\
  (forall i a, st'.(threads) !! i = Some (mkThread (OpGet x.(ID)) true (Ret a)) -> a = GaveSession (Ok x)).
Proof.
  intros Hts Hok Hc Hx Hexp Hidx Hsteps Hle. apply stored_data in Hx as (Hv & _ & d & Hd & Hu).
  assert (inv st.(shared).(config) T x d st') as [[H1 H2 H3 H4 H5] Hsafe].
  { eapply steps_inv; [done..| |done|done]. split.
    - split; [done..|]. intros k v (u & Hne & ->) Hk ids Hids. by eapply Hidx.
    - intros i o live p Hi. by rewrite Hts in Hi. }
  split.
  - intros t Ht. unfold stored. rewrite Hv. change (sessionKey (shared st') x.(ID)) with (session_key (config (shared st')) x.(ID)).
    rewrite H2. apply (kv_mono t) in H4; [|done]. unfold own in H4. by rewrite H4, Hu, decide_True.
  - intros i a Hi. by apply Hsafe in Hi as Hg; apply Hg.
Qed.

(** *** What goes wrong *)

Lemma one_call allowed now s ts i o live r k s' a st :
  ts !! i = Some (mkThread o live (Ask r k)) -> handle None now r s = (s', a) ->
  rtc (step allowed) (mkState now s' (<[i := mkThread o live (k a)]> ts)) st ->
  rtc (step allowed) (mkState now s ts) st.
Proof. intros Hi Hh. apply rtc_l. by eapply step_call. Qed.

Lemma start_op allowed now s ts o st :
  allowed o -> rtc (step allowed) (mkState now s (ts ++ [mkThread o true (op_prog s.(config) now o)])) st ->
  rtc (step allowed) (mkState now s ts) st.
Proof. intros Ho. apply rtc_l. by constructor. Qed.

Lemma all_calls allowed now s ts i o live p s' a st :
  ts !! i = Some (mkThread o live p) -> run None now p s = (s', a) ->
  rtc (step allowed) (mkState now s' (<[i := mkThread o live (Ret a)]> ts)) st ->
  rtc (step allowed) (mkState now s ts) st.
Proof.
  intros Hi Hr Hst. destruct (run_thread allowed now now s ts i o live p s' a) as (now' & Hs & Hle); [lia|done..|].
  assert (now' = now) as -> by lia. by etrans.
Qed.

Lemma backend_Set_to now s k v ttl : (0 < now)%Z -> ok s ->
  exists s', backend_Set None now s k v ttl = (s', None) /\ touches now (fun i => i = k) s s' /\ ok s' /\ kv_at now s'.(backend) !! k = Some v.
Proof.
  intros Hnow Hok. destruct (backend_Set None now s k v ttl) as [s' e] eqn:Hs.
  apply backend_Set_None in Hs as (-> & Ht & Hv); [|done..]. exists s'. split_and!; [done..|by eapply touches_ok|].
  by rewrite Hv, outlives_now by lia.
Qed.

(** The session a store holds as data that were marshalled. *)
Lemma stored_marshalled now s y data :
  ValidSessionID y.(ID) = true -> marshal_session y = Ok data ->
  kv_at now s.(backend) !! sessionKey s y.(ID) = Some data -> stored now s y.(ID) = Some (reread y).
Proof.
  intros Hv Hm Hk. unfold stored. rewrite Hv, Hk, (unmarshal_marshal _ _ Hm). by rewrite decide_True by by apply reread_ID.
Qed.

(** Claim C13. An update undoes a deletion: [Update] (and so [Touch]) that has found the session
    writes it back after a [Delete] of it has come and gone.  Both report success, the session is
    stored again, and its user's index no longer names it, so that logging the user out
    everywhere with [DeleteByUserID] does not reach it either. *)
Theorem update_undoes_delete now s x y v ids data :
  (0 < now)%Z -> ok s -> s.(closed) = false -> stored now s y.(ID) = Some x ->
  kv_at now s.(backend) !! userSessionsKey s (uuid_string x.(UserID)) = Some v ->
  unmarshal_ids v = Ok ids -> Forall (fun i => ValidSessionID i = true) ids ->
  marshal_session (set_UpdatedAt now y) = Ok data ->
  exists st, rtc (step (fun o => o = OpUpdate (Some y) \/ o = OpDelete y.(ID))) (mkState now s []) st /\
    outcome_of st 0 = Some (GaveUpdate (Some (set_UpdatedAt now y)) None) /\
    outcome_of st 1 = Some (GaveError None) /\
    stored now st.(shared) y.(ID) = Some (reread (set_UpdatedAt now y)) /\
    exists l, getUserSessionIDs None now st.(shared) (userSessionsKey st.(shared) (uuid_string x.(UserID))) = (st.(shared), Ok l) /\ ~ y.(ID) ∈ l.
Proof.
  intros Hnow Hok Hc Hx Hidx Hv Hids Hm. pose proof (stored_data _ _ _ _ Hx) as (Hvalid & _ & d & Hd & _).
  set (y' := set_UpdatedAt now y) in *.
  destruct (Delete None now s y.(ID)) as [s1 e1] eqn:Hdel. pose proof (Delete_touches _ _ _ _ _ _ Hok Hdel) as [Ht1 _].
  pose proof (touches_ok _ _ _ _ Ht1 Hok) as Hok1. apply Delete_exact in Hdel as Hex; [|done..].
  rewrite Hx in Hex. destruct Hex as (-> & _ & _ & Hleft). specialize (Hleft v ids Hidx Hv Hids).
  destruct (backend_Set_to now s1 (sessionKey s1 y.(ID)) data (effective_ttl now s1 y')) as (s2 & Hset & Ht2 & Hok2 & Hk2); [done..|].
  exists (mkState now s2 [mkThread (OpUpdate (Some y)) true (Ret (GaveUpdate (Some y') None)); mkThread (OpDelete y.(ID)) true (Ret (GaveError None))]).
  assert (s1.(config) = s.(config)) as Hcfg1 by apply Ht1. assert (s2.(config) = s1.(config)) as Hcfg2 by apply Ht2.
  split_and!; [|done|done| |].
  - apply start_op with (OpUpdate (Some y)); [by left|]. eapply (one_call _ _ _ _ 0 _ _ IsClosed); [done|done|]. cbn. rewrite Hc, Hvalid. cbn.
    eapply (one_call _ _ _ _ 0 _ _ (KGet _)); [done| |].
    { cbn. rewrite backend_Get_None by done. rewrite Hd. done. }
    cbn. fold y'. rewrite Hm. cbn. apply start_op with (OpDelete y.(ID)); [by right|]. cbn [app].
    eapply (all_calls _ _ _ _ 1 _ _ _ s1 (GaveError None)); [done| |].
    { cbn [op_prog]. rewrite run_bind, run_Delete, Hdel. done. }
    cbn. eapply (one_call _ _ _ _ 0 _ _ (KSet _ _ _)); [done| |].
    { cbn. unfold ttl_of, session_key. rewrite <-Hcfg1. exact Hset. }
    cbn. constructor.
  - eapply (stored_marshalled now s2 y'); [done..|]. unfold sessionKey. rewrite Hcfg2. exact Hk2.
  - exists (filter (fun i => i <> y.(ID)) ids). split; [|rewrite list_elem_of_filter; tauto].
    cbn [shared]. rewrite getUserSessionIDs_None in Hleft |- * by done. f_equal.
    assert (userSessionsKey s2 (uuid_string x.(UserID)) = userSessionsKey s (uuid_string x.(UserID))) as ->
      by (unfold userSessionsKey; by rewrite Hcfg2, Hcfg1).
    rewrite (touches_frame _ _ _ _ Ht2); [congruence|done|lia|].
    unfold userSessionsKey, sessionKey. rewrite Hcfg1. apply not_eq_sym. by apply sessionKey_not_index.
Qed.

(** [DeleteByUserID] of a user whose index names one session. *)
Lemma DeleteByUserID_one now s u i v j :
  ok s -> s.(closed) = false -> kv_at now s.(backend) !! userSessionsKey s u = Some v -> unmarshal_ids v = Ok [i] ->
  i <> j -> let '(s', n, e) := DeleteByUserID None now s u in n = 1%Z /\ e = None /\ stored now s' j = stored now s j.
Proof.
  intros Hok Hc Hk Hv Hij. unfold DeleteByUserID. rewrite Hc. cbv zeta. rewrite getUserSessionIDs_None, Hk, Hv by done.
  cbn [delete_ids]. destruct (backend_Delete None now s (sessionKey s i)) as [s1 e1] eqn:H1.
  apply backend_Delete_None in H1 as (-> & Ht1 & _); [|done].
  destruct (backend_Delete None now s1 (userSessionsKey s u)) as [s2 e2] eqn:H2.
  apply backend_Delete_None in H2 as (_ & Ht2 & _); [|by apply Ht1]. split_and!; [done..|].
  assert (touches now (own_keys s.(config) i) s s2) as Ht.
  { eapply touches_trans; (eapply touches_weaken; [|done]); intros k' ->; [by apply own_key|by apply index_key]. }
  by eapply stored_frame.
Qed.

(** The run of two [Create]s, the second between the calls of the first. *)
Lemma racing_Creates now s x y dx dy :
  (0 < now)%Z -> ok s -> s.(closed) = false ->
  ValidSessionID x.(ID) = true -> ValidSessionID y.(ID) = true -> x.(ID) <> y.(ID) ->
  marshal_session x = Ok dx -> marshal_session y = Ok dy ->
  kv_at now s.(backend) !! userSessionsKey s (uuid_string x.(UserID)) = None ->
  exists s' dk, rtc (step (fun o => o = OpCreate (Some x) \/ o = OpCreate (Some y))) (mkState now s [])
      (mkState now s' [mkThread (OpCreate (Some x)) true (Ret (GaveError None)); mkThread (OpCreate (Some y)) true (Ret (GaveError None))]) /\
    ok s' /\ s'.(config) = s.(config) /\ s'.(closed) = false /\ unmarshal_ids dk = Ok [x.(ID)] /\
    kv_at now s'.(backend) !! sessionKey s x.(ID) = Some dx /\ kv_at now s'.(backend) !! sessionKey s y.(ID) = Some dy /\
    kv_at now s'.(backend) !! userSessionsKey s (uuid_string x.(UserID)) = Some dk.
Proof.
  intros Hnow Hok Hc Hvx Hvy Hne Hmx Hmy Hidx. set (k := userSessionsKey s (uuid_string x.(UserID))) in *.
  assert (forall i, ValidSessionID i = true -> sessionKey s i <> k) as Hk by (intros i Hi; by apply sessionKey_not_index).
  destruct (backend_Set_to now s (sessionKey s x.(ID)) dx (effective_ttl now s x)) as (s1 & Hs1 & Ht1 & Hok1 & Hk1); [done..|].
  assert (s1.(config) = s.(config)) as Hc1 by apply Ht1.
  assert (kv_at now s1.(backend) !! k = None) as Hi1 by (rewrite (touches_frame _ _ _ _ Ht1); [done|done|lia|by apply not_eq_sym, Hk]).
  destruct (Create None now s1 (Some y)) as [s2 e2] eqn:Hcr. pose proof (Create_touches _ _ _ _ _ _ Hok1 Hcr) as Ht2.
  apply Create_None with (data := dy) in Hcr as Hy2; [|done..|by rewrite (touches_closed _ _ _ _ Ht1)|done|done].
  destruct Hy2 as (-> & _ & Hy2 & _). specialize (Hy2 now ltac:(lia)). rewrite outlives_now in Hy2 by done.
  assert (ok s2) as Hok2 by by apply Ht2.
  destruct (unmarshal_marshal_ids [x.(ID)]) as (dk & Hdk & Hdk'); [by apply Forall_singleton|].
  destruct (backend_Set_to now s2 k dk (wrap64 (ttl_of s.(config) now x + Hour))) as (s3 & Hs3 & Ht3 & Hok3 & Hk3); [done..|].
  exists s3, dk. split_and!; [|done| | |done| | |done].
  - apply start_op with (OpCreate (Some x)); [by left|]. eapply (one_call _ _ _ _ 0 _ _ IsClosed); [done|done|]. cbn. rewrite Hc, Hvx, Hmx. cbn.
    eapply (one_call _ _ _ _ 0 _ _ (KSet _ _ _)); [done|exact Hs1|]. cbn.
    eapply (one_call _ _ _ _ 0 _ _ (KGet _)); [done| |].
    { cbn. rewrite backend_Get_None by done. change (user_key s.(config) (uuid_string x.(UserID))) with k. by rewrite Hi1. }
    cbn. rewrite decide_False by apply not_elem_of_nil. cbn. rewrite Hdk. cbn.
    apply start_op with (OpCreate (Some y)); [by right|]. cbn [app].
    eapply (all_calls _ _ _ _ 1 _ _ _ s2 (GaveError None)); [done| |].
    { cbn [op_prog]. by rewrite run_bind, run_Create, Hcr. }
    cbn. eapply (one_call _ _ _ _ 0 _ _ (KSet _ _ _)); [done|exact Hs3|]. cbn. constructor.
  - by rewrite (touches_config _ _ _ _ Ht3), (touches_config _ _ _ _ Ht2).
  - by rewrite (touches_closed _ _ _ _ Ht3), (touches_closed _ _ _ _ Ht2), (touches_closed _ _ _ _ Ht1).
  - rewrite (touches_frame _ _ _ _ Ht3), (touches_frame _ _ _ _ Ht2); [done|done|lia| |done|lia|by apply Hk].
    assert (sessionKey s x.(ID) = sessionKey s1 x.(ID)) as -> by (unfold sessionKey; by rewrite Hc1). by apply own_keys_other.
  - rewrite (touches_frame _ _ _ _ Ht3); [|done|lia|by apply Hk]. unfold sessionKey in Hy2 |- *. by rewrite Hc1 in Hy2.
Qed.

(** Claim C36. Two logins at once: when the calls of two [Create]s for a user without an index
    interleave, both report success and both sessions can be read, but the index names only
    one: [DeleteByUserID] deletes that one, reports success, and leaves the other. *)
Theorem concurrent_Creates_lose_index now s x y dx dy :
  (0 < now)%Z -> ok s -> s.(closed) = false ->
  ValidSessionID x.(ID) = true -> ValidSessionID y.(ID) = true -> x.(ID) <> y.(ID) -> y.(UserID) = x.(UserID) ->
  marshal_session x = Ok dx -> marshal_session y = Ok dy ->
  kv_at now s.(backend) !! userSessionsKey s (uuid_string x.(UserID)) = None ->
  exists st, rtc (step (fun o => o = OpCreate (Some x) \/ o = OpCreate (Some y))) (mkState now s []) st /\
    outcome_of st 0 = Some (GaveError None) /\ outcome_of st 1 = Some (GaveError None) /\
    stored now st.(shared) x.(ID) = Some (reread x) /\ stored now st.(shared) y.(ID) = Some (reread y) /\
    let '(s', n, e) := DeleteByUserID None now st.(shared) (uuid_string y.(UserID)) in
    n = 1%Z /\ e = None /\ stored now s' y.(ID) = Some (reread y).
Proof.
  intros Hnow Hok Hc Hvx Hvy Hne Hu Hmx Hmy Hidx.
  destruct (racing_Creates now s x y dx dy) as (s' & dk & Hsteps & Hok' & Hcfg & Hc' & Hdk & Hx & Hy & Hk); [done..|].
  assert (forall i, sessionKey s i = sessionKey s' i) as Hkey by (intros i; unfold sessionKey; by rewrite Hcfg).
  rewrite Hkey in Hx, Hy. assert (stored now s' y.(ID) = Some (reread y)) as Hsy by by eapply stored_marshalled.
  eexists. split; [exact Hsteps|]. cbn [shared]. split_and!; [done|done|by eapply stored_marshalled|done|].
  pose proof (DeleteByUserID_one now s' (uuid_string y.(UserID)) x.(ID) dk y.(ID)) as Hone.
  rewrite Hu in Hone |- *. destruct (DeleteByUserID _ _ _ _) as [[s2 n] e].
  destruct Hone as (-> & -> & ->); [done|done| |done..]. unfold userSessionsKey in Hk |- *. by rewrite Hcfg.
Qed.

End properties.

(** One [Close] at a time is fine, and closes the channel once; two at a time panic. *)
Example two_Closes_panic :
  closes [0; 0; 0; 1] [AtTest; AtTest] (mkFlags false false) = ([Closed; Closed], mkFlags true true) /\
  closes [0; 1; 0; 0; 1; 1] [AtTest; AtTest] (mkFlags false false) = ([Closed; ClosePanicked], mkFlags true true).
Proof. done. Qed.

(** ** Runs on the memory backend *)

#[local] Existing Instance demo_env.
#[local] Existing Instance demo_json.
#[local] Existing Instance demo_json_laws.
#[local] Existing Instance tree_order.

Definition demo_a : Session := demo_session "a" 1 "" 20 0.

(** Session "a" of user 1 is stored.  A creation of "c" for user 2, a read of "a" and a deletion of
    user 2's sessions make their calls in turn. *)
Definition demo_start : state KvsMem.Store := mkState 6 demo_one [].
Definition demo_ops : list thread :=
  map (fun o => mkThread o true (op_prog demo_one.(config) 6 o))
    [OpCreate (Some (demo_session "c" 2 "" 20 0)); OpGet "a"; OpDeleteByUserID "2"].
Definition demo_moves : list (nat * time) :=
  zip [0; 1; 2; 0; 1; 0; 2; 0; 2; 2] [7; 7; 8; 8; 9; 9; 9; 10; 10; 11]%Z.
Definition demo_end : state KvsMem.Store := schedule demo_moves (mkState 6 demo_one demo_ops).

Lemma demo_steps : rtc (step (foreign demo_a)) demo_start demo_end.
Proof.
  unfold demo_start. eapply (start_op _ _ _ _ (OpCreate (Some (demo_session "c" 2 "" 20 0)))); [done|].
  eapply (start_op _ _ _ _ (OpGet "a")); [done|]. eapply (start_op _ _ _ _ (OpDeleteByUserID "2")); [done|].
  apply (schedule_steps _ demo_moves (mkState 6 demo_one demo_ops)). by repeat constructor.
Qed.

Lemma demo_one_live : KvsMem.live 6 demo_one.(backend)
  = list_to_map [(sessionKey demo_one "a", bits_of (encode (fields_of demo_a))); (userSessionsKey demo_one "1", bits_of (encode ["a"]))].
Proof. by vm_compute. Qed.

Lemma interleaved_isolation_witness :
  stored 12 demo_end.(shared) "a" = Some demo_a /\ outcome_of demo_end 1 = Some (GaveSession (Ok demo_a)) /\
  outcome_of demo_end 0 = Some (GaveError None) /\ outcome_of demo_end 2 = Some (GaveCount 0 None).
Proof.
  assert ((forall t, (t <= 12)%Z -> stored t demo_end.(shared) "a" = Some demo_a) /\
    (forall i a, demo_end.(threads) !! i = Some (mkThread (OpGet "a") true (Ret a)) -> a = GaveSession (Ok demo_a))) as [Hs Hg].
  { apply (interleaved_isolation 12 demo_start demo_end demo_a); [done|done|done|by vm_compute|done| |exact demo_steps|by vm_compute].
    intros u v ids Hu Hv _. change (kv_at (clock demo_start)) with (KvsMem.live 6) in Hv.
    cbn [shared demo_start] in Hv. rewrite demo_one_live in Hv. apply elem_of_list_to_map_2 in Hv.
    apply elem_of_cons in Hv as [Hv|Hv%list_elem_of_singleton]; apply (f_equal fst) in Hv; cbn [fst] in Hv.
    - by apply eq_sym, sessionKey_not_index in Hv.
    - by apply userSessionsKey_inj in Hv. }
  split_and!; [by apply Hs|by vm_compute..].
Defined.

Lemma update_undoes_delete_witness :
  exists st, rtc (step (fun o => o = OpUpdate (Some demo_a) \/ o = OpDelete "a")) (mkState 7 demo_one []) st /\
    outcome_of st 1 = Some (GaveError None) /\ is_Some (stored 7 st.(shared) "a").
Proof.
  destruct (update_undoes_delete 7 demo_one demo_a demo_a (bits_of (encode ["a"])) ["a"]
    (bits_of (encode (fields_of (set_UpdatedAt 7 demo_a))))) as (st & Hs & _ & Hd & Hst & _);
    [done|by vm_compute..|by apply Forall_singleton|by vm_compute|].
  exists st. split_and!; [done..|]. change (ID demo_a) with "a" in Hst. rewrite Hst. by eexists.
Defined.

Lemma concurrent_Creates_lose_index_witness :
  exists st, rtc (step (fun o => o = OpCreate (Some demo_a) \/ o = OpCreate (Some (demo_session "b" 1 "" 10 50))))
      (mkState 7 demo_empty []) st /\
    is_Some (stored 7 (DeleteByUserID None 7 st.(shared) "1").1.1 "b").
Proof.
  destruct (concurrent_Creates_lose_index 7 demo_empty demo_a (demo_session "b" 1 "" 10 50)
    (bits_of (encode (fields_of demo_a))) (bits_of (encode (fields_of (demo_session "b" 1 "" 10 50))))) as (st & Hs & _ & _ & _ & _ & Hd);
    [done|done|done|by vm_compute..|].
  exists st. split; [done|]. change (uuid_string (UserID (demo_session "b" 1 "" 10 50))) with "1" in Hd.
  destruct (DeleteByUserID None 7 (shared st) "1") as [[s' n] e]. destruct Hd as (_ & _ & Hd).
  change (ID (demo_session "b" 1 "" 10 50)) with "b" in Hd. cbn. rewrite Hd. by eexists.
Defined.
