(* ===== verification/SiteStack.v ===== *)
(** * Sites that share a store

    The intended use of session/wrapper.go: the controls of several sites, each with its own
    configuration, in front of one store, which may itself be the session store of
    session/backend/kvs over any key-value backend.  A run is a sequence of calls of any
    sites; what it leaves of a session of another site is stated over the contract of the store. *)

From S2P Require Import Prelude GoLib Errors Sessions SessionStore SessionMemory SessionControls Kvs KvsMemory SessionKvs.

Import Controls.

(** [kvs.NewWithControls]: the key-value session store behind the controls. *)
Definition kvs_NewWithControls {B} `{ListableStore B} (backend : B) (cfg : Config) (handler : bool)
    : ControlledStore (KvsStore.Store B) :=
  WithControls (KvsStore.New backend cfg) cfg handler.

Section stack.
Context `{E : SessionEnv} `{J : !SessionJSON} {St : Type} `{SS : !SessionStore St}.

(** A call through the controls of a site: on existing sessions, or [Create]. *)
Record tenant_call := mkCall { call_ctx : context; call_at : time; tenant : Config; call : site_call + Session }.

Definition tenant_step (st : St) (c : tenant_call) : St :=
  let s := WithControls st c.(tenant) false in
  match c.(call) with
  | inl k => (site_step c.(call_ctx) c.(call_at) k s).(store)
  | inr x => (Create c.(call_ctx) c.(call_at) s (Some x)).1.1.(store)
  end.

Definition run (st : St) (calls : list tenant_call) : St := fold_left tenant_step calls st.

(** A call made for another named site than [site], that creates no session called [id]. *)
Definition foreign (site id : string) (c : tenant_call) : Prop :=
  c.(tenant).(CfgSiteID) <> "" /\ c.(tenant).(CfgSiteID) <> site /\
  match c.(call) with inl _ => True | inr y => y.(ID) <> id end.

(** ** Lemmas *)

Context `{C : !StoreContract St}.
Implicit Types (s : ControlledStore St) (x : Session).

(** What a step keeps: the store's invariant, and the sessions of other sites unless expired. *)
Definition keeps (now : time) (site id : string) s s' : Prop :=
  store_ok s'.(store) /\ s'.(config) = s.(config) /\
  forall x, view now s.(store) id = Some x -> x.(SiteID) <> site -> only_purged now (view now s.(store)) (view now s'.(store)) id.

Lemma evict_keeps ctx now l st :
  store_ok st -> store_ok (evict ctx now l st) /\
  forall id, (forall y, y ∈ l -> y.(ID) <> id) -> view now (evict ctx now l st) id = view now st id.
Proof.
  unfold evict. revert st. induction l as [|y l IH]; intros st Hok; cbn [fold_left]; [done|].
  destruct (st_Delete ctx now st y.(ID)) as [st1 e] eqn:Hd. destruct (IH st1) as [Hok1 Hv]; [by eapply Delete_ok|].
  split; [done|]. intros id Hid. rewrite Hv by (intros z Hz; apply Hid; by right).
  eapply Delete_frame; [done..|]. apply not_eq_sym, Hid. by left.
Qed.

Lemma enforce_keeps ctx now x s id :
  store_ok s.(store) -> s.(config).(CfgSiteID) <> "" -> keeps now s.(config).(CfgSiteID) id s (enforceSessionLimit ctx now x s).
Proof.
  intros Hok Hsite. unfold enforceSessionLimit. case_match; [by split_and!; [..|by left]|].
  destruct st_Lister as [f|] eqn:Hf; [|by split_and!; [..|by left]].
  destruct (f ctx now s.(store) _) as [st [all|err]] eqn:Hl; cbn.
  2: { split_and!; [by eapply List_ok|done|]. intros y _ _. by eapply List_frame. }
  case_match; [split_and!; [by eapply List_ok|done|]; intros y _ _; by eapply List_frame|]. cbn.
  destruct (evict_keeps ctx now (take (Z.to_nat (Z.of_nat (length (filter_site s.(config).(CfgSiteID) all)) - s.(config).(MaxSessionsPerUser) + 1))
    (filter_site s.(config).(CfgSiteID) all)) st) as [Hok1 Hv]; [by eapply List_ok|].
  split_and!; [done|done|]. intros y Hy Hne. eapply only_purged_trans; [by eapply List_frame|]. left. apply Hv.
  intros z Hz%elem_of_take. destruct Hz as (i & Hz & _). apply list_elem_of_lookup_2, elem_of_filter_site in Hz as [Hin [?|Hs]]; [done|].
  intros Hid. assert (view now s.(store) z.(ID) = Some z) as Hz by by eapply List_Ok. rewrite Hid, Hy in Hz. by injection Hz as <-.
Qed.

Lemma Create_keeps ctx now s x id :
  store_ok s.(store) -> s.(config).(CfgSiteID) <> "" -> x.(ID) <> id ->
  keeps now s.(config).(CfgSiteID) id s (Create ctx now s (Some x)).1.1.
Proof.
  intros Hok Hsite Hid. unfold Create.
  assert (forall s', same_core s s' -> keeps now s.(config).(CfgSiteID) id s s') as Hsame.
  { intros s' [H1 H2]. unfold keeps. rewrite H1, H2. split_and!; [done|done|by left]. }
  destruct (validateSession (Some x) s) as [s0 [err|]] eqn:Hv.
  { apply Hsame. by eapply validateSession_core. }
  apply validateSession_ok in Hv as [-> _].
  destruct (validateSerializable _ s) as [s1 [err|]] eqn:Hser.
  { apply Hsame. by eapply validateSerializable_core. }
  apply validateSerializable_none in Hser as ->.
  destruct (checkSizeLimit _ s) as [s2 [err|]] eqn:Hsz; apply checkSizeLimit_core in Hsz as Hc; [by apply Hsame|].
  destruct (Hsame s2 Hc) as (Hok2 & Hcfg2 & _). destruct Hc as [Hst2 _]. set (y := stamp_site _ x) in *.
  destruct (enforce_keeps ctx now y s2 id) as (Hok3 & Hcfg3 & Hp); [done|by rewrite Hcfg2|].
  destruct (st_Create ctx now (enforceSessionLimit ctx now y s2).(store) (Some y)) as [st e] eqn:Hcr. cbn.
  split; [by eapply Create_ok|]. split; [cbn; congruence|]. intros z Hz Hne.
  rewrite Hst2, Hcfg2 in Hp. eapply only_purged_trans; [by eapply Hp|]. left. eapply Create_frame; [done..|].
  unfold y. rewrite ID_stamp_site. done.
Qed.

Lemma site_step_ok ctx now k s :
  store_ok s.(store) -> s.(config).(CfgSiteID) <> "" -> store_ok (site_step ctx now k s).(store).
Proof.
  intros Hok Hsite. destruct k as [i|y|i|u|i|u]; cbn [site_step].
  - unfold Get. destruct (st_Get ctx now s.(store) i) as [st [y|err]] eqn:Hg; [|by eapply Get_ok].
    destruct (checkSite y (with_store st s)) as [s1 [err|]] eqn:Hc; apply checkSite_core in Hc as [Hst _]; cbn; rewrite Hst; by eapply Get_ok.
  - unfold Update. destruct (validateSession (Some y) s) as [s0 [err|]] eqn:Hv; [apply validateSession_core in Hv as [Hst _]; cbn; by rewrite Hst|].
    apply validateSession_ok in Hv as [-> _].
    destruct (verifyOwnership ctx now y.(ID) s) as [s1 [err|]] eqn:Ho; apply verifyOwnership_spec in Ho as (Hok1 & _); try done.
    destruct (validateSerializable _ s1) as [s2 [err|]] eqn:Hser; apply validateSerializable_core in Hser as [Hst2 _]; [by rewrite <-Hst2 in Hok1|].
    destruct (checkSizeLimit _ s2) as [s3 [err|]] eqn:Hsz; apply checkSizeLimit_core in Hsz as [Hst3 _]; rewrite <-Hst2, <-Hst3 in Hok1; [done|].
    destruct (st_Update ctx now s3.(store) _) as [[st x'] e] eqn:Hu. by eapply Update_ok.
  - unfold Delete. destruct (verifyOwnership ctx now i s) as [s1 [err|]] eqn:Ho; apply verifyOwnership_spec in Ho as (Hok1 & _); try done; [by case_match|].
    destruct (st_Delete ctx now s1.(store) i) as [st e] eqn:Hd. by eapply Delete_ok.
  - unfold DeleteByUserID. rewrite decide_False by done. destruct st_Lister as [f|] eqn:Hf; [|done].
    destruct (f ctx now s.(store) u) as [st [l|err]] eqn:Hl; [|by eapply List_ok].
    destruct (delete_site ctx now _ u l 0 st) as [[st' n] e] eqn:Hd. by apply delete_site_spec in Hd as [? _]; [|by eapply List_ok].
  - unfold Touch. destruct (verifyOwnership ctx now i s) as [s1 [err|]] eqn:Ho; apply verifyOwnership_spec in Ho as (Hok1 & _); try done.
    destruct (st_Touch ctx now s1.(store) i) as [st e] eqn:Hd. by eapply Touch_ok.
  - unfold ListByUserID. destruct st_Lister as [f|] eqn:Hf; [|done].
    destruct (f ctx now s.(store) u) as [st [l|]] eqn:Hl; by eapply List_ok.
Qed.

(** A foreign call keeps a session that has not expired. *)
Lemma tenant_step_keeps st c id x :
  store_ok st -> view c.(call_at) st id = Some x -> IsExpired c.(call_at) x = false -> foreign x.(SiteID) id c ->
  store_ok (tenant_step st c) /\ view c.(call_at) (tenant_step st c) id = Some x.
Proof.
  intros Hok Hx Hexp (Hs & Hne & Hcall). unfold tenant_step. set (s := WithControls st c.(tenant) false).
  assert (forall st', only_purged c.(call_at) (view c.(call_at) st) (view c.(call_at) st') id -> view c.(call_at) st' id = Some x) as Hkept.
  { intros st' [->|(_ & y & Hy & Hye)]; [done|]. congruence. }
  destruct c.(call) as [k|y].
  - split; [by apply (site_step_ok _ _ _ s)|]. apply Hkept.
    destruct k as [i|y|i|u|i|u]; cbn [site_step].
    + by apply (Get_site_frame _ _ s).
    + by eapply (Update_site_frame _ _ s).
    + by eapply (Delete_site_frame _ _ s).
    + by eapply (DeleteByUserID_site_frame _ _ s).
    + by eapply (Touch_site_frame _ _ s).
    + by apply (List_site_frame _ _ s).
  - destruct (Create_keeps c.(call_ctx) c.(call_at) s y id Hok Hs Hcall) as (Hok' & _ & Hp). split; [done|]. apply Hkept.
    apply (Hp x); [done|]. by apply not_eq_sym.
Qed.

(** ** Properties *)

(** Claim C14. Sites that share a store.  Let the controls of other sites make calls on it, in any
    order and at any instants, none of which is a [Create] of a session with the ID of the one
    looked at (that would replace it: [Create_replaces_foreign_session]).  If the store, left
    alone, shows that session alike at all the instants of the run, which the last hypothesis
    asks of every state on the way, and the session has not expired at any of them, then it is
    in the store after all the calls exactly as it was. *)
Theorem tenants_isolated calls st id x t0 :
  let times := t0 :: map call_at calls in
  store_ok st -> Forall (foreign x.(SiteID) id) calls -> view t0 st id = Some x ->
  (forall t, t ∈ times -> IsExpired t x = false) ->
  (forall n t u, t ∈ times -> u ∈ times ->
     view t (run st (take n calls)) id = Some x -> view u (run st (take n calls)) id = Some x) ->
  store_ok (run st calls) /\ forall t, t ∈ times -> view t (run st calls) id = Some x.
Proof.
  cbv zeta. intros Hok Hf Hx Hexp Hlast.
  assert (forall n, store_ok (run st (take n calls)) /\ view t0 (run st (take n calls)) id = Some x) as Hrun.
  { intros n. induction n as [|n [Hokn Hn]]; [done|].
    destruct (calls !! n) as [c|] eqn:Hc; [|by rewrite take_ge in Hokn, Hn |- * by (apply lookup_ge_None in Hc; lia)].
    rewrite (take_S_r _ _ _ Hc). unfold run. rewrite fold_left_app. fold (run st (take n calls)). cbn [fold_left].
    apply list_elem_of_lookup_2 in Hc as Hin.
    assert (c.(call_at) ∈ t0 :: map call_at calls) as Ht by (right; by apply list_elem_of_fmap_2).
    rewrite Forall_forall in Hf. destruct (tenant_step_keeps (run st (take n calls)) c id x) as [Hok' Hx']; [done| |by apply Hexp|by apply Hf|].
    { apply (Hlast n t0); [left|done..]. }
    split; [done|]. specialize (Hlast (S n) c.(call_at) t0 Ht ltac:(left)). rewrite (take_S_r _ _ _ Hc) in Hlast.
    unfold run in Hlast. rewrite fold_left_app in Hlast. by apply Hlast. }
  destruct (Hrun (length calls)) as [Hok' Hx']. rewrite firstn_all in Hok', Hx'. split; [done|]. intros t Ht.
  specialize (Hlast (length calls) t0 t). rewrite firstn_all in Hlast. apply Hlast; [left|done..].
Qed.

End stack.

(** ** A run over the key-value store *)

#[local] Existing Instance demo_env.
#[local] Existing Instance demo_json.
#[local] Existing Instance tree_order.

Definition demo_config (site : string) : Config := mkConfig site 0 1 0 0 "session:".

(** Site B has one session, b1. *)
Definition demo_stack : KvsStore.Store KvsMem.Store :=
  (Create None 5 (kvs_NewWithControls KvsMem.New (demo_config "B") false) (Some (demo_session "b1" 1 "" 15 0))).1.1.(store).

(** Site A reads, changes and deletes b1, deletes the sessions of its user, and creates one for
    the same user with a limit of one. *)
Definition demo_calls : list tenant_call :=
  imap (fun i => mkCall None (7 + Z.of_nat i) (demo_config "A")) [inl (SiteGet "b1"); inl (SiteTouch "b1"); inl (SiteDelete "b1");
    inl (SiteUpdate (demo_session "b1" 1 "A" 16 0)); inl (SiteDeleteByUserID "1"); inr (demo_session "a1" 1 "" 17 0);
    inr (demo_session "a2" 1 "" 18 0)].

Lemma tenants_isolated_witness :
  view 13 (run demo_stack demo_calls) "b1" = Some (demo_session "b1" 1 "B" 15 0) /\
  view 13 (run demo_stack demo_calls) "a1" = None /\ is_Some (view 13 (run demo_stack demo_calls) "a2").
Proof.
  split; [|split; [by vm_compute|by eexists; vm_compute]].
  apply (tenants_isolated demo_calls demo_stack "b1" (demo_session "b1" 1 "B" 15 0) 7).
  - by vm_compute.
  - by repeat (constructor; [split_and!; by vm_compute|]).
  - by vm_compute.
  - apply Forall_forall. change (7 :: map call_at demo_calls)%Z with [7; 7; 8; 9; 10; 11; 12; 13]%Z.
    by repeat (constructor; [by vm_compute|]).
  - intros n t u _ Hu _. revert u Hu. apply Forall_forall. change (7 :: map call_at demo_calls)%Z with [7; 7; 8; 9; 10; 11; 12; 13]%Z.
    do 7 (destruct n as [|n]; [by repeat (constructor; [by vm_compute|])|]).
    rewrite take_ge by (cbn; lia). by repeat (constructor; [by vm_compute|]).
  - change (7 :: map call_at demo_calls)%Z with [7; 7; 8; 9; 10; 11; 12; 13]%Z. set_solver.
Defined.
