(* ===== verification/GoPath.v ===== *)
(** * The path and strings functions of the Go standard library the backends use

    [strings.Split] and [strings.Join] on ["/"], [path.Clean] and [path.Join], and what is a
    canonical path: the form every backend stores and lists. *)

From S2P Require Import Prelude GoLib.

(** ** Split and Join *)

Definition slash : ascii := "/"%char.

(** [strings.Split(s, "/")]: at least one part. *)
Fixpoint split_slash (s : string) : list string :=
  match s with
  | EmptyString => [""]
  | String c s =>
      if decide (c = slash) then "" :: split_slash s
      else
        match split_slash s with
        | p :: ps => String c p :: ps
        | [] => [String c ""]
        end
  end.

(** [strings.Join(parts, "/")] *)
Fixpoint join_slash (parts : list string) : string :=
  match parts with
  | [] => ""
  | [p] => p
  | p :: ps => p +:+ String slash (join_slash ps)
  end.

(** [strings.Contains] *)
Fixpoint Contains (s sub : string) : bool :=
  String.prefix sub s || match s with EmptyString => false | String _ s => Contains s sub end.

(** ** path.Clean *)

(** The elements kept so far are a stack, last one first. *)
Definition clean_step (rooted : bool) (stack : list string) (part : string) : list string :=
  if decide (part = "" \/ part = ".") then stack
  else if decide (part = "..") then
    match stack with
    | [] => if rooted then [] else [".."]
    | top :: rest => if decide (top = "..") then ".." :: stack else rest
    end
  else part :: stack.

Definition clean_parts (rooted : bool) (parts : list string) : list string :=
  rev (fold_left (clean_step rooted) parts []).

Definition is_rooted (p : string) : bool := String.prefix "/" p.

Definition Clean (p : string) : string :=
  if decide (p = "") then "."
  else
    let out := join_slash (clean_parts (is_rooted p) (split_slash p)) in
    if is_rooted p then String slash out else if decide (out = "") then "." else out.

(** [path.Join(a, b)]: empty elements are ignored. *)
Definition Join (a b : string) : string :=
  match filter (fun e => e <> "") [a; b] with
  | [] => ""
  | parts => Clean (join_slash parts)
  end.

(** ** Canonical paths

    Relative, without empty elements, ["."] or [".."]; the empty path is the root itself. *)
Definition normal_part (part : string) : Prop :=
  part <> "" /\ part <> "." /\ part <> ".." /\ slash ∉ String.list_ascii_of_string part.

#[export] Instance normal_part_dec part : Decision (normal_part part).
Proof. unfold normal_part. apply _. Defined.

Definition canonical (p : string) : Prop := p = "" \/ Forall normal_part (split_slash p).

#[export] Instance canonical_dec p : Decision (canonical p).
Proof. unfold canonical. apply _. Defined.

(** ** Lemmas *)

Definition no_slash (p : string) : Prop := slash ∉ String.list_ascii_of_string p.

Lemma split_slash_nonempty s : split_slash s <> [].
Proof. destruct s as [|c s]; [done|]. simpl. case_decide; [done|]. by destruct (split_slash s). Qed.

Lemma split_slash_no_slash s : Forall no_slash (split_slash s).
Proof.
  induction s as [|c s IH]; simpl; [repeat constructor; apply not_elem_of_nil|].
  case_decide; [constructor; [apply not_elem_of_nil|done]|].
  destruct (split_slash s) as [|p ps]; constructor.
  - unfold no_slash. simpl. by intros ?%list_elem_of_singleton.
  - constructor.
  - apply Forall_cons in IH as [Hp _]. unfold no_slash in *. simpl. by intros [?|?]%elem_of_cons.
  - by apply Forall_cons in IH as [_ ?].
Qed.

Lemma split_slash_plain p : no_slash p -> split_slash p = [p].
Proof.
  induction p as [|c p IH]; [done|]. unfold no_slash. simpl. rewrite elem_of_cons. intros H.
  rewrite decide_False by naive_solver. rewrite IH; [done|]. unfold no_slash. naive_solver.
Qed.

Lemma split_slash_app p s : no_slash p -> split_slash (p +:+ String slash s) = p :: split_slash s.
Proof.
  induction p as [|c p IH]; intros H.
  { change ("" +:+ String slash s) with (String slash s). simpl. done. }
  unfold no_slash in H. simpl in H. rewrite elem_of_cons in H.
  change (String c p +:+ String slash s) with (String c (p +:+ String slash s)).
  cbn [split_slash]. rewrite decide_False by naive_solver. rewrite IH; [done|]. unfold no_slash. naive_solver.
Qed.

Lemma split_join parts : parts <> [] -> Forall no_slash parts -> split_slash (join_slash parts) = parts.
Proof.
  induction parts as [|p ps IH]; [done|]. intros _ [Hp Hps]%Forall_cons.
  destruct ps as [|q ps]; [by apply split_slash_plain|].
  change (join_slash (p :: q :: ps)) with (p +:+ String slash (join_slash (q :: ps))).
  rewrite split_slash_app by done. by rewrite IH.
Qed.

Lemma join_split s : join_slash (split_slash s) = s.
Proof.
  induction s as [|c s IH]; [done|]. simpl. case_decide as Hc.
  - subst c. pose proof (split_slash_nonempty s). destruct (split_slash s) as [|p ps] eqn:Hs; [done|].
    by rewrite <- IH.
  - pose proof (split_slash_nonempty s). destruct (split_slash s) as [|p [|q ps]] eqn:Hs; [done|..].
    + by rewrite <- IH.
    + rewrite <- IH. done.
Qed.

(** What the stack looks like: normal elements over the leading [".."]s. *)
Definition clean_stack (rooted : bool) (stack : list string) : Prop :=
  exists names n, stack = names ++ replicate n ".." /\ Forall normal_part names /\ (rooted = true -> n = 0).

Lemma clean_step_stack rooted stack part :
  no_slash part -> clean_stack rooted stack -> clean_stack rooted (clean_step rooted stack part).
Proof.
  intros Hns (names & n & -> & Hn & Hr). unfold clean_step. case_decide as H1; [by exists names, n|].
  case_decide as H2.
  - destruct names as [|t names]; simpl.
    + destruct n as [|n]; simpl.
      * destruct rooted; [exists [], 0|exists [], 1]; done.
      * exists [], (S (S n)). split_and!; [done..|]. intros ->. specialize (Hr eq_refl). lia.
    + apply Forall_cons in Hn as [(_ & _ & Ht & _) Hn]. rewrite decide_False by done. exists names, n. done.
  - exists (part :: names), n. split_and!; [done| |done]. constructor; [|done]. unfold normal_part. naive_solver.
Qed.

Lemma clean_parts_shape rooted parts :
  Forall no_slash parts ->
  exists n names, clean_parts rooted parts = replicate n ".." ++ names /\ Forall normal_part names /\
    (rooted = true -> n = 0).
Proof.
  intros Hall. unfold clean_parts.
  assert (clean_stack rooted (fold_left (clean_step rooted) parts [])) as (names & n & -> & Hn & Hr).
  { apply fold_left_inv; [by exists [], 0|]. intros stack part Hin. rewrite Forall_forall in Hall.
    apply clean_step_stack. by apply Hall. }
  exists n, (rev names). rewrite rev_app_distr. split_and!; [|by apply Forall_rev|done].
  f_equal. clear. induction n as [|n IH]; [done|].
  cbn [replicate rev]. rewrite IH. by rewrite <- replicate_cons_app.
Qed.

(** Cleaning normal elements changes nothing. *)
Lemma clean_parts_normal rooted parts : Forall normal_part parts -> clean_parts rooted parts = parts.
Proof.
  intros Hall. unfold clean_parts.
  assert (forall stack, fold_left (clean_step rooted) parts stack = rev parts ++ stack) as H.
  { induction Hall as [|p ps (H1 & H2 & H3 & _) Hall IH]; intros stack; [done|]. simpl.
    rewrite IH. unfold clean_step. rewrite !decide_False by naive_solver. by rewrite <- app_assoc. }
  by rewrite H, app_nil_r, rev_involutive.
Qed.

(** *** join_slash on normal elements *)

Lemma join_cons p ps : ps <> [] -> join_slash (p :: ps) = p +:+ String slash (join_slash ps).
Proof. by destruct ps. Qed.

Lemma normal_no_slash ps : Forall normal_part ps -> Forall no_slash ps.
Proof. intros Hn. eapply Forall_impl; [exact Hn|]. intros p (_ & _ & _ & ?). done. Qed.

Lemma canonical_join names : Forall normal_part names -> canonical (join_slash names).
Proof.
  intros Hn. destruct names as [|p ps]; [by left|]. right.
  rewrite split_join; [done..|by apply normal_no_slash].
Qed.

Lemma join_not_rooted p ps : p <> "" -> no_slash p -> is_rooted (join_slash (p :: ps)) = false.
Proof.
  intros Hp Hs. destruct p as [|c p]; [done|]. unfold no_slash in Hs. simpl in Hs.
  rewrite elem_of_cons in Hs. unfold is_rooted.
  assert (exists t, join_slash (String c p :: ps) = String c t) as [t ->] by (destruct ps; by eexists).
  cbn [String.prefix]. destruct (ascii_dec "/" c) as [He|]; [|done]. unfold slash in Hs. tauto.
Qed.

(** What [Clean] returns: the cleaned elements, behind a slash when the path was rooted. *)
Lemma Clean_shape p :
  p <> "" ->
  exists n names, Forall normal_part names /\
    Clean p = if is_rooted p then String slash (join_slash names)
              else if decide (join_slash (replicate n ".." ++ names) = "") then "."
              else join_slash (replicate n ".." ++ names).
Proof.
  intros Hp. unfold Clean. rewrite decide_False by done.
  destruct (clean_parts_shape (is_rooted p) (split_slash p)) as (n & names & -> & Hn & Hr);
    [apply split_slash_no_slash|].
  exists n, names. split; [done|]. destruct (is_rooted p); [by rewrite Hr|done].
Qed.

Lemma canonical_parts q : canonical q -> q <> "" -> Forall normal_part (split_slash q).
Proof. by intros [|]. Qed.

Lemma canonical_not_rooted q : canonical q -> is_rooted q = false.
Proof.
  intros [->|Hq]; [done|]. rewrite <- (join_split q).
  pose proof (split_slash_nonempty q). destruct (split_slash q) as [|p ps]; [done|].
  apply Forall_cons in Hq as [(? & _ & _ & ?) _]. by apply join_not_rooted.
Qed.

(** [Clean] leaves a canonical path alone. *)
Lemma Clean_canonical q : canonical q -> q <> "" -> Clean q = q.
Proof.
  intros Hc Hq. unfold Clean. rewrite decide_False by done. rewrite (canonical_not_rooted q Hc).
  rewrite clean_parts_normal by by apply canonical_parts. rewrite join_split. by rewrite decide_False.
Qed.

Lemma join_names_dot names : Forall normal_part names -> join_slash names <> ".".
Proof.
  intros Hn Hd. destruct names as [|p ps]; [done|].
  assert (split_slash (join_slash (p :: ps)) = p :: ps) as Hs by (apply split_join; [done|by apply normal_no_slash]).
  rewrite Hd in Hs. change (split_slash ".") with ["."] in Hs. injection Hs as <- _.
  apply Forall_cons in Hn as [(_ & ? & _) _]. done.
Qed.

Lemma join_names_empty names : Forall normal_part names -> join_slash names = "" -> names = [].
Proof.
  intros Hn Hd. destruct names as [|p ps]; [done|].
  assert (split_slash (join_slash (p :: ps)) = p :: ps) as Hs by (apply split_join; [done|by apply normal_no_slash]).
  rewrite Hd in Hs. change (split_slash "") with [""] in Hs. injection Hs as <- _.
  apply Forall_cons in Hn as [(? & _) _]. done.
Qed.

Lemma prefix_join p ps : String.prefix p (join_slash (p :: ps)) = true.
Proof.
  destruct ps as [|q ps].
  - rewrite <- (string_app_nil_r p) at 2. apply prefix_app.
  - rewrite join_cons by done. apply prefix_app.
Qed.

Lemma join_names_inj l1 l2 : Forall normal_part l1 -> Forall normal_part l2 -> join_slash l1 = join_slash l2 -> l1 = l2.
Proof.
  intros H1 H2 He. destruct (decide (l1 = [])) as [->|Hn1]; [symmetry; by apply join_names_empty|].
  destruct (decide (l2 = [])) as [->|Hn2]; [by apply join_names_empty|].
  rewrite <- (split_join l1), <- (split_join l2), He by (done || by apply normal_no_slash). done.
Qed.
