(* ===== verification/GoGlob.v ===== *)
(** * path/filepath of the Go standard library on Unix: Base and Match

    [Match] is the matcher of shell patterns the filters use, written after its documented
    grammar and algorithm: a pattern is a sequence of chunks, each after an optional star, a
    chunk is matched character by character (UTF-8 characters for [?] and classes, bytes
    otherwise), and a malformed pattern is an error. *)

From S2P Require Import Prelude GoLib GoPath.

(** ** filepath.Base *)

(** The part after the last slash. *)
Fixpoint last_part (parts : list string) : string :=
  match parts with [] => "" | [p] => p | _ :: ps => last_part ps end.

Definition Base (p : string) : string :=
  if decide (p = "") then "."
  else
    match filter (fun part => part <> "") (split_slash p) with
    | [] => "/"
    | parts => last_part parts
    end.

(** ** utf8.DecodeRuneInString: the first character and its width *)

Definition RuneError : N := 65533.

Definition cont (lo hi : N) (c : ascii) : option N :=
  let n := N_of_ascii c in if ((lo <=? n) && (n <=? hi))%N then Some (N.land n 63) else None.

Definition decode_rune (s : string) : N * nat :=
  match s with
  | EmptyString => (RuneError, 0)
  | String c0 s =>
      let n0 := N_of_ascii c0 in
      if (n0 <? 128)%N then (n0, 1)
      else
        let two lo hi := match s with
          | String c1 _ =>
              match cont lo hi c1 with
              | Some x1 => (N.lor (N.shiftl (N.land n0 31) 6) x1, 2)
              | None => (RuneError, 1)
              end
          | _ => (RuneError, 1)
          end in
        let three lo hi := match s with
          | String c1 (String c2 _) =>
              match cont lo hi c1, cont 128 191 c2 with
              | Some x1, Some x2 => (N.lor (N.lor (N.shiftl (N.land n0 15) 12) (N.shiftl x1 6)) x2, 3)
              | _, _ => (RuneError, 1)
              end
          | _ => (RuneError, 1)
          end in
        let four lo hi := match s with
          | String c1 (String c2 (String c3 _)) =>
              match cont lo hi c1, cont 128 191 c2, cont 128 191 c3 with
              | Some x1, Some x2, Some x3 =>
                  (N.lor (N.lor (N.lor (N.shiftl (N.land n0 7) 18) (N.shiftl x1 12)) (N.shiftl x2 6)) x3, 4)
              | _, _, _ => (RuneError, 1)
              end
          | _ => (RuneError, 1)
          end in
        if ((194 <=? n0) && (n0 <=? 223))%N then two 128%N 191%N
        else if (n0 =? 224)%N then three 160%N 191%N
        else if (n0 =? 237)%N then three 128%N 159%N
        else if ((225 <=? n0) && (n0 <=? 239))%N then three 128%N 191%N
        else if (n0 =? 240)%N then four 144%N 191%N
        else if ((241 <=? n0) && (n0 <=? 243))%N then four 128%N 191%N
        else if (n0 =? 244)%N then four 128%N 143%N
        else (RuneError, 1)
  end.

(** ** filepath.Match *)

(** The scan of a chunk up to the next star outside a class: (chunk, rest). *)
Fixpoint scan (inrange : bool) (p : string) : string * string :=
  match p with
  | EmptyString => ("", "")
  | String c q =>
      let keep inrange rest := let '(a, b) := scan inrange rest in (String c a, b) in
      if decide (c = "\"%char) then
        match q with
        | String d q' => let '(a, b) := scan inrange q' in (String c (String d a), b)
        | EmptyString => (String c "", "")
        end
      else if decide (c = "["%char) then keep true q
      else if decide (c = "]"%char) then keep false q
      else if decide (c = "*"%char) then if inrange then keep inrange q else ("", p)
      else keep inrange q
  end.

Fixpoint drop_stars (p : string) : bool * string :=
  match p with
  | String c q => if decide (c = "*"%char) then (true, (drop_stars q).2) else (false, p)
  | EmptyString => (false, p)
  end.

Definition scanChunk (p : string) : bool * string * string :=
  let '(star, p) := drop_stars p in let '(chunk, rest) := scan false p in (star, chunk, rest).

(** A character of a class, possibly escaped: [None] is [ErrBadPattern]. *)
Definition getEsc (chunk : string) : option (N * string) :=
  let decode chunk :=
    let '(r, n) := decode_rune chunk in
    let rest := drop_string n chunk in
    if ((r =? RuneError)%N && (n =? 1)%nat) || bool_decide (rest = "") then None else Some (r, rest) in
  match chunk with
  | EmptyString => None
  | String c q =>
      if decide (c = "-"%char \/ c = "]"%char) then None
      else if decide (c = "\"%char) then if decide (q = "") then None else decode q
      else decode chunk
  end.

(** The ranges of a class for the character [r]; the fuel is the length of the chunk, since each
    range takes a character. *)
Fixpoint class_ranges (fuel : nat) (chunk : string) (r : N) (matched first : bool) : option (bool * string) :=
  match fuel with
  | 0 => None
  | S fuel =>
      let range chunk :=
        match getEsc chunk with
        | None => None
        | Some (lo, chunk) =>
            let hi_of :=
              match chunk with
              | String c q => if decide (c = "-"%char) then getEsc q else Some (lo, chunk)
              | EmptyString => Some (lo, chunk)
              end in
            match hi_of with
            | None => None
            | Some (hi, chunk) =>
                class_ranges fuel chunk r (matched || ((lo <=? r) && (r <=? hi))%N) false
            end
        end in
      match chunk with
      | String c q =>
          if decide (c = "]"%char) then if first then range chunk else Some (matched, q) else range chunk
      | EmptyString => range chunk
      end
  end.

(** [matchChunk]: [None] is [ErrBadPattern]; otherwise the rest of the name when the chunk
    matched.  [s] is [None] once the match has failed and only the syntax is still checked. *)
Fixpoint matchChunk (fuel : nat) (chunk : string) (s : option string) : option (option string) :=
  match fuel with
  | 0 => None
  | S fuel =>
      match chunk with
      | EmptyString => Some s
      | String c q =>
          let s := match s with Some EmptyString => None | _ => s end in
          let literal c q :=
            matchChunk fuel q
              (match s with Some (String d s') => if decide (c = d) then Some s' else None | _ => None end) in
          if decide (c = "["%char) then
            let '(r, s') :=
              match s with
              | Some n => let '(r, w) := decode_rune n in (r, Some (drop_string w n))
              | None => (0%N, None)
              end in
            let '(negated, q) :=
              match q with
              | String d q' => if decide (d = "^"%char) then (true, q') else (false, q)
              | EmptyString => (false, q)
              end in
            match class_ranges (S (String.length q)) q r false true with
            | None => None
            | Some (matched, q) => matchChunk fuel q (if eqb matched negated then None else s')
            end
          else if decide (c = "?"%char) then
            matchChunk fuel q
              (match s with
               | Some (String d _ as n) => if decide (d = slash) then None else Some (drop_string (decode_rune n).2 n)
               | _ => None
               end)
          else if decide (c = "\"%char) then
            match q with EmptyString => None | String d q' => literal d q' end
          else literal c q
      end
  end.

Definition match_chunk (chunk s : string) : option (option string) :=
  matchChunk (S (String.length chunk)) chunk (Some s).

(** The positions a star can skip to: every suffix reached without passing a slash. *)
Fixpoint skips (name : string) : list string :=
  match name with
  | EmptyString => []
  | String c s => if decide (c = slash) then [] else s :: skips s
  end.

(** The first of the positions where the chunk matches (to the end, for the last chunk). *)
Fixpoint try_skips (chunk : string) (last : bool) (l : list string) : option (option string) :=
  match l with
  | [] => Some None
  | s :: l =>
      match match_chunk chunk s with
      | None => None
      | Some (Some t) => if last && negb (bool_decide (t = "")) then try_skips chunk last l else Some (Some t)
      | Some None => try_skips chunk last l
      end
  end.

(** The syntax check of what is left of a pattern that did not match. *)
Fixpoint rest_valid (fuel : nat) (pattern : string) : bool :=
  match fuel with
  | 0 => false
  | S fuel =>
      if decide (pattern = "") then true
      else
        let '(_, chunk, rest) := scanChunk pattern in
        match match_chunk chunk "" with None => false | Some _ => rest_valid fuel rest end
  end.

(** [Match]: [None] is [ErrBadPattern].  Every round consumes at least one character of the
    pattern, so its length is fuel enough. *)
Fixpoint match_rounds (fuel : nat) (pattern name : string) : option bool :=
  match fuel with
  | 0 => None
  | S fuel =>
      if decide (pattern = "") then Some (bool_decide (name = ""))
      else
        let '(star, chunk, rest) := scanChunk pattern in
        if star && bool_decide (chunk = "") then Some (bool_decide (no_slash name))
        else
          let last := bool_decide (rest = "") in
          let no_match := if rest_valid (S (String.length rest)) rest then Some false else None in
          let skip :=
            if star then
              match try_skips chunk last (skips name) with
              | None => None
              | Some (Some t) => match_rounds fuel rest t
              | Some None => no_match
              end
            else no_match in
          match match_chunk chunk name with
          | None => None
          | Some (Some t) => if bool_decide (t = "") || negb last then match_rounds fuel rest t else skip
          | Some None => skip
          end
  end.

Definition Match (pattern name : string) : option bool :=
  match_rounds (S (String.length pattern)) pattern name.

(** [matched, _ := filepath.Match(...)]: an error reads as no match. *)
Definition Matched (pattern name : string) : bool := default false (Match pattern name).

Example Match_star : Match "*.json" "a.json" = Some true /\ Match "*.json" "d/a.json" = Some false
  /\ Match "d/*/c?" "d/x.y/cz" = Some true /\ Match "[a-c]x[^d]" "bxe" = Some true
  /\ Match "[" "a" = None /\ Match "a[" "b" = None /\ Match "\*" "*" = Some true
  /\ Match "a*b*c" "axbxxbyc" = Some true /\ Match "*" "a/b" = Some false.
Proof. vm_compute. done. Qed.
