(* ===== verification/GoFilepath.v ===== *)
(** * The rest of path/filepath the backends use, on a system whose separator is the slash

    [Dir], [Rel] and [Ext]; [FromSlash] and [ToSlash] change nothing there. *)

From S2P Require Import Prelude GoLib Errors GoPath.

(** [filepath.Dir]: what comes before the last slash, cleaned. *)
Definition Dir (p : string) : string :=
  match removelast (split_slash p) with
  | [] => "."
  | parts => Clean (join_slash (parts ++ [""]))
  end.

(** The elements of a clean path, none for ["."]. *)
Definition elements (p : string) : list string :=
  if decide (p = ".") then [] else if is_rooted p then filter (fun e => e <> "") (split_slash p) else split_slash p.

Fixpoint strip_common (a b : list string) : list string * list string :=
  match a, b with
  | x :: a', y :: b' => if decide (x = y) then strip_common a' b' else (a, b)
  | _, _ => (a, b)
  end.

(** [filepath.Rel] *)
Definition Rel (base targ : string) : result error string :=
  let base := Clean base in
  let targ := Clean targ in
  if decide (base = targ) then Ok "."
  else
    let fail := Err (Errorf ("Rel: can't make " +:+ targ +:+ " relative to " +:+ base)) in
    if bool_decide (is_rooted base <> is_rooted targ) then fail
    else
      let '(b, t) := strip_common (elements base) (elements targ) in
      if decide (head b = Some "..") then fail
      else Ok (join_slash (map (fun _ => "..") b ++ t)).

(** [filepath.Ext]: the suffix from the last dot of the last element. *)
Fixpoint last_dot (s : string) (found : string) : string :=
  match s with
  | EmptyString => found
  | String c s' => last_dot s' (if decide (c = "."%char) then s else if decide (c = slash) then "" else found)
  end.
Definition Ext (p : string) : string := last_dot p "".

Example Dir_examples : (Dir "a/b", Dir "/x", Dir "x", Dir "a//b/c") = ("a", "/", ".", "a/b").
Proof. reflexivity. Qed.
Example Rel_examples :
  (Rel "data" "data/a/b", Rel "." "a", Rel "data" "x", Rel "data/" "data", Rel ".." "a") =
  (Ok "a/b", Ok "a", Ok "../x", Ok ".", Err (Errorf "Rel: can't make a relative to ..")).
Proof. reflexivity. Qed.
Example Ext_examples : (Ext "a.b/c", Ext "a/c.tar.gz", Ext ".x") = ("", ".gz", ".x").
Proof. reflexivity. Qed.

(** ** Clean paths as elements

    A clean path is [render] of a flag and its elements: normal names, or leading [".."]s. *)

Definition render (rooted : bool) (parts : list string) : string :=
  if rooted then String slash (join_slash parts) else if decide (join_slash parts = "") then "." else join_slash parts.

Definition clean_part (part : string) : Prop := normal_part part \/ part = "..".

Lemma Clean_render p : p <> "" -> Clean p = render (is_rooted p) (clean_parts (is_rooted p) (split_slash p)).
Proof. intros Hp. unfold Clean, render. by rewrite decide_False. Qed.

Lemma clean_parts_clean rooted parts : Forall no_slash parts -> Forall clean_part (clean_parts rooted parts).
Proof.
  intros Hn. destruct (clean_parts_shape rooted parts Hn) as (n & names & -> & Hnames & _). apply Forall_app. split.
  - apply Forall_replicate. by right.
  - eapply Forall_impl; [exact Hnames|]. by left.
Qed.

Lemma clean_part_no_slash part : clean_part part -> no_slash part /\ part <> "".
Proof. intros [(? & _ & _ & ?)| ->]; [done|]. split; [|done]. unfold no_slash. set_solver. Qed.

Lemma clean_no_slash parts : Forall clean_part parts -> Forall no_slash parts.
Proof. intros H. eapply Forall_impl; [exact H|]. intros p. apply clean_part_no_slash. Qed.

Lemma split_slash_slash a b : split_slash (a +:+ String slash b) = split_slash a ++ split_slash b.
Proof.
  induction a as [|c a IH]; [done|]. change (String c a +:+ String slash b) with (String c (a +:+ String slash b)).
  cbn [split_slash]. rewrite IH. case_decide; [done|]. pose proof (split_slash_nonempty a). by destruct (split_slash a).
Qed.

Lemma join_clean_empty parts : Forall clean_part parts -> join_slash parts = "" -> parts = [].
Proof.
  intros Hc Hj. destruct parts as [|p ps]; [done|].
  assert (split_slash (join_slash (p :: ps)) = p :: ps) as Hs by (apply split_join; [done|by apply clean_no_slash]).
  rewrite Hj in Hs. injection Hs as <- _. apply Forall_cons in Hc as [[_ ?]%clean_part_no_slash _]. done.
Qed.

Lemma render_nonempty r parts : render r parts <> "".
Proof. unfold render. destruct r; [done|]. by case_decide. Qed.

Lemma render_rooted r parts : Forall clean_part parts -> is_rooted (render r parts) = r.
Proof.
  intros Hc. unfold render. destruct r; [unfold is_rooted; by destruct (join_slash parts)|].
  case_decide as Hj; [done|]. destruct parts as [|p ps]; [done|]. apply Forall_cons in Hc as [[? ?]%clean_part_no_slash _].
  by apply join_not_rooted.
Qed.

(** The elements of a rendered path; the root and the dot have none. *)
Lemma split_render r parts : Forall clean_part parts -> parts <> [] ->
  split_slash (render r parts) = if r then "" :: parts else parts.
Proof.
  intros Hc Hne. unfold render. destruct r.
  - change (String slash (join_slash parts)) with ("" +:+ String slash (join_slash parts)).
    rewrite split_slash_slash, split_join; [done..|by apply clean_no_slash].
  - rewrite decide_False by by intros ?%join_clean_empty. apply split_join; [done|by apply clean_no_slash].
Qed.

Lemma elements_render r parts : Forall clean_part parts -> elements (render r parts) = parts.
Proof.
  intros Hc. unfold elements. destruct (decide (parts = [])) as [->|Hne]; [by destruct r|].
  assert (filter (fun e => e <> "") parts = parts) as Hf.
  { clear Hne. induction Hc as [|e l [_ He]%clean_part_no_slash _ IH]; [done|]. by rewrite filter_cons_True, IH. }
  rewrite (render_rooted r parts Hc), (split_render r parts Hc Hne). rewrite decide_False.
  - destruct r; [|done]. rewrite filter_cons_False by auto. done.
  - intros Hd. assert (split_slash (render r parts) = ["."]) as Hs by by rewrite Hd. rewrite split_render in Hs by done.
    destruct r; [done|]. subst parts. apply Forall_cons in Hc as [[(_ & ? & _)|?] _]; done.
Qed.

(** Elements below a directory never climb out of it once their own cleaning has no [".."]. *)
Lemma fold_clean_over rooted parts names0 below :
  Forall normal_part names0 -> Forall no_slash parts ->
  Forall normal_part (fold_left (clean_step false) parts names0) ->
  fold_left (clean_step rooted) parts (names0 ++ below) = fold_left (clean_step false) parts names0 ++ below.
Proof.
  revert names0. induction parts as [|part parts IH]; intros names0 Hn Hs Hf; [done|]. cbn [fold_left] in *.
  apply Forall_cons in Hs as [Hs0 Hs].
  assert (forall stack, ".." ∈ stack -> ".." ∈ fold_left (clean_step false) parts stack) as Hstay.
  { clear. induction parts as [|part parts IH]; intros stack Hin; [done|]. cbn. apply IH. unfold clean_step.
    case_decide; [done|]. case_decide; [|by right]. destruct stack as [|top rest]; [by apply not_elem_of_nil in Hin|].
    case_decide; [by right|]. by apply elem_of_cons in Hin as [<-|]. }
  assert (clean_step rooted (names0 ++ below) part = clean_step false names0 part ++ below /\
          Forall normal_part (clean_step false names0 part)) as [-> Hn'].
  { revert Hf. unfold clean_step. case_decide; [done|]. case_decide.
    - destruct names0 as [|t names0].
      + intros Hf. exfalso. rewrite Forall_forall in Hf.
        destruct (Hf ".." (Hstay [".."] ltac:(by left))) as (_ & _ & ? & _). done.
      + apply Forall_cons in Hn as [(_ & _ & Ht & _) Hn]. cbn. rewrite !decide_False by done. done.
    - intros _. split; [done|]. constructor; [unfold normal_part; naive_solver|done]. }
  apply IH; [done|done|]. done.
Qed.

Lemma clean_parts_below rooted parts q :
  Forall normal_part (clean_parts false (split_slash q)) ->
  clean_parts rooted (parts ++ split_slash q) = clean_parts rooted parts ++ clean_parts false (split_slash q).
Proof.
  unfold clean_parts. rewrite fold_left_app. intros Hn.
  pose proof (fold_clean_over rooted (split_slash q) [] (fold_left (clean_step rooted) parts [])) as Hf. cbn [app] in Hf.
  rewrite Hf, rev_app_distr; [done|done|apply split_slash_no_slash|].
  apply Forall_rev in Hn. by rewrite rev_involutive in Hn.
Qed.

(** [filepath.Join] of a directory and a path that stays below it. *)
Lemma Join_below dir q :
  dir <> "" -> q <> "" -> Forall normal_part (clean_parts false (split_slash q)) ->
  Join dir q = render (is_rooted dir) (clean_parts (is_rooted dir) (split_slash dir) ++ clean_parts false (split_slash q)).
Proof.
  intros Hd Hq Hn. unfold Join. rewrite filter_cons_True, filter_cons_True by done. cbn [filter list_filter].
  change (join_slash [dir; q]) with (dir +:+ String slash q).
  assert (dir +:+ String slash q <> "") as Hne by by destruct dir.
  assert (is_rooted (dir +:+ String slash q) = is_rooted dir) as Hr by (destruct dir as [|c dir]; [done|by destruct dir]).
  rewrite Clean_render, Hr, split_slash_slash by done. by rewrite clean_parts_below.
Qed.

Lemma Clean_of_render r parts : Forall clean_part parts -> clean_parts r parts = parts -> Clean (render r parts) = render r parts.
Proof.
  intros Hc Hp. rewrite Clean_render by apply render_nonempty. rewrite render_rooted by done.
  destruct (decide (parts = [])) as [->|Hne]; [by destruct r|]. rewrite split_render by done.
  assert (clean_parts r (if r then "" :: parts else parts) = clean_parts r parts) as ->; [by destruct r|by rewrite Hp].
Qed.

(** Names below some [..] are clean. *)
Lemma clean_parts_shaped rooted n names :
  Forall normal_part names -> (rooted = true -> n = 0) ->
  clean_parts rooted (replicate n ".." ++ names) = replicate n ".." ++ names.
Proof.
  intros Hn Hr. unfold clean_parts. rewrite fold_left_app.
  assert (fold_left (clean_step rooted) (replicate n "..") [] = replicate n "..") as ->.
  { destruct rooted; [by rewrite Hr|]. clear. assert (forall m, fold_left (clean_step false) (replicate n "..") (replicate m "..") = replicate (n + m) "..") as H.
    { induction n as [|n IH]; intros m; [done|]. cbn [replicate fold_left].
      replace (clean_step false (replicate m "..") "..") with (replicate (S m) "..") by (by destruct m).
      rewrite IH. f_equal. lia. }
    specialize (H 0). by rewrite Nat.add_0_r in H. }
  assert (forall stack, fold_left (clean_step rooted) names stack = rev names ++ stack) as ->.
  { clear -Hn. induction Hn as [|p ps (H1 & H2 & H3 & _) Hall IH]; intros stack; [done|]. cbn [fold_left rev].
    rewrite IH. unfold clean_step. rewrite !decide_False by naive_solver. by rewrite <- app_assoc. }
  rewrite rev_app_distr, rev_involutive. f_equal. clear. induction n as [|n IH]; [done|].
  cbn [replicate rev]. rewrite IH. by rewrite <- replicate_cons_app.
Qed.

(** Cleaning is idempotent, and names below a clean path are clean. *)
Lemma clean_parts_idem rooted parts names :
  Forall no_slash parts -> Forall normal_part names ->
  clean_parts rooted (clean_parts rooted parts ++ names) = clean_parts rooted parts ++ names.
Proof.
  intros Hns Hn. destruct (clean_parts_shape rooted parts Hns) as (n & ns & -> & Hns' & Hr).
  rewrite <- app_assoc. apply clean_parts_shaped; [by apply Forall_app|done].
Qed.

(** What comes before the last element of a clean path is clean. *)
Lemma clean_parts_parent rooted qs x :
  Forall no_slash (qs ++ [x]) -> clean_parts rooted (qs ++ [x]) = qs ++ [x] -> clean_parts rooted qs = qs.
Proof.
  intros Hns Hc. destruct (clean_parts_shape rooted (qs ++ [x]) Hns) as (n & ns & Hs & Hn & Hr). rewrite Hc in Hs.
  destruct ns as [|y ns _] using rev_ind.
  - rewrite app_nil_r in Hs. destruct n as [|n]; [by destruct qs|]. rewrite replicate_S_end in Hs. apply app_inj_tail in Hs as [-> _].
    rewrite <- (app_nil_r (replicate n "..")) at 1. rewrite clean_parts_shaped; [by rewrite app_nil_r|done|]. intros Hroot. by specialize (Hr Hroot).
  - rewrite app_assoc in Hs. apply app_inj_tail in Hs as [-> _]. apply clean_parts_shaped; [by apply Forall_app in Hn as [? _]|done].
Qed.

Lemma strip_common_app a b : strip_common a (a ++ b) = ([], b).
Proof. induction a as [|x a IH]; [by destruct b|]. cbn. by rewrite decide_True. Qed.

(** [filepath.Rel] of a place below the base. *)
Lemma Rel_below base names :
  base <> "" -> Forall normal_part names -> names <> [] ->
  Rel base (render (is_rooted base) (clean_parts (is_rooted base) (split_slash base) ++ names)) = Ok (join_slash names).
Proof.
  intros Hb Hn Hne. set (r := is_rooted base). set (parts := clean_parts r (split_slash base)).
  assert (Forall clean_part parts) as Hp by (apply clean_parts_clean, split_slash_no_slash).
  assert (Forall clean_part (parts ++ names)) as Hpn.
  { apply Forall_app. split; [done|]. eapply Forall_impl; [exact Hn|]. by left. }
  unfold Rel. rewrite Clean_render by done. fold r parts.
  rewrite (Clean_of_render r (parts ++ names)) by (done || (apply clean_parts_idem; [apply split_slash_no_slash|done])).
  rewrite decide_False.
  2: { intros He. assert (elements (render r parts) = elements (render r (parts ++ names))) as Hel by by rewrite He.
       rewrite !elements_render in Hel by done. destruct names; [done|]. apply (f_equal length) in Hel.
       rewrite length_app in Hel. cbn in Hel. lia. }
  rewrite !render_rooted by done. rewrite bool_decide_eq_false_2 by auto. rewrite !elements_render by done.
  rewrite strip_common_app. cbn. done.
Qed.

Lemma Clean_slash s : s <> "" -> Clean (s +:+ "/") = Clean s.
Proof.
  intros Hs. change "/" with (String slash ""). assert (is_rooted (s +:+ String slash "") = is_rooted s) as Hr by (destruct s as [|c s]; [done|by destruct s]).
  rewrite !Clean_render, Hr, split_slash_slash by (done || by destruct s). f_equal. unfold clean_parts.
  by rewrite fold_left_app.
Qed.

Lemma join_snoc_empty l : l <> [] -> join_slash (l ++ [""]) = join_slash l +:+ "/".
Proof.
  induction l as [|p [|q l] IH]; [done|done|]. intros _.
  change (join_slash ((p :: q :: l) ++ [""])) with (p +:+ String slash (join_slash ((q :: l) ++ [""]))). rewrite IH by done.
  change (join_slash (p :: q :: l)) with (p +:+ String slash (join_slash (q :: l))).
  by rewrite <- string_app_assoc.
Qed.

(** [filepath.Dir] of a rendered path. *)
Lemma Dir_snoc r qs x :
  Forall clean_part (qs ++ [x]) -> clean_parts r qs = qs -> Dir (render r (qs ++ [x])) = render r qs.
Proof.
  intros Hc Hclean. assert (Forall clean_part qs) as Hq by (by apply Forall_app in Hc as [? _]).
  assert (Clean (render r qs) = render r qs) as HC by (by apply Clean_of_render).
  unfold Dir. rewrite split_render by (done || by destruct qs).
  assert (removelast (if r then "" :: qs ++ [x] else qs ++ [x]) = if r then "" :: qs else qs) as ->.
  { destruct r; [rewrite app_comm_cons|]; apply removelast_last. }
  destruct (decide (qs = [])) as [He|Hne]; [rewrite He; by destruct r|].
  assert (join_slash (if r then "" :: qs else qs) = render r qs) as Hj.
  { unfold render. destruct r; [by rewrite join_cons|]. rewrite decide_False; [done|]. intros Hj.
    by apply Hne, join_clean_empty. }
  assert ((if r then "" :: qs else qs) <> []) as Hl by by destruct r.
  revert Hj Hl. generalize (if r then "" :: qs else qs). intros [|s l] Hj Hl; [done|].
  rewrite join_snoc_empty, Hj, Clean_slash by (done || apply render_nonempty). exact HC.
Qed.

Lemma Dir_render r parts names x :
  Forall no_slash parts -> Forall normal_part (names ++ [x]) ->
  Dir (render r (clean_parts r parts ++ names ++ [x])) = render r (clean_parts r parts ++ names).
Proof.
  intros Hns Hn. rewrite app_assoc. apply Dir_snoc.
  - rewrite <- app_assoc. apply Forall_app. split; [by apply clean_parts_clean|]. eapply Forall_impl; [exact Hn|]. by left.
  - apply clean_parts_idem; [done|]. by apply Forall_app in Hn as [? _].
Qed.

(** The directory of a clean path is the path without its last element. *)
Lemma Dir_removelast r qs :
  Forall clean_part qs -> Forall no_slash qs -> clean_parts r qs = qs -> Dir (render r qs) = render r (removelast qs).
Proof.
  intros Hc Hns Hq. destruct qs as [|x qs _] using rev_ind; [by destruct r|]. rewrite removelast_last.
  apply Dir_snoc; [done|]. by eapply clean_parts_parent.
Qed.
