(* ===== verification/GoUtf8.v ===== *)
(** * unicode/utf8 of the Go standard library: the characters of a string

    [range] over a string decodes it rune by rune, [AppendRune] writes a rune back.  A byte
    that is no character decodes to U+FFFD, so the way back is the identity exactly on valid
    UTF-8 ([encode_decode]). *)

From S2P Require Import Prelude GoLib GoPath GoGlob.
#[local] Open Scope N_scope.

Definition byte_of (n : N) : ascii := ascii_of_N n.

(** [utf8.AppendRune]; a surrogate or a number out of range is written as U+FFFD. *)
Definition encode_rune (r : N) : string :=
  let cont r := byte_of (N.lor 128 (N.land r 63)) in
  let three r := String (byte_of (N.lor 224 (N.shiftr r 12))) (String (cont (N.shiftr r 6)) (String (cont r) "")) in
  if r <=? 127 then String (byte_of r) ""
  else if r <=? 2047 then String (byte_of (N.lor 192 (N.shiftr r 6))) (String (cont r) "")
  else if (1114111 <? r) || ((55296 <=? r) && (r <=? 57343)) then three RuneError
  else if r <=? 65535 then three r
  else String (byte_of (N.lor 240 (N.shiftr r 18)))
         (String (cont (N.shiftr r 12)) (String (cont (N.shiftr r 6)) (String (cont r) ""))).

(** The runes [range] yields; the fuel is the length of the string. *)
Fixpoint runes_fuel (fuel : nat) (s : string) : list N :=
  match fuel, s with
  | S fuel, String _ _ => let '(r, n) := decode_rune s in r :: runes_fuel fuel (drop_string n s)
  | _, _ => []
  end.
Definition runes (s : string) : list N := runes_fuel (String.length s) s.

(** [utf8.ValidString] *)
Fixpoint valid_fuel (fuel : nat) (s : string) : bool :=
  match fuel, s with
  | _, EmptyString => true
  | S fuel, _ =>
      let '(r, n) := decode_rune s in
      negb ((r =? RuneError) && (n =? 1)%nat) && valid_fuel fuel (drop_string n s)
  | 0%nat, _ => false
  end.
Definition ValidString (s : string) : bool := valid_fuel (String.length s) s.

(** ** Lemmas *)

(** A rune in base 64. *)
Definition join (a b : N) : N := N.lor (N.shiftl a 6) b.

Lemma join_hi a b : b < 64 -> N.shiftr (join a b) 6 = a.
Proof.
  intros Hb. unfold join. rewrite N.shiftr_lor, N.shiftr_shiftl_l, N.sub_diag, N.shiftl_0_r by done.
  rewrite (N.shiftr_div_pow2 b), N.div_small by done. apply N.lor_0_r.
Qed.

Lemma join_lo a b : b < 64 -> N.land (join a b) 63 = b.
Proof.
  intros Hb. unfold join. change 63 with (N.ones 6). rewrite N.land_lor_distr_l, !N.land_ones.
  rewrite N.shiftl_mul_pow2, N.Div0.mod_mul, N.mod_small by done. apply N.lor_0_l.
Qed.

Lemma join_eq a b : b < 64 -> join a b = 64 * a + b.
Proof.
  intros Hb. pose proof (join_hi a b Hb) as H1. pose proof (join_lo a b Hb) as H2.
  change 63 with (N.ones 6) in H2. rewrite N.land_ones in H2. rewrite N.shiftr_div_pow2 in H1.
  pose proof (N.div_mod (join a b) (2 ^ 6)) as H. rewrite H1, H2 in H. change (2 ^ 6) with 64 in *. lia.
Qed.

Lemma join2 a x1 x2 : N.lor (N.lor (N.shiftl a 12) (N.shiftl x1 6)) x2 = join (join a x1) x2.
Proof. unfold join. by rewrite N.shiftl_lor, N.shiftl_shiftl. Qed.

Lemma join3 a x1 x2 x3 :
  N.lor (N.lor (N.lor (N.shiftl a 18) (N.shiftl x1 12)) (N.shiftl x2 6)) x3 = join (join (join a x1) x2) x3.
Proof. unfold join. by rewrite !N.shiftl_lor, !N.shiftl_shiftl. Qed.

(** A fact about one byte, by inspection of the 256. *)
Ltac all_bytes c := destruct c as [[] [] [] [] [] [] [] []]; vm_compute; try done.

Lemma cont_spec lo hi c x :
  cont lo hi c = Some x -> 128 <= lo -> hi <= 191 ->
  lo <= N_of_ascii c <= hi /\ x = N_of_ascii c - 128 /\ x < 64 /\ byte_of (N.lor 128 x) = c.
Proof.
  unfold cont. destruct (N.leb_spec lo (N_of_ascii c)); [|done]. destruct (N.leb_spec (N_of_ascii c) hi); [|done].
  intros [= <-] Hlo Hhi. split; [lia|].
  assert (128 <= N_of_ascii c <= 191) as Hc by lia. clear -Hc. revert Hc. by all_bytes c; intros [].
Qed.

Lemma lead2 c : 194 <= N_of_ascii c <= 223 ->
  2 <= N.land (N_of_ascii c) 31 < 32 /\ byte_of (N.lor 192 (N.land (N_of_ascii c) 31)) = c.
Proof. by all_bytes c; intros []. Qed.

Lemma lead3 c : 224 <= N_of_ascii c <= 239 ->
  N.land (N_of_ascii c) 15 = N_of_ascii c - 224 /\ byte_of (N.lor 224 (N.land (N_of_ascii c) 15)) = c.
Proof. by all_bytes c; intros []. Qed.

Lemma lead4 c : 240 <= N_of_ascii c <= 244 ->
  N.land (N_of_ascii c) 7 = N_of_ascii c - 240 /\ byte_of (N.lor 240 (N.land (N_of_ascii c) 7)) = c.
Proof. by all_bytes c; intros []. Qed.

Ltac decide_ranges :=
  repeat match goal with
  | |- context [?a <=? ?b] => destruct (N.leb_spec a b); try lia
  | |- context [?a <? ?b] => destruct (N.ltb_spec a b); try lia
  end.

Lemma encode2 a x : 2 <= a < 32 -> x < 64 ->
  encode_rune (join a x) = String (byte_of (N.lor 192 a)) (String (byte_of (N.lor 128 x)) "").
Proof.
  intros Ha Hx. pose proof (join_eq a x Hx). unfold encode_rune. rewrite join_hi, join_lo by done.
  by decide_ranges.
Qed.

Lemma encode3 a x1 x2 : a < 16 -> x1 < 64 -> x2 < 64 -> 0 < a \/ 32 <= x1 -> a <> 13 \/ x1 < 32 ->
  encode_rune (join (join a x1) x2) =
    String (byte_of (N.lor 224 a)) (String (byte_of (N.lor 128 x1)) (String (byte_of (N.lor 128 x2)) "")).
Proof.
  intros Ha H1 H2 Hlo Hs. pose proof (join_eq a x1 H1). pose proof (join_eq (join a x1) x2 H2).
  unfold encode_rune. change 12 with (6 + 6). rewrite <- !N.shiftr_shiftr, !join_hi, !join_lo by done. by decide_ranges.
Qed.

Lemma encode4 a x1 x2 x3 : a < 5 -> x1 < 64 -> x2 < 64 -> x3 < 64 -> 0 < a \/ 16 <= x1 -> a <> 4 \/ x1 < 16 ->
  encode_rune (join (join (join a x1) x2) x3) =
    String (byte_of (N.lor 240 a)) (String (byte_of (N.lor 128 x1))
      (String (byte_of (N.lor 128 x2)) (String (byte_of (N.lor 128 x3)) ""))).
Proof.
  intros Ha H1 H2 H3 Hlo Hs. pose proof (join_eq a x1 H1). pose proof (join_eq (join a x1) x2 H2).
  pose proof (join_eq (join (join a x1) x2) x3 H3).
  unfold encode_rune. change 18 with (6 + (6 + 6)). change 12 with (6 + 6).
  rewrite <- !N.shiftr_shiftr, !join_hi, !join_lo by done. by decide_ranges.
Qed.

Lemma two_ok c0 s lo hi r n : 194 <= N_of_ascii c0 <= 223 -> 128 <= lo -> hi <= 191 ->
  match s with
  | String c1 _ => match cont lo hi c1 with Some x1 => (N.lor (N.shiftl (N.land (N_of_ascii c0) 31) 6) x1, 2%nat) | None => (RuneError, 1%nat) end
  | _ => (RuneError, 1%nat)
  end = (r, n) -> (r =? RuneError) && (n =? 1)%nat = false ->
  String c0 s = encode_rune r +:+ drop_string n (String c0 s) /\ n = String.length (encode_rune r).
Proof.
  intros Hc0 Hlo Hhi Hd Hok. destruct s as [|c1 s]; [by injection Hd as <- <-|].
  destruct (cont lo hi c1) as [x1|] eqn:H1; [|by injection Hd as <- <-]. injection Hd as <- <-.
  apply cont_spec in H1 as (_ & _ & Hx1 & H1); [|done..]. apply lead2 in Hc0 as [Ha Hc0].
  fold (join (N.land (N_of_ascii c0) 31) x1). by rewrite encode2, Hc0, H1.
Qed.

Lemma three_ok c0 s lo hi r n : 224 <= N_of_ascii c0 <= 239 -> 128 <= lo -> hi <= 191 ->
  224 < N_of_ascii c0 \/ 160 <= lo -> N_of_ascii c0 <> 237 \/ hi <= 159 ->
  match s with
  | String c1 (String c2 _) =>
      match cont lo hi c1, cont 128 191 c2 with
      | Some x1, Some x2 => (N.lor (N.lor (N.shiftl (N.land (N_of_ascii c0) 15) 12) (N.shiftl x1 6)) x2, 3%nat)
      | _, _ => (RuneError, 1%nat)
      end
  | _ => (RuneError, 1%nat)
  end = (r, n) -> (r =? RuneError) && (n =? 1)%nat = false ->
  String c0 s = encode_rune r +:+ drop_string n (String c0 s) /\ n = String.length (encode_rune r).
Proof.
  intros Hc0 Hlo Hhi Hl Hs Hd Hok. destruct s as [|c1 [|c2 s]]; [by injection Hd as <- <-..|].
  destruct (cont lo hi c1) as [x1|] eqn:H1; [|by injection Hd as <- <-].
  destruct (cont 128 191 c2) as [x2|] eqn:H2; [|by injection Hd as <- <-]. injection Hd as <- <-.
  apply cont_spec in H1 as (? & ? & Hx1 & H1); [|done..]. apply cont_spec in H2 as (_ & _ & Hx2 & H2); [|done..].
  pose proof (lead3 c0 Hc0) as [Ha Hb]. rewrite join2, encode3, Hb, H1, H2 by lia. done.
Qed.

Lemma four_ok c0 s lo hi r n : 240 <= N_of_ascii c0 <= 244 -> 128 <= lo -> hi <= 191 ->
  240 < N_of_ascii c0 \/ 144 <= lo -> N_of_ascii c0 <> 244 \/ hi <= 143 ->
  match s with
  | String c1 (String c2 (String c3 _)) =>
      match cont lo hi c1, cont 128 191 c2, cont 128 191 c3 with
      | Some x1, Some x2, Some x3 =>
          (N.lor (N.lor (N.lor (N.shiftl (N.land (N_of_ascii c0) 7) 18) (N.shiftl x1 12)) (N.shiftl x2 6)) x3, 4%nat)
      | _, _, _ => (RuneError, 1%nat)
      end
  | _ => (RuneError, 1%nat)
  end = (r, n) -> (r =? RuneError) && (n =? 1)%nat = false ->
  String c0 s = encode_rune r +:+ drop_string n (String c0 s) /\ n = String.length (encode_rune r).
Proof.
  intros Hc0 Hlo Hhi Hl Hs Hd Hok. destruct s as [|c1 [|c2 [|c3 s]]]; [by injection Hd as <- <-..|].
  destruct (cont lo hi c1) as [x1|] eqn:H1; [|by injection Hd as <- <-].
  destruct (cont 128 191 c2) as [x2|] eqn:H2; [|by injection Hd as <- <-].
  destruct (cont 128 191 c3) as [x3|] eqn:H3; [|by injection Hd as <- <-]. injection Hd as <- <-.
  apply cont_spec in H1 as (? & ? & Hx1 & H1); [|done..]. apply cont_spec in H2 as (_ & _ & Hx2 & H2); [|done..].
  apply cont_spec in H3 as (_ & _ & Hx3 & H3); [|done..].
  pose proof (lead4 c0 Hc0) as [Ha Hb]. rewrite join3, encode4, Hb, H1, H2, H3 by lia. done.
Qed.

(** What a character decodes to is written back as the bytes it was read from. *)
Lemma encode_decode s r n :
  decode_rune s = (r, n) -> s <> "" -> (r =? RuneError) && (n =? 1)%nat = false ->
  s = encode_rune r +:+ drop_string n s /\ n = String.length (encode_rune r).
Proof.
  destruct s as [|c0 s]; [done|]. intros Hd _ Hok. unfold decode_rune in Hd.
  destruct (N.ltb_spec (N_of_ascii c0) 128) as [Hc|Hc].
  { injection Hd as <- <-. unfold encode_rune. decide_ranges. cbn. unfold byte_of. by rewrite ascii_N_embedding. }
  repeat match type of Hd with
  | (if (?a <=? ?b) && (?c <=? ?d) then _ else _) = _ => destruct (N.leb_spec a b), (N.leb_spec c d); cbn [andb] in Hd
  | (if ?a =? ?b then _ else _) = _ => destruct (N.eqb_spec a b)
  end; try lia;
  first [eapply two_ok; [..|exact Hd|exact Hok]; lia | eapply three_ok; [..|exact Hd|exact Hok]; lia
        |eapply four_ok; [..|exact Hd|exact Hok]; lia | by injection Hd as <- <-].
Qed.

Lemma decode_rune_width s r n : decode_rune s = (r, n) -> s <> "" -> (1 <= n <= 4)%nat.
Proof.
  destruct s as [|c0 s]; [done|]. intros Hd _. unfold decode_rune in Hd.
  repeat case_match; injection Hd as _ <-; lia.
Qed.

(** A string is its characters, written back. *)
Lemma runes_valid s : ValidString s = true -> foldr (fun r out => encode_rune r +:+ out) "" (runes s) = s.
Proof.
  unfold ValidString, runes. generalize (String.length s) as fuel. intros fuel. revert s.
  induction fuel as [|fuel IH]; intros [|c s]; [done..|]. cbn [valid_fuel runes_fuel].
  destruct (decode_rune (String c s)) as [r n] eqn:Hd. intros [Hok Hv]%andb_true_iff. cbn [foldr].
  rewrite IH by done. apply negb_true_iff in Hok. by destruct (encode_decode _ _ _ Hd ltac:(done) Hok) as [<- _].
Qed.

Lemma high_byte k b : k ∈ [128; 192; 224; 240] -> b < 64 -> 128 <= N_of_ascii (byte_of (N.lor k b)).
Proof.
  intros Hk Hb.
  assert (forallb (fun k => forallb (fun b => 128 <=? N_of_ascii (byte_of (N.lor k (N.of_nat b)))) (seq 0 64)) [128; 192; 224; 240] = true)
    as Hall by by vm_compute.
  rewrite forallb_forall in Hall. specialize (Hall k (proj1 (list_elem_of_In _ _) Hk)). rewrite forallb_forall in Hall.
  specialize (Hall (N.to_nat b)). rewrite N2Nat.id in Hall. apply N.leb_le, Hall, in_seq. lia.
Qed.

(** A rune below 128 is its byte, and no byte of another rune is ASCII. *)
Lemma encode_rune_bytes r :
  r <= 127 /\ encode_rune r = String (byte_of r) "" \/
  127 < r /\ Forall (fun c => 128 <= N_of_ascii c) (String.list_ascii_of_string (encode_rune r)).
Proof.
  assert (forall n, N.land n 63 < 64) as Hc.
  { intros n. change 63 with (N.ones 6). rewrite N.land_ones. by apply N.mod_lt. }
  assert (forall m n k, n < m * 2 ^ k -> 0 < m -> N.shiftr n k < m) as Hs.
  { intros m n k Hn Hm. rewrite N.shiftr_div_pow2. apply N.Div0.div_lt_upper_bound. lia. }
  unfold encode_rune.
  destruct (N.leb_spec r 127); [by left|right]. split; [done|].
  destruct (N.leb_spec r 2047); [|destruct (_ || _) eqn:?; [|destruct (N.leb_spec r 65535)]];
    cbn [String.list_ascii_of_string]; repeat constructor; (apply high_byte; [set_solver|]); try apply Hc.
  - apply Hs; [|done]. cbn. lia.
  - done.
  - apply Hs; [|done]. cbn. lia.
  - apply orb_false_iff in Heqb as [?%N.ltb_ge _]. apply Hs; [|done]. cbn. lia.
Qed.
