(* ===== verification/GoNet.v ===== *)
(** * net and net/netip of the Go standard library: addresses as the backends read them

    [SplitHostPort], [ParseIP] and [IsLoopback], after their source; the errors are [None], as
    no caller reads them.  An address is its 16 bytes, an IPv4 one mapped into them. *)

From S2P Require Import Prelude GoLib.

(** [strings.Split] on one character. *)
Fixpoint split_on (sep : ascii) (s : string) : list string :=
  match s with
  | EmptyString => [""]
  | String c s =>
      if decide (c = sep) then "" :: split_on sep s
      else match split_on sep s with p :: ps => String c p :: ps | [] => [String c ""] end
  end.

Fixpoint last_index (c : ascii) (s : string) (at_ : nat) (found : option nat) : option nat :=
  match s with
  | EmptyString => found
  | String d s => last_index c s (S at_) (if decide (c = d) then Some at_ else found)
  end.
Fixpoint index_byte (c : ascii) (s : string) : option nat :=
  match s with
  | EmptyString => None
  | String d s => if decide (c = d) then Some 0 else S <$> index_byte c s
  end.
Fixpoint take_string (n : nat) (s : string) : string :=
  match n, s with S n, String c s => String c (take_string n s) | _, _ => "" end.

(** [net.SplitHostPort] *)
Definition SplitHostPort (hostport : string) : option (string * string) :=
  i ← last_index ":"%char hostport 0 None;
  let port := drop_string (S i) hostport in
  let found c s := bool_decide (index_byte c s <> None) in
  match hostport with
  | String "["%char _ =>
      e ← index_byte "]"%char hostport;
      if bool_decide (S e = i) && negb (found "["%char (drop_string 1 hostport)) && negb (found "]"%char (drop_string (S e) hostport))
      then Some (drop_string 1 (take_string e hostport), port) else None
  | _ =>
      let host := take_string i hostport in
      if found ":"%char host || found "["%char hostport || found "]"%char hostport then None else Some (host, port)
  end.

(** A number in a base, of at most [most] digits. *)
Fixpoint number (digit : ascii -> option N) (base : N) (acc : N) (s : string) : option N :=
  match s with
  | EmptyString => Some acc
  | String c s => match digit c with Some d => number digit base (acc * base + d) s | None => None end
  end.
Definition dec_digit (c : ascii) : option N :=
  let n := N_of_ascii c in if ((48 <=? n) && (n <=? 57))%N then Some (n - 48)%N else None.
Definition hex_digit (c : ascii) : option N :=
  let n := N_of_ascii c in
  if ((48 <=? n) && (n <=? 57))%N then Some (n - 48)%N
  else if ((97 <=? n) && (n <=? 102))%N then Some (n - 87)%N
  else if ((65 <=? n) && (n <=? 70))%N then Some (n - 55)%N else None.

(** A field of an IPv4 address: no leading zero. *)
Definition octet (s : string) : option N :=
  if (String.length s =? 0)%nat || ((1 <? String.length s)%nat && String.prefix "0" s) then None
  else n ← number dec_digit 10 0 s; if (n <=? 255)%N then Some n else None.

Definition parseIPv4 (s : string) : option (list N) :=
  if decide (length (split_on "."%char s) = 4) then mapM octet (split_on "."%char s) else None.

(** The hexadecimal digits a string starts with. *)
Fixpoint hex_run (s : string) : string * string :=
  match s with
  | EmptyString => ("", "")
  | String c s' => match hex_digit c with Some _ => let '(a, b) := hex_run s' in (String c a, b) | None => ("", s) end
  end.

(** The loop of [parseIPv6] over the groups: the bytes so far, and where [::] stood.  Each round
    adds two bytes, so eight rounds are enough. *)
Fixpoint groups (fuel : nat) (ip : list N) (ellipsis : option nat) (s : string) : option (list N * option nat) :=
  match fuel with
  | 0 => if decide (s = "") then Some (ip, ellipsis) else None
  | S fuel =>
      let '(digits, rest) := hex_run s in
      if (String.length digits =? 0)%nat || (4 <? String.length digits)%nat then None
      else
        acc ← number hex_digit 16 0 digits;
        if String.prefix "." rest then
          if (bool_decide (ellipsis = None) && negb (length ip =? 12)%nat) || (12 <? length ip)%nat then None
          else v4 ← parseIPv4 s; Some (ip ++ v4, ellipsis)
        else
          let ip := ip ++ [N.shiftr acc 8; N.land acc 255] in
          match rest with
          | EmptyString => Some (ip, ellipsis)
          | String ":"%char EmptyString => None
          | String ":"%char (String ":"%char rest) =>
              if decide (ellipsis <> None) then None
              else if decide (rest = "") then Some (ip, Some (length ip)) else groups fuel ip (Some (length ip)) rest
          | String ":"%char rest => groups fuel ip ellipsis rest
          | _ => None
          end
  end.

Definition parseIPv6 (s : string) : option (list N) :=
  let expand '(ip, ellipsis) :=
    match ellipsis with
    | Some at_ => if (length ip <? 16)%nat then Some (take at_ ip ++ repeat 0%N (16 - length ip) ++ drop at_ ip) else None
    | None => if (length ip <? 16)%nat then None else Some ip
    end in
  if decide (s = "::") then Some (repeat 0%N 16)
  else r ← (if String.prefix "::" s then groups 8 [] (Some 0) (drop_string 2 s) else groups 8 [] None s); expand r.

(** [net.ParseIP]; a zone is no address for it. *)
Fixpoint ParseIP_at (s whole : string) : option (list N) :=
  match s with
  | EmptyString => None
  | String "."%char _ => v4 ← parseIPv4 whole; Some (repeat 0%N 10 ++ [255; 255]%N ++ v4)
  | String ":"%char _ => parseIPv6 whole
  | String "%"%char _ => None
  | String _ s => ParseIP_at s whole
  end.
Definition ParseIP (s : string) : option (list N) := ParseIP_at s s.

(** [ip.IsLoopback()]: 127.0.0.0/8 or ::1 *)
Definition IsLoopback (ip : list N) : bool :=
  if decide (take 12 ip = repeat 0%N 10 ++ [255; 255]%N) then bool_decide (ip !! 12 = Some 127%N)
  else bool_decide (ip = repeat 0%N 15 ++ [1%N]).

Example SplitHostPort_examples :
  (SplitHostPort "localhost:6379", SplitHostPort "[::1]:80", SplitHostPort "::1", SplitHostPort "host", SplitHostPort "a:b:1")
  = (Some ("localhost", "6379"), Some ("::1", "80"), None, None, None).
Proof. reflexivity. Qed.

Example IsLoopback_examples :
  map (fun s => IsLoopback <$> ParseIP s)
    ["127.0.0.1"; "127.9.8.7"; "::1"; "0:0::1"; "::ffff:127.0.0.1"; "10.0.0.1"; "::"; "2001:db8::7"; "127.0.0.01"; "127.1"; "fe80::1%lo"; "host"; "1:2:3:4:5:6:7:8"; "1::2::3"]
  = [Some true; Some true; Some true; Some true; Some true; Some false; Some false; Some false; None; None; None; None; Some false; None].
Proof. by vm_compute. Qed.
