(* ===== verification/KvsSqlite.v ===== *)
(** * kvs/backend/sqlite/sqlite.go: a key-value store in a SQL table

    The database is a parameter, [SqlDb], with an operation for each statement of the store;
    [SqlDbSpec] states what SQLite documents about them over the rows of the table.  The store
    has no lock: [closed] is a plain variable, so a concurrent [Close] is a data race, and a
    [Get] is the query and then, perhaps, a deletion. *)

From S2P Require Import Prelude GoLib Errors Kvs KvsMemory GoPath GoFilepath GoGlob GoUtf8.

(** [t.Unix()]: seconds since 1970, rounded down. *)
Definition Unix (t : time) : Z := (t / Second - 62135596800)%Z.

(** ** The database *)

Class SqlDb (D : Type) := {
  MkdirAll : string -> option error;
  sql_Open : string -> result error D;
  Exec_create : D -> D * option error;
  (** SELECT value, expires_at FROM kv WHERE key = ?; [None] is [sql.ErrNoRows] *)
  Query_row : context -> D -> string -> result error (option (bytes * option Z));
  (** INSERT ... ON CONFLICT(key) DO UPDATE *)
  Exec_upsert : context -> D -> string -> bytes -> option Z -> D * option error;
  Exec_delete : context -> D -> string -> D * option error;
  (** DELETE ... WHERE expires_at IS NOT NULL AND expires_at < ? *)
  Exec_purge : context -> D -> Z -> D * option error;
  (** SELECT key ... ORDER BY key, without and with key LIKE ?: the scans of the rows and [rows.Err()] *)
  Query_all : context -> D -> Z -> result error (list (result error string) * option error);
  Query_like : context -> D -> string -> Z -> result error (list (result error string) * option error);
  db_Close : D -> D * option error
}.

Module Sqlite.
Section store.
Context `{DB : SqlDb D}.

Record Store := mkStore { db : D; path : string; closed : bool }.

Definition createTables (d : D) : D * option error := Exec_create d.

Definition New (cfg_Path : string) : result error Store :=
  let p := if decide (cfg_Path = "") then "kvstore.db" else cfg_Path in
  let dir := Dir p in
  let open :=
    match sql_Open (p +:+ "?_journal_mode=WAL&_busy_timeout=5000") with
    | Err err => Err (Wrapf "open database: " err "")
    | Ok d =>
        match createTables d with
        | (d, Some err) => let '(_, _) := db_Close d in Err (Wrapf "create tables: " err "")
        | (d, None) => Ok (mkStore d p false)
        end
    end in
  if bool_decide (dir <> "") && bool_decide (dir <> ".") then
    onerr err <- MkdirAll dir return Err (Wrapf "create directory: " err "") else open
  else open.

Definition Path (s : Store) : string := s.(path).

Definition set_db (d : D) (s : Store) : Store := mkStore d s.(path) s.(closed).

Definition Delete (ctx : context) (s : Store) (key : string) : Store * option error :=
  if s.(closed) then (s, Some (err_kvs KvsErrClosed))
  else
    match Exec_delete ctx s.(db) key with
    | (d, Some err) => (set_db d s, Some (Wrapf "delete: " err ""))
    | (d, None) => (set_db d s, None)
    end.

(** What [Get] makes of the row; [None]: the row has expired and is to be deleted. *)
Definition Get_query (ctx : context) (now : time) (s : Store) (key : string) : option (result error bytes) :=
  if s.(closed) then Some (Err (err_kvs KvsErrClosed))
  else
    match Query_row ctx s.(db) key with
    | Err err => Some (Err (Wrapf "query: " err ""))
    | Ok None => Some (Err (err_kvs KvsErrNotFound))
    | Ok (Some (value, expiresAt)) =>
        match expiresAt with
        | Some e => if (e <? Unix now)%Z then None else Some (Ok value)
        | None => Some (Ok value)
        end
    end.

Definition Get (ctx : context) (now : time) (s : Store) (key : string) : Store * result error bytes :=
  match Get_query ctx now s key with
  | Some r => (s, r)
  | None => ((Delete ctx s key).1, Err (err_kvs KvsErrNotFound))
  end.

Definition Set_ (ctx : context) (now : time) (s : Store) (key : string) (value : bytes) (ttl : duration) : Store * option error :=
  if s.(closed) then (s, Some (err_kvs KvsErrClosed))
  else
    let expiresAt := if (0 <? ttl)%Z then Some (Unix (Add now ttl)) else None in
    match Exec_upsert ctx s.(db) key value expiresAt with
    | (d, Some err) => (set_db d s, Some (Wrapf "insert: " err ""))
    | (d, None) => (set_db d s, None)
    end.

Fixpoint scan_rows (rows : list (result error string)) (keys : list string) : result error (list string) :=
  match rows with
  | [] => Ok keys
  | Ok key :: rows => scan_rows rows (keys ++ [key])
  | Err err :: _ => Err (Wrapf "scan: " err "")
  end.

Definition List (ctx : context) (now : time) (s : Store) (prefix : string) : result error (list string) :=
  if s.(closed) then Err (err_kvs KvsErrClosed)
  else
    match (if decide (prefix = "") then Query_all ctx s.(db) (Unix now) else Query_like ctx s.(db) (prefix +:+ "%") (Unix now)) with
    | Err err => Err (Wrapf "query: " err "")
    | Ok (rows, rows_Err) =>
        match scan_rows rows [] with
        | Err err => Err err
        | Ok keys => match rows_Err with Some err => Err (Wrapf "rows: " err "") | None => Ok keys end
        end
    end.

Definition Close (s : Store) : Store * option error :=
  if s.(closed) then (s, None)
  else let '(d, err) := db_Close s.(db) in (mkStore d s.(path) true, err).

(** One tick of [cleanupLoop]; the deadline of its own context is [ctx]. *)
Definition removeExpired (ctx : context) (now : time) (s : Store) : Store :=
  if s.(closed) then s else set_db (Exec_purge ctx s.(db) (Unix now)).1 s.

End store.
End Sqlite.

(** ** LIKE

    A percent sign stands for any characters, an underscore for one character, in the UTF-8
    encoding, and letters of ASCII match either case. *)

Definition ascii_lower (c : ascii) : ascii :=
  let n := N_of_ascii c in if ((65 <=? n) && (n <=? 90))%N then ascii_of_N (n + 32) else c.

Definition continues (c : ascii) : bool := ((128 <=? N_of_ascii c) && (N_of_ascii c <? 192))%N.

Fixpoint drop_continuation (s : string) : string :=
  match s with String c s' => if continues c then drop_continuation s' else s | EmptyString => "" end.

(** The string without its first character. *)
Definition drop_char (s : string) : option string :=
  match s with
  | EmptyString => None
  | String c s => Some (if (192 <=? N_of_ascii c)%N then drop_continuation s else s)
  end.

(** A place inside a character. *)
Definition mid_char (s : string) : bool := match s with String c _ => continues c | EmptyString => false end.

Fixpoint like (p s : string) : bool :=
  match p with
  | EmptyString => bool_decide (s = "")
  | String c p' =>
      if decide (c = "%"%char) then
        (fix any s := (negb (mid_char s) && like p' s) || match s with EmptyString => false | String _ s => any s end) s
      else if decide (c = "_"%char) then match drop_char s with Some s => like p' s | None => false end
      else match s with
           | String d s => bool_decide (ascii_lower c = ascii_lower d) && like p' s
           | EmptyString => false
           end
  end.

(** ** What SQLite documents *)

(** A row that [List] selects at the second [sec]. *)
Definition unexpired (sec : Z) (r : bytes * option Z) : bool := match r.2 with Some e => (sec <? e)%Z | None => true end.

(** A row the purge leaves. *)
Definition not_before (sec : Z) (r : bytes * option Z) : bool := match r.2 with Some e => (sec <=? e)%Z | None => true end.

Definition selected (pred : string -> bool) (sec : Z) (t : gmap string (bytes * option Z)) : list string :=
  sort_strings (filter (fun k => pred k = true) (map_to_list (filter (fun kr => unexpired sec kr.2 = true) t)).*1).

(** A text SQLite compares as Go does: UTF-8 without NUL, of at most the 50000 bytes of a pattern. *)
Definition text (s : string) : bool :=
  ValidString s && bool_decide ("000"%char ∉ String.list_ascii_of_string s) && (Z.of_nat (String.length s) <? 50000)%Z.

(** The laws are for live contexts; an empty value is left out, as the driver binds a nil slice as NULL. *)
Class SqlDbSpec (D : Type) `{SqlDb D} := {
  rows : D -> gmap string (bytes * option Z);
  Query_row_spec d k : Query_row None d k = Ok (rows d !! k);
  Exec_upsert_spec d k v e : v <> [] -> exists d', Exec_upsert None d k v e = (d', None) /\ rows d' = <[k := (v, e)]> (rows d);
  Exec_delete_spec d k : exists d', Exec_delete None d k = (d', None) /\ rows d' = delete k (rows d);
  Exec_purge_spec d sec : exists d', Exec_purge None d sec = (d', None) /\
    rows d' = filter (fun kr => not_before sec kr.2 = true) (rows d);
  Query_all_spec d sec : Query_all None d sec = Ok (Ok <$> selected (fun _ => true) sec (rows d), None);
  Query_like_spec d p sec : text p = true -> (forall k, is_Some (rows d !! k) -> text k = true) -> Query_like None d p sec = Ok (Ok <$> selected (like p) sec (rows d), None)
}.

(** ** Lemmas *)

Import Sqlite.

Lemma Unix_mono t u : (t <= u)%Z -> (Unix t <= Unix u)%Z.
Proof. intros. unfold Unix. apply Z.sub_le_mono_r. by apply Z.div_le_mono. Qed.

Lemma Unix_next t u : (t + Second <= u)%Z -> (Unix t < Unix u)%Z.
Proof.
  intros H. unfold Unix. assert (t / Second + 1 <= u / Second)%Z; [|lia].
  replace (t / Second + 1)%Z with ((t + 1 * Second) / Second)%Z by (rewrite Z.div_add; [done|done]).
  apply Z.div_le_mono; [done|lia].
Qed.

(** The percent sign at the end of a pattern. *)
Lemma like_percent s : like "%" s = true.
Proof. unfold like. rewrite decide_True by done. induction s as [|c s IH]; [done|]. rewrite IH. apply orb_true_r. Qed.

Fixpoint lower (s : string) : string := match s with String c s => String (ascii_lower c) (lower s) | EmptyString => "" end.

(** No wildcard of LIKE. *)
Fixpoint plain (p : string) : Prop :=
  match p with String c p => c <> "%"%char /\ c <> "_"%char /\ plain p | EmptyString => True end.

Lemma prefix_cons c d p s : String.prefix (String c p) (String d s) = bool_decide (c = d) && String.prefix p s.
Proof. cbn. by destruct (ascii_dec c d); case_bool_decide. Qed.

Lemma like_plain p s : plain p -> like (p +:+ "%") s = String.prefix (lower p) (lower s).
Proof.
  revert s. induction p as [|c p IH]; intros s.
  { intros _. change ("" +:+ "%") with "%". rewrite like_percent. by destruct s. }
  intros (H1 & H2 & Hp). change (String c p +:+ "%") with (String c (p +:+ "%")). cbn [like lower].
  rewrite !decide_False by done. destruct s as [|d s]; [done|]. cbn [lower]. by rewrite prefix_cons, IH.
Qed.

Lemma elem_of_selected pred sec t k :
  k ∈ selected pred sec t <-> pred k = true /\ exists r, t !! k = Some r /\ unexpired sec r = true.
Proof.
  unfold selected. rewrite elem_of_sort_strings, list_elem_of_filter, list_elem_of_fmap. split.
  - intros [Hp ([k' r] & -> & Hin)]. apply elem_of_map_to_list, map_lookup_filter_Some in Hin as [? ?]. eauto.
  - intros [Hp (r & Hr & Hu)]. split; [done|]. exists (k, r). split; [done|]. apply elem_of_map_to_list.
    by apply map_lookup_filter_Some.
Qed.

Lemma scan_rows_ok l acc : scan_rows (Ok <$> l) acc = Ok (acc ++ l).
Proof. revert acc. induction l as [|k l IH]; intros acc; cbn; [by rewrite app_nil_r|]. by rewrite IH, <- app_assoc. Qed.

(** A value set at [t] can be read at [now], to the second. *)
Definition readable (t : time) (ttl : duration) (now : time) : bool := (ttl <=? 0)%Z || (Unix now <=? Unix (t + ttl))%Z.
(** ... and is listed. *)
Definition listable (t : time) (ttl : duration) (now : time) : bool := (ttl <=? 0)%Z || (Unix now <? Unix (t + ttl))%Z.

Section lemmas.
Context `{DS : SqlDbSpec D}.

(** A history of calls, newest first, as for the in-memory store. *)
Definition call_step (now : time) (c : KvsMem.call) (s : Store) : Store :=
  match c with
  | KvsMem.CallSet k v ttl => (Set_ None now s k v ttl).1
  | KvsMem.CallDelete k => (Delete None s k).1
  | KvsMem.CallCleanup => removeExpired None now s
  end.
Definition run (s : Store) (h : list (time * KvsMem.call)) : Store := fold_right (fun '(t, c) s => call_step t c s) s h.

(** The calls the laws of the database speak of. *)
Definition sql_call (c : KvsMem.call) : Prop :=
  match c with KvsMem.CallSet k v _ => v <> [] /\ text k = true | _ => True end.

Definition row_of (t : time) (v : bytes) (ttl : duration) : bytes * option Z := (v, if (0 <? ttl)%Z then Some (Unix (t + ttl)) else None).

Lemma readable_row t v ttl now : readable t ttl now = not_before (Unix now) (row_of t v ttl).
Proof. unfold readable, not_before, row_of. cbn. destruct (Z.ltb_spec 0 ttl), (Z.leb_spec ttl 0); (done || lia). Qed.

Lemma listable_row t v ttl now : listable t ttl now = unexpired (Unix now) (row_of t v ttl).
Proof. unfold listable, unexpired, row_of. cbn. destruct (Z.ltb_spec 0 ttl), (Z.leb_spec ttl 0); (done || lia). Qed.

Lemma step_rows now c s :
  s.(closed) = false -> sql_call c ->
  (call_step now c s).(closed) = false /\
  rows (call_step now c s).(db) =
    match c with
    | KvsMem.CallSet k v ttl => <[k := row_of now v ttl]> (rows s.(db))
    | KvsMem.CallDelete k => delete k (rows s.(db))
    | KvsMem.CallCleanup => filter (fun kr => not_before (Unix now) kr.2 = true) (rows s.(db))
    end.
Proof.
  intros Hc Hok. destruct c as [k v ttl|k|]; cbn [call_step]; unfold Set_, Delete, removeExpired; rewrite Hc.
  - destruct Hok as [Hv _].
    destruct (Exec_upsert_spec s.(db) k v (if (0 <? ttl)%Z then Some (Unix (Add now ttl)) else None) Hv) as (d & -> & Hr). by split; [|cbn; rewrite Hr].
  - destruct (Exec_delete_spec s.(db) k) as (d & -> & Hr). by split; [|cbn; rewrite Hr].
  - destruct (Exec_purge_spec s.(db) (Unix now)) as (d & -> & Hr). by split; [|cbn; rewrite Hr].
Qed.

(** The row of a key is that of its last write, or gone once it cannot be read any more. *)
Lemma run_rows s0 h now k :
  s0.(closed) = false -> rows s0.(db) = ∅ -> KvsMem.clock_ok now h -> Forall (fun tc => sql_call tc.2) h ->
  (run s0 h).(closed) = false /\
  match rows (run s0 h).(db) !! k with
  | Some r => exists t v ttl, KvsMem.last_write k h = Some (t, v, ttl) /\ r = row_of t v ttl
  | None => forall t v ttl, KvsMem.last_write k h = Some (t, v, ttl) -> readable t ttl now = false
  end.
Proof.
  intros Hc He. revert now. induction h as [|[t c] h IH]; intros now Hclock Hok; [cbn; by rewrite Hc, He, lookup_empty|].
  apply Forall_cons in Hok as [Hcall Hok]. destruct Hclock as [Hle Hclock].
  destruct (IH t Hclock Hok) as [Hc' Hr]. destruct (step_rows t c (run s0 h) Hc' Hcall) as [Hc2 Hrows].
  cbn [run fold_right]. fold (run s0 h). split; [done|]. rewrite Hrows. clear Hrows.
  assert (forall u ttl, readable u ttl t = false -> readable u ttl now = false) as Hmono.
  { intros u ttl. unfold readable. pose proof (Unix_mono t now Hle). intros [? ?%Z.leb_gt]%orb_false_iff.
    apply orb_false_iff. split; [done|]. apply Z.leb_gt. lia. }
  destruct c as [k' v ttl|k'|]; cbn [KvsMem.last_write].
  - case_decide as Hk; [subst k'; rewrite lookup_insert_eq; by exists t, v, ttl|]. rewrite lookup_insert_ne by done.
    destruct (rows _ !! k); [done|]. intros u w ttl' Hlw. eapply Hmono. by eapply Hr.
  - case_decide as Hk; [subst k'; by rewrite lookup_delete_eq|]. rewrite lookup_delete_ne by done.
    destruct (rows _ !! k); [done|]. intros u w ttl' Hlw. eapply Hmono. by eapply Hr.
  - destruct (rows (run s0 h).(db) !! k) as [r|] eqn:Hk.
    + destruct Hr as (u & w & ttl & Hlw & ->). destruct (not_before (Unix t) (row_of u w ttl)) eqn:Hnb.
      * rewrite (map_lookup_filter_Some_2 _ _ k (row_of u w ttl)) by done. by exists u, w, ttl.
      * rewrite map_lookup_filter_None_2 by (right; intros r Hr; rewrite Hk in Hr; injection Hr as <-; cbn; congruence).
        intros u' w' ttl' Hlw'. rewrite Hlw in Hlw'. injection Hlw' as <- <- <-. eapply Hmono. by rewrite (readable_row u w).
    + rewrite map_lookup_filter_None_2 by by left. intros u w ttl' Hlw. eapply Hmono. by eapply Hr.
Qed.

Lemma Get_rows now s k :
  s.(closed) = false ->
  (Get None now s k).2 =
    match rows s.(db) !! k with
    | Some r => if not_before (Unix now) r then Ok r.1 else Err (err_kvs KvsErrNotFound)
    | None => Err (err_kvs KvsErrNotFound)
    end.
Proof.
  intros Hc. unfold Get, Get_query. rewrite Hc, Query_row_spec. destruct (rows s.(db) !! k) as [[v [e|]]|]; [|done..].
  unfold not_before. cbn. by destruct (Z.ltb_spec e (Unix now)), (Z.leb_spec (Unix now) e); try lia.
Qed.

Lemma List_rows now s p :
  s.(closed) = false -> text (p +:+ "%") = true -> (forall k, is_Some (rows s.(db) !! k) -> text k = true) ->
  List None now s p = Ok (selected (like (p +:+ "%")) (Unix now) (rows s.(db))).
Proof.
  intros Hc Hp Ht. unfold List. rewrite Hc. case_decide as He.
  - rewrite Query_all_spec, scan_rows_ok. cbn [app]. f_equal. subst p. unfold selected. f_equal.
    apply list_filter_iff. intros k. change ("" +:+ "%") with "%". by rewrite like_percent.
  - rewrite Query_like_spec by done. by rewrite scan_rows_ok.
Qed.

(** The keys of a history are texts. *)
Lemma run_text s0 h k :
  s0.(closed) = false -> rows s0.(db) = ∅ -> Forall (fun tc => sql_call tc.2) h ->
  (run s0 h).(closed) = false /\ (is_Some (rows (run s0 h).(db) !! k) -> text k = true).
Proof.
  intros Hc He. induction h as [|[t c] h IH]; intros Hok; [cbn; rewrite He, lookup_empty; split; [done|by intros []]|].
  apply Forall_cons in Hok as [Hcall Hok]. destruct (IH Hok) as [Hc' Ht].
  destruct (step_rows t c (run s0 h) Hc' Hcall) as [Hc2 Hr]. cbn [run fold_right]. fold (run s0 h). split; [done|].
  rewrite Hr. destruct c as [k' v ttl|k'|].
  - destruct (decide (k' = k)) as [<-|]; [intros _; apply Hcall|by rewrite lookup_insert_ne].
  - intros [r [_ Hin]%lookup_delete_Some]. apply Ht. by eexists.
  - intros [r [Hin _]%map_lookup_filter_Some]. apply Ht. by eexists.
Qed.

(** ** Properties *)

(** Claim C17. The store over SQLite is a map with time-to-live, to the second: after any
    history of sets, deletions and cleanups whose clock never steps back, [Get] answers the
    last set of the key that no deletion followed until its expiry second has passed, and
    [ErrNotFound] otherwise; what it deletes on the way changes no answer.  A time-to-live
    that has not run out is honoured, and none is for a whole second after it did. *)
Theorem sqlite_history s0 h now k :
  s0.(closed) = false -> rows s0.(db) = ∅ -> KvsMem.clock_ok now h -> Forall (fun tc => sql_call tc.2) h ->
  let s := run s0 h in
  (Get None now s k).2 =
    match KvsMem.last_write k h with
    | Some (t, v, ttl) => if readable t ttl now then Ok v else Err (err_kvs KvsErrNotFound)
    | None => Err (err_kvs KvsErrNotFound)
    end /\
  (forall i later, (now <= later)%Z -> (Get None later (Get None now s k).1 i).2 = (Get None later s i).2) /\
  (forall t v ttl, KvsMem.last_write k h = Some (t, v, ttl) ->
    (outlives t ttl now = true -> readable t ttl now = true) /\
    ((0 < ttl)%Z -> readable t ttl now = true -> (now < t + ttl + Second)%Z)).
Proof.
  intros Hc He Hclock Hok s. destruct (run_rows s0 h now k Hc He Hclock Hok) as [Hcs Hrow]. fold s in Hcs, Hrow. split_and!.
  - rewrite Get_rows by done. destruct (rows s.(db) !! k) as [r|].
    + destruct Hrow as (t & v & ttl & -> & ->). by rewrite (readable_row t v).
    + destruct (KvsMem.last_write k h) as [[[t v] ttl]|] eqn:Hlw; [|done]. by rewrite (Hrow t v ttl).
  - intros i later Hle. unfold Get at 2. destruct (Get_query None now s k) as [r|] eqn:Hq; [done|]. cbn [fst].
    unfold Get_query in Hq. rewrite Hcs, Query_row_spec in Hq.
    destruct (rows s.(db) !! k) as [[v [e|]]|] eqn:Hk; [|done..]. destruct (Z.ltb_spec e (Unix now)) as [Hlt|]; [|done].
    unfold Delete. rewrite Hcs. destruct (Exec_delete_spec s.(db) k) as (d & -> & Hd). cbn [fst].
    rewrite !Get_rows by done. cbn [db set_db]. rewrite Hd. destruct (decide (i = k)) as [->|Hne]; [|by rewrite lookup_delete_ne].
    rewrite lookup_delete_eq, Hk. unfold not_before. cbn. pose proof (Unix_mono now later Hle).
    by destruct (Z.leb_spec (Unix later) e); [lia|].
  - intros t v ttl _. unfold outlives, readable. split.
    + intros [->|Hle%Z.leb_le]%orb_true_iff; [done|]. apply orb_true_iff. right. apply Z.leb_le. by apply Unix_mono.
    + intros Hpos [?%Z.leb_le|Hle%Z.leb_le]%orb_true_iff; [lia|]. destruct (Z.lt_ge_cases now (t + ttl + Second)) as [|Hge]; [done|].
      pose proof (Unix_next (t + ttl) now Hge). lia.
Qed.

(** [List] answers, ascending and once each, the keys whose last set has not come to
    its expiry second and that start with the prefix up to the case of ASCII letters, when
    the prefix has no wildcard of LIKE; so it omits keys that [Get] still finds, and names
    keys that do not start with the prefix. *)
Theorem sqlite_List s0 h now p :
  s0.(closed) = false -> rows s0.(db) = ∅ -> KvsMem.clock_ok now h -> Forall (fun tc => sql_call tc.2) h ->
  text (p +:+ "%") = true -> plain p ->
  exists l, List None now (run s0 h) p = Ok l /\ StronglySorted String.le l /\ NoDup l /\
    forall k, k ∈ l <-> String.prefix (lower p) (lower k) = true /\
      exists t v ttl, KvsMem.last_write k h = Some (t, v, ttl) /\ listable t ttl now = true.
Proof.
  intros Hc He Hclock Hok Htext Hplain. pose proof (fun k => run_text s0 h k Hc He Hok) as Ht.
  destruct (Ht "") as [Hcs _]. eexists. split; [apply List_rows; [done..|apply Ht]|].
  split; [apply sort_strings_sorted|]. split.
  { unfold selected. rewrite sort_strings_perm. apply NoDup_filter, NoDup_fst_map_to_list. }
  intros k. rewrite elem_of_selected, like_plain by done. apply and_iff_compat_l.
  destruct (run_rows s0 h now k Hc He Hclock Hok) as [_ Hrow]. split.
  - intros (r & Hr & Hu). rewrite Hr in Hrow. destruct Hrow as (t & v & ttl & Hlw & ->).
    exists t, v, ttl. split; [done|]. by rewrite (listable_row t v).
  - intros (t & v & ttl & Hlw & Hl). destruct (rows (run s0 h).(db) !! k) as [r|].
    + destruct Hrow as (t' & v' & ttl' & Hlw' & ->). rewrite Hlw in Hlw'. injection Hlw' as <- <- <-.
      eexists. split; [done|]. by rewrite <- listable_row.
    + specialize (Hrow t v ttl Hlw). unfold readable, listable in *. revert Hrow Hl.
      intros [-> Hr%Z.leb_gt]%orb_false_iff [?|Hl%Z.ltb_lt]%orb_true_iff; [done|lia].
Qed.

(** [Get] is two statements, and the store has no lock: a value set between the query
    that found the old one expired and the deletion that follows is deleted with it, although
    its set succeeded. *)
Theorem Get_deletes_renewed s now later k v :
  s.(closed) = false -> v <> [] -> Get_query None now s k = None ->
  let renewed := Set_ None now s k v 0 in
  renewed.2 = None /\ (Get None later renewed.1 k).2 = Ok v /\
  (Get None later (Delete None renewed.1 k).1 k).2 = Err (err_kvs KvsErrNotFound).
Proof.
  intros Hc Hv _. unfold Set_, Delete. rewrite Hc. cbn [Z.ltb Z.compare].
  destruct (Exec_upsert_spec s.(db) k v None Hv) as (d & -> & Hd). cbn [fst snd set_db closed db]. rewrite Hc.
  destruct (Exec_delete_spec d k) as (d' & -> & Hd'). split; [done|]. rewrite !Get_rows by done. cbn [fst set_db db].
  by rewrite Hd', Hd, lookup_insert_eq, lookup_delete_eq.
Qed.

End lemmas.

(** A closed store answers [ErrClosed] and no longer touches the database. *)
Theorem sqlite_closed `{SqlDb D} ctx now (s : Store) k v ttl p :
  let s' := (Close s).1 in
  Get ctx now s' k = (s', Err (err_kvs KvsErrClosed)) /\ Set_ ctx now s' k v ttl = (s', Some (err_kvs KvsErrClosed)) /\
  Delete ctx s' k = (s', Some (err_kvs KvsErrClosed)) /\ List ctx now s' p = Err (err_kvs KvsErrClosed) /\
  Close s' = (s', None) /\ removeExpired ctx now s' = s'.
Proof.
  intros s'. assert (s'.(closed) = true) as Hc by (subst s'; unfold Close; destruct s.(closed) eqn:?; [done|by destruct (db_Close s.(db))]).
  unfold Get, Get_query, Set_, Delete, List, Close, removeExpired. by rewrite Hc.
Qed.

(** ** A table in memory, and the witnesses *)

Module Demo.

Abbreviation Db := (gmap string (bytes * option Z)) (only parsing).

#[export] Instance demo_db : SqlDb Db := {
  MkdirAll _ := None;
  sql_Open _ := Ok ∅;
  Exec_create d := (d, None);
  Query_row _ d k := Ok (d !! k);
  Exec_upsert _ d k v e := (<[k := (v, e)]> d, None);
  Exec_delete _ d k := (delete k d, None);
  Exec_purge _ d sec := (filter (fun kr => not_before sec kr.2 = true) d, None);
  Query_all _ d sec := Ok (Ok <$> selected (fun _ => true) sec d, None);
  Query_like _ d p sec := Ok (Ok <$> selected (like p) sec d, None);
  db_Close d := (d, None)
}.

#[export] Instance demo_spec : SqlDbSpec Db.
Proof. by refine {| rows d := d |}; eauto. Defined.

Definition store : Store (D := Db) := mkStore ∅ "kvstore.db" false.

(** "a" set for half a second, "B" for ever, and a cleanup in the next second; newest first. *)
Definition history : list (time * KvsMem.call) :=
  let sec n := (n * Second)%Z in
  [(sec 11, KvsMem.CallCleanup); (sec 10, KvsMem.CallSet "b1" [x02] 0); (sec 10, KvsMem.CallSet "a" [x01] (sec 1 / 2))]%Z.

Lemma sqlite_history_witness :
  (Get None (10 * Second) (run store (drop 1 history)) "a").2 = Ok [x01] /\
  (Get None (11 * Second) (run store history) "a").2 = Err (err_kvs KvsErrNotFound).
Proof.
  split.
  - apply (sqlite_history store (drop 1 history) (10 * Second) "a"); [done..|by repeat constructor|by repeat constructor].
  - apply (sqlite_history store history (11 * Second) "a"); [done..|by repeat constructor|by repeat constructor].
Defined.

(** "a" can be read and is not listed; "b1" is listed under "B". *)
Lemma sqlite_List_witness :
  (exists l, List None (10 * Second) (run store (drop 1 history)) "" = Ok l /\ "a" ∉ l) /\
  (exists l, List None (10 * Second) (run store (drop 1 history)) "B" = Ok l /\ "b1" ∈ l).
Proof.
  split.
  - destruct (sqlite_List store (drop 1 history) (10 * Second) "") as (l & Hl & _ & _ & Hin); [done|done|by repeat constructor|by repeat constructor|done|done|].
    exists l. split; [done|]. intros (_ & t & v & ttl & [= <- <- <-] & [=])%Hin.
  - destruct (sqlite_List store (drop 1 history) (10 * Second) "B") as (l & Hl & _ & _ & Hin); [done|done|by repeat constructor|by repeat constructor|done|done|].
    exists l. split; [done|]. apply Hin. split; [done|]. by eexists _, _, _.
Defined.

(** A wildcard in the prefix. *)
Example like_wildcard : List None (10 * Second) (run store (drop 1 history)) "_1" = Ok ["b1"].
Proof. by vm_compute. Qed.

Lemma Get_deletes_renewed_witness :
  let s := run store (drop 1 history) in
  let renewed := Set_ None (12 * Second) s "a" [x07] 0 in
  (Get None (13 * Second) renewed.1 "a").2 = Ok [x07] /\
  (Get None (13 * Second) (Delete None renewed.1 "a").1 "a").2 = Err (err_kvs KvsErrNotFound).
Proof. by apply (Get_deletes_renewed (run store (drop 1 history)) (12 * Second) (13 * Second) "a" [x07]). Defined.

End Demo.
