(* ===== verification/Cleanup.v ===== *)
(** * The background goroutines of the stores, and Close

    [cleanup] of kvs/backend/memory, session/backend/memory and session/backend/kvs, [cleanupLoop]
    of kvs/backend/sqlite: when they start, what wakes them, and that a [Close] ends them.  [Close]
    runs a statement at a time, any number of calls of it at once: it takes the lock where the
    store has one, tests and sets [closed], closes [closeCh] where the store has it, and does the
    rest.  A goroutine stands at the select of its loop, which a closed [closeCh] or a tick lets
    go on.  A tick and any other call of the store are one step, inside the lock if there is one. *)

From S2P Require Import Prelude GoLib Errors Sessions SessionMemory Kvs KvsMemory KvsSqlite SessionKvs SessionKvsCalls.

(** ** A store, its calls of Close and its goroutine *)

Inductive routine := NotStarted | Looping | Returned.

(** Where a call of [Close] stands; [Panicked]: it closed [closeCh] a second time. *)
Inductive closer := AtLock | AtTest | AtAssign | AtCloseCh | AtRest | Done | Panicked.

#[export] Instance closer_eq_dec : EqDecision closer.
Proof. solve_decision. Defined.

(** What a package fills in: the flag, [s.closed = true], what [Close] does last, whether it
    holds a mutex, whether there is a [closeCh], the other calls and a tick. *)
Record kind (St : Type) := mkKind {
  closed : St -> bool;
  mark : St -> St;
  rest : St -> St;
  locked : bool;
  channel : bool;
  call : St -> St -> Prop;
  tick : St -> St -> Prop
}.
Arguments closed {St}. Arguments mark {St}. Arguments rest {St}. Arguments locked {St}.
Arguments channel {St}. Arguments call {St}. Arguments tick {St}.

Record sys (St : Type) := mkSys {
  store : St;
  closeCh : bool;
  holder : option nat;
  loop : routine;
  closers : list closer
}.
Arguments mkSys {St}. Arguments store {St}. Arguments closeCh {St}. Arguments holder {St}. Arguments loop {St}. Arguments closers {St}.

Section machine.
Context {St : Type} (k : kind St).

Definition free (s : sys St) : Prop := k.(locked) = true -> s.(holder) = None.

(** The next statement of the call [i] of [Close]; [None] when it waits or has ended. *)
Definition close_statement (i : nat) (c : closer) (s : sys St) : option (closer * sys St) :=
  match c with
  | AtLock =>
      if k.(locked) then
        match s.(holder) with
        | None => Some (AtTest, mkSys s.(store) s.(closeCh) (Some i) s.(loop) s.(closers))
        | Some _ => None
        end
      else Some (AtTest, s)
  | AtTest =>
      if k.(closed) s.(store) then Some (Done, mkSys s.(store) s.(closeCh) None s.(loop) s.(closers)) else Some (AtAssign, s)
  | AtAssign =>
      Some (if k.(channel) then AtCloseCh else AtRest, mkSys (k.(mark) s.(store)) s.(closeCh) s.(holder) s.(loop) s.(closers))
  | AtCloseCh =>
      if s.(closeCh) then Some (Panicked, mkSys s.(store) true None s.(loop) s.(closers))
      else Some (AtRest, mkSys s.(store) true s.(holder) s.(loop) s.(closers))
  | AtRest => Some (Done, mkSys (k.(rest) s.(store)) s.(closeCh) None s.(loop) s.(closers))
  | Done | Panicked => None
  end.

(** The goroutine: [case <-closeCh: return], or a tick; without a [closeCh] the loop ranges over
    the ticks and tests [closed] at each. *)
Inductive iterates : sys St -> sys St -> Prop :=
  | iterates_return st h cs :
      k.(channel) = true -> iterates (mkSys st true h Looping cs) (mkSys st true h Returned cs)
  | iterates_tick st st' ch h cs :
      (k.(locked) = true -> h = None) -> (k.(channel) = false -> k.(closed) st = false) -> k.(tick) st st' ->
      iterates (mkSys st ch h Looping cs) (mkSys st' ch h Looping cs)
  | iterates_closed st ch h cs :
      k.(channel) = false -> k.(closed) st = true -> iterates (mkSys st ch h Looping cs) (mkSys st ch h Returned cs).

Inductive step : sys St -> sys St -> Prop :=
  | step_call st st' ch h r cs :
      (k.(locked) = true -> h = None) -> k.(call) st st' -> step (mkSys st ch h r cs) (mkSys st' ch h r cs)
  | step_begin st ch h r cs : step (mkSys st ch h r cs) (mkSys st ch h r (cs ++ [AtLock]))
  | step_close i c c' s s' :
      s.(closers) !! i = Some c -> close_statement i c s = Some (c', s') ->
      step s (mkSys s'.(store) s'.(closeCh) s'.(holder) s'.(loop) (<[i := c']> s.(closers)))
  | step_iterate s s' : iterates s s' -> step s s'.

Definition start (st : St) (r : routine) : sys St := mkSys st false None r [].

(** What the packages keep to: only [Close] changes the flag. *)
Record lawful : Prop := {
  call_closed s s' : k.(call) s s' -> k.(closed) s' = k.(closed) s;
  tick_closed s s' : k.(tick) s s' -> k.(closed) s' = k.(closed) s;
  mark_closed s : k.(closed) (k.(mark) s) = true;
  rest_closed s : k.(closed) s = true -> k.(closed) (k.(rest) s) = true
}.

(** ** Invariants *)

Definition ended (c : closer) : bool := match c with Done | Panicked => true | _ => false end.

(** Someone who set the flag has closed the channel or is about to; whoever has ended found or
    set the flag; the goroutine returns for a reason. *)
Record sound (s : sys St) : Prop := {
  closed_why : k.(channel) = true -> k.(closed) s.(store) = true -> s.(closeCh) = true \/ AtCloseCh ∈ s.(closers);
  closers_closed c : c ∈ s.(closers) -> c = AtCloseCh \/ c = AtRest \/ ended c = true -> k.(closed) s.(store) = true;
  channel_closed : s.(closeCh) = true -> k.(closed) s.(store) = true;
  open_loops : s.(loop) = Returned -> k.(closed) s.(store) = true;
  open_alone : s.(closers) = [] -> k.(closed) s.(store) = false
}.

(** With a lock: one call at a time is between its test and its end, and the flag says whether the
    channel is closed but between the two statements. *)
Definition inside (c : closer) : bool := match c with AtTest | AtAssign | AtCloseCh | AtRest => true | _ => false end.

Record exclusive (s : sys St) : Prop := {
  one_inside i c : s.(closers) !! i = Some c -> inside c = true -> s.(holder) = Some i;
  in_step : match s.(holder) with
    | None => s.(closeCh) = k.(closed) s.(store)
    | Some i => match s.(closers) !! i with
        | Some AtTest => s.(closeCh) = k.(closed) s.(store)
        | Some AtAssign => s.(closeCh) = false /\ k.(closed) s.(store) = false
        | Some AtCloseCh => s.(closeCh) = false /\ k.(closed) s.(store) = true
        | Some AtRest => s.(closeCh) = true /\ k.(closed) s.(store) = true
        | _ => False
        end
    end;
  none_panicked : Panicked ∉ s.(closers);
  done_closed : Done ∈ s.(closers) -> s.(closeCh) = true
}.

Context (L : lawful).

Lemma elem_of_insert_closer (i : nat) (c c' : closer) (cs : list closer) : c ∈ <[i := c']> cs -> c = c' \/ c ∈ cs.
Proof.
  intros (j & Hj)%list_elem_of_lookup. apply list_lookup_insert_Some in Hj as [(_ & <- & _)|[_ Hj]]; [by left|right].
  by eapply list_elem_of_lookup_2.
Qed.

Lemma elem_of_kept_closer (i : nat) (c c' d : closer) (cs : list closer) :
  cs !! i = Some d -> c ∈ cs -> c <> d -> c ∈ <[i := c']> cs.
Proof.
  intros Hi (j & Hj)%list_elem_of_lookup Hne. apply (list_elem_of_lookup_2 _ j). rewrite list_lookup_insert_ne; [done|]. intros ->. congruence.
Qed.

(** What a statement of [Close] does to the flag and the channel. *)
Record close_effect (c c' : closer) (s s' : sys St) : Prop := {
  eff_loop : s'.(loop) = s.(loop);
  eff_keeps : k.(closed) s.(store) = true -> k.(closed) s'.(store) = true;
  eff_sets : k.(channel) = true -> k.(closed) s'.(store) = true -> k.(closed) s.(store) = true \/ c' = AtCloseCh;
  eff_opened : s'.(closeCh) = true -> s.(closeCh) = true \/ c = AtCloseCh;
  eff_stays : s.(closeCh) = true -> s'.(closeCh) = true;
  eff_closes : c = AtCloseCh -> s'.(closeCh) = true;
  eff_after : c' = AtCloseCh \/ c' = AtRest \/ ended c' = true -> k.(closed) s'.(store) = true
}.

Lemma close_effects i c s c' s' :
  close_statement i c s = Some (c', s') -> (c = AtCloseCh \/ c = AtRest -> k.(closed) s.(store) = true) -> close_effect c c' s s'.
Proof.
  intros Hs Hc. destruct c; cbn in Hs; repeat case_match; simplify_eq; split; cbn; auto; try naive_solver;
    try congruence; try (intros; apply (mark_closed L)); intros; apply (rest_closed L); auto.
Qed.

Lemma sound_step s s' : step s s' -> sound s -> sound s'.
Proof.
  intros Hs [Hwhy Hcl Hch Hop Hal]. destruct Hs as [st st' ch h r cs _ Hc|st ch h r cs|i c c' s s' Hi Hstep|s s' Hit]; cbn in *.
  - apply (call_closed L) in Hc. split; cbn; rewrite ?Hc; done.
  - split; cbn; [| |done|done|by destruct cs].
    + intros H1 H2. destruct (Hwhy H1 H2); [by left|right]. apply elem_of_app. by left.
    + intros c [Hc|Hc]%elem_of_app; [by apply Hcl|]. apply list_elem_of_singleton in Hc as ->. naive_solver.
  - apply list_elem_of_lookup_2 in Hi as Hin. destruct (close_effects _ _ _ _ _ Hstep) as [E1 E2 E3 E4 E5 E6 E7]; [naive_solver|].
    split; cbn.
    + intros H1 H2. destruct (E3 H1 H2) as [Hs| ->]; [|right; by eapply list_elem_of_lookup_2, list_lookup_insert_eq, lookup_lt_Some].
      destruct (Hwhy H1 Hs) as [|Ha]; [left; auto|]. destruct (decide (c = AtCloseCh)) as [->|Hne]; [left; auto|right].
      eapply elem_of_kept_closer; [done|done|congruence].
    + intros d [->|Hd]%elem_of_insert_closer Hd2; [auto|]. eapply E2, Hcl; eauto.
    + intros H. destruct (E4 H) as [| ->]; [auto|]. apply E2, (Hcl AtCloseCh); auto.
    + rewrite E1. auto.
    + intros E. apply (f_equal length) in E. rewrite length_insert in E. destruct (closers s); [by rewrite lookup_nil in Hi|done].
  - destruct Hit as [st h cs Hc|st st' ch h cs _ _ Ht|st ch h cs Hc Hst]; cbn in *.
    + split; cbn; auto.
    + apply (tick_closed L) in Ht. split; cbn; rewrite ?Ht; done.
    + split; cbn; auto.
Qed.

(** What holds of a call of [Close] inside, and when none is. *)
Definition flags_at (c : closer) (ch cl : bool) : Prop :=
  match c with
  | AtAssign => ch = false /\ cl = false
  | AtCloseCh => ch = false /\ cl = true
  | AtRest => ch = true /\ cl = true
  | _ => ch = cl
  end.

Lemma exclusive_at s i c :
  exclusive s -> s.(closers) !! i = Some c -> inside c = true -> s.(holder) = Some i /\ flags_at c s.(closeCh) (k.(closed) s.(store)).
Proof.
  intros [Hone Hin _ _] Hi Hc. specialize (Hone i c Hi Hc) as Hh. split; [done|]. rewrite Hh, Hi in Hin. by destruct c.
Qed.

Lemma exclusive_set st ch h r cs st' ch' h' r' i c c' :
  exclusive (mkSys st ch h r cs) -> cs !! i = Some c -> c' <> Panicked -> (c' = Done -> ch' = true) -> (ch = true -> ch' = true) ->
  (if inside c' then h' = Some i /\ (h = Some i \/ h = None) else h' = None /\ h = Some i) ->
  flags_at c' ch' (k.(closed) st') -> exclusive (mkSys st' ch' h' r' (<[i := c']> cs)).
Proof.
  intros [Hone Hin Hp Hd] Hi Hc' Hdone Hch Hh Hfl. cbn in *. pose proof (lookup_lt_Some _ _ _ Hi) as Hlt. split; cbn.
  - intros j d Hj Hd2. destruct (decide (j = i)) as [->|Hne].
    + rewrite list_lookup_insert_eq in Hj by done. injection Hj as <-. rewrite Hd2 in Hh. apply Hh.
    + rewrite list_lookup_insert_ne in Hj by done. specialize (Hone j d Hj Hd2). destruct (inside c'), Hh; naive_solver.
  - destruct (inside c') eqn:Hc; destruct Hh as [-> _]; [rewrite list_lookup_insert_eq by done|]; by destruct c'.
  - intros [?|?]%elem_of_insert_closer; [by subst|done].
  - intros [?|?]%elem_of_insert_closer; auto.
Qed.

Lemma exclusive_step s s' : k.(locked) = true -> k.(channel) = true -> step s s' -> exclusive s -> exclusive s'.
Proof.
  intros Hl Hchan Hs Hex. destruct Hs as [st st' ch h r cs Hf Hc|st ch h r cs|i c c' s s' Hi Hstep|s s' Hit].
  - destruct Hex as [Hone Hin Hp Hd]. specialize (Hf Hl) as ->. apply (call_closed L) in Hc. split; cbn in *; rewrite ?Hc; done.
  - destruct Hex as [Hone Hin Hp Hd]. split; cbn in *.
    + intros j c [Hj|[_ Hj]]%lookup_app_Some Hc; [eauto|]. by apply list_lookup_singleton_Some in Hj as [_ <-].
    + destruct h as [j|]; [|done]. destruct (cs !! j) as [c|] eqn:Hj; [|done]. by rewrite (lookup_app_l_Some _ _ _ _ Hj).
    + intros [?|H%list_elem_of_singleton]%elem_of_app; done.
    + intros [?|H%list_elem_of_singleton]%elem_of_app; [auto|done].
  - pose proof (exclusive_at s i c Hex Hi) as Hat. destruct s as [st ch h r cs]. cbn in *.
    destruct c; cbn [close_statement store holder closeCh inside] in *; rewrite ?Hl, ?Hchan in Hstep; try done;
      try destruct (Hat eq_refl) as [-> Hfl].
    + destruct h; [done|]. injection Hstep as <- <-. cbn. eapply exclusive_set; [exact Hex|done..|split; [done|by right]|apply Hex].
    + cbn in Hfl. destruct (closed k st) eqn:Hcl; injection Hstep as <- <-; cbn; (eapply exclusive_set; [exact Hex|done..| |]); cbn; rewrite ?Hcl; auto.
    + injection Hstep as <- <-. destruct Hfl as [-> _]. cbn. eapply exclusive_set; [exact Hex|done..|cbn; auto|]. split; [done|apply (mark_closed L)].
    + destruct Hfl as [-> Hfl]. injection Hstep as <- <-. cbn. eapply exclusive_set; [exact Hex|done..|cbn; auto|done].
    + destruct Hfl as [-> Hfl]. injection Hstep as <- <-. cbn. eapply exclusive_set; [exact Hex|done..|done|]. cbn. symmetry. by apply (rest_closed L).
  - destruct Hex as [Hone Hin Hp Hd]. destruct Hit as [st h cs Hc|st st' ch h cs Hf _ Ht|st ch h cs Hc Hst]; cbn in *.
    + by split.
    + specialize (Hf Hl) as ->. apply (tick_closed L) in Ht. split; cbn; rewrite ?Ht; done.
    + congruence.
Qed.

Lemma fresh_sound st r : k.(closed) st = false -> r <> Returned -> sound (start st r) /\ exclusive (start st r).
Proof. intros Hc Hr. split; split; cbn; congruence || set_solver. Qed.

Lemma reachable_sound st r s : k.(closed) st = false -> r <> Returned -> rtc step (start st r) s -> sound s.
Proof.
  intros Hc Hr Hs. pose proof (proj1 (fresh_sound st r Hc Hr)) as H0. revert H0. induction Hs as [|s1 s2 s3 H _ IH]; [done|].
  intros H0. apply IH. by eapply sound_step.
Qed.

Lemma reachable_exclusive st r s :
  k.(locked) = true -> k.(channel) = true -> k.(closed) st = false -> r <> Returned -> rtc step (start st r) s -> exclusive s.
Proof.
  intros Hl Hch Hc Hr Hs. pose proof (proj2 (fresh_sound st r Hc Hr)) as H0. revert H0. induction Hs as [|s1 s2 s3 H _ IH]; [done|].
  intros H0. apply IH. by eapply exclusive_step.
Qed.

(** A goroutine that was not started stays so. *)
Lemma never_started st s : rtc step (start st NotStarted) s -> s.(loop) = NotStarted.
Proof.
  intros Hs. assert ((start st NotStarted).(loop) = NotStarted) as H0 by done. revert H0.
  induction Hs as [|s1 s2 s3 H _ IH]; [done|]. intros H0. apply IH. destruct H as [| |i c c' s s' _ Hc|? ? Hi]; cbn in *; [done..| |by destruct Hi].
  destruct c; cbn in Hc; repeat case_match; simplify_eq; done.
Qed.

(** The goroutine can return at its next iteration. *)
Definition can_return (s : sys St) : Prop := exists s', iterates s s' /\ s'.(loop) = Returned.

Lemma closed_can_return s :
  s.(loop) = Looping -> (if k.(channel) then (s.(closeCh) = true) else (k.(closed) s.(store) = true)) -> can_return s.
Proof.
  destruct s as [st ch h r cs]. cbn. intros ->. destruct (channel k) eqn:Hc.
  - intros ->. eexists. split; [by apply iterates_return|done].
  - intros Hst. eexists. split; [by apply iterates_closed|done].
Qed.

(** As long as [Close] is not called the goroutine does not return; when some calls of [Close] have
    ended and none is under way, panics included, it can. *)
Definition ends_with_close (s : sys St) : Prop :=
  (s.(closers) = [] -> s.(loop) <> Returned) /\
  ((exists c, c ∈ s.(closers) /\ ended c = true) -> (forall c, c ∈ s.(closers) -> ended c = true \/ c = AtLock \/ c = AtTest) ->
     s.(loop) = Looping -> can_return s).

Lemma sound_ends s : sound s -> ends_with_close s.
Proof.
  intros [Hwhy Hcl Hch Hop Hal]. split.
  - intros Hnil Hr. specialize (Hop Hr). specialize (Hal Hnil). congruence.
  - intros (c & Hc & He) Hall Hl. assert (k.(closed) s.(store) = true) as Hst by (eapply Hcl; eauto).
    apply closed_can_return; [done|]. destruct (channel k) eqn:Hchan; [|done]. destruct (Hwhy eq_refl Hst) as [|Hin]; [done|].
    by destruct (Hall _ Hin) as [|[|]].
Qed.

(** With a lock no call of [Close] panics, and one that has ended is enough. *)
Definition ends_with_first_close (s : sys St) : Prop :=
  ~ (Panicked ∈ s.(closers)) /\ (s.(loop) = Returned -> s.(closers) <> []) /\
  (Done ∈ s.(closers) -> k.(closed) s.(store) = true /\ (s.(loop) = Looping -> can_return s)).

Lemma exclusive_ends s : k.(channel) = true -> sound s -> exclusive s -> ends_with_first_close s.
Proof.
  intros Hchan [Hwhy Hcl Hch Hop Hal] [Hone Hin Hp Hd]. split; [done|]. split.
  - intros Hr Hnil. specialize (Hop Hr). specialize (Hal Hnil). congruence.
  - intros Hdone. split; [auto|]. intros Hl. apply closed_can_return; [done|]. rewrite Hchan. auto.
Qed.
End machine.

(** ** The stores *)

Section kinds.
Context `{E : SessionEnv} `{O : MapOrder} `{DB : SqlDb D} `{J : !SessionJSON} {B : Type} `{KV : !ListableStore B}.

Definition kvs_memory : kind KvsMem.Store := {|
  closed := KvsMem.closed;
  mark s := KvsMem.mkStore s.(KvsMem.data) true;
  rest s := KvsMem.mkStore ∅ s.(KvsMem.closed);
  locked := true; channel := true;
  call s s' := exists now c, s' = KvsMem.call_step now c s;
  tick s s' := exists now, s' = KvsMem.removeExpired now s
|}.
Definition kvs_memory_start : routine := Looping.

Definition session_memory : kind MemoryStore.Store := {|
  closed := MemoryStore.closed;
  mark s := MemoryStore.mkStore s.(MemoryStore.sessions) s.(MemoryStore.userIndex) s.(MemoryStore.config) true;
  rest s := MemoryStore.mkStore ∅ ∅ s.(MemoryStore.config) s.(MemoryStore.closed);
  locked := true; channel := true;
  call s s' := exists now c, c <> MemoryStore.CallClose /\ s' = MemoryStore.call_step now c s;
  tick s s' := exists now, s' = MemoryStore.removeExpired now s
|}.

(** The stores of sessions start it when there is an interval. *)
Definition session_start (cfg : Config) : routine := if (0 <? cfg.(CleanupInterval))%Z then Looping else NotStarted.

(** kvs/backend/sqlite has no lock and no [closeCh]. *)
Definition sqlite : kind (Sqlite.Store (D:=D)) := {|
  closed := Sqlite.closed;
  mark s := Sqlite.mkStore s.(Sqlite.db) s.(Sqlite.path) true;
  rest s := Sqlite.mkStore (db_Close s.(Sqlite.db)).1 s.(Sqlite.path) s.(Sqlite.closed);
  locked := false; channel := false;
  call s s' := (exists ctx now key v ttl, s' = (Sqlite.Set_ ctx now s key v ttl).1) \/
    (exists ctx key, s' = (Sqlite.Delete ctx s key).1) \/ (exists ctx now key, s' = (Sqlite.Get ctx now s key).1);
  tick s s' := exists ctx now, s' = Sqlite.removeExpired ctx now s
|}.

(** session/backend/kvs has no lock; its operations make one call of the backend at a time. *)
Definition session_kvs : kind (KvsStore.Store B) := {|
  closed := KvsStore.closed;
  mark s := KvsStore.mkStore s.(KvsStore.backend) s.(KvsStore.config) true;
  rest s := KvsStore.mkStore (kv_Close s.(KvsStore.backend)).1 s.(KvsStore.config) s.(KvsStore.closed);
  locked := false; channel := true;
  call s s' := exists ctx now r, s' = (handle ctx now r s).1;
  tick s s' := exists now, KvsStore.cleanupOrphanedIndexes now s = Some s'
|}.
End kinds.

(** *** They are lawful, and [Close] run alone is that of each store *)

Section laws.
Context `{E : SessionEnv} `{O : MapOrder} `{DB : SqlDb D} `{J : !SessionJSON} {B : Type} `{KV : !ListableStore B}.

Lemma kvs_memory_lawful : lawful kvs_memory.
Proof.
  split; cbn; [| |done|done].
  - intros s s' (now & [k v ttl|k|] & ->); cbn; unfold KvsMem.Set_, KvsMem.Delete, KvsMem.removeExpired; go_cases; done.
  - intros s s' (now & ->). unfold KvsMem.removeExpired. by go_cases.
Qed.

Lemma session_purge_closed now s : (MemoryStore.removeExpired now s).(MemoryStore.closed) = s.(MemoryStore.closed).
Proof.
  unfold MemoryStore.removeExpired. case_match; [done|].
  apply (fold_left_inv (fun t => t.(MemoryStore.closed) = false)); [done|].
  intros t [i x] _ Ht. case_match; [|done]. by rewrite deleteSessionLocked_closed.
Qed.

Lemma session_memory_lawful : lawful session_memory.
Proof.
  split; cbn; [| |done|done].
  - intros s s' (now & c & Hc & ->). destruct c; cbn; try (rewrite session_purge_closed; done); try done;
      unfold MemoryStore.Create, MemoryStore.Get, MemoryStore.Get_finish, MemoryStore.Update, MemoryStore.Delete,
        MemoryStore.DeleteByUserID, MemoryStore.Touch, MemoryStore.ListByUserID; go_cases; rewrite ?deleteSessionLocked_closed; done.
  - intros s s' (now & ->). apply session_purge_closed.
Qed.

Lemma sqlite_lawful : lawful sqlite.
Proof.
  split; cbn; [| |done|done].
  - intros s s' [(ctx & now & k & v & ttl & ->)|[(ctx & k & ->)|(ctx & now & k & ->)]];
      unfold Sqlite.Get, Sqlite.Set_, Sqlite.Delete; by go_cases.
  - intros s s' (ctx & now & ->). unfold Sqlite.removeExpired. by case_match.
Qed.

Lemma handle_closed ctx now r (s : KvsStore.Store B) : (handle ctx now r s).1.(KvsStore.closed) = s.(KvsStore.closed).
Proof.
  destruct r; cbn; [done|..]; unfold KvsStore.backend_Get, KvsStore.backend_Set, KvsStore.backend_Delete, KvsStore.backend_List; by go_cases.
Qed.

Lemma run_keeps_flag {A} ctx now (p : prog A) (s : KvsStore.Store B) : (run ctx now p s).1.(KvsStore.closed) = s.(KvsStore.closed).
Proof.
  revert s. induction p as [a|r k IH]; intros s; [done|]. cbn. pose proof (handle_closed ctx now r s) as Hh.
  destruct (handle ctx now r s) as [s1 x]. cbn in Hh. by rewrite IH.
Qed.

Lemma session_kvs_lawful : lawful session_kvs.
Proof.
  split; cbn; [| |done|done].
  - intros s s' (ctx & now & r & ->). apply handle_closed.
  - intros s s' (now & Hs). pose proof (run_cleanup now s) as Hc. rewrite Hs in Hc.
    pose proof (run_keeps_flag None now (p_cleanup s.(KvsStore.config)) s) as Hk. by rewrite Hc in Hk.
Qed.

(** The statements of [Close], one after the other. *)
Definition close_alone {St} (k : kind St) (s : St) : St := if k.(closed) s then s else k.(rest) (k.(mark) s).

Lemma kvs_memory_Close s : close_alone kvs_memory s = (KvsMem.Close s).1.
Proof. unfold KvsMem.Close, close_alone. cbn. by destruct (KvsMem.closed s). Qed.
Lemma session_memory_Close s : close_alone session_memory s = (MemoryStore.Close s).1.
Proof. unfold MemoryStore.Close, close_alone. cbn. by destruct (MemoryStore.closed s). Qed.
Lemma sqlite_Close s : close_alone sqlite s = (Sqlite.Close s).1.
Proof. unfold Sqlite.Close, close_alone. cbn. destruct (Sqlite.closed s); [done|]. by destruct (db_Close _). Qed.
Lemma session_kvs_Close (s : KvsStore.Store B) : close_alone session_kvs s = (KvsStore.Close s).1.
Proof. unfold KvsStore.Close, close_alone. cbn. destruct (KvsStore.closed s); [done|]. by destruct (kv_Close _). Qed.
End laws.

(** ** Properties *)

Section properties.
Context `{E : SessionEnv} `{O : MapOrder} `{DS : SqlDbSpec D} `{J : !SessionJSON} {B : Type} `{KV : !ListableStore B}.

Lemma locked_ends {St} (k : kind St) st r s :
  lawful k -> k.(locked) = true -> k.(channel) = true -> k.(closed) st = false -> r <> Returned -> rtc (step k) (start st r) s ->
  ends_with_first_close k s.
Proof.
  intros L Hl Hch Hc Hr Hs. apply exclusive_ends; [done|by eapply reachable_sound|by eapply reachable_exclusive].
Qed.

Lemma session_start_looping cfg : session_start cfg <> Returned.
Proof. unfold session_start. by destruct (0 <? _)%Z. Qed.

Lemma session_not_started {St} (k : kind St) cfg st s :
  rtc (step k) (start st (session_start cfg)) s -> (0 <? cfg.(CleanupInterval))%Z = false -> s.(loop) = NotStarted.
Proof. unfold session_start. intros Hs Hi. rewrite Hi in Hs. by eapply never_started. Qed.

(** Claim C29. The cleanup goroutines end with their stores and not before, however the calls of the
    store, any number of calls of Close and the ticks interleave.  In the memory stores, whose
    Close holds the lock, no Close panics on [closeCh], the goroutine does not return before
    Close is called, and as soon as one Close has ended its select is ready to return.  In
    the session store over key-value stores and in sqlite, which have no lock, it is once a Close
    has ended and none is under way.  Those of the session stores are started only for a
    positive interval.  A tick of a closed memory store changes nothing; one of an open store
    takes away exactly what has expired. *)
Theorem cleanup_goroutines cfg db path (b : B) :
  (forall s, rtc (step kvs_memory) (start KvsMem.New kvs_memory_start) s -> ends_with_first_close kvs_memory s) /\
  (forall s, rtc (step session_memory) (start (MemoryStore.New cfg) (session_start cfg)) s ->
     ends_with_first_close session_memory s /\ ((0 <? cfg.(CleanupInterval))%Z = false -> s.(loop) = NotStarted)) /\
  (forall s, rtc (step session_kvs) (start (KvsStore.New b cfg) (session_start cfg)) s ->
     ends_with_close session_kvs s /\ ((0 <? cfg.(CleanupInterval))%Z = false -> s.(loop) = NotStarted)) /\
  (forall s, rtc (step sqlite) (start (Sqlite.mkStore db path false) Looping) s -> ends_with_close sqlite s) /\
  (forall now s key, (KvsMem.removeExpired now s).(KvsMem.data) !! key =
     e ← s.(KvsMem.data) !! key; if negb s.(KvsMem.closed) && KvsMem.entry_expired now e then None else Some e) /\
  (forall now s id, (MemoryStore.removeExpired now s).(MemoryStore.sessions) !! id =
     x ← s.(MemoryStore.sessions) !! id; if negb s.(MemoryStore.closed) && IsExpired now x then None else Some x) /\
  (forall now s key, s.(Sqlite.closed) = false -> rows (Sqlite.removeExpired None now s).(Sqlite.db) !! key =
     r ← rows s.(Sqlite.db) !! key; if not_before (Unix now) r then Some r else None).
Proof.
  split_and!.
  - intros s. by apply locked_ends; [apply kvs_memory_lawful|..].
  - intros s Hs. split; [|by eapply session_not_started]. revert Hs.
    apply locked_ends; [apply session_memory_lawful|done..|apply session_start_looping].
  - intros s Hs. split; [|by eapply session_not_started]. apply sound_ends. revert Hs.
    apply reachable_sound; [apply session_kvs_lawful|done|apply session_start_looping].
  - intros s Hs. apply sound_ends. revert Hs. by apply reachable_sound; [apply sqlite_lawful|..].
  - intros now s key. destruct (KvsMem.closed s) eqn:Hc; cbn [negb andb].
    + unfold KvsMem.removeExpired. rewrite Hc. by destruct (KvsMem.data s !! key).
    + rewrite KvsMemory.lookup_removeExpired by done. by destruct (KvsMem.data s !! key).
  - intros now s id. destruct (MemoryStore.closed s) eqn:Hc; cbn [negb andb].
    + unfold MemoryStore.removeExpired. rewrite Hc. by destruct (MemoryStore.sessions s !! id).
    + rewrite removeExpired_exact by done. by destruct (MemoryStore.sessions s !! id).
  - intros now s key Hc. unfold Sqlite.removeExpired. rewrite Hc.
    destruct (Exec_purge_spec s.(Sqlite.db) (Unix now)) as (d' & -> & Hr). cbn. rewrite Hr, map_lookup_filter.
    destruct (rows s.(Sqlite.db) !! key) as [r|]; [|done]. cbn. by destruct (not_before _ r).
Qed.
End properties.

Module Demo.
#[local] Existing Instance demo_env.
#[local] Existing Instance demo_json.
#[local] Existing Instance tree_order.
#[local] Existing Instance KvsSqlite.Demo.demo_db.
#[local] Existing Instance KvsSqlite.Demo.demo_spec.

(** The statements of two calls of [Close], by the number of the one that goes on. *)
Fixpoint closings {St} (k : kind St) (moves : list nat) (s : sys St) : sys St :=
  match moves with
  | [] => s
  | i :: moves =>
      closings k moves
        match s.(closers) !! i with
        | Some c =>
            match close_statement k i c s with
            | Some (c', s') => mkSys s'.(store) s'.(closeCh) s'.(holder) s'.(loop) (<[i := c']> s.(closers))
            | None => s
            end
        | None => s
        end
  end.

Lemma closings_steps {St} (k : kind St) moves s : rtc (step k) s (closings k moves s).
Proof.
  revert s. induction moves as [|i moves IH]; intros s; [constructor|]. cbn [closings]. destruct (s.(closers) !! i) as [c|] eqn:Hi; [|apply IH].
  destruct (close_statement k i c s) as [[c' s']|] eqn:Hc; [|apply IH]. eapply rtc_l; [by eapply step_close|apply IH].
Qed.

Definition two_closers {St} (st : St) (r : routine) : sys St := mkSys st false None r [AtLock; AtLock].

Lemma two_begin {St} (k : kind St) (st : St) r : rtc (step k) (start st r) (two_closers st r).
Proof. eapply rtc_l; [apply step_begin|]. eapply rtc_once, (step_begin k st false None r [AtLock]). Qed.

(** The same two calls of [Close] with a lock, and without: the memory store's second waits, the
    session store's second closes a closed channel. *)
Definition both : list nat := [0; 1; 0; 1; 0; 1; 0; 0; 1; 1].

Example closes_locked :
  (closings kvs_memory both (two_closers KvsMem.New Looping)).(closers) = [Done; Done].
Proof. done. Qed.

Example closes_unlocked :
  (closings session_kvs both (two_closers (KvsStore.New KvsMem.New (mkConfig "" 0 0 0 1 "")) Looping)).(closers) = [Done; Panicked].
Proof. done. Qed.

(** Close has ended, so the goroutine can return. *)
Lemma cleanup_goroutines_witness :
  can_return kvs_memory (closings kvs_memory both (two_closers KvsMem.New Looping)) /\
  (exists s, rtc (step session_memory) (start (MemoryStore.New (mkConfig "" 0 0 0 0 "")) NotStarted) s /\ s.(loop) = NotStarted) /\
  can_return sqlite (closings sqlite [0; 0; 0; 0; 1; 1] (two_closers KvsSqlite.Demo.store Looping)).
Proof.
  destruct (cleanup_goroutines (B := KvsMem.Store) (mkConfig "" 0 0 0 0 "") (Sqlite.db KvsSqlite.Demo.store) "kvstore.db" KvsMem.New)
    as (Hkv & Hsess & _ & Hsql & _).
  split; [|split].
  - destruct (Hkv (closings kvs_memory both (two_closers KvsMem.New Looping))) as (_ & _ & Hd).
    + etrans; [apply two_begin|apply closings_steps].
    + apply Hd; [by left|done].
  - exists (two_closers (MemoryStore.New (mkConfig "" 0 0 0 0 "")) NotStarted). split; [apply two_begin|].
    apply (Hsess (two_closers (MemoryStore.New (mkConfig "" 0 0 0 0 "")) NotStarted)); [apply two_begin|done].
  - destruct (Hsql (closings sqlite [0; 0; 0; 0; 1; 1] (two_closers KvsSqlite.Demo.store Looping))) as [_ Hend].
    + etrans; [apply two_begin|apply closings_steps].
    + apply Hend; [exists Done; split; [by left|done]| |done]. intros c Hc.
      change (c ∈ [Done; Done]) in Hc. apply elem_of_cons in Hc as [->|Hc%list_elem_of_singleton]; [by left|subst; by left].
Defined.
End Demo.
