(* ===== verification/KvsRedis.v ===== *)
(** * kvs/backend/redis/redis.go: a key-value store in a Redis server

    The client library and the server are a parameter, [Redis]; [RedisSpec] states what Redis
    documents about its commands and its patterns.  Go ranges over a string by characters,
    so [escapeGlob] is the identity up to escapes on UTF-8 only. *)

From S2P Require Import Prelude GoLib Errors Kvs GoPath GoGlob GoUtf8 GoNet.

(** ** The client *)

(** The fields of [redis.Options] the store reads or writes; [Rest] is the rest of them. *)
Record Options {R} := mkOptions {
  Network : string; Addr : string; Password : string; TLSConfig : option bool; PoolSize : Z; Rest : R
}.
Arguments Options : clear implicits.

Class Redis (R C : Type) := {
  ParseURL : string -> result error (Options R);
  NewClient : Options R -> C;
  Ping : duration -> C -> option error;
  (** [None] is [redis.Nil] *)
  client_Get : context -> time -> C -> string -> result error (option bytes);
  client_Set : context -> time -> C -> string -> bytes -> duration -> C * option error;
  client_Del : context -> time -> C -> string -> C * option error;
  (** the keys of one step of a scan and the next cursor *)
  client_Scan : context -> time -> C -> N -> string -> Z -> result error (list string * N);
  client_Close : C -> C * option error
}.

(** ** The store *)

Module RedisStore.
Section store.
Context `{RC : Redis R C}.

Record Config := mkConfig {
  URL : string; KeyPrefix : string; cfg_PoolSize : Z; ConnectTimeout : duration; AllowInsecure : bool
}.

Definition DefaultConfig : Config := mkConfig "" "" 10 (5 * Second) false.

Record Store := mkStore { client : C; keyPrefix : string; closed : bool }.

(** An address of this machine. *)
Definition local_host (host : string) : bool :=
  bool_decide (host = "localhost") || match ParseIP host with Some ip => IsLoopback ip | None => false end.

Definition checkSecure (opt : Options R) : option error :=
  if decide (opt.(Network) = "unix") then None
  else
    let host := match SplitHostPort opt.(Addr) with Some (host, _) => host | None => opt.(Addr) end in
    let insecure why := Some (Wrapf "" (Sentinel InsecureSentinel) (": " +:+ host +:+ why)) in
    if decide (host = "localhost") then None
    else if match ParseIP host with Some ip => IsLoopback ip | None => false end then None
    else
      match opt.(TLSConfig) with
      | None => insecure " does not use TLS (use rediss://, or set AllowInsecure)"
      | Some true => insecure " skips TLS certificate verification (remove skip_verify, or set AllowInsecure)"
      | Some false =>
          if decide (opt.(Password) = "") then insecure " has no password (add credentials to the URL, or set AllowInsecure)"
          else None
      end.

Definition set_pool (n : Z) (opt : Options R) : Options R :=
  mkOptions R opt.(Network) opt.(Addr) opt.(Password) opt.(TLSConfig) n opt.(Rest).

Definition New (cfg : Config) : result error Store :=
  if decide (cfg.(URL) = "") then Err (Errorf "redis URL is required")
  else
    match ParseURL cfg.(URL) with
    | Err err => Err (Wrapf "invalid redis URL: " err "")
    | Ok opt =>
        onerr err <- (if cfg.(AllowInsecure) then None else checkSecure opt) return Err err else
        let opt := if (0 <? cfg.(cfg_PoolSize))%Z then set_pool cfg.(cfg_PoolSize) opt else opt in
        let client := NewClient opt in
        let timeout := if (cfg.(ConnectTimeout) =? 0)%Z then (5 * Second)%Z else cfg.(ConnectTimeout) in
        onerr err <- Ping timeout client return Err (Wrapf "redis connection failed: " err "") else
        Ok (mkStore client cfg.(KeyPrefix) false)
    end.

Definition key (s : Store) (k : string) : string := s.(keyPrefix) +:+ k.

Definition set_client (c : C) (s : Store) : Store := mkStore c s.(keyPrefix) s.(closed).

Definition Get (ctx : context) (now : time) (s : Store) (k : string) : result error bytes :=
  if s.(closed) then Err (err_kvs KvsErrClosed)
  else
    match client_Get ctx now s.(client) (key s k) with
    | Ok None => Err (err_kvs KvsErrNotFound)
    | Err err => Err (Wrapf "redis get: " err "")
    | Ok (Some data) => Ok data
    end.

Definition Set_ (ctx : context) (now : time) (s : Store) (k : string) (value : bytes) (ttl : duration) : Store * option error :=
  if s.(closed) then (s, Some (err_kvs KvsErrClosed))
  else
    match client_Set ctx now s.(client) (key s k) value ttl with
    | (c, Some err) => (set_client c s, Some (Wrapf "redis set: " err ""))
    | (c, None) => (set_client c s, None)
    end.

Definition Delete (ctx : context) (now : time) (s : Store) (k : string) : Store * option error :=
  if s.(closed) then (s, Some (err_kvs KvsErrClosed))
  else
    match client_Del ctx now s.(client) (key s k) with
    | (c, Some err) => (set_client c s, Some (Wrapf "redis delete: " err ""))
    | (c, None) => (set_client c s, None)
    end.

Definition escape_rune (r : N) : string :=
  if bool_decide (r ∈ map N_of_ascii ["\"; "*"; "?"; "["; "]"]%char) then String "\"%char (encode_rune r) else encode_rune r.

Definition escapeGlob (s : string) : string := foldr (fun r out => escape_rune r +:+ out) "" (runes s).

(** The keys of one step of the scan that stay, without [KeyPrefix]. *)
Definition keep_keys (s : Store) (fullPrefix : string) (scanKeys : list string) : list string :=
  omap (fun k =>
    if HasPrefix k fullPrefix && (String.length s.(keyPrefix) <? String.length k)%nat
    then Some (drop_string (String.length s.(keyPrefix)) k) else None) scanKeys.

(** The scan from [cursor]; [None]: more steps than the fuel. *)
Fixpoint List_loop (fuel : nat) (ctx : context) (now : time) (s : Store) (fullPrefix pattern : string) (cursor : N) (keys : list string)
    : option (result error (list string)) :=
  match fuel with
  | 0 => None
  | S fuel =>
      match client_Scan ctx now s.(client) cursor pattern 100 with
      | Err err => Some (Err (Wrapf "redis scan: " err ""))
      | Ok (scanKeys, cursor) =>
          let keys := keys ++ keep_keys s fullPrefix scanKeys in
          if (cursor =? 0)%N then Some (Ok keys) else List_loop fuel ctx now s fullPrefix pattern cursor keys
      end
  end.

Definition List (fuel : nat) (ctx : context) (now : time) (s : Store) (prefix : string) : option (result error (list string)) :=
  if s.(closed) then Some (Err (err_kvs KvsErrClosed))
  else
    let fullPrefix := key s prefix in
    List_loop fuel ctx now s fullPrefix (escapeGlob fullPrefix +:+ "*") 0 [].

Definition Close (s : Store) : Store * option error :=
  if s.(closed) then (s, None)
  else let '(c, err) := client_Close s.(client) in (mkStore c s.(keyPrefix) true, err).

End store.
End RedisStore.

Import RedisStore.

(** ** What Redis documents *)

Definition Millisecond : duration := 1000000%Z.

(** The time-to-live the server is given: whole milliseconds, at least one; [None] is none. *)
Definition server_ttl (ttl : duration) : option duration :=
  if (ttl <=? 0)%Z then None
  else if (ttl <? Millisecond)%Z then Some Millisecond else Some (ttl / Millisecond * Millisecond)%Z.

Inductive scan_run `{Redis R C} (now : time) (c : C) (pattern : string) : N -> list string -> Prop :=
  | scan_last cur keys : client_Scan None now c cur pattern 100 = Ok (keys, 0%N) -> scan_run now c pattern cur keys
  | scan_next cur keys next rest :
      client_Scan None now c cur pattern 100 = Ok (keys, next) -> next <> 0%N ->
      scan_run now c pattern next rest -> scan_run now c pattern cur (keys ++ rest).

(** [special] characters of a pattern; a backslash takes the next character literally. *)
Definition special (c : ascii) : bool := bool_decide (c ∈ ["\"; "*"; "?"; "["; "]"]%char).

Class GlobSpec := {
  glob : string -> string -> bool;
  glob_star s : glob "*" s = true;
  glob_plain c p s : special c = false ->
    glob (String c p) s = match s with String d s => bool_decide (c = d) && glob p s | EmptyString => false end;
  glob_escaped c p s :
    glob (String "\"%char (String c p)) s = match s with String d s => bool_decide (c = d) && glob p s | EmptyString => false end
}.

(** Time is the server's, read by the client once per call.  A time-to-live of -1 ns is
    [redis.KeepTTL] and keeps the deadline of the key, so no law speaks of it. *)
Class RedisSpec (R C : Type) `{Redis R C} `{GlobSpec} := {
  server : time -> C -> gmap string bytes;
  client_Get_spec now c k : client_Get None now c k = Ok (server now c !! k);
  client_Set_spec now c k v ttl : ttl <> (-1)%Z -> exists c', client_Set None now c k v ttl = (c', None) /\
    forall later, (now <= later)%Z ->
      (forall i, i <> k -> server later c' !! i = server later c !! i) /\
      match server_ttl ttl with
      | None => server later c' !! k = Some v
      | Some d =>
          ((later < now + d)%Z -> server later c' !! k = Some v) /\
          ((now + d + Millisecond <= later)%Z -> server later c' !! k = None)
      end;
  client_Del_spec now c k : exists c', client_Del None now c k = (c', None) /\
    forall later, (now <= later)%Z -> server later c' = delete k (server later c);
  (** a full scan of a server nobody writes to returns every key that matches, perhaps more than once *)
  client_Scan_spec now c pattern : exists keys, scan_run now c pattern 0 keys /\
    forall k, k ∈ keys <-> is_Some (server now c !! k) /\ glob pattern k = true
}.

(** ** Lemmas *)

Lemma prefix_app_drop q p s : String.prefix (q +:+ p) s = String.prefix q s && String.prefix p (drop_string (String.length q) s).
Proof.
  revert s. induction q as [|c q IH]; intros s; [by destruct s|]. change (String c q +:+ p) with (String c (q +:+ p)).
  destruct s as [|d s]; [done|]. cbn. rewrite IH. by destruct (ascii_dec c d).
Qed.

Section glob.
Context `{GS : GlobSpec}.

Lemma glob_plain_string q p s :
  Forall (fun c => special c = false) (String.list_ascii_of_string q) ->
  glob (q +:+ p) s = String.prefix q s && glob p (drop_string (String.length q) s).
Proof.
  revert s. induction q as [|c q IH]; intros s Hq; [by destruct s|]. apply Forall_cons in Hq as [Hc Hq].
  change (String c q +:+ p) with (String c (q +:+ p)). rewrite glob_plain by done. destruct s as [|d s]; [done|].
  rewrite IH by done. cbn. destruct (ascii_dec c d); by case_bool_decide.
Qed.

Lemma special_byte r : (r <= 127)%N -> special (byte_of r) = bool_decide (r ∈ map N_of_ascii ["\"; "*"; "?"; "["; "]"]%char).
Proof.
  intros Hr. unfold special. assert (N_of_ascii (byte_of r) = r) as Hb by (unfold byte_of; apply N_ascii_embedding; lia).
  apply bool_decide_ext. rewrite <- Hb at 2. rewrite list_elem_of_fmap. split; [eauto|].
  intros (c & Heq & Hc). rewrite <- (ascii_N_embedding (byte_of r)), Heq. by rewrite ascii_N_embedding.
Qed.

(** An escaped rune matches itself. *)
Lemma glob_rune r p s :
  glob (escape_rune r +:+ p) s = String.prefix (encode_rune r) s && glob p (drop_string (String.length (encode_rune r)) s).
Proof.
  unfold escape_rune. destruct (encode_rune_bytes r) as [[Hr ->]|[Hr Hall]].
  - rewrite <- special_byte by done. destruct (special (byte_of r)) eqn:Hs.
    + change (String "\" (String (byte_of r) "") +:+ p) with (String "\" (String (byte_of r) p)). rewrite glob_escaped.
      destruct s as [|d s]; [done|]. cbn. destruct (ascii_dec (byte_of r) d), s; by case_bool_decide.
    + apply glob_plain_string. by repeat constructor.
  - rewrite bool_decide_eq_false_2 by (intros Hin; set_unfold in Hin; naive_solver lia).
    apply glob_plain_string. eapply Forall_impl; [done|]. intros c Hc. apply bool_decide_eq_false. intros Hin.
    set_unfold in Hin. destruct_or! Hin; subst c; by vm_compute in Hc.
Qed.

Lemma glob_runes rs s :
  glob (foldr (fun r out => escape_rune r +:+ out) "" rs +:+ "*") s =
  String.prefix (foldr (fun r out => encode_rune r +:+ out) "" rs) s.
Proof.
  revert s. induction rs as [|r rs IH]; intros s; cbn [foldr].
  { change ("" +:+ "*") with "*". rewrite glob_star. by destruct s. }
  by rewrite <- string_app_assoc, glob_rune, IH, prefix_app_drop.
Qed.

Lemma glob_escapeGlob p s : ValidString p = true -> glob (escapeGlob p +:+ "*") s = String.prefix p s.
Proof. intros Hp. unfold escapeGlob. by rewrite glob_runes, runes_valid. Qed.

End glob.

Section list.
Context `{RC : Redis R C}.
Implicit Types s : Store (C := C).

Lemma elem_of_keep_keys s p l k :
  k ∈ keep_keys s (key s p) l <-> k <> "" /\ String.prefix p k = true /\ key s k ∈ l.
Proof.
  unfold keep_keys, key. rewrite list_elem_of_omap. split.
  - intros (x & Hx & Hk). unfold HasPrefix in Hk. rewrite prefix_app_drop in Hk.
    destruct (String.prefix s.(keyPrefix) x) eqn:H1; [|done]. destruct (prefix_split _ _ H1) as [y ->].
    rewrite drop_string_app in Hk. destruct (String.prefix p y) eqn:H2; [|done].
    rewrite string_length_app in Hk. destruct (Nat.ltb_spec (String.length s.(keyPrefix)) (String.length s.(keyPrefix) + String.length y)) as [Hlt|]; [|done].
    injection Hk as <-. split_and!; [|done|done]. intros ->. cbn in Hlt. lia.
  - intros (Hne & Hp & Hin). exists (s.(keyPrefix) +:+ k). split; [done|]. unfold HasPrefix.
    rewrite prefix_app_drop, prefix_app, drop_string_app, Hp, string_length_app.
    destruct (Nat.ltb_spec (String.length s.(keyPrefix)) (String.length s.(keyPrefix) + String.length k)) as [|Hge]; [done|].
    destruct k; [done|]. cbn in Hge. lia.
Qed.

Lemma List_loop_sound fuel ctx now s p pat cur keys l :
  List_loop fuel ctx now s (key s p) pat cur keys = Some (Ok l) ->
  forall k, k ∈ l -> k ∈ keys \/ k <> "" /\ String.prefix p k = true.
Proof.
  revert cur keys. induction fuel as [|fuel IH]; intros cur keys; [done|]. cbn.
  destruct (client_Scan _ _ _ _ _ _) as [[ks next]|]; [|done]. destruct (next =? 0)%N.
  - intros [= <-] k [?|Hk]%elem_of_app; [by left|]. apply elem_of_keep_keys in Hk. naive_solver.
  - intros Hl k Hk. destruct (IH _ _ Hl k Hk) as [[?|Hin]%elem_of_app|?]; [by left| |by right].
    apply elem_of_keep_keys in Hin. naive_solver.
Qed.

Lemma List_loop_run now s p pat cur ks keys :
  scan_run now s.(client) pat cur ks ->
  exists n, forall fuel, (n <= fuel)%nat -> List_loop fuel None now s (key s p) pat cur keys = Some (Ok (keys ++ keep_keys s (key s p) ks)).
Proof.
  intros Hrun. revert keys. induction Hrun as [cur ks Hs|cur ks next rest Hs Hne _ IH]; intros keys.
  - exists 1. intros [|fuel] Hf; [lia|]. cbn. by rewrite Hs.
  - destruct (IH (keys ++ keep_keys s (key s p) ks)) as [n Hn]. exists (S n). intros [|fuel] Hf; [lia|]. cbn. rewrite Hs.
    destruct (N.eqb_spec next 0); [done|]. rewrite Hn by lia. unfold keep_keys. by rewrite omap_app, app_assoc.
Qed.

End list.

(** ** Properties *)

(** Claim C33. With [AllowInsecure] off, [New] opens no connection to another machine unless it
    is over TLS with verified certificates and a password: for a URL that parses to anything
    else the answer wraps [ErrInsecureConnection], whatever the server would say. *)
Theorem redis_New_secure `{Redis R C} (cfg : Config) opt :
  cfg.(AllowInsecure) = false -> cfg.(URL) <> "" -> ParseURL cfg.(URL) = Ok opt ->
  let host := match SplitHostPort opt.(Addr) with Some (host, _) => host | None => opt.(Addr) end in
  let secure := opt.(Network) = "unix" \/ local_host host = true \/ (opt.(TLSConfig) = Some false /\ opt.(Password) <> "") in
  (~ secure -> exists err, New cfg = Err err /\ errors_Is err InsecureSentinel = true) /\
  (secure -> New cfg =
    let opt := if (0 <? cfg.(cfg_PoolSize))%Z then set_pool cfg.(cfg_PoolSize) opt else opt in
    match Ping (if (cfg.(ConnectTimeout) =? 0)%Z then 5 * Second else cfg.(ConnectTimeout))%Z (NewClient opt) with
    | Some err => Err (Wrapf "redis connection failed: " err "")
    | None => Ok (mkStore (NewClient opt) cfg.(KeyPrefix) false)
    end).
Proof.
  intros Hi Hu Hp host secure. unfold New. rewrite decide_False, Hp, Hi by done.
  assert (secure /\ checkSecure opt = None \/ ~ secure /\ exists err, checkSecure opt = Some err /\ errors_Is err InsecureSentinel = true) as Hc.
  { unfold checkSecure, secure, local_host. fold host. case_decide; [left; by split; [left|]|].
    case_decide; [left; split; [right; left; apply orb_true_iff; left; by apply bool_decide_eq_true|done]|].
    rewrite (bool_decide_eq_false_2 (host = "localhost")) by done. cbn [orb].
    destruct (match ParseIP host with Some ip => IsLoopback ip | None => false end); [left; by split; [right; left|]|].
    destruct (TLSConfig opt) as [[]|]; [|case_decide; [|left; by split; [right; right|]]|];
      (right; split; [intros [?|[?|[? ?]]]; simplify_eq|eexists; split; [done|by apply bool_decide_eq_true]]). }
  destruct Hc as [[Hs ->]|[Hs (err & -> & He)]]; (split; [intros Hn|intros Hn]); [done|done| |done]. by eexists.
Qed.

(** [List] never names a key outside the requested prefix, nor the empty key,
    whatever the client answers to the scan. *)
Theorem redis_List_sound `{Redis R C} fuel ctx now (s : Store) p l k :
  List fuel ctx now s p = Some (Ok l) -> k ∈ l -> k <> "" /\ String.prefix p k = true.
Proof.
  unfold List. destruct s.(closed); [done|]. intros Hl Hk.
  by destruct (List_loop_sound _ _ _ _ _ _ _ _ _ Hl k Hk) as [Hin%not_elem_of_nil|?].
Qed.

Section spec.
Context `{RS : RedisSpec R C}.
Implicit Types s : Store (C := C).

(** Claim C18. [List] ends, and when [KeyPrefix] and the prefix are UTF-8 it names exactly the
    keys [Get] finds under the prefix, metacharacters of patterns included, except the empty
    key; a key may be named more than once. *)
Theorem redis_List_exact now s p :
  s.(closed) = false -> ValidString (s.(keyPrefix) +:+ p) = true ->
  exists l n, (forall fuel, (n <= fuel)%nat -> List fuel None now s p = Some (Ok l)) /\
    forall k, k ∈ l <-> k <> "" /\ String.prefix p k = true /\ exists v, Get None now s k = Ok v.
Proof.
  intros Hc Hv. destruct (client_Scan_spec now s.(client) (escapeGlob (key s p) +:+ "*")) as (ks & Hrun & Hks).
  destruct (List_loop_run now s p _ _ _ [] Hrun) as [n Hn]. exists (keep_keys s (key s p) ks), n. split.
  - intros fuel Hf. unfold List. rewrite Hc. by apply Hn.
  - intros k. rewrite elem_of_keep_keys, Hks, glob_escapeGlob by done. unfold Get. rewrite Hc, client_Get_spec. split.
    + intros (? & ? & [v ->] & _). split_and!; [done..|]. by exists v.
    + intros (? & Hp & v & Hg). split_and!; [done..| |].
      * destruct (server now s.(client) !! key s k); [by eexists|done].
      * unfold key. by rewrite prefix_app_drop, prefix_app, drop_string_app.
Qed.

(** A prefix that is not UTF-8 is searched for with U+FFFD in its place, so the keys
    that start with such a byte are never listed although [Get] finds them. *)
Theorem redis_List_invalid now s (c : ascii) :
  s.(closed) = false -> s.(keyPrefix) = "" -> (128 <= N_of_ascii c)%N -> c <> byte_of 239 ->
  exists n, forall fuel, (n <= fuel)%nat -> List fuel None now s (String c "") = Some (Ok []).
Proof.
  intros Hc Hkp Hhigh Hne.
  destruct (client_Scan_spec now s.(client) (escapeGlob (key s (String c "")) +:+ "*")) as (ks & Hrun & Hks).
  destruct (List_loop_run now s (String c "") _ _ _ [] Hrun) as [n Hn]. exists n. intros fuel Hf.
  unfold List. rewrite Hc, Hn by done. do 2 f_equal. cbn [app]. apply elem_of_nil_inv. intros k Hk.
  apply elem_of_keep_keys in Hk as (_ & Hp & Hin). apply Hks in Hin as [_ Hg]. unfold key in Hg. rewrite Hkp in Hg.
  change ("" +:+ String c "") with (String c "") in Hg. change ("" +:+ k) with k in Hg.
  unfold escapeGlob in Hg. rewrite glob_runes in Hg. destruct k as [|d k]; [done|]. cbn in Hp.
  destruct (ascii_dec c d) as [<-|]; [|done]. clear -Hhigh Hne Hg. revert Hhigh Hne Hg.
  by all_bytes c; intros ? ?; destruct k as [|? [|? ?]].
Qed.

(** A successful [Set] is read back until the time-to-live the server was given,
    whole milliseconds, has run out, and not a millisecond after; a store sharing the server
    under another [KeyPrefix] reads nothing of it unless the full keys are the same. *)
Theorem redis_Set_Get now later s k v ttl :
  s.(closed) = false -> ttl <> (-1)%Z -> (now <= later)%Z ->
  let '(s', err) := Set_ None now s k v ttl in
  err = None /\
  match server_ttl ttl with
  | None => Get None later s' k = Ok v
  | Some d =>
      ((later < now + d)%Z -> Get None later s' k = Ok v) /\
      ((now + d + Millisecond <= later)%Z -> Get None later s' k = Err (err_kvs KvsErrNotFound))
  end /\
  (forall kp i, kp +:+ i <> key s k ->
    Get None later (mkStore s'.(client) kp false) i = Get None later (mkStore s.(client) kp false) i) /\
  Get None later (Delete None later s' k).1 k = Err (err_kvs KvsErrNotFound).
Proof.
  intros Hc Httl Hle. unfold Set_. rewrite Hc. destruct (client_Set_spec now s.(client) (key s k) v ttl Httl) as (c & -> & Hset).
  destruct (Hset later Hle) as [Hother Hkey]. split; [done|].
  assert (forall i, Get None later (set_client c s) i = match server later c !! key s i with Some v => Ok v | None => Err (err_kvs KvsErrNotFound) end) as HG.
  { intros i. unfold Get. cbn [closed set_client client]. rewrite Hc, client_Get_spec. change (key (set_client c s) i) with (key s i).
    by destruct (server later c !! key s i). }
  split_and!.
  - destruct (server_ttl ttl) as [d|]; [destruct Hkey as [Hlive Hgone]; split; intros Hd; rewrite HG|by rewrite HG, Hkey].
    + by rewrite Hlive.
    + by rewrite Hgone.
  - intros kp i Hne. unfold Get. cbn [closed client set_client]. rewrite !client_Get_spec. unfold key in *. cbn [keyPrefix].
    by rewrite Hother.
  - unfold Delete. cbn [closed set_client client]. rewrite Hc.
    destruct (client_Del_spec later c (key s k)) as (c' & Hd & Hs). change (key (set_client c s) k) with (key s k).
    rewrite Hd. cbn [fst]. unfold Get. cbn [closed set_client client]. rewrite Hc, client_Get_spec.
    change (key (set_client c' (set_client c s)) k) with (key s k). by rewrite Hs, lookup_delete_eq by done.
Qed.

End spec.

(** A closed store answers [ErrClosed] and no longer calls the client. *)
Theorem redis_closed `{Redis R C} fuel ctx now (s : Store) k v ttl p :
  let s' := (Close s).1 in
  Get ctx now s' k = Err (err_kvs KvsErrClosed) /\ Set_ ctx now s' k v ttl = (s', Some (err_kvs KvsErrClosed)) /\
  Delete ctx now s' k = (s', Some (err_kvs KvsErrClosed)) /\ List fuel ctx now s' p = Some (Err (err_kvs KvsErrClosed)) /\
  Close s' = (s', None).
Proof.
  intros s'. assert (s'.(closed) = true) as Hc.
  { subst s'. unfold Close. destruct s.(closed) eqn:?; [done|by destruct (client_Close s.(client))]. }
  unfold Get, Set_, Delete, List, Close. by rewrite Hc.
Qed.

(** ** A server in memory, and the witnesses *)

Module Demo.

(** The patterns of Redis without classes. *)
Fixpoint demo_glob (p s : string) : bool :=
  match p with
  | EmptyString => bool_decide (s = "")
  | String c p' =>
      let literal c p := match s with String d s => bool_decide (c = d) && demo_glob p s | EmptyString => false end in
      if decide (c = "*"%char) then
        (fix any s := demo_glob p' s || match s with EmptyString => false | String _ s => any s end) s
      else if decide (c = "?"%char) then match s with String _ s => demo_glob p' s | EmptyString => false end
      else if decide (c = "["%char) then false
      else if decide (c = "\"%char) then
        match p' with
        | String c p'' => match s with String d s => bool_decide (c = d) && demo_glob p'' s | EmptyString => false end
        | EmptyString => bool_decide (s = "\")
        end
      else match s with String d s => bool_decide (c = d) && demo_glob p' s | EmptyString => false end
  end.

#[export] Instance demo_glob_spec : GlobSpec.
Proof.
  refine {| glob := demo_glob |}.
  - intros s. cbn. by induction s as [|c s IH].
  - intros c p s Hc. apply bool_decide_eq_false in Hc. cbn. rewrite !decide_False; [done|..]; intros ->; apply Hc; set_solver.
  - intros c p s. done.
Defined.

Abbreviation Server := (gmap string (bytes * option time)) (only parsing).

Definition alive (now : time) (m : Server) : gmap string bytes :=
  omap (fun r => match r.2 with Some e => if (now <? e)%Z then Some r.1 else None | None => Some r.1 end) m.

Definition matching (now : time) (m : Server) (pattern : string) : list string :=
  filter (fun k => demo_glob pattern k = true) (map_to_list (alive now m)).*1.

(** The scan takes two steps, and the second repeats the keys of the first. *)
#[export] Instance demo_redis : Redis unit Server := {
  ParseURL url :=
    if decide (url = "redis://cache:6379") then Ok (mkOptions unit "tcp" "cache:6379" "" None 0 tt)
    else Ok (mkOptions unit "tcp" "127.0.0.1:6379" "" None 0 tt);
  NewClient _ := ∅;
  Ping _ _ := None;
  client_Get _ now m k := Ok (alive now m !! k);
  client_Set _ now m k v ttl := (<[k := (v, (fun d => now + d)%Z <$> server_ttl ttl)]> m, None);
  client_Del _ _ m k := (delete k m, None);
  client_Scan _ now m cur pattern _ := let l := matching now m pattern in if (cur =? 0)%N then Ok (take 1 l, 1%N) else Ok (l, 0%N);
  client_Close m := (m, None)
}.

#[export] Instance demo_spec : RedisSpec unit Server.
Proof.
  refine {| server := alive |}.
  - done.
  - intros now m k v ttl _. eexists. split; [done|]. intros later Hle. split.
    + intros i Hne. unfold alive. by rewrite !lookup_omap, lookup_insert_ne.
    + destruct (server_ttl ttl) as [d|]; cbn; unfold alive; rewrite lookup_omap, lookup_insert_eq; cbn; [|done].
      destruct (Z.ltb_spec later (now + d)); split; intros ?; try done; unfold Millisecond in *; lia.
  - intros now m k. eexists. split; [done|]. intros later _. unfold alive. by rewrite omap_delete.
  - intros now m pattern. exists (take 1 (matching now m pattern) ++ matching now m pattern). split.
    { eapply scan_next; [done..|]. by apply scan_last. }
    intros k. rewrite elem_of_app. transitivity (k ∈ matching now m pattern).
    { split; [intros [Hk|]; [by eapply subseteq_take|done]|by right]. }
    unfold matching. cbn. rewrite list_elem_of_filter, list_elem_of_fmap. split.
    + intros (Hg & [k' v] & -> & Hin). apply elem_of_map_to_list in Hin. by split; [eexists|].
    + intros ([v Hv] & Hg). split; [done|]. exists (k, v). by rewrite elem_of_map_to_list.
Defined.

Definition cfg (url : string) : Config := mkConfig url "app:" 0 0 false.
Definition store : Store := mkStore (C := Server) ∅ "app:" false.
Definition filled : Store := (Set_ None 10 (Set_ None 9 store "a*b" [x01] 0).1 "" [x02] 0).1.

Lemma redis_New_secure_witness :
  (exists err, New (cfg "redis://cache:6379") = Err err /\ errors_Is err InsecureSentinel = true) /\
  New (cfg "redis://127.0.0.1:6379") = Ok (mkStore ∅ "app:" false).
Proof.
  split.
  - eapply (redis_New_secure (cfg "redis://cache:6379")); [done..|]. intros [|[|[]]]; done.
  - destruct (redis_New_secure (cfg "redis://127.0.0.1:6379") (mkOptions unit "tcp" "127.0.0.1:6379" "" None 0 tt)) as [_ ->]; [done..|].
    right. left. by vm_compute.
Defined.

Lemma redis_List_sound_witness : List 5 None 11 filled "a*" = Some (Ok ["a*b"; "a*b"]) /\ "a*b" <> "" /\ String.prefix "a*" "a*b" = true.
Proof.
  split; [by vm_compute|]. apply (redis_List_sound 5 None 11 filled "a*" ["a*b"; "a*b"]); [by vm_compute|by left].
Defined.

(** The key ["a*b"] is found by its literal prefix, and repeated. *)
Lemma redis_List_exact_witness : exists l n, (forall fuel, (n <= fuel)%nat -> List fuel None 11 filled "a*" = Some (Ok l)) /\ "a*b" ∈ l /\ "" ∉ l.
Proof.
  destruct (redis_List_exact 11 filled "a*") as (l & n & Hl & Hin); [done|by vm_compute|].
  exists l, n. split_and!; [done| |].
  - apply Hin. split_and!; [done|done|]. by exists [x01].
  - by intros []%Hin.
Defined.

Lemma redis_List_invalid_witness :
  let s := (Set_ None 9 (mkStore (C := Server) ∅ "" false) (String (byte_of 255) "x") [x01] 0).1 in
  Get None 10 s (String (byte_of 255) "x") = Ok [x01] /\
  exists n, forall fuel, (n <= fuel)%nat -> List fuel None 10 s (String (byte_of 255) "") = Some (Ok []).
Proof. split; [by vm_compute|]. apply (redis_List_invalid 10); [done|done|by vm_compute|by vm_compute]. Defined.

Lemma redis_Set_Get_witness :
  Get None 10 (Set_ None 9 store "k" [x07] 2500000).1 "k" = Ok [x07] /\
  Get None 3000009 (Set_ None 9 store "k" [x07] 2500000).1 "k" = Err (err_kvs KvsErrNotFound).
Proof.
  split.
  - destruct (redis_Set_Get 9 10 store "k" [x07] 2500000) as (_ & [Hl _] & _); [done|done|done|]. by apply Hl.
  - destruct (redis_Set_Get 9 3000009 store "k" [x07] 2500000) as (_ & [_ Hg] & _); [done|done|done|]. by apply Hg.
Defined.

End Demo.
