(* ===== verification/Filter.v ===== *)
(** * object/sync/filter/filter.go: which files a sync includes

    A filter is a list of rules.  [Match] is the code's two loops; the specification below it
    reads them as a predicate on the set of rules. *)

From S2P Require Import Prelude GoLib Errors GoPath GoGlob.

Module Filter.

Inductive ruleType :=
  | ruleInclude | ruleExclude | ruleMinSize | ruleMaxSize | ruleMinAge | ruleMaxAge.

Record rule := mkRule {
  rtype : ruleType;
  pattern : string;
  size : Z;
  duration_ : duration
}.

(** A [*Filter] may be nil. *)
Definition Filter := option (list rule).

Record FileInfo := mkFileInfo {
  Path : string;
  Size : Z;
  ModTime : time;
  IsDir : bool
}.

(** An [Option] appends to the rules. *)
Definition Option_ := list rule -> list rule.

Definition New (opts : list Option_) : Filter := Some (fold_left (fun f opt => opt f) opts []).

Definition Include (pattern : string) : Option_ := fun f => f ++ [mkRule ruleInclude pattern 0 0].
Definition Exclude (pattern : string) : Option_ := fun f => f ++ [mkRule ruleExclude pattern 0 0].
Definition MinSize (size : Z) : Option_ := fun f => f ++ [mkRule ruleMinSize "" size 0].
Definition MaxSize (size : Z) : Option_ := fun f => f ++ [mkRule ruleMaxSize "" size 0].
Definition MinAge (d : duration) : Option_ := fun f => f ++ [mkRule ruleMinAge "" 0 d].
Definition MaxAge (d : duration) : Option_ := fun f => f ++ [mkRule ruleMaxAge "" 0 d].

(** *** FromFile

    The file is what the scanner gives of it: its lines, or the error of [os.Open] or of the
    scanner.  [TrimSpace] strips ASCII white space. *)

Definition is_space (c : ascii) : bool :=
  let n := N_of_ascii c in ((9 <=? n) && (n <=? 13) || (n =? 32))%N.

Fixpoint trim_left (s : string) : string :=
  match s with
  | String c s' => if is_space c then trim_left s' else s
  | EmptyString => s
  end.

Fixpoint trim_right (s : string) : string :=
  match s with
  | String c s' =>
      match trim_right s' with
      | EmptyString => if is_space c then "" else String c ""
      | t => String c t
      end
  | EmptyString => ""
  end.

Definition TrimSpace (s : string) : string := trim_right (trim_left s).

(** The option a line adds; [None] for a line that is skipped. *)
Definition line_option (text : string) : option Option_ :=
  let line := TrimSpace text in
  if bool_decide (line = "") || HasPrefix line "#" then None
  else if HasPrefix line "+ " then Some (Include (TrimPrefix line "+ "))
  else if HasPrefix line "- " then Some (Exclude (TrimPrefix line "- "))
  else Some (Exclude line).

Definition FromFile (lines : result error (list string)) : result error Option_ :=
  match lines with
  | Err err => Err err
  | Ok lines =>
      let opts := omap line_option lines in
      Ok (fun f => fold_left (fun f opt => opt f) opts f)
  end.

(** *** Matching *)

(** [strings.ReplaceAll(pattern, "**", "*")] *)
Fixpoint single_stars (p : string) : string :=
  match p with
  | String c (String d q as q') =>
      if decide (c = "*"%char /\ d = "*"%char) then String "*" (single_stars q)
      else String c (single_stars q')
  | _ => p
  end.

Definition matchPattern (pattern path : string) : bool :=
  if Matched pattern path then true
  else
    let filename := Base path in
    if Matched pattern filename then true
    else if Contains pattern "**" then
      let simplePattern := single_stars pattern in
      if Matched simplePattern path then true
      else if Matched simplePattern filename then true
      else false
    else false.

(** The first loop: (hasIncludes, matchesInclude). *)
Definition includes (rules : list rule) (path : string) : bool * bool :=
  fold_left (fun '(has, m) r =>
    match r.(rtype) with
    | ruleInclude => (true, if matchPattern r.(pattern) path then true else m)
    | _ => (has, m)
    end) rules (false, false).

(** The second loop, with its early returns; [now] is what [time.Since] reads. *)
Fixpoint constraints (now : time) (rules : list rule) (fi : FileInfo) : bool :=
  match rules with
  | [] => true
  | r :: rules =>
      let age := Since now fi.(ModTime) in
      let refused :=
        match r.(rtype) with
        | ruleExclude => matchPattern r.(pattern) fi.(Path)
        | ruleMinSize => (fi.(Size) <? r.(size))%Z
        | ruleMaxSize => (r.(size) <? fi.(Size))%Z
        | ruleMinAge => (age <? r.(duration_))%Z
        | ruleMaxAge => (r.(duration_) <? age)%Z
        | ruleInclude => false
        end in
      if refused then false else constraints now rules fi
  end.

Definition Match (now : time) (f : Filter) (fi : FileInfo) : bool :=
  match f with
  | None => true
  | Some [] => true
  | Some rules =>
      let '(hasIncludes, matchesInclude) := includes rules fi.(Path) in
      if hasIncludes && negb matchesInclude then false else constraints now rules fi
  end.

Definition MatchPath (now : time) (f : Filter) (path : string) : bool :=
  Match now f (mkFileInfo path 0 0 false).

Definition IsEmpty (f : Filter) : bool :=
  match f with None | Some [] => true | Some _ => false end.

Definition KB : Z := 1024.
Definition MB : Z := 1024 * KB.
Definition GB : Z := 1024 * MB.
Definition TB : Z := 1024 * GB.

(** ** Specification

    What one rule says of a file, apart from the includes, which are a disjunction. *)
Definition rule_allows (now : time) (fi : FileInfo) (r : rule) : Prop :=
  match r.(rtype) with
  | ruleInclude => True
  | ruleExclude => matchPattern r.(pattern) fi.(Path) = false
  | ruleMinSize => (r.(size) <= fi.(Size))%Z
  | ruleMaxSize => (fi.(Size) <= r.(size))%Z
  | ruleMinAge => (r.(duration_) <= Since now fi.(ModTime))%Z
  | ruleMaxAge => (Since now fi.(ModTime) <= r.(duration_))%Z
  end.

Definition is_include (r : rule) : Prop := r.(rtype) = ruleInclude.

(** The file passes the set of rules. *)
Definition passes (now : time) (rules : list rule) (fi : FileInfo) : Prop :=
  ((exists r, r ∈ rules /\ is_include r) ->
     exists r, r ∈ rules /\ is_include r /\ matchPattern r.(pattern) fi.(Path) = true) /\
  forall r, r ∈ rules -> rule_allows now fi r.

(** A pattern without any special character. *)
Definition literal_char (c : ascii) : bool :=
  negb (bool_decide (c = "*"%char \/ c = "?"%char \/ c = "["%char \/ c = "]"%char \/ c = "\"%char)).
Fixpoint literal (p : string) : bool :=
  match p with EmptyString => true | String c p => literal_char c && literal p end.

End Filter.

Import Filter.

(** ** Lemmas *)

Definition include_step (path : string) : bool * bool -> rule -> bool * bool :=
  fun '(has, m) r =>
    match r.(rtype) with
    | ruleInclude => (true, if matchPattern r.(pattern) path then true else m)
    | _ => (has, m)
    end.

Lemma includes_fold rules path acc :
  (fold_left (include_step path) rules acc).1 = true <-> acc.1 = true \/ exists r, r ∈ rules /\ is_include r.
Proof.
  revert acc. induction rules as [|r rules IH]; intros [has m]; cbn [fold_left].
  { split; [by left|]. intros [|(r & Hr & _)]; [done|by apply not_elem_of_nil in Hr]. }
  rewrite IH. setoid_rewrite elem_of_cons. assert ((include_step path (has, m) r).1 = true <-> has = true \/ is_include r) as ->.
  { unfold include_step, is_include. destruct (rtype r); cbn; intuition congruence. }
  cbn. split; [intros [[|]|(r' & ? & ?)]|intros [|(r' & [->|] & ?)]]; eauto 6.
Qed.

Lemma matches_fold rules path acc :
  (fold_left (include_step path) rules acc).2 = true <->
  acc.2 = true \/ exists r, r ∈ rules /\ is_include r /\ matchPattern r.(pattern) path = true.
Proof.
  revert acc. induction rules as [|r rules IH]; intros [has m]; cbn [fold_left].
  { split; [by left|]. intros [|(r & Hr & _)]; [done|by apply not_elem_of_nil in Hr]. }
  rewrite IH. setoid_rewrite elem_of_cons.
  assert ((include_step path (has, m) r).2 = true <-> m = true \/ (is_include r /\ matchPattern r.(pattern) path = true)) as ->.
  { unfold include_step, is_include. destruct (rtype r), (matchPattern _ _); cbn; intuition congruence. }
  cbn. split; [intros [[|[]]|(r' & ? & ? & ?)]|intros [|(r' & [->|] & ? & ?)]]; eauto 8.
Qed.

Lemma constraints_spec now rules fi :
  constraints now rules fi = true <-> forall r, r ∈ rules -> rule_allows now fi r.
Proof.
  induction rules as [|r rules IH]; cbn [constraints].
  { split; [|done]. intros _ r Hr. by apply not_elem_of_nil in Hr. }
  setoid_rewrite elem_of_cons.
  assert (forall b : bool, (if b then false else constraints now rules fi) = true <->
    b = false /\ forall r, r ∈ rules -> rule_allows now fi r) as -> by (intros []; rewrite ?IH; naive_solver).
  assert (match r.(rtype) with
    | ruleExclude => matchPattern r.(pattern) fi.(Path)
    | ruleMinSize => (fi.(Size) <? r.(size))%Z
    | ruleMaxSize => (r.(size) <? fi.(Size))%Z
    | ruleMinAge => (Since now fi.(ModTime) <? r.(duration_))%Z
    | ruleMaxAge => (r.(duration_) <? Since now fi.(ModTime))%Z
    | ruleInclude => false
    end = false <-> rule_allows now fi r) as ->.
  { unfold rule_allows. destruct (rtype r); rewrite ?Z.ltb_ge; done. }
  naive_solver.
Qed.

Lemma Match_passes now rules fi : Match now (Some rules) fi = true <-> passes now rules fi.
Proof.
  assert (Match now (Some rules) fi =
    let '(h, m) := includes rules fi.(Path) in if h && negb m then false else constraints now rules fi) as ->
    by (by destruct rules).
  pose proof (includes_fold rules fi.(Path) (false, false)) as Hi.
  pose proof (matches_fold rules fi.(Path) (false, false)) as Hm.
  change (fold_left (include_step fi.(Path)) rules (false, false)) with (includes rules fi.(Path)) in Hi, Hm.
  destruct (includes rules fi.(Path)) as [h m]. cbn in Hi, Hm. unfold passes. rewrite <- constraints_spec.
  destruct h, m; cbn; naive_solver.
Qed.

(** *** Literal patterns *)

Lemma literal_scan p : literal p = true -> scan false p = (p, "").
Proof.
  induction p as [|c p IH]; [done|]. cbn [literal scan]. intros [Hc Hp]%andb_true_iff. rewrite IH by done.
  unfold literal_char in Hc. apply negb_true_iff, bool_decide_eq_false in Hc.
  rewrite !decide_False by naive_solver. done.
Qed.

Lemma literal_scanChunk p : literal p = true -> scanChunk p = (false, p, "").
Proof.
  intros Hp. unfold scanChunk. assert (drop_stars p = (false, p)) as ->.
  { destruct p as [|c p]; [done|]. cbn in Hp |- *. apply andb_true_iff in Hp as [Hc _].
    unfold literal_char in Hc. apply negb_true_iff, bool_decide_eq_false in Hc.
    by rewrite decide_False by naive_solver. }
  by rewrite literal_scan.
Qed.

Lemma literal_failed fuel p : literal p = true -> String.length p < fuel -> matchChunk fuel p None = Some None.
Proof.
  revert p. induction fuel as [|fuel IH]; intros p Hp Hf; [lia|]. destruct p as [|c p]; [done|].
  cbn [literal] in Hp. apply andb_true_iff in Hp as [Hc Hp]. cbn [matchChunk].
  unfold literal_char in Hc. apply negb_true_iff, bool_decide_eq_false in Hc.
  rewrite !decide_False by naive_solver. apply IH; [done|]. cbn in Hf. lia.
Qed.

Lemma literal_matchChunk fuel p s :
  literal p = true -> String.length p < fuel ->
  matchChunk fuel p (Some s) =
    Some (if String.prefix p s then Some (drop_string (String.length p) s) else None).
Proof.
  revert p s. induction fuel as [|fuel IH]; intros p s Hp Hf; [lia|]. destruct p as [|c p]; [by destruct s|].
  cbn [literal] in Hp. apply andb_true_iff in Hp as [Hc Hp]. cbn [matchChunk].
  unfold literal_char in Hc. apply negb_true_iff, bool_decide_eq_false in Hc.
  rewrite !decide_False by naive_solver. cbn in Hf. destruct s as [|d s]; [apply literal_failed; [done|lia]|].
  cbn [String.prefix String.length drop_string]. destruct (decide (c = d)) as [->|Hne].
  - destruct (ascii_dec d d); [|done]. apply IH; [done|lia].
  - destruct (ascii_dec c d); [done|]. apply literal_failed; [done|lia].
Qed.

Lemma prefix_drop_nil p s : String.prefix p s = true -> drop_string (String.length p) s = "" -> p = s.
Proof. intros [t ->]%prefix_split. rewrite drop_string_app. intros ->. by rewrite string_app_nil_r. Qed.

Lemma match_rounds_nil fuel t : match_rounds (S fuel) "" t = Some (bool_decide (t = "")).
Proof. done. Qed.

(** One round on a literal pattern. *)
Lemma literal_round fuel p s :
  literal p = true -> p <> "" ->
  match_rounds (S (S fuel)) p s =
    Some (match String.prefix p s with true => bool_decide (drop_string (String.length p) s = "") | false => false end).
Proof.
  intros Hp Hne. remember (S fuel) as n eqn:Hn. cbn [match_rounds]. rewrite decide_False by done.
  rewrite literal_scanChunk by done. cbn [andb]. unfold match_chunk. rewrite literal_matchChunk by (done || lia).
  destruct (String.prefix p s); [|done].
  change (bool_decide ("" = "")) with true. cbn [negb]. rewrite orb_false_r.
  destruct (bool_decide (drop_string (String.length p) s = "")) eqn:Hd; [|done].
  subst n. by rewrite match_rounds_nil, Hd.
Qed.

Lemma literal_Match p s : literal p = true -> GoGlob.Match p s = Some (bool_decide (p = s)).
Proof.
  intros Hp. unfold GoGlob.Match. destruct (decide (p = "")) as [->|Hne].
  { cbn. destruct s; done. }
  destruct p as [|c p]; [done|]. rewrite (literal_round (String.length p)) by done. f_equal.
  symmetry. destruct (String.prefix (String c p) s) eqn:Hpre.
  - destruct (bool_decide (drop_string _ s = "")) eqn:Hd.
    + apply bool_decide_eq_true in Hd. apply bool_decide_eq_true. by apply prefix_drop_nil.
    + apply bool_decide_eq_false in Hd. apply bool_decide_eq_false. intros <-. apply Hd.
      rewrite <- (string_app_nil_r (String c p)) at 2. apply drop_string_app.
  - apply bool_decide_eq_false. intros <-.
    pose proof (prefix_app (String c p) "") as Hx. rewrite string_app_nil_r in Hx. congruence.
Qed.

Lemma literal_no_double p : literal p = true -> Contains p "**" = false.
Proof.
  induction p as [|c p IH]; [done|]. cbn [literal Contains]. intros [Hc Hp]%andb_true_iff. rewrite IH by done.
  rewrite orb_false_r. cbn [String.prefix]. destruct (ascii_dec "*" c) as [<-|]; [|done]. done.
Qed.

(** ** Properties *)

(** Claim C32. A filter means what its documentation says, whatever the order of its options: a
    file passes when no include rule exists or one of them matches it, no exclude rule matches
    it, and every size and age constraint holds; permuting the rules changes nothing, and a nil
    or empty filter passes everything. *)
Theorem Match_correct now rules rules' fi :
  (Match now (Some rules) fi = true <-> passes now rules fi) /\
  (rules ≡ₚ rules' -> Match now (Some rules) fi = Match now (Some rules') fi) /\
  (IsEmpty (Some rules) = true -> Match now (Some rules) fi = true) /\ Match now None fi = true.
Proof.
  split_and!; [apply Match_passes| | |done].
  - intros Hp. assert (passes now rules fi <-> passes now rules' fi) as Hiff.
    { unfold passes. by setoid_rewrite Hp. }
    rewrite <- !Match_passes in Hiff.
    destruct (Match now (Some rules) fi), (Match now (Some rules') fi); naive_solver.
  - by destruct rules.
Qed.

(** A pattern without special characters selects exactly the files with that path or
    with that base name. *)
Theorem literal_pattern p path :
  literal p = true -> matchPattern p path = true <-> p = path \/ p = Base path.
Proof.
  intros Hp. unfold matchPattern, Matched. rewrite !literal_Match, literal_no_double by done. cbn [default].
  destruct (bool_decide (p = path)) eqn:H1; [apply bool_decide_eq_true in H1; naive_solver|].
  apply bool_decide_eq_false in H1.
  destruct (bool_decide (p = Base path)) eqn:H2; [apply bool_decide_eq_true in H2; naive_solver|].
  apply bool_decide_eq_false in H2. naive_solver.
Qed.

(** The rules of a file: loading a filter file adds, in order, one rule per line that is
    neither blank nor a comment, and a line includes only when it starts with a plus sign and a
    space; every other line, [+*.json] included, excludes. *)
Theorem FromFile_rules lines :
  exists opt, FromFile (Ok lines) = Ok opt /\
    forall f, exists rules, opt f = f ++ rules /\
      length rules = length (filter (fun l => TrimSpace l <> "" /\ HasPrefix (TrimSpace l) "#" = false) lines) /\
      forall r, r ∈ rules -> exists l, l ∈ lines /\
        ((HasPrefix (TrimSpace l) "+ " = true /\ r = mkRule ruleInclude (TrimPrefix (TrimSpace l) "+ ") 0 0) \/
         (HasPrefix (TrimSpace l) "+ " = false /\ r.(rtype) = ruleExclude)).
Proof.
  eexists. split; [done|]. cbn beta. induction lines as [|l lines IH]; intros f.
  { exists []. split_and!; [by rewrite app_nil_r|done|]. intros r Hr. by apply not_elem_of_nil in Hr. }
  cbn [omap list_omap]. rewrite filter_cons.
  destruct (line_option l) as [o|] eqn:Hl.
  - assert (exists r, (forall f, o f = f ++ [r]) /\
      (TrimSpace l <> "" /\ HasPrefix (TrimSpace l) "#" = false) /\
      ((HasPrefix (TrimSpace l) "+ " = true /\ r = mkRule ruleInclude (TrimPrefix (TrimSpace l) "+ ") 0 0) \/
       (HasPrefix (TrimSpace l) "+ " = false /\ r.(rtype) = ruleExclude))) as (r & Ho & Hc & Hr).
    { revert Hl. unfold line_option.
      destruct (bool_decide (TrimSpace l = "")) eqn:H1; [done|]. apply bool_decide_eq_false in H1.
      destruct (HasPrefix (TrimSpace l) "#") eqn:H2; [done|]. cbn [orb].
      destruct (HasPrefix (TrimSpace l) "+ ") eqn:H3.
      - intros [= <-]. eexists. split; [done|]. split; [done|]. by left.
      - destruct (HasPrefix (TrimSpace l) "- "); intros [= <-]; eexists; (split; [done|]); (split; [done|]); by right. }
    rewrite decide_True by done. destruct (IH (o f)) as (rules & Hf & Hlen & Hall).
    exists (r :: rules). split_and!.
    + cbn [fold_left]. rewrite Hf, Ho. by rewrite <- app_assoc.
    + cbn. by rewrite Hlen.
    + intros r' [->|Hr']%elem_of_cons; [exists l; split; [left|done]|].
      destruct (Hall r' Hr') as (l' & ? & ?). exists l'. split; [by right|done].
  - rewrite decide_False.
    + destruct (IH f) as (rules & ? & ? & Hall). exists rules. split_and!; [done..|]. intros r Hr.
      destruct (Hall r Hr) as (l' & ? & ?). exists l'. split; [by right|done].
    + intros [H1 H2]. revert Hl. unfold line_option. rewrite bool_decide_eq_false_2, H2 by done. cbn [orb].
      repeat case_match; done.
Qed.

Lemma literal_pattern_witness : matchPattern "a.json" "dir/a.json" = true.
Proof. apply (literal_pattern "a.json" "dir/a.json" eq_refl). right. reflexivity. Defined.

Lemma Match_correct_witness :
  let f := [mkRule ruleMaxSize "" 10 0; mkRule ruleInclude "*.json" 0 0] in
  Match 0 (Some f) (mkFileInfo "d/a.json" 5 0 false) = true /\
  Match 0 (Some (rev f)) (mkFileInfo "d/a.json" 50 0 false) = false.
Proof.
  intros f. split; [vm_compute; reflexivity|].
  rewrite <- (proj1 (proj2 (Match_correct 0 f (rev f) (mkFileInfo "d/a.json" 50 0 false)))).
  - vm_compute. reflexivity.
  - apply Permutation_rev.
Defined.
