(* ===== verification/ObjectTypes.v ===== *)
(** * The value types of the object package

    object/hash.go (hash types and sets of hashes), object/features.go, object/options.go,
    object/object_info.go and the registry of object/registry.go. *)

From S2P Require Import Prelude GoLib Errors.

(** What io.Reader lets a [Read] that returned data say: nothing, or already that it was the end
    when nothing is left. *)
Definition may_end (rest : bytes) (err : option error) : Prop := err = None \/ err = Some (err_io EOF) /\ rest = [].

(** ** object/hash.go *)

(** A [HashType] is a string; the constants name the supported ones. *)
Abbreviation HashType := string (only parsing).
Definition HashNone : HashType := "".
Definition HashMD5 : HashType := "md5".
Definition HashSHA1 : HashType := "sha1".
Definition HashSHA256 : HashType := "sha256".
Definition HashCRC32C : HashType := "crc32c".

Definition SupportedHashes : list HashType := [HashMD5; HashSHA1; HashSHA256; HashCRC32C].

(** The digests of crypto/md5, crypto/sha1, crypto/sha256 and hash/crc32: each a function from
    everything written to its sum. *)
Class Digests := {
  md5_sum : bytes -> bytes;
  sha1_sum : bytes -> bytes;
  sha256_sum : bytes -> bytes;
  crc32c_sum : bytes -> bytes
}.

(** [NewHash]: the digest of a type, [None] for nil. *)
Definition NewHash `{Digests} (t : HashType) : option (bytes -> bytes) :=
  if decide (t = HashMD5) then Some md5_sum
  else if decide (t = HashSHA1) then Some sha1_sum
  else if decide (t = HashSHA256) then Some sha256_sum
  else if decide (t = HashCRC32C) then Some crc32c_sum
  else None.

(** [read] is what [io.Copy] gets out of the reader: everything, or an error. *)
Definition HashReader `{Digests} (read : result error bytes) (t : HashType) : result error string :=
  match NewHash t with
  | None => Err (err_object ObjErrNotSupported)
  | Some h => match read with Err err => Err err | Ok data => Ok (hex_encode (h data)) end
  end.

Definition HashBytes `{Digests} (data : bytes) (t : HashType) : string :=
  match NewHash t with None => "" | Some h => hex_encode (h data) end.

(** [HashBytesFromSum] of object/copy.go: a hand-written loop over the sum. *)
Definition hexChars : string := "0123456789abcdef".
Fixpoint HashBytesFromSum (sum : bytes) : string :=
  match sum with
  | [] => ""
  | b :: sum =>
      String (char_at hexChars (N.shiftr (Byte.to_N b) 4))
        (String (char_at hexChars (N.land (Byte.to_N b) 15)) (HashBytesFromSum sum))
  end.

(** *** HashSet: a map that may be nil *)

Definition HashSet := option (gmap string string).

Definition HashSet_Get (hs : HashSet) (t : HashType) : string :=
  match hs with None => "" | Some m => default "" (m !! t) end.

Definition HashSet_Set (hs : HashSet) (t : HashType) (value : string) : HashSet :=
  match hs with None => None | Some m => Some (<[t := value]> m) end.

Definition HashSet_Has (hs : HashSet) (t : HashType) : bool :=
  match hs with None => false | Some m => bool_decide (is_Some (m !! t)) end.

(** The loop of [Equal] with its early return. *)
Fixpoint equal_loop (l : list (string * string)) (other : gmap string string) (foundCommon : bool) : bool :=
  match l with
  | [] => foundCommon
  | (t, v) :: l =>
      match other !! t with
      | Some ov => if decide (v <> ov) then false else equal_loop l other true
      | None => equal_loop l other foundCommon
      end
  end.

Definition HashSet_Equal `{MapOrder} (hs other : HashSet) : bool :=
  match hs, other with
  | Some m, Some m' => equal_loop (range m) m' false
  | _, _ => false
  end.

(** ** object/features.go *)

Record Features := mkFeatures {
  FCopy : bool;
  FMove : bool;
  FMkdir : bool;
  FRmdir : bool;
  FStat : bool;
  FHashes : list HashType;
  FCanStream : bool;
  FServerSideEncryption : bool;
  FVersioning : bool;
  FRangeRead : bool;
  FListPrefix : bool;
  FSetModTime : bool;
  FCustomMetadata : bool
}.

Fixpoint supports (hashes : list HashType) (t : HashType) : bool :=
  match hashes with
  | [] => false
  | h :: hashes => if decide (h = t) then true else supports hashes t
  end.

Definition SupportsHash (f : Features) (t : HashType) : bool := supports f.(FHashes) t.

Definition preferenceOrder : list HashType := [HashSHA256; HashSHA1; HashMD5; HashCRC32C].

(** [for _, t := range order { if ok(t) { return t } }; return HashNone] *)
Fixpoint first_hash (ok : HashType -> bool) (order : list HashType) : HashType :=
  match order with
  | [] => HashNone
  | t :: order => if ok t then t else first_hash ok order
  end.

Definition PreferredHash (f : Features) : HashType :=
  first_hash (SupportsHash f) preferenceOrder.

Definition CommonHash (f other : Features) : HashType :=
  first_hash (fun t => SupportsHash f t && SupportsHash other t) preferenceOrder.

(** ** object/options.go *)

Record WriterConfig := mkWriterConfig {
  WBufferSize : Z;
  WContentType : string;
  WMetadata : option (gmap string string)
}.
Definition WriterOption := WriterConfig -> WriterConfig.

Definition WithBufferSize (size : Z) : WriterOption :=
  fun c => mkWriterConfig size c.(WContentType) c.(WMetadata).
Definition WithContentType (contentType : string) : WriterOption :=
  fun c => mkWriterConfig c.(WBufferSize) contentType c.(WMetadata).
Definition WithMetadata (metadata : option (gmap string string)) : WriterOption :=
  fun c => mkWriterConfig c.(WBufferSize) c.(WContentType) metadata.

Definition ApplyWriterOptions (opts : list WriterOption) : WriterConfig :=
  fold_left (fun config opt => opt config) opts (mkWriterConfig 0 "" None).

Record ReaderConfig := mkReaderConfig {
  RBufferSize : Z;
  ROffset : Z;
  RLimit : Z
}.
Definition ReaderOption := ReaderConfig -> ReaderConfig.

Definition WithReaderBufferSize (size : Z) : ReaderOption :=
  fun c => mkReaderConfig size c.(ROffset) c.(RLimit).
Definition WithOffset (offset : Z) : ReaderOption :=
  fun c => mkReaderConfig c.(RBufferSize) offset c.(RLimit).
Definition WithLimit (limit : Z) : ReaderOption :=
  fun c => mkReaderConfig c.(RBufferSize) c.(ROffset) limit.

Definition ApplyReaderOptions (opts : list ReaderOption) : ReaderConfig :=
  fold_left (fun config opt => opt config) opts (mkReaderConfig 0 0 0).

(** ** object/object_info.go

    [BasicObjectInfo], the only implementation of [ObjectInfo]; the interface's methods are
    the projections. *)

Record ObjectInfo := mkInfo {
  ObjectPath : string;
  ObjectSize : Z;
  ObjectModTime : time;
  ObjectIsDir : bool;
  ObjectContentType : string;
  ObjectHashes : HashSet;
  ObjectMetadata : option (gmap string string)
}.

Definition Info_Hash (o : ObjectInfo) (t : HashType) : string := HashSet_Get o.(ObjectHashes) t.

(** ** object/registry.go *)

Module Registry.
Section registry.
(** What a factory makes of a configuration. *)
Context {Bk : Type} `{O : MapOrder}.

Definition BackendFactory := gmap string string -> result error Bk.

(** The global map of factories, guarded by its mutex, when the program starts. *)
Definition backends : gmap string BackendFactory := ∅.

(** [Err msg] is the panic with that message. *)
Definition Register (name : string) (factory : option BackendFactory) (r : gmap string BackendFactory)
    : result string (gmap string BackendFactory) :=
  match factory with
  | None => Err "omnistorage: Register factory is nil"
  | Some f =>
      match r !! name with
      | Some _ => Err ("omnistorage: Register called twice for backend " +:+ name)
      | None => Ok (<[name := f]> r)
      end
  end.

Definition Open (name : string) (config : gmap string string) (r : gmap string BackendFactory) : result error Bk :=
  match r !! name with
  | None => Err (Wrapf "" (err_object ObjErrUnknownBackend) (": " +:+ name))
  | Some factory => factory config
  end.

Definition Backends (r : gmap string BackendFactory) : list string := sort_strings (range_keys r).

Definition IsRegistered (name : string) (r : gmap string BackendFactory) : bool :=
  match r !! name with Some _ => true | None => false end.

Definition Unregister (name : string) (r : gmap string BackendFactory) : gmap string BackendFactory * bool :=
  match r !! name with Some _ => (delete name r, true) | None => (r, false) end.
End registry.
End Registry.

(** ** Lemmas *)

Lemma supports_elem hashes t : supports hashes t = true <-> t ∈ hashes.
Proof.
  induction hashes as [|h hs IH]; simpl; [by rewrite elem_of_nil|].
  rewrite elem_of_cons. case_decide; [naive_solver|]. rewrite IH. naive_solver.
Qed.

(** The first of the order that is acceptable, in terms of positions. *)
Lemma first_hash_spec ok order :
  HashNone ∉ order ->
  (first_hash ok order = HashNone <-> forall t, t ∈ order -> ok t = false) /\
  (forall t, first_hash ok order = t -> t <> HashNone ->
     ok t = true /\ exists l1 l2, order = l1 ++ t :: l2 /\ forall u, u ∈ l1 -> ok u = false).
Proof.
  induction order as [|h order IH]; intros Hn; simpl.
  { split; [|done]. split; [|done]. intros _ t Ht. by apply not_elem_of_nil in Ht. }
  rewrite elem_of_cons in Hn. destruct IH as [IH1 IH2]; [tauto|]. destruct (ok h) eqn:Hh.
  - split; [|intros t <- _; split; [done|]; exists [], order; split; [done|]; intros u Hu; by apply not_elem_of_nil in Hu].
    split; [naive_solver|]. intros Hall. specialize (Hall h ltac:(left)). congruence.
  - split.
    + rewrite IH1. setoid_rewrite elem_of_cons. naive_solver.
    + intros t Ht Hne. destruct (IH2 t Ht Hne) as (? & l1 & l2 & -> & Hl). split; [done|].
      exists (h :: l1), l2. split; [done|]. intros u [->|Hu]%elem_of_cons; [done|by apply Hl].
Qed.

Lemma equal_loop_spec l other b :
  equal_loop l other b = true <->
  (forall t v ov, (t, v) ∈ l -> other !! t = Some ov -> v = ov) /\
  (b = true \/ exists t v, (t, v) ∈ l /\ is_Some (other !! t)).
Proof.
  revert b. induction l as [|[t v] l IH]; intros b; simpl.
  { split; [intros ->; split; [|by left]|intros [_ [?|(t & v & H & _)]]; [done|by apply not_elem_of_nil in H]].
    intros t v ov H. by apply not_elem_of_nil in H. }
  setoid_rewrite elem_of_cons. destruct (other !! t) as [ov|] eqn:Ho.
  - case_decide as Hv.
    + split; [done|]. intros [H _]. destruct Hv. by apply (H t v ov); [left|].
    + rewrite IH. split; intros [H1 H2]; (split; [|]).
      * intros t' v' ov' [[= -> ->]|Hin] Ho'; [|by eapply H1]. destruct (decide (v = ov)); congruence.
      * right. exists t, v. split; [by left|by eexists].
      * intros t' v' ov' Hin. apply H1. by right.
      * by left.
  - rewrite IH. split; intros [H1 H2]; (split; [|]).
    + intros t' v' ov' [[= -> ->]|Hin] Ho'; [congruence|by eapply H1].
    + destruct H2 as [|(t' & v' & ? & ?)]; [by left|right; eauto 6].
    + intros t' v' ov' Hin. apply H1. by right.
    + destruct H2 as [|(t' & v' & [[= -> ->]|] & Hs)]; [by left| |right; eauto].
      rewrite Ho in Hs. by destruct Hs.
Qed.

(** ** Properties *)

(** The hash a copy or a comparison uses is one that both sides support, the most
    preferred such one; [HashNone] means that they support none in common. *)
Theorem CommonHash_best f g :
  (CommonHash f g = HashNone <->
     forall t, t ∈ SupportedHashes -> ~ (t ∈ f.(FHashes) /\ t ∈ g.(FHashes))) /\
  (forall t, CommonHash f g = t -> t <> HashNone ->
     t ∈ f.(FHashes) /\ t ∈ g.(FHashes) /\
     exists l1 l2, preferenceOrder = l1 ++ t :: l2 /\ forall u, u ∈ l1 -> ~ (u ∈ f.(FHashes) /\ u ∈ g.(FHashes))) /\
  CommonHash f g = CommonHash g f /\ CommonHash f f = PreferredHash f.
Proof.
  assert (HashNone ∉ preferenceOrder) as Hn by (vm_compute; set_solver).
  assert (forall t, SupportsHash f t && SupportsHash g t = true <-> t ∈ f.(FHashes) /\ t ∈ g.(FHashes)) as Hb.
  { intros t. rewrite andb_true_iff. unfold SupportsHash. by rewrite !supports_elem. }
  assert (forall t, SupportsHash f t && SupportsHash g t = false <-> ~ (t ∈ f.(FHashes) /\ t ∈ g.(FHashes))) as Hbf.
  { intros t. rewrite <- Hb. by destruct (_ && _). }
  destruct (first_hash_spec (fun t => SupportsHash f t && SupportsHash g t) _ Hn) as [H1 H2].
  split_and!.
  - unfold CommonHash. rewrite H1. split; intros H t Ht; apply Hbf, H; revert Ht;
      unfold preferenceOrder, SupportedHashes; set_solver.
  - intros t Ht Hne. destruct (H2 t Ht Hne) as [Hok (l1 & l2 & Hl & Hall)].
    apply Hb in Hok as [? ?]. split_and!; [done..|]. exists l1, l2. split; [done|].
    intros u Hu. by apply Hbf, Hall.
  - unfold CommonHash, preferenceOrder, first_hash. by rewrite !(andb_comm (SupportsHash g _)).
  - unfold CommonHash, PreferredHash, preferenceOrder, first_hash. by rewrite !andb_diag.
Qed.

(** [Equal] is agreement: it holds exactly when the two sets have a hash type in common
    and the same value for every common type, whatever order the map is ranged over in. *)
Theorem HashSet_Equal_spec `{MapOrder} (hs other : HashSet) :
  HashSet_Equal hs other = true <->
  exists m m', hs = Some m /\ other = Some m' /\
    (exists t, is_Some (m !! t) /\ is_Some (m' !! t)) /\
    forall t v v', m !! t = Some v -> m' !! t = Some v' -> v = v'.
Proof.
  unfold HashSet_Equal. destruct hs as [m|], other as [m'|]; try naive_solver.
  rewrite equal_loop_spec. split.
  - intros [H1 [|(t & v & Hin & Hs)]]; [done|]. exists m, m'. split_and!; [done..| |].
    + exists t. apply elem_of_range in Hin. eauto.
    + intros u v1 v2 Hu. apply H1. by apply elem_of_range.
  - intros (m1 & m2 & [= <-] & [= <-] & (t & [v Hv] & Ht) & Hall). split.
    + intros u v1 v2 Hin%elem_of_range. by apply Hall.
    + right. exists t, v. split; [by apply elem_of_range|done].
Qed.

(** [HashBytesFromSum], which CopyPathWithHash writes out by hand, is
    [hex.EncodeToString], so the hash of a copy compares equal to [HashBytes] of the same data. *)
Theorem HashBytesFromSum_hex `{Digests} sum data t h :
  HashBytesFromSum sum = hex_encode sum /\
  (NewHash t = Some h -> HashBytesFromSum (h data) = HashBytes data t /\
     HashReader (Ok data) t = Ok (HashBytesFromSum (h data))).
Proof.
  assert (forall s, HashBytesFromSum s = hex_encode s) as Heq.
  { intros s. induction s as [|b s IH]; [done|]. simpl. by rewrite IH. }
  split; [done|]. intros Hh. unfold HashBytes, HashReader. by rewrite Hh, Heq.
Qed.

(** The registry: a registered name opens with its factory and shows in [Backends]
    exactly once, an unknown one opens with [ErrUnknownBackend], a second registration panics,
    and [Unregister] undoes [Register]. *)
Theorem registry_spec `{MapOrder} {Bk} (r : gmap string (Registry.BackendFactory (Bk := Bk))) name f cfg :
  match Registry.Register name (Some f) r with
  | Ok r' =>
      r !! name = None /\ Registry.Open name cfg r' = f cfg /\ Registry.IsRegistered name r' = true /\
      Registry.Unregister name r' = (r, true) /\
      (forall n, n ∈ Registry.Backends r' <-> n = name \/ n ∈ Registry.Backends r) /\
      NoDup (Registry.Backends r') /\ StronglySorted String.le (Registry.Backends r') /\
      exists msg, Registry.Register name (Some f) r' = Err msg
  | Err _ => Registry.IsRegistered name r = true
  end /\
  (Registry.IsRegistered name r = false ->
     exists e, Registry.Open name cfg r = Err e /\ errors_Is e (ObjectSentinel ObjErrUnknownBackend) = true).
Proof.
  split.
  - unfold Registry.Register. destruct (r !! name) as [g|] eqn:Hr.
    { unfold Registry.IsRegistered. by rewrite Hr. }
    unfold Registry.Open, Registry.IsRegistered, Registry.Unregister. rewrite lookup_insert_eq.
    split_and!; try done.
    + by rewrite lookup_insert_eq.
    + by rewrite lookup_insert_eq, delete_insert_id.
    + intros n. unfold Registry.Backends. rewrite !elem_of_sort_strings, !elem_of_range_keys.
      destruct (decide (n = name)) as [->|Hne]; [rewrite lookup_insert_eq; naive_solver|].
      rewrite lookup_insert_ne by done. naive_solver.
    + unfold Registry.Backends. rewrite sort_strings_perm. apply NoDup_range_keys.
    + apply sort_strings_sorted.
    + rewrite lookup_insert_eq. by eexists.
  - unfold Registry.IsRegistered, Registry.Open. destruct (r !! name); [done|].
    intros _. eexists. split; [done|]. reflexivity.
Qed.
