(* ===== verification/ObjectBackend.v ===== *)
(** * object/interfaces.go, object/extended.go, object/copy.go and object/move.go

    [ObjectBackend] is the interface of a backend, [Streams] the part of it that copies use.
    Backends are shared, mutable objects, and a copy may have the same one on both sides, so the
    operations act on a world [W] in which a backend [B] is a reference, compared with [==].  Readers and writers are values that
    the caller threads.  The copy and move helpers are defined over the interface and
    verified against [BackendSpec], the abstract specification of a backend as a map from
    paths to contents. *)

From S2P Require Import Prelude GoLib Errors ObjectTypes.

(** Opening, reading, writing and deleting: what the copy helpers need. *)
Class Streams (W B : Type) := {
  bk_eq_dec :: EqDecision B;
  Rd : Type;
  Wr : Type;
  NewWriter : context -> W -> B -> string -> list WriterOption -> W * result error Wr;
  NewReader : context -> W -> B -> string -> list ReaderOption -> W * result error Rd;
  Exists : context -> W -> B -> string -> W * result error bool;
  Delete : context -> W -> B -> string -> W * option error;
  (** [Read] into a buffer of a length: the bytes read and the error; [Write] returns [n] *)
  Read : W -> Rd -> nat -> W * Rd * bytes * option error;
  CloseReader : W -> Rd -> W * option error;
  Write : W -> Wr -> bytes -> W * Wr * nat * option error;
  CloseWriter : time -> W -> Wr -> W * option error
}.

Class ObjectBackend (W B : Type) := {
  ob_streams :: Streams W B;
  List : context -> W -> B -> string -> W * result error (list string);
  (** [AsExtended] and the methods of [ExtendedBackend] *)
  AsExtended : B -> bool;
  Features_of : W -> B -> Features;
  Stat : context -> W -> B -> string -> W * result error ObjectInfo;
  Mkdir : context -> time -> W -> B -> string -> W * option error;
  Rmdir : context -> W -> B -> string -> W * option error;
  Copy : context -> time -> W -> B -> string -> string -> W * option error;
  Move : context -> time -> W -> B -> string -> string -> W * option error
}.

(** The interfaces of framed records, whose methods take the fuel of their loops. *)
Class RecordWriter (W R : Type) := {
  rw_Write : nat -> W -> R -> bytes -> option (W * R * option error);
  rw_Flush : W -> R -> W * R * option error;
  rw_Close : time -> W -> R -> W * R * option error
}.
Class RecordReader (W R : Type) := {
  rr_Read : nat -> W -> R -> option (W * R * result error bytes);
  rr_Close : W -> R -> W * R * option error
}.

(** [MustExtended]: [None] is the panic. *)
Definition MustExtended `{ObjectBackend W B} (b : B) : option B :=
  if AsExtended b then Some b else None.

(** ** io.Copy

    The loop of [io.Copy] over a buffer of 32 KiB, for any reader and writer; [None] when the
    fuel, the number of reads, runs out. *)
Section io_copy.
Context {W R V : Type}.
Context (read : W -> R -> nat -> W * R * bytes * option error).
Context (write : W -> V -> bytes -> W * V * nat * option error).

Definition copy_buffer : nat := 32 * 1024.

Fixpoint io_Copy (fuel : nat) (w : W) (r : R) (v : V) (written : Z) : option (W * R * V * Z * option error) :=
  match fuel with
  | 0 => None
  | S fuel =>
      let '(w, r, chunk, er) := read w r copy_buffer in
      let finish w v written :=
        match er with
        | None => io_Copy fuel w r v written
        | Some e => Some (w, r, v, written, if is_sentinel (IoSentinel EOF) e then None else Some e)
        end in
      match chunk with
      | [] => finish w v written
      | _ =>
          let '(w, v, nw, ew) := write w v chunk in
          let written := (written + Z.of_nat nw)%Z in
          match ew with
          | Some e => Some (w, r, v, written, Some e)
          | None =>
              if decide (nw <> length chunk) then Some (w, r, v, written, Some (err_io ErrShortWrite))
              else finish w v written
          end
      end
  end.
End io_copy.

(** ** object/copy.go and object/move.go *)

Section streams.
Context `{ST : Streams W B} `{Dg : Digests}.

Definition CopyPath (fuel : nat) (ctx : context) (now : time) (w : W)
    (srcBackend : B) (srcPath : string) (dstBackend : B) (dstPath : string) (opts : list WriterOption)
    : option (W * option error) :=
  match NewReader ctx w srcBackend srcPath [] with
  | (w, Err err) => Some (w, Some err)
  | (w, Ok r) =>
      match NewWriter ctx w dstBackend dstPath opts with
      | (w, Err err) => Some ((CloseReader w r).1, Some err)
      | (w, Ok wr) =>
          match io_Copy Read Write fuel w r wr 0 with
          | None => None
          | Some (w, r, wr, _, Some err) =>
              let '(w, _) := CloseWriter now w wr in Some ((CloseReader w r).1, Some err)
          | Some (w, r, wr, _, None) =>
              let '(w, e) := CloseWriter now w wr in Some ((CloseReader w r).1, e)
          end
      end
  end.

(** [io.MultiWriter(w, h)]: the writer, then the hash, which keeps what it was given. *)
Definition write_hashed (w : W) (v : Wr * bytes) (p : bytes) : W * (Wr * bytes) * nat * option error :=
  let '(wr, h) := v in
  let '(w, wr, n, e) := Write w wr p in
  match e with
  | Some err => (w, (wr, h), n, Some err)
  | None =>
      if decide (n <> length p) then (w, (wr, h), n, Some (err_io ErrShortWrite))
      else (w, (wr, h ++ p), length p, None)
  end.

Definition CopyPathWithHash (fuel : nat) (ctx : context) (now : time) (w : W)
    (srcBackend : B) (srcPath : string) (dstBackend : B) (dstPath : string) (hashType : HashType)
    (opts : list WriterOption) : option (W * result error string) :=
  match NewReader ctx w srcBackend srcPath [] with
  | (w, Err err) => Some (w, Err err)
  | (w, Ok r) =>
      match NewWriter ctx w dstBackend dstPath opts with
      | (w, Err err) => Some ((CloseReader w r).1, Err err)
      | (w, Ok wr) =>
          match NewHash hashType with
          | None =>
              let '(w, _) := CloseWriter now w wr in
              Some ((CloseReader w r).1, Err (err_object ObjErrNotSupported))
          | Some h =>
              match io_Copy Read write_hashed fuel w r (wr, []) 0 with
              | None => None
              | Some (w, r, (wr, _), _, Some err) =>
                  let '(w, _) := CloseWriter now w wr in Some ((CloseReader w r).1, Err err)
              | Some (w, r, (wr, written), _, None) =>
                  match CloseWriter now w wr with
                  | (w, Some err) => Some ((CloseReader w r).1, Err err)
                  | (w, None) => Some ((CloseReader w r).1, Ok (HashBytesFromSum (h written)))
                  end
              end
          end
      end
  end.

Definition MovePath (fuel : nat) (ctx : context) (now : time) (w : W)
    (srcBackend : B) (srcPath : string) (dstBackend : B) (dstPath : string) (opts : list WriterOption)
    : option (W * option error) :=
  match CopyPath fuel ctx now w srcBackend srcPath dstBackend dstPath opts with
  | None => None
  | Some (w, Some err) => Some (w, Some err)
  | Some (w, None) => Some (Delete ctx w srcBackend srcPath)
  end.

End streams.

Section copy.
Context `{OB : ObjectBackend W B}.

Definition SmartCopy (fuel : nat) (ctx : context) (now : time) (w : W)
    (srcBackend : B) (srcPath : string) (dstBackend : B) (dstPath : string) (opts : list WriterOption)
    : option (W * option error) :=
  let client w := CopyPath fuel ctx now w srcBackend srcPath dstBackend dstPath opts in
  if decide (srcBackend = dstBackend) then
    if AsExtended srcBackend && (Features_of w srcBackend).(FCopy) then
      match Copy ctx now w srcBackend srcPath dstPath with
      | (w, None) => Some (w, None)
      | (w, Some err) =>
          if is_sentinel (ObjectSentinel ObjErrNotSupported) err then client w else Some (w, Some err)
      end
    else client w
  else client w.

Definition SmartMove (fuel : nat) (ctx : context) (now : time) (w : W)
    (srcBackend : B) (srcPath : string) (dstBackend : B) (dstPath : string) (opts : list WriterOption)
    : option (W * option error) :=
  let client w := MovePath fuel ctx now w srcBackend srcPath dstBackend dstPath opts in
  if decide (srcBackend = dstBackend) then
    if AsExtended srcBackend && (Features_of w srcBackend).(FMove) then
      match Move ctx now w srcBackend srcPath dstPath with
      | (w, None) => Some (w, None)
      | (w, Some err) =>
          if is_sentinel (ObjectSentinel ObjErrNotSupported) err then client w else Some (w, Some err)
      end
    else client w
  else client w.

End copy.

(** ** Specification

    What a backend promises with a live context: its open state is a map from paths to
    contents; a reader yields the content as it was when it was opened, a writer publishes
    what was written when it is closed, and no operation on one backend changes another. *)
Class BackendSpec (W B : Type) `{OB : ObjectBackend W B} := {
  is_open : W -> B -> Prop;
  files : W -> B -> gmap string bytes;
  (** the path a name stands for; [None] when the name is refused *)
  path_of : B -> string -> option string;
  (** what a reader has yet to yield; where a writer will publish, and what *)
  rd_open : Rd -> Prop;
  unread : Rd -> bytes;
  wr_open : Wr -> Prop;
  target : Wr -> B * string;
  pending : Wr -> bytes;

  NewReader_spec w b p :
    is_open w b ->
    match path_of b p ≫= (files w b !!.) with
    | Some d => exists r, NewReader None w b p [] = (w, Ok r) /\ rd_open r /\ unread r = d
    | None => exists e, NewReader None w b p [] = (w, Err e)
    end;
  NewWriter_spec w b p opts :
    is_open w b ->
    match path_of b p with
    | Some q => exists v, NewWriter None w b p opts = (w, Ok v) /\
                  wr_open v /\ target v = (b, q) /\ pending v = []
    | None => exists e, NewWriter None w b p opts = (w, Err e)
    end;
  Read_spec w r n :
    0 < n -> rd_open r ->
    match unread r with
    | [] => exists r', Read w r n = (w, r', [], Some (err_io EOF))
    | _ => exists r' chunk, Read w r n = (w, r', chunk, None) /\ rd_open r' /\
             chunk <> [] /\ length chunk <= n /\ unread r = chunk ++ unread r'
    end;
  CloseReader_spec w r : (CloseReader w r).1 = w;
  Write_spec w v p :
    wr_open v ->
    exists v', Write w v p = (w, v', length p, None) /\ wr_open v' /\ target v' = target v /\
      pending v' = pending v ++ p;
  CloseWriter_spec now w v :
    is_open w (target v).1 -> wr_open v ->
    exists w', CloseWriter now w v = (w', None) /\
      (forall b, is_open w b -> is_open w' b) /\
      forall b, files w' b =
        if decide (b = (target v).1) then <[(target v).2 := pending v]> (files w (target v).1) else files w b;
  Delete_spec w b p :
    is_open w b ->
    match path_of b p with
    | Some q => exists w', Delete None w b p = (w', None) /\ (forall c, is_open w c -> is_open w' c) /\
        forall c, files w' c = if decide (c = b) then delete q (files w b) else files w c
    | None => exists w' e, Delete None w b p = (w', Some e) /\ (forall c, is_open w c -> is_open w' c) /\
        forall c, files w' c = files w c
    end;
  (** the server-side operations, where [Features] announces them *)
  Copy_spec now w b p1 p2 q1 q2 d :
    is_open w b -> AsExtended b && (Features_of w b).(FCopy) = true ->
    path_of b p1 = Some q1 -> path_of b p2 = Some q2 -> files w b !! q1 = Some d ->
    exists w', Copy None now w b p1 p2 = (w', None) /\ (forall c, is_open w c -> is_open w' c) /\
      forall c, files w' c = if decide (c = b) then <[q2 := d]> (files w b) else files w c;
  Move_spec now w b p1 p2 q1 q2 d :
    is_open w b -> AsExtended b && (Features_of w b).(FMove) = true ->
    path_of b p1 = Some q1 -> path_of b p2 = Some q2 -> files w b !! q1 = Some d ->
    exists w', Move None now w b p1 p2 = (w', None) /\ (forall c, is_open w c -> is_open w' c) /\
      forall c, files w' c = if decide (c = b) then delete q1 (<[q2 := d]> (files w b)) else files w c
}.

(** ** Lemmas *)

Lemma copy_buffer_pos : 0 < copy_buffer.
Proof. apply Nat.ltb_lt. vm_compute. reflexivity. Qed.

Section lemmas.
Context `{BS : BackendSpec W B} `{Dg : Digests}.

(** [io.Copy] into a writer that accepts everything moves what the reader has left, in at most
    one read per byte and one more for the end of the file. *)
Lemma io_Copy_spec {V} (write : W -> V -> bytes -> W * V * nat * option error) (got : V -> bytes) (ok : V -> Prop)
    fuel w r v n :
  (forall w v p, ok v -> exists v', write w v p = (w, v', length p, None) /\ got v' = got v ++ p /\ ok v') ->
  rd_open r -> ok v -> length (unread r) < fuel ->
  exists r' v', io_Copy Read write fuel w r v n = Some (w, r', v', (n + Z.of_nat (length (unread r)))%Z, None) /\
    got v' = got v ++ unread r /\ ok v'.
Proof.
  intros Hwrite. revert r v n. induction fuel as [|fuel IH]; intros r v n Hro Hok Hf; [lia|].
  cbn [io_Copy]. pose proof (Read_spec w r copy_buffer copy_buffer_pos Hro) as Hr.
  destruct (unread r) as [|c d] eqn:Hd.
  - destruct Hr as (r' & ->). exists r', v. rewrite Z.add_0_r, app_nil_r. done.
  - destruct Hr as (r' & chunk & -> & Hro' & Hne & _ & Hsplit). destruct chunk as [|x chunk]; [done|].
    destruct (Hwrite w v (x :: chunk) Hok) as (v' & -> & Hgot & Hok'). cbn [fst snd].
    rewrite decide_False by (intros HH; by apply HH).
    assert (length (c :: d) = length (x :: chunk) + length (unread r')) as Hlen by (by rewrite Hsplit, length_app).
    destruct (IH r' v' (n + Z.of_nat (length (x :: chunk)))%Z Hro' Hok') as (r2 & v2 & -> & Hg & Hok2); [simpl in *; lia|].
    exists r2, v2. split_and!; [|by rewrite Hg, Hgot, Hsplit, app_assoc|done].
    do 2 f_equal. f_equal. rewrite Hlen. lia.
Qed.

(** Where a copy of [d] to [q] on [b] leaves the world. *)
Definition stored_at (w w' : W) (b : B) (q : string) (d : bytes) : Prop :=
  (forall c, is_open w c -> is_open w' c) /\
  forall c, files w' c = if decide (c = b) then <[q := d]> (files w b) else files w c.

(** A writer that will publish at [q] on [b]. *)
Definition writes_to (b : B) (q : string) (v : Wr) : Prop := wr_open v /\ target v = (b, q).

Lemma write_pending w (v : Wr) p (b : B) q :
  writes_to b q v ->
  exists v', Write w v p = (w, v', length p, None) /\ pending v' = pending v ++ p /\ writes_to b q v'.
Proof.
  intros [Ho Ht]. destruct (Write_spec w v p Ho) as (v' & ? & ? & ? & ?). exists v'.
  split_and!; [done..|]. split; congruence.
Qed.

Lemma publish now w v b q d :
  is_open w b -> writes_to b q v -> pending v = d ->
  exists w', CloseWriter now w v = (w', None) /\ stored_at w w' b q d.
Proof.
  intros Hopen [Hwo Ht] <-. destruct (CloseWriter_spec now w v) as (w' & Hc & Ho & Hf); [by rewrite Ht|done|].
  exists w'. rewrite Ht in Hf. split; [done|by split].
Qed.

Lemma NewReader_at w b sp p d :
  is_open w b -> path_of b sp = Some p -> files w b !! p = Some d ->
  exists r, NewReader None w b sp [] = (w, Ok r) /\ rd_open r /\ unread r = d.
Proof.
  intros Hs Hp Hf. pose proof (NewReader_spec w b sp Hs) as Hr.
  assert (path_of b sp ≫= (files w b !!.) = Some d) as He by (by rewrite Hp). by rewrite He in Hr.
Qed.

Lemma CopyPath_ok fuel now w sb sp db dp opts p q d :
  is_open w sb -> is_open w db -> path_of sb sp = Some p -> path_of db dp = Some q ->
  files w sb !! p = Some d -> length d < fuel ->
  exists w', CopyPath fuel None now w sb sp db dp opts = Some (w', None) /\ stored_at w w' db q d.
Proof.
  intros Hs Hd Hp Hq Hf Hfuel. unfold CopyPath.
  destruct (NewReader_at w sb sp p d Hs Hp Hf) as (r & -> & Hro & Hr). pose proof (NewWriter_spec w db dp opts Hd) as Hw. rewrite Hq in Hw.
  destruct Hw as (v & -> & Hwo & Ht & Hv).
  destruct (io_Copy_spec Write pending (writes_to db q) fuel w r v 0) as (r' & v' & -> & Hg & Ht');
    [intros; by apply write_pending|done|done|by rewrite Hr|].
  rewrite Hv, Hr in Hg. destruct (publish now w v' db q d Hd Ht' Hg) as (w' & -> & Hst).
  exists w'. rewrite CloseReader_spec. done.
Qed.

Lemma CopyPath_missing fuel now w sb sp db dp opts :
  is_open w sb -> path_of sb sp ≫= (files w sb !!.) = None ->
  exists e, CopyPath fuel None now w sb sp db dp opts = Some (w, Some e).
Proof.
  intros Hs Hm. unfold CopyPath. pose proof (NewReader_spec w sb sp Hs) as Hr. rewrite Hm in Hr.
  destruct Hr as (e & ->). by exists e.
Qed.

End lemmas.

(** ** Properties *)

Section properties.
Context `{BS : BackendSpec W B} `{Dg : Digests}.

(** Claim C9. CopyPath copies: from any backend to any backend, the same one included, it ends (a
    fuel of one more than the size is enough), the destination path then holds exactly the
    source's content, and every other path of every backend is as it was.  When the source
    does not exist it fails and changes nothing. *)
Theorem CopyPath_correct fuel now w sb sp db dp opts p q :
  is_open w sb -> is_open w db -> path_of sb sp = Some p -> path_of db dp = Some q ->
  match files w sb !! p with
  | Some d =>
      length d < fuel ->
      exists w', CopyPath fuel None now w sb sp db dp opts = Some (w', None) /\ stored_at w w' db q d
  | None => exists e, CopyPath fuel None now w sb sp db dp opts = Some (w, Some e)
  end.
Proof.
  intros Hs Hd Hp Hq. destruct (files w sb !! p) as [d|] eqn:Hf.
  - intros. by eapply CopyPath_ok.
  - apply CopyPath_missing; [done|]. by rewrite Hp.
Qed.

(** CopyPathWithHash copies like CopyPath and returns [HashBytes] of the content it
    copied.  Asked for a hash it does not know it fails with [ErrNotSupported], but only after
    it has truncated the destination to an empty object. *)
Theorem CopyPathWithHash_correct fuel now w sb sp db dp t opts p q d :
  is_open w sb -> is_open w db -> path_of sb sp = Some p -> path_of db dp = Some q ->
  files w sb !! p = Some d -> length d < fuel ->
  exists w', stored_at w w' db q (match NewHash t with Some _ => d | None => [] end) /\
    CopyPathWithHash fuel None now w sb sp db dp t opts =
      Some (w', match NewHash t with Some _ => Ok (HashBytes d t) | None => Err (err_object ObjErrNotSupported) end).
Proof.
  intros Hs Hd Hp Hq Hf Hfuel. unfold CopyPathWithHash, HashBytes.
  destruct (NewReader_at w sb sp p d Hs Hp Hf) as (r & -> & Hro & Hr). pose proof (NewWriter_spec w db dp opts Hd) as Hw. rewrite Hq in Hw.
  destruct Hw as (v & -> & Hwo & Ht & Hv). destruct (NewHash t) as [h|].
  - destruct (io_Copy_spec write_hashed snd (fun v => writes_to db q v.1 /\ pending v.1 = v.2) fuel w r (v, []) 0)
      as (r' & [v' hd] & -> & Hg & Ht' & Hpend); [|done|by split|by rewrite Hr|].
    { intros w0 [v0 h0] c [Ht0 Hp0]. destruct (write_pending w0 v0 c db q Ht0) as (v1 & Hw1 & Hp1 & Ht1).
      exists (v1, h0 ++ c). unfold write_hashed. rewrite Hw1, decide_False by tauto. simpl in *. split_and!; try congruence; done. }
    cbn [fst snd app] in *. subst hd. rewrite Hr in Hpend.
    destruct (publish now w v' db q d Hd Ht' Hpend) as (w' & -> & Hst).
    exists w'. rewrite CloseReader_spec, Hr. split; [done|].
    assert (forall s, HashBytesFromSum s = hex_encode s) as -> by (induction s as [|b s IH]; simpl; by rewrite ?IH). done.
  - destruct (publish now w v db q [] Hd (conj Hwo Ht) Hv) as (w' & -> & Hst). exists w'. by rewrite CloseReader_spec.
Qed.

(** SmartCopy has the effect of CopyPath whichever way it goes, server side or through
    the client. *)
Theorem SmartCopy_correct fuel now w sb sp db dp opts p q d :
  is_open w sb -> is_open w db -> path_of sb sp = Some p -> path_of db dp = Some q ->
  files w sb !! p = Some d -> length d < fuel ->
  exists w', SmartCopy fuel None now w sb sp db dp opts = Some (w', None) /\ stored_at w w' db q d.
Proof.
  intros Hs Hd Hp Hq Hf Hfuel. unfold SmartCopy.
  destruct (decide (sb = db)) as [<-|]; [|by eapply CopyPath_ok].
  destruct (AsExtended sb && _) eqn:Hext; [|by eapply CopyPath_ok].
  destruct (Copy_spec now w sb sp dp p q d) as (w' & -> & ? & ?); [done..|]. by exists w'.
Qed.

(** Claim C24. SmartMove and MovePath move: the destination path holds the source's content and
    the source path is gone.  Moved onto itself, an object is deleted: the call succeeds and
    its content is nowhere any more. *)
Theorem move_correct fuel now w sb sp db dp opts p q d :
  is_open w sb -> is_open w db -> path_of sb sp = Some p -> path_of db dp = Some q ->
  files w sb !! p = Some d -> length d < fuel ->
  let moved w' :=
    files w' sb !! p = None /\
    ((sb, p) <> (db, q) -> files w' db !! q = Some d) /\
    forall c i, (c, i) <> (sb, p) -> (c, i) <> (db, q) -> files w' c !! i = files w c !! i in
  (exists w', SmartMove fuel None now w sb sp db dp opts = Some (w', None) /\ moved w') /\
  (exists w', MovePath fuel None now w sb sp db dp opts = Some (w', None) /\ moved w').
Proof.
  intros Hs Hd Hp Hq Hf Hfuel moved.
  assert (exists w', MovePath fuel None now w sb sp db dp opts = Some (w', None) /\ moved w') as Hmove.
  { unfold MovePath. destruct (CopyPath_ok fuel now w sb sp db dp opts p q d) as (w1 & -> & Ho & Hf1); [done..|].
    pose proof (Delete_spec w1 sb sp (Ho _ Hs)) as Hdel. rewrite Hp in Hdel. destruct Hdel as (w2 & -> & _ & Hf2).
    exists w2. split; [done|]. unfold moved. split_and!.
    - rewrite Hf2, decide_True by done. apply lookup_delete_eq.
    - intros Hne. rewrite Hf2. case_decide as Hb.
      + subst db. rewrite lookup_delete_ne, Hf1, decide_True by congruence. apply lookup_insert_eq.
      + rewrite Hf1, decide_True by done. apply lookup_insert_eq.
    - intros c i H1 H2. rewrite Hf2. case_decide as Hb.
      + subst c. rewrite lookup_delete_ne, Hf1 by congruence. case_decide as Hb2; [|done].
        subst db. by rewrite lookup_insert_ne by congruence.
      + rewrite Hf1. case_decide as Hb2; [|done]. subst c. by rewrite lookup_insert_ne by congruence. }
  split; [|exact Hmove]. unfold SmartMove. destruct (decide (sb = db)) as [<-|]; [|exact Hmove].
  destruct (AsExtended sb && _) eqn:Hext; [|exact Hmove].
  destruct (Move_spec now w sb sp dp p q d) as (w' & -> & _ & Hf'); [done..|].
  exists w'. split; [done|]. unfold moved. split_and!.
  - rewrite Hf', decide_True by done. apply lookup_delete_eq.
  - intros Hne. rewrite Hf', decide_True, lookup_delete_ne by congruence. apply lookup_insert_eq.
  - intros c i H1 H2. rewrite Hf'. case_decide as Hb; [|done]. subst c.
    by rewrite lookup_delete_ne, lookup_insert_ne by congruence.
Qed.

End properties.
