(* ===== verification/Places.v ===== *)
(** * Transfers between any two kinds of backends

    [BackendSpec] asks that a writer publishes when it is closed and that readers keep the content
    they were opened with.  The file and sftp backends promise less: a writer truncates its
    object at once and writes in place.  [PlaceSpec] is what all of them keep: every path
    stands for a place of the world, and a step at one place leaves the objects, the readers and
    the writers of every other place alone.  The copies and moves of object/copy.go and
    object/move.go are verified over it, for two different places; backends of two kinds side by
    side keep it when each of them does. *)

From S2P Require Import Prelude GoLib Errors ObjectTypes ObjectBackend.

(** The places of a world, and what is there. *)
Class Places (W B : Type) `{ST : Streams W B} := {
  place : Type;
  place_eq_dec :: EqDecision place;
  (** the connections of the world are up *)
  alive : W -> Prop;
  (** a path of an open backend stands for a place; an object can be written there *)
  locates : W -> B -> string -> place -> Prop;
  accepts : W -> B -> string -> place -> Prop;
  holds : W -> place -> bytes -> Prop;
  (** a reader of a place has so much left, a writer has written so much *)
  reading : W -> Rd -> place -> bytes -> Prop;
  writing : W -> Wr -> place -> bytes -> Prop
}.

(** What a step that acts on the places [qs] leaves alone. *)
Record changes `{Places W B} (qs : list place) (w w' : W) : Prop := mkChanges {
  kept_alive : alive w -> alive w';
  kept_locates b p k : locates w b p k -> locates w' b p k;
  kept_holds k d : k ∉ qs -> holds w' k d <-> holds w k d;
  kept_reading r k d : k ∉ qs -> reading w r k d -> reading w' r k d;
  kept_writing v k d : k ∉ qs -> writing w v k d -> writing w' v k d
}.

Class PlaceSpec (W B : Type) `{PL : Places W B} := {
  accepts_locates w b p q : accepts w b p q -> locates w b p q;
  holds_unique w q d d' : holds w q d -> holds w q d' -> d = d';
  opens_reader w b p q d :
    locates w b p q -> holds w q d ->
    exists w' r, NewReader None w b p [] = (w', Ok r) /\ reading w' r q d /\ changes [] w w' /\
      forall b' p' k, accepts w b' p' k -> accepts w' b' p' k;
  opens_writer w b p q opts :
    accepts w b p q ->
    exists w' v, NewWriter None w b p opts = (w', Ok v) /\ writing w' v q [] /\ changes [q] w w';
  reads w r q d n :
    0 < n -> reading w r q d ->
    match d with
    | [] => exists w' r', Read w r n = (w', r', [], Some (err_io EOF)) /\ changes [] w w'
    | _ => exists w' r' chunk rest err, Read w r n = (w', r', chunk, err) /\ chunk <> [] /\ d = chunk ++ rest /\
             may_end rest err /\ reading w' r' q rest /\ changes [] w w'
    end;
  writes w v q d p :
    writing w v q d ->
    exists w' v', Write w v p = (w', v', length p, None) /\ writing w' v' q (d ++ p) /\ changes [q] w w';
  closes_writer now w v q d :
    writing w v q d -> exists w', CloseWriter now w v = (w', None) /\ holds w' q d /\ changes [q] w w';
  closes_reader w r : alive w -> changes [] w (CloseReader w r).1;
  deletes w b p q d :
    locates w b p q -> holds w q d ->
    exists w', Delete None w b p = (w', None) /\ (forall e, ~ holds w' q e) /\ changes [q] w w'
}.

(** ** Lemmas *)

Section lemmas.
Context `{PS : PlaceSpec W B} `{Dg : Digests}.

#[global] Instance changes_preorder qs : PreOrder (changes (W:=W) (B:=B) qs).
Proof.
  split; [by split|]. intros w1 w2 w3 [A1 L1 H1 R1 W1] [A2 L2 H2 R2 W2]. split; auto.
  intros k d Hk. etrans; [by apply H2|by apply H1].
Qed.

Lemma changes_mono qs qs' w w' : qs ⊆ qs' -> changes qs w w' -> changes qs' w w'.
Proof. intros Hs [A L H R V]. split; auto. Qed.

Lemma changes_nil qs w w' : changes [] w w' -> changes qs w w'.
Proof. apply changes_mono, list_subseteq_nil. Qed.

(** A writer of [q] under any wrapping: what it has written, and how its writes go. *)
Record streams_to {V} (write : W -> V -> bytes -> W * V * nat * option error) (at_ : W -> V -> bytes -> Prop) (q : place) : Prop := {
  streams_write w v d x : at_ w v d ->
    exists w' v', write w v x = (w', v', length x, None) /\ at_ w' v' (d ++ x) /\ changes [q] w w';
  streams_kept w w' v d : changes [] w w' -> at_ w v d -> at_ w' v d
}.

(** [io.Copy] from one place to another. *)
Lemma io_Copy_places {V} (write : W -> V -> bytes -> W * V * nat * option error) at_ fuel w r v p q d e n :
  streams_to write at_ q -> p <> q -> reading w r p d -> at_ w v e -> length d < fuel ->
  exists w' r' v' n', io_Copy Read write fuel w r v n = Some (w', r', v', n', None) /\ at_ w' v' (e ++ d) /\ changes [q] w w'.
Proof.
  intros Hst Hpq. revert w r v d e n. induction fuel as [|fuel IH]; intros w r v d e n Hr Hv Hf; [lia|]. cbn [io_Copy].
  pose proof (reads w r p d copy_buffer copy_buffer_pos Hr) as Hread. destruct d as [|x d].
  - destruct Hread as (w1 & r1 & -> & Hc). exists w1, r1, v, n. rewrite app_nil_r.
    split_and!; [done|by eapply streams_kept|by apply changes_nil].
  - destruct Hread as (w1 & r1 & chunk & rest & er & -> & Hne & Hd & Her & Hr1 & Hc). destruct chunk as [|y chunk]; [done|].
    destruct (streams_write write at_ q Hst w1 v e (y :: chunk)) as (w2 & v2 & -> & Hv2 & Hc2); [by eapply streams_kept|].
    rewrite decide_False by (intros HH; by apply HH). destruct Her as [->|[-> ->]].
    2: { rewrite app_nil_r in Hd. rewrite Hd. exists w2, r1, v2. eexists. split_and!; [done|done|]. etrans; [by apply changes_nil|done]. }
    destruct (IH w2 r1 v2 rest (e ++ y :: chunk) (n + Z.of_nat (length (y :: chunk)))%Z) as (w3 & r3 & v3 & n3 & -> & Hv3 & Hc3).
    + eapply kept_reading; [exact Hc2| |done]. by intros ->%list_elem_of_singleton.
    + done.
    + apply (f_equal length) in Hd. rewrite length_app in Hd. cbn in *. lia.
    + exists w3, r3, v3, n3. rewrite Hd, app_assoc. split_and!; [done|done|].
      etrans; [by apply changes_nil|]. by etrans.
Qed.

Lemma writer_streams q : streams_to Write (fun w v d => writing w v q d) q.
Proof.
  split; [intros; by eapply writes|]. intros w w' v d Hc. eapply kept_writing; [exact Hc|apply not_elem_of_nil].
Qed.

Lemma hashed_streams q : streams_to write_hashed (fun w v d => writing w v.1 q d /\ v.2 = d) q.
Proof.
  split.
  - intros w [wr h] d x [Hw Hh]. cbn in *. destruct (writes w wr q d x Hw) as (w' & wr' & -> & Hw' & Hc).
    rewrite decide_False by (intros HH; by apply HH). exists w', (wr', h ++ x). by rewrite <-Hh in *.
  - intros w w' [wr h] d Hc [Hw Hh]. split; [|done]. eapply kept_writing; [exact Hc|apply not_elem_of_nil|done].
Qed.

(** Where a transfer of [d] from [p] to [q] starts. *)
Record transfers (w : W) (sb : B) (sp : string) (db : B) (dp : string) (p q : place) (d : bytes) : Prop := {
  tr_alive : alive w;
  tr_source : locates w sb sp p;
  tr_content : holds w p d;
  tr_target : accepts w db dp q;
  tr_distinct : p <> q
}.

(** Opening both ends. *)
Lemma opens w sb sp db dp p q d opts :
  transfers w sb sp db dp p q d ->
  exists w1 r w2 v, NewReader None w sb sp [] = (w1, Ok r) /\ NewWriter None w1 db dp opts = (w2, Ok v) /\
    reading w2 r p d /\ writing w2 v q [] /\ changes [q] w w2.
Proof.
  intros [Hal Hs Hd Ht Hpq]. destruct (opens_reader w sb sp p d Hs Hd) as (w1 & r & Hr & Hrd & Hc1 & Hacc).
  destruct (opens_writer w1 db dp q opts (Hacc db dp q Ht)) as (w2 & v & Hw & Hwr & Hc2).
  exists w1, r, w2, v. split_and!; [done|done| |done|].
  - eapply kept_reading; [exact Hc2| |done]. by intros ->%list_elem_of_singleton.
  - etrans; [by apply changes_nil|done].
Qed.

(** Closing both. *)
Lemma closes w w1 r v now q d :
  alive w -> changes [q] w w1 -> writing w1 v q d ->
  exists w2, CloseWriter now w1 v = (w2, None) /\ holds (CloseReader w2 r).1 q d /\ changes [q] w (CloseReader w2 r).1.
Proof.
  intros Hs Hc Hw. destruct (closes_writer now w1 v q d Hw) as (w2 & -> & Hh & Hc2). exists w2. split; [done|].
  assert (changes [] w2 (CloseReader w2 r).1) as Hc3.
  { apply (closes_reader w2 r). eapply kept_alive; [exact Hc2|]. by eapply kept_alive. }
  split; [apply (kept_holds _ _ _ Hc3); [apply not_elem_of_nil|done]|].
  etrans; [exact Hc|]. etrans; [exact Hc2|]. by apply changes_nil.
Qed.

Lemma CopyPath_at fuel now w sb sp db dp opts p q d :
  transfers w sb sp db dp p q d -> length d < fuel ->
  exists w', CopyPath fuel None now w sb sp db dp opts = Some (w', None) /\ holds w' q d /\ changes [q] w w'.
Proof.
  intros Ht Hf. destruct (opens w sb sp db dp p q d opts Ht) as (w1 & r & w2 & v & Hr & Hw & Hrd & Hwr & Hc).
  unfold CopyPath. rewrite Hr, Hw.
  destruct (io_Copy_places Write _ fuel w2 r v p q d [] 0 (writer_streams q) (tr_distinct _ _ _ _ _ _ _ _ Ht) Hrd Hwr Hf)
    as (w3 & r3 & v3 & n3 & -> & Hwr3 & Hc3).
  destruct (closes w w3 r3 v3 now q d) as (w4 & -> & Hh & Hc4); [apply Ht|by etrans|done|].
  by eexists.
Qed.

(** ** Copies and moves *)

(** A copy between two places ends, the destination holds exactly the source's content, the
    source still does, and no other object has changed; with a hash it also returns the digest. *)
Lemma transfer_copies fuel now w sb sp db dp opts p q d h ht :
  transfers w sb sp db dp p q d -> length d < fuel -> NewHash ht = Some h ->
  (exists w', CopyPath fuel None now w sb sp db dp opts = Some (w', None) /\
     holds w' q d /\ holds w' p d /\ changes [q] w w') /\
  (exists w', CopyPathWithHash fuel None now w sb sp db dp ht opts = Some (w', Ok (HashBytesFromSum (h d))) /\
     holds w' q d /\ holds w' p d /\ changes [q] w w').
Proof.
  intros Ht Hf Hh.
  assert (forall w', changes [q] w w' -> holds w' p d) as Hkept.
  { intros w' Hc. apply (kept_holds _ _ _ Hc); [|apply Ht]. intros ->%list_elem_of_singleton. by eapply tr_distinct. }
  split.
  - destruct (CopyPath_at fuel now w sb sp db dp opts p q d Ht Hf) as (w' & ? & ? & ?). exists w'. auto.
  - destruct (opens w sb sp db dp p q d opts Ht) as (w1 & r & w2 & v & Hr & Hw & Hrd & Hwr & Hc).
    unfold CopyPathWithHash. rewrite Hr, Hw, Hh.
    destruct (io_Copy_places write_hashed _ fuel w2 r (v, []) p q d [] 0 (hashed_streams q) (tr_distinct _ _ _ _ _ _ _ _ Ht) Hrd)
      as (w3 & r3 & [v3 h3] & n3 & -> & [Hwr3 Hh3] & Hc3); [done|done|]. cbn in Hwr3, Hh3. subst h3.
    destruct (closes w w3 r3 v3 now q d) as (w4 & -> & Hh4 & Hc4); [apply Ht|by etrans|done|].
    eexists. split_and!; [done|done| |done]. by apply Hkept.
Qed.

(** A move leaves the content at the destination, nothing at the source, and everything else as
    it was. *)
Lemma transfer_moves fuel now w sb sp db dp opts p q d :
  transfers w sb sp db dp p q d -> length d < fuel ->
  exists w', MovePath fuel None now w sb sp db dp opts = Some (w', None) /\
    holds w' q d /\ (forall e, ~ holds w' p e) /\ changes [p; q] w w'.
Proof.
  intros Ht Hf. destruct (CopyPath_at fuel now w sb sp db dp opts p q d Ht Hf) as (w1 & Hcp & Hh & Hc).
  unfold MovePath. rewrite Hcp.
  destruct (deletes w1 sb sp p d) as (w2 & -> & Hgone & Hc2).
  - eapply kept_locates; [exact Hc|apply Ht].
  - apply (kept_holds _ _ _ Hc); [|apply Ht]. intros ->%list_elem_of_singleton. by eapply tr_distinct.
  - exists w2. split_and!; [done| |done|].
    + apply (kept_holds _ _ _ Hc2); [|done]. intros ->%list_elem_of_singleton. by eapply tr_distinct.
    + etrans; [eapply changes_mono; [|exact Hc]|eapply changes_mono; [|exact Hc2]]; set_solver.
Qed.

End lemmas.

(** ** Backends that publish at the end

    Every backend that keeps [BackendSpec] keeps [PlaceSpec]: its places are its paths. *)
Section published.
Context `{BS : BackendSpec W B}.

Definition published : Places W B := {|
  place := B * string;
  alive _ := True;
  locates w b p k := is_open w b /\ k.1 = b /\ path_of b p = Some k.2;
  accepts w b p k := is_open w b /\ k.1 = b /\ path_of b p = Some k.2;
  holds w k d := files w k.1 !! k.2 = Some d;
  reading _ r _ d := rd_open r /\ unread r = d;
  writing w v k d := is_open w k.1 /\ wr_open v /\ target v = k /\ pending v = d
|}.

#[local] Existing Instance published.

(** A step that keeps backends open and the objects of other places. *)
Lemma published_changes qs w w' :
  (forall c, is_open w c -> is_open w' c) ->
  (forall k, k ∉ qs -> files w' k.1 !! k.2 = files w k.1 !! k.2) -> changes qs w w'.
Proof.
  intros Ho Hf. split; cbn.
  - done.
  - intros b p k (? & ? & ?). auto.
  - intros k d Hk. by rewrite Hf.
  - done.
  - intros v k d _ (? & ? & ? & ?). auto.
Qed.

Lemma published_spec : PlaceSpec W B.
Proof.
  split; cbn.
  - done.
  - intros w q d d' H1 H2. congruence.
  - intros w b p [b' q] d (Ho & Hb & Hp) Hd. cbn in *. subst b'.
    destruct (NewReader_at w b p q d Ho Hp Hd) as (r & Hr & Hro & Hrd). exists w, r. by split_and!.
  - intros w b p [b' q] opts (Ho & Hb & Hp). cbn in *. subst b'. pose proof (NewWriter_spec w b p opts Ho) as Hw.
    rewrite Hp in Hw. destruct Hw as (v & Hw & Hwo & Ht & Hpe). exists w, v. by split_and!.
  - intros w r q d n Hn [Ho <-]. pose proof (Read_spec w r n Hn Ho) as Hr. destruct (unread r) as [|x d].
    + destruct Hr as (r' & Hr). by exists w, r'.
    + destruct Hr as (r' & chunk & Hr & Ho' & Hne & _ & Hd). exists w, r', chunk, (unread r'), None. split_and!; (done || by left).
  - intros w v q d p (Ho & Hwo & Ht & <-). destruct (Write_spec w v p Hwo) as (v' & Hv & Hwo' & Ht' & Hp').
    exists w, v'. split_and!; [done|done|done|congruence|done|done].
  - intros now w v q d (Ho & Hwo & Ht & <-). destruct (CloseWriter_spec now w v) as (w' & Hc & Ho' & Hf); [by rewrite Ht|done|].
    exists w'. rewrite Ht in Hf. split_and!; [done| |].
    + by rewrite Hf, decide_True, lookup_insert_eq.
    + apply published_changes; [done|]. intros [b k] Hk. cbn. rewrite Hf. case_decide as Hb; [|done]. subst b.
      rewrite lookup_insert_ne; [done|]. intros <-. apply Hk. destruct q. by left.
  - intros w r _. rewrite CloseReader_spec. reflexivity.
  - intros w b p [b' q] d (Ho & Hb & Hp) Hd. cbn in *. subst b'. pose proof (Delete_spec w b p Ho) as Hdel. rewrite Hp in Hdel.
    destruct Hdel as (w' & Hdel & Ho' & Hf). exists w'. split_and!; [done| |].
    + intros e. rewrite Hf, decide_True by done. by rewrite lookup_delete_eq.
    + apply published_changes; [done|]. intros [c k] Hk. cbn. rewrite Hf. case_decide as Hc; [|done]. subst c.
      rewrite lookup_delete_ne; [done|]. intros <-. apply Hk. by left.
Qed.
End published.

(** ** Two kinds side by side

    The world of two kinds of backends is that of each; a backend, a reader and a writer is one
    of either kind. *)
Section both.
Context {W1 B1 W2 B2 : Type}.

Definition result_map {E A C} (f : A -> C) (r : result E A) : result E C := match r with Ok x => Ok (f x) | Err e => Err e end.

Context `{S1 : Streams W1 B1} `{S2 : Streams W2 B2}.

Definition both : Streams (W1 * W2) (B1 + B2) := {|
  bk_eq_dec := _;
  Rd := @Rd W1 B1 S1 + @Rd W2 B2 S2;
  Wr := @Wr W1 B1 S1 + @Wr W2 B2 S2;
  NewWriter ctx w b p opts :=
    match b with
    | inl b => let '(w1, r) := NewWriter ctx w.1 b p opts in ((w1, w.2), result_map inl r)
    | inr b => let '(w2, r) := NewWriter ctx w.2 b p opts in ((w.1, w2), result_map inr r)
    end;
  NewReader ctx w b p opts :=
    match b with
    | inl b => let '(w1, r) := NewReader ctx w.1 b p opts in ((w1, w.2), result_map inl r)
    | inr b => let '(w2, r) := NewReader ctx w.2 b p opts in ((w.1, w2), result_map inr r)
    end;
  Exists ctx w b p :=
    match b with
    | inl b => let '(w1, r) := Exists ctx w.1 b p in ((w1, w.2), r)
    | inr b => let '(w2, r) := Exists ctx w.2 b p in ((w.1, w2), r)
    end;
  Delete ctx w b p :=
    match b with
    | inl b => let '(w1, r) := Delete ctx w.1 b p in ((w1, w.2), r)
    | inr b => let '(w2, r) := Delete ctx w.2 b p in ((w.1, w2), r)
    end;
  Read w r n :=
    match r with
    | inl r => let '(w1, r, d, e) := Read w.1 r n in ((w1, w.2), inl r, d, e)
    | inr r => let '(w2, r, d, e) := Read w.2 r n in ((w.1, w2), inr r, d, e)
    end;
  CloseReader w r :=
    match r with
    | inl r => let '(w1, e) := CloseReader w.1 r in ((w1, w.2), e)
    | inr r => let '(w2, e) := CloseReader w.2 r in ((w.1, w2), e)
    end;
  Write w v p :=
    match v with
    | inl v => let '(w1, v, n, e) := Write w.1 v p in ((w1, w.2), inl v, n, e)
    | inr v => let '(w2, v, n, e) := Write w.2 v p in ((w.1, w2), inr v, n, e)
    end;
  CloseWriter now w v :=
    match v with
    | inl v => let '(w1, e) := CloseWriter now w.1 v in ((w1, w.2), e)
    | inr v => let '(w2, e) := CloseWriter now w.2 v in ((w.1, w2), e)
    end
|}.

Context `{P1 : !Places W1 B1 (ST:=S1)} `{P2 : !Places W2 B2 (ST:=S2)}.
#[local] Existing Instance both.

Definition both_places : Places (W1 * W2) (B1 + B2) := {|
  place := @place W1 B1 S1 P1 + @place W2 B2 S2 P2;
  alive w := alive w.1 /\ alive w.2;
  locates w b p k := match b, k with inl b, inl k => locates w.1 b p k | inr b, inr k => locates w.2 b p k | _, _ => False end;
  accepts w b p k := match b, k with inl b, inl k => accepts w.1 b p k | inr b, inr k => accepts w.2 b p k | _, _ => False end;
  holds w k d := match k with inl k => holds w.1 k d | inr k => holds w.2 k d end;
  reading w r k d := match r, k with inl r, inl k => reading w.1 r k d | inr r, inr k => reading w.2 r k d | _, _ => False end;
  writing w v k d := match v, k with inl v, inl k => writing w.1 v k d | inr v, inr k => writing w.2 v k d | _, _ => False end
|}.

#[local] Existing Instance both_places.

Abbreviation changes_both := (@changes (W1 * W2) (B1 + B2) both both_places).

(** A step of one kind leaves the other alone. *)
Ltac one_kind := intros [A L H R V]; split; cbn;
  [by intros [? ?]; auto|intros [?|?] ? [?|?]; auto|intros [?|?] ? ?; [|]; (done || (apply H; set_solver))
  |intros [?|?] [?|?] ? ?; (done || (apply R; set_solver))|intros [?|?] [?|?] ? ?; (done || (apply V; set_solver))].

Lemma both_changes_l qs (w1 w1' : W1) (w2 : W2) : changes qs w1 w1' -> changes_both (map inl qs) (w1, w2) (w1', w2).
Proof. one_kind. Qed.

Lemma both_changes_r qs (w1 : W1) (w2 w2' : W2) : changes qs w2 w2' -> changes_both (map inr qs) (w1, w2) (w1, w2').
Proof. one_kind. Qed.

Lemma both_spec : PlaceSpec W1 B1 -> PlaceSpec W2 B2 -> @PlaceSpec (W1 * W2) (B1 + B2) both both_places.
Proof.
  intros PS1 PS2. split.
  - intros w [b|b] p [q|q]; cbn; try done; apply accepts_locates.
  - intros w [q|q] d d'; cbn; apply holds_unique.
  - intros [w1 w2] [b|b] p [q|q] d; cbn; try done; intros Hl Hh.
    + destruct (opens_reader w1 b p q d Hl Hh) as (w & r & -> & Hr & Hc & Ha). exists (w, w2), (inl r).
      split_and!; [done|done|by apply (both_changes_l [])|]. intros [?|?] ? [?|?]; cbn; auto.
    + destruct (opens_reader w2 b p q d Hl Hh) as (w & r & -> & Hr & Hc & Ha). exists (w1, w), (inr r).
      split_and!; [done|done|by apply (both_changes_r [])|]. intros [?|?] ? [?|?]; cbn; auto.
  - intros [w1 w2] [b|b] p [q|q] opts; cbn; try done; intros Ha.
    + destruct (opens_writer w1 b p q opts Ha) as (w & v & -> & Hv & Hc). exists (w, w2), (inl v).
      split_and!; [done|done|by apply (both_changes_l [q])].
    + destruct (opens_writer w2 b p q opts Ha) as (w & v & -> & Hv & Hc). exists (w1, w), (inr v).
      split_and!; [done|done|by apply (both_changes_r [q])].
  - intros [w1 w2] [r|r] [q|q] d n Hn; cbn; try done; intros Hr.
    + pose proof (reads w1 r q d n Hn Hr) as Hread. destruct d as [|x d].
      * destruct Hread as (w & r' & -> & Hc). exists (w, w2), (inl r'). split; [done|by apply (both_changes_l [])].
      * destruct Hread as (w & r' & chunk & rest & err & -> & Hne & Hd & He & Hr' & Hc). exists (w, w2), (inl r'), chunk, rest, err.
        split_and!; [done..|by apply (both_changes_l [])].
    + pose proof (reads w2 r q d n Hn Hr) as Hread. destruct d as [|x d].
      * destruct Hread as (w & r' & -> & Hc). exists (w1, w), (inr r'). split; [done|by apply (both_changes_r [])].
      * destruct Hread as (w & r' & chunk & rest & err & -> & Hne & Hd & He & Hr' & Hc). exists (w1, w), (inr r'), chunk, rest, err.
        split_and!; [done..|by apply (both_changes_r [])].
  - intros [w1 w2] [v|v] [q|q] d p; cbn; try done; intros Hv.
    + destruct (writes w1 v q d p Hv) as (w & v' & -> & Hv' & Hc). exists (w, w2), (inl v').
      split_and!; [done|done|by apply (both_changes_l [q])].
    + destruct (writes w2 v q d p Hv) as (w & v' & -> & Hv' & Hc). exists (w1, w), (inr v').
      split_and!; [done|done|by apply (both_changes_r [q])].
  - intros now [w1 w2] [v|v] [q|q] d; cbn; try done; intros Hv.
    + destruct (closes_writer now w1 v q d Hv) as (w & -> & Hh & Hc). exists (w, w2). split_and!; [done|done|by apply (both_changes_l [q])].
    + destruct (closes_writer now w2 v q d Hv) as (w & -> & Hh & Hc). exists (w1, w). split_and!; [done|done|by apply (both_changes_r [q])].
  - intros [w1 w2] [r|r] [Ha1 Ha2]; cbn.
    + pose proof (closes_reader w1 r Ha1) as Hc. destruct (CloseReader w1 r) as [w e]. by apply (both_changes_l []).
    + pose proof (closes_reader w2 r Ha2) as Hc. destruct (CloseReader w2 r) as [w e]. by apply (both_changes_r []).
  - intros [w1 w2] [b|b] p [q|q] d; cbn; try done; intros Hl Hh.
    + destruct (deletes w1 b p q d Hl Hh) as (w & -> & Hg & Hc). exists (w, w2). split_and!; [done|done|by apply (both_changes_l [q])].
    + destruct (deletes w2 b p q d Hl Hh) as (w & -> & Hg & Hc). exists (w1, w). split_and!; [done|done|by apply (both_changes_r [q])].
Qed.

End both.
