(* ===== verification/ObjectMemory.v ===== *)
(** * object/backend/memory/backend.go: the in-memory object backend

    [Mem.Store] is one backend, the state its mutex guards.  An operation first tests [closed]
    under the lock, releases it, checks its arguments and takes the lock again; the two
    locked parts are one step here, except for [Mkdir], whose second part is also run apart
    from the first, since [Close] can come between them. *)

From S2P Require Import Prelude GoLib Errors GoPath ObjectTypes ObjectBackend.

Module Mem.
Section memory.
Context `{O : MapOrder}.

Record object := mkObject {
  data : bytes;
  contentType : string;
  modTime : time;
  isDir : bool
}.

(** [objects] is [None] when the map is nil. *)
Record Store := mkStore { objects : option (gmap string object); closed : bool }.

Definition New : Store := mkStore (Some ∅) false.
Definition NewFromConfig (_ : gmap string string) : result error Store := Ok New.

(** Reading the map; a nil map reads like the empty one. *)
Definition objs (s : Store) : gmap string object := default ∅ s.(objects).

(** Assigning to an entry: [None] is the panic of a nil map. *)
Definition assign (p : string) (o : object) (s : Store) : option Store :=
  match s.(objects) with
  | None => None
  | Some m => Some (mkStore (Some (<[p := o]> m)) s.(closed))
  end.

(** [delete] on a nil map does nothing. *)
Definition remove (p : string) (s : Store) : Store :=
  mkStore (delete p <$> s.(objects)) s.(closed).

Definition checkClosed (s : Store) : option error :=
  if s.(closed) then Some (err_object ObjErrBackendClosed) else None.

(** *** Paths *)

Definition validatePath (p : string) : option error :=
  if decide (p = "") then Some (err_object ObjErrInvalidPath)
  else
    let cleaned := Clean p in
    if HasPrefix cleaned ".." || Contains cleaned "/../" then Some (err_object ObjErrInvalidPath)
    else None.

Definition normalizePath (p : string) : string :=
  if decide (p = "") then ""
  else
    let p := TrimPrefix (Clean p) "/" in
    if decide (p = ".") then "" else p.

(** The checks every operation on paths starts with. *)
Definition checks (ctx : context) (s : Store) (ps : list string) : option error :=
  onerr e <- checkClosed s return Some e else
  onerr e <- ctx_err ctx return Some e else
  fold_left (fun acc p => match acc with Some e => Some e | None => validatePath p end) ps None.

(** *** Writers and readers *)

Record memoryWriter := mkWriter {
  w_path : string;
  w_buffer : bytes;
  w_contentType : string;
  w_closed : bool
}.

Record memoryReader := mkReader { r_rest : bytes; r_closed : bool }.

Definition NewWriter (ctx : context) (s : Store) (p : string) (opts : list WriterOption)
    : result error memoryWriter :=
  onerr e <- checks ctx s [p] return Err e else
  let config := ApplyWriterOptions opts in
  Ok (mkWriter (normalizePath p) [] config.(WContentType) false).

(** [data[Offset:]] and [data[:Limit]], with the guards around them. *)
Definition read_range (config : ReaderConfig) (d : bytes) : bytes :=
  let d :=
    if (0 <? config.(ROffset))%Z then
      if (Z.of_nat (length d) <=? config.(ROffset))%Z then []
      else drop (Z.to_nat config.(ROffset)) d
    else d in
  if (0 <? config.(RLimit))%Z && (config.(RLimit) <? Z.of_nat (length d))%Z
  then take (Z.to_nat config.(RLimit)) d else d.

Definition NewReader (ctx : context) (s : Store) (p : string) (opts : list ReaderOption)
    : result error memoryReader :=
  onerr e <- checks ctx s [p] return Err e else
  match objs s !! normalizePath p with
  | None => Err (err_object ObjErrNotFound)
  | Some obj =>
      if obj.(isDir) then Err (Errorf ("cannot read directory: " +:+ p))
      else Ok (mkReader (read_range (ApplyReaderOptions opts) obj.(data)) false)
  end.

Definition Write (w : memoryWriter) (p : bytes) : memoryWriter * nat * option error :=
  if w.(w_closed) then (w, 0, Some (err_object ObjErrWriterClosed))
  else (mkWriter w.(w_path) (w.(w_buffer) ++ p) w.(w_contentType) false, length p, None).

Definition CloseWriter (now : time) (s : Store) (w : memoryWriter) : Store * memoryWriter * option error :=
  if w.(w_closed) then (s, w, None)
  else
    let w' := mkWriter w.(w_path) w.(w_buffer) w.(w_contentType) true in
    if s.(closed) then (s, w', Some (err_object ObjErrBackendClosed))
    else
      match assign w.(w_path) (mkObject w.(w_buffer) w.(w_contentType) now false) s with
      | None => (s, w', None)
      | Some s' => (s', w', None)
      end.

(** [bytes.Reader.Read] into a buffer of [n] bytes. *)
Definition Read (r : memoryReader) (n : nat) : memoryReader * bytes * option error :=
  if r.(r_closed) then (r, [], Some (err_object ObjErrReaderClosed))
  else
    match r.(r_rest) with
    | [] => (r, [], Some (err_io EOF))
    | _ => (mkReader (drop n r.(r_rest)) false, take n r.(r_rest), None)
    end.

Definition CloseReader (r : memoryReader) : memoryReader * option error :=
  (mkReader r.(r_rest) true, None).

(** *** Operations *)

Definition Exists (ctx : context) (s : Store) (p : string) : result error bool :=
  onerr e <- checks ctx s [p] return Err e else
  Ok (match objs s !! normalizePath p with Some _ => true | None => false end).

Definition Delete (ctx : context) (s : Store) (p : string) : Store * option error :=
  onerr e <- checks ctx s [p] return (s, Some e) else
  (remove (normalizePath p) s, None).

Definition List (ctx : context) (s : Store) (prefix : string) : result error (list string) :=
  onerr e <- checks ctx s [] return Err e else
  let normalPrefix := normalizePath prefix in
  let paths := fold_left (fun paths '(p, obj) =>
    if obj.(isDir) then paths
    else if bool_decide (normalPrefix = "") || HasPrefix p normalPrefix || HasPrefix p (normalPrefix +:+ "/")
    then paths ++ [p] else paths) (range (objs s)) [] in
  Ok (sort_strings paths).

Definition Close (s : Store) : Store * option error := (mkStore None true, None).

Definition Stat (ctx : context) (s : Store) (p : string) : result error ObjectInfo :=
  onerr e <- checks ctx s [p] return Err e else
  let normalPath := normalizePath p in
  match objs s !! normalPath with
  | None => Err (err_object ObjErrNotFound)
  | Some obj =>
      let size := if obj.(isDir) then 0%Z else Z.of_nat (length obj.(data)) in
      Ok (mkInfo normalPath size obj.(modTime) obj.(isDir) obj.(contentType) None None)
  end.

(** The part of [Mkdir] under the second lock; [None] is a panic. *)
Definition Mkdir_locked (now : time) (p : string) (s : Store) : option Store :=
  let parts := split_slash (normalizePath p) in
  fold_left (fun acc i =>
    s ← acc;
    let dirPath := join_slash (take (i + 1) parts) in
    match objs s !! dirPath with
    | Some _ => Some s
    | None => assign dirPath (mkObject [] "" now true) s
    end) (seq 0 (length parts)) (Some s).

Definition Mkdir (ctx : context) (now : time) (s : Store) (p : string) : option (Store * option error) :=
  onerr e <- checks ctx s [p] return Some (s, Some e) else
  (fun s => (s, None)) <$> Mkdir_locked now p s.

Definition Rmdir (ctx : context) (s : Store) (p : string) : Store * option error :=
  onerr e <- checks ctx s [p] return (s, Some e) else
  let normalPath := normalizePath p in
  match objs s !! normalPath with
  | None => (s, Some (err_object ObjErrNotFound))
  | Some obj =>
      if negb obj.(isDir) then (s, Some (Errorf ("not a directory: " +:+ p)))
      else if existsb (fun objPath => HasPrefix objPath (normalPath +:+ "/")) (range_keys (objs s))
      then (s, Some (Errorf ("directory not empty: " +:+ p)))
      else (remove normalPath s, None)
  end.

Definition Copy (ctx : context) (now : time) (s : Store) (src dst : string) : option (Store * option error) :=
  onerr e <- checks ctx s [src; dst] return Some (s, Some e) else
  match objs s !! normalizePath src with
  | None => Some (s, Some (err_object ObjErrNotFound))
  | Some srcObj =>
      if srcObj.(isDir) then Some (s, Some (Errorf ("cannot copy directory: " +:+ src)))
      else
        (fun s => (s, None)) <$>
          assign (normalizePath dst) (mkObject srcObj.(data) srcObj.(contentType) now false) s
  end.

Definition Move (ctx : context) (now : time) (s : Store) (src dst : string) : option (Store * option error) :=
  onerr e <- checks ctx s [src; dst] return Some (s, Some e) else
  match objs s !! normalizePath src with
  | None => Some (s, Some (err_object ObjErrNotFound))
  | Some srcObj =>
      if srcObj.(isDir) then Some (s, Some (Errorf ("cannot move directory: " +:+ src)))
      else
        (fun s => (remove (normalizePath src) s, None)) <$>
          assign (normalizePath dst) (mkObject srcObj.(data) srcObj.(contentType) now false) s
  end.

Definition Features : ObjectTypes.Features :=
  mkFeatures true true true true true [] true false false true true false false.

Definition Size (s : Store) : Z :=
  fold_left (fun total '(_, obj) => total + Z.of_nat (length obj.(data)))%Z (range (objs s)) 0%Z.

Definition Count (s : Store) : Z :=
  fold_left (fun count '(_, obj) => if obj.(isDir) then count else count + 1)%Z (range (objs s)) 0%Z.

Definition Clear (s : Store) : Store := mkStore (Some ∅) s.(closed).

(** The contents of the objects that are not directories. *)
Definition contents (s : Store) : gmap string bytes :=
  omap (fun o => if o.(isDir) then None else Some o.(data)) (objs s).

(** An open backend has a map to write to. *)
Definition well_open (s : Store) : Prop := s.(closed) = false /\ is_Some s.(objects).

(** *** The backends of a program

    A world holds every memory backend; a backend is its name. *)
Definition world := nat -> Store.
Definition set_backend (b : nat) (s : Store) (w : world) : world :=
  fun c => if decide (c = b) then s else w c.

(** Run an operation that may panic; a panic leaves the store as it is. *)
Definition or_same {A} (s : Store) (e : A) (o : option (Store * A)) : Store * A := default (s, e) o.

#[global] Instance memory_streams : Streams world nat | 5 := {
  bk_eq_dec := _;
  Rd := memoryReader;
  Wr := nat * memoryWriter;
  ObjectBackend.NewWriter ctx w b p opts :=
    (w, match NewWriter ctx (w b) p opts with Ok v => Ok (b, v) | Err e => Err e end);
  ObjectBackend.NewReader ctx w b p opts := (w, NewReader ctx (w b) p opts);
  ObjectBackend.Exists ctx w b p := (w, Exists ctx (w b) p);
  ObjectBackend.Delete ctx w b p := let '(s, e) := Delete ctx (w b) p in (set_backend b s w, e);
  ObjectBackend.Read w r n := let '(r, d, e) := Read r n in (w, r, d, e);
  ObjectBackend.CloseReader w r := (w, (CloseReader r).2);
  ObjectBackend.Write w v p := let '(v', n, e) := Write v.2 p in (w, (v.1, v'), n, e);
  ObjectBackend.CloseWriter now w v :=
    let '(s, _, e) := CloseWriter now (w v.1) v.2 in (set_backend v.1 s w, e)
}.

#[global] Instance memory_backend : ObjectBackend world nat := {
  ob_streams := memory_streams;
  ObjectBackend.List ctx w b p := (w, List ctx (w b) p);
  AsExtended _ := true;
  Features_of _ _ := Features;
  ObjectBackend.Stat ctx w b p := (w, Stat ctx (w b) p);
  ObjectBackend.Mkdir ctx now w b p :=
    let '(s, e) := or_same (w b) None (Mkdir ctx now (w b) p) in (set_backend b s w, e);
  ObjectBackend.Rmdir ctx w b p := let '(s, e) := Rmdir ctx (w b) p in (set_backend b s w, e);
  ObjectBackend.Copy ctx now w b src dst :=
    let '(s, e) := or_same (w b) None (Copy ctx now (w b) src dst) in (set_backend b s w, e);
  ObjectBackend.Move ctx now w b src dst :=
    let '(s, e) := or_same (w b) None (Move ctx now (w b) src dst) in (set_backend b s w, e)
}.

End memory.
End Mem.

Import Mem.

(** ** Lemmas *)

Section lemmas.
Context `{O : MapOrder}.
Implicit Types s : Store.

(** *** Paths *)

Lemma join_two_dots n names : String.prefix ".." (join_slash (replicate (S n) ".." ++ names)) = true.
Proof. apply prefix_join. Qed.

Lemma TrimPrefix_slash_id q : is_rooted q = false -> TrimPrefix q "/" = q.
Proof. unfold TrimPrefix, HasPrefix, is_rooted. by intros ->. Qed.

Lemma normalizePath_canonical p : validatePath p = None -> canonical (normalizePath p).
Proof.
  unfold validatePath, normalizePath. case_decide as Hp; [done|].
  destruct (HasPrefix (Clean p) "..") eqn:Hdd; [done|]. intros _.
  destruct (Clean_shape p Hp) as (n & names & Hn & HC). rewrite HC in Hdd |- *.
  destruct (is_rooted p).
  - change (String slash (join_slash names)) with ("/" +:+ join_slash names). rewrite TrimPrefix_app.
    case_decide; [by left|by apply canonical_join].
  - destruct n as [|n].
    + cbn [replicate app] in *. case_decide as He; [by left|].
      rewrite TrimPrefix_slash_id by by apply canonical_not_rooted, canonical_join.
      case_decide; [by left|by apply canonical_join].
    + rewrite decide_False in Hdd; [unfold HasPrefix in Hdd; by rewrite join_two_dots in Hdd|].
      intros He. pose proof (join_two_dots n names) as Hx. by rewrite He in Hx.
Qed.

Lemma canonical_not_dot q : canonical q -> q <> ".".
Proof. intros [->|Hq] Hd; [done|]. subst q. apply Forall_cons in Hq as [(_ & ? & _) _]. done. Qed.

Lemma normalizePath_id q : canonical q -> normalizePath q = q.
Proof.
  intros Hc. unfold normalizePath. case_decide as Hq; [done|].
  rewrite Clean_canonical, TrimPrefix_slash_id by (done || by apply canonical_not_rooted).
  rewrite decide_False; [done|by apply canonical_not_dot].
Qed.

(** *** Contents *)

Lemma lookup_contents s q :
  contents s !! q =
    match objs s !! q with Some o => if o.(isDir) then None else Some o.(data) | None => None end.
Proof. unfold contents. rewrite lookup_omap. by destruct (objs s !! q). Qed.

Lemma checks_open s ps :
  s.(closed) = false ->
  checks None s ps = fold_left (fun acc p => match acc with Some e => Some e | None => validatePath p end) ps None.
Proof. intros Hc. unfold checks, checkClosed. by rewrite Hc. Qed.

Lemma checks_one s p : s.(closed) = false -> checks None s [p] = validatePath p.
Proof. intros Hc. by rewrite checks_open. Qed.

Lemma assign_open q o s :
  well_open s -> exists s', assign q o s = Some s' /\ well_open s' /\ objs s' = <[q := o]> (objs s).
Proof.
  intros [Hc [m Hm]]. unfold assign, objs. rewrite Hm. eexists. split; [done|]. split; [|done].
  split; [done|by eexists].
Qed.

Lemma contents_assign q o s s' :
  objs s' = <[q := o]> (objs s) -> o.(isDir) = false -> contents s' = <[q := o.(data)]> (contents s).
Proof.
  intros Ho Hd. apply map_eq. intros i. rewrite lookup_contents, Ho. destruct (decide (q = i)) as [<-|Hne].
  - by rewrite !lookup_insert_eq, Hd.
  - by rewrite !lookup_insert_ne, lookup_contents by done.
Qed.

Lemma objs_remove q s : objs (remove q s) = delete q (objs s).
Proof. unfold remove, objs. simpl. destruct (objects s); simpl; [done|by rewrite delete_empty]. Qed.

Lemma contents_remove q s : contents (remove q s) = delete q (contents s).
Proof.
  apply map_eq. intros i. rewrite lookup_contents, objs_remove. destruct (decide (q = i)) as [<-|Hne].
  - by rewrite !lookup_delete_eq.
  - by rewrite !lookup_delete_ne, lookup_contents by done.
Qed.

Lemma remove_open q s : well_open s -> well_open (remove q s).
Proof. intros [Hc [m Hm]]. split; [done|]. unfold remove. simpl. rewrite Hm. by eexists. Qed.

Lemma set_backend_eq b s (w : world) : set_backend b s w b = s.
Proof. unfold set_backend. by rewrite decide_True. Qed.

Lemma set_backend_ne b c s (w : world) : c <> b -> set_backend b s w c = w c.
Proof. intros. unfold set_backend. by rewrite decide_False. Qed.

Lemma set_backend_open b s (w : world) c : well_open s -> well_open (w c) -> well_open (set_backend b s w c).
Proof. unfold set_backend. by case_decide. Qed.

Lemma set_backend_contents b s (w : world) c :
  contents (set_backend b s w c) = if decide (c = b) then contents s else contents (w c).
Proof. unfold set_backend. by case_decide. Qed.

(** *** The backend meets its specification *)

Definition mem_path (p : string) : option string :=
  match validatePath p with None => Some (normalizePath p) | Some _ => None end.

Lemma mem_path_two s p1 p2 q1 q2 :
  s.(closed) = false -> mem_path p1 = Some q1 -> mem_path p2 = Some q2 ->
  checks None s [p1; p2] = None /\ q1 = normalizePath p1 /\ q2 = normalizePath p2.
Proof.
  intros Hc. rewrite checks_open by done. unfold mem_path. simpl.
  destruct (validatePath p1); [done|]. intros [= <-]. destruct (validatePath p2); [done|]. by intros [= <-].
Qed.

Lemma contents_file s q d : contents s !! q = Some d -> exists o, objs s !! q = Some o /\ o.(isDir) = false /\ o.(data) = d.
Proof. rewrite lookup_contents. destruct (objs s !! q) as [o|]; [|done]. destruct o.(isDir) eqn:?; [done|]. intros [= <-]. by exists o. Qed.

Lemma Copy_ok now s p1 p2 q1 q2 d :
  well_open s -> mem_path p1 = Some q1 -> mem_path p2 = Some q2 -> contents s !! q1 = Some d ->
  exists s', Copy None now s p1 p2 = Some (s', None) /\ well_open s' /\ contents s' = <[q2 := d]> (contents s).
Proof.
  intros Hopen H1 H2 Hd. destruct (mem_path_two s _ _ _ _ (proj1 Hopen) H1 H2) as (Hck & -> & ->).
  destruct (contents_file _ _ _ Hd) as (o & Ho & Hdir & <-).
  unfold Copy. rewrite Hck, Ho, Hdir.
  destruct (assign_open (normalizePath p2) (mkObject o.(data) o.(contentType) now false) s Hopen) as (s' & -> & ? & Ho').
  exists s'. split_and!; [done..|]. by rewrite (contents_assign _ _ _ _ Ho').
Qed.

Lemma Move_ok now s p1 p2 q1 q2 d :
  well_open s -> mem_path p1 = Some q1 -> mem_path p2 = Some q2 -> contents s !! q1 = Some d ->
  exists s', Move None now s p1 p2 = Some (s', None) /\ well_open s' /\
    contents s' = delete q1 (<[q2 := d]> (contents s)).
Proof.
  intros Hopen H1 H2 Hd. destruct (mem_path_two s _ _ _ _ (proj1 Hopen) H1 H2) as (Hck & -> & ->).
  destruct (contents_file _ _ _ Hd) as (o & Ho & Hdir & <-).
  unfold Move. rewrite Hck, Ho, Hdir.
  destruct (assign_open (normalizePath p2) (mkObject o.(data) o.(contentType) now false) s Hopen) as (s' & -> & ? & Ho').
  eexists. split; [done|]. split; [by apply remove_open|]. by rewrite contents_remove, (contents_assign _ _ _ _ Ho').
Qed.

(** Opening a reader, as the specification states it. *)
Lemma NewReader_contents s p :
  s.(closed) = false ->
  match mem_path p ≫= (contents s !!.) with
  | Some d => exists r, NewReader None s p [] = Ok r /\ r.(r_closed) = false /\ r.(r_rest) = d
  | None => exists e, NewReader None s p [] = Err e
  end.
Proof.
  intros Hc. unfold NewReader. rewrite checks_one by done. unfold mem_path.
  destruct (validatePath p); [by eexists|]. cbn [mbind option_bind]. rewrite lookup_contents.
  destruct (objs s !! _) as [o|]; [|by eexists]. destruct o.(isDir); by eexists.
Qed.

#[export] Instance memory_spec : BackendSpec world nat.
Proof.
  refine {| is_open w b := well_open (w b); files w b := contents (w b); path_of _ p := mem_path p;
    rd_open := (fun r : memoryReader => r.(r_closed) = false : Prop) : @Rd world nat memory_streams -> Prop;
    unread := (fun r : memoryReader => r.(r_rest)) : @Rd world nat memory_streams -> bytes;
    wr_open := (fun v : nat * memoryWriter => v.2.(w_closed) = false) : @Wr world nat memory_streams -> Prop;
    target := (fun v : nat * memoryWriter => (v.1, v.2.(w_path))) : @Wr world nat memory_streams -> nat * string;
    pending := (fun v : nat * memoryWriter => v.2.(w_buffer)) : @Wr world nat memory_streams -> bytes |}.
  - intros w b p [Hc _]. cbn. pose proof (NewReader_contents (w b) p Hc) as Hr.
    change (match mem_path p ≫= (contents (w b) !!.) with
      | Some d => exists r, (w, NewReader None (w b) p []) = (w, Ok r) /\ r.(r_closed) = false /\ r.(r_rest) = d
      | None => exists e, (w, NewReader None (w b) p []) = (w, Err e) end).
    destruct (mem_path p ≫= _); [destruct Hr as (r & -> & ?)|destruct Hr as [e ->]]; by eexists.
  - intros w b p opts [Hc _]. cbn. unfold NewWriter. rewrite checks_one by done. unfold mem_path.
    destruct (validatePath p); by eexists.
  - intros w r n Hn. cbn. unfold Read. intros Hr. rewrite Hr. destruct r.(r_rest) as [|c d]; [by eexists|].
    eexists _, _. split_and!; [done..| | |].
    + destruct n; [lia|done].
    + rewrite length_take. lia.
    + symmetry. apply take_drop.
  - done.
  - intros w v p. cbn. unfold Write. intros ->. by eexists.
  - intros now w v Hopen. cbn. unfold CloseWriter. intros ->. cbn in Hopen. rewrite (proj1 Hopen).
    destruct (assign_open v.2.(w_path) (mkObject v.2.(w_buffer) v.2.(w_contentType) now false) (w v.1) Hopen)
      as (s' & -> & Hs' & Ho). eexists. split; [done|]. split; [intros; by apply set_backend_open|].
    intros c. rewrite set_backend_contents. case_decide; [|done]. by rewrite (contents_assign _ _ _ _ Ho).
  - intros w b p Hopen. cbn. unfold Delete. rewrite checks_one by apply Hopen. unfold mem_path.
    destruct (validatePath p) as [e|].
    + eexists _, e. split; [done|]. split; [intros; by apply set_backend_open|].
      intros c. rewrite set_backend_contents. case_decide; by subst.
    + eexists. split; [done|]. split; [intros; apply set_backend_open; [by apply remove_open|done]|].
      intros c. rewrite set_backend_contents. case_decide; [|done]. by rewrite contents_remove.
  - intros now w b p1 p2 q1 q2 d Hopen _ H1 H2 Hd. cbn.
    destruct (Copy_ok now (w b) p1 p2 q1 q2 d) as (s' & -> & Ho & Hc); [done..|]. eexists. split; [done|].
    split; [intros; by apply set_backend_open|]. intros c. cbn. rewrite set_backend_contents. by case_decide.
  - intros now w b p1 p2 q1 q2 d Hopen _ H1 H2 Hd. cbn.
    destruct (Move_ok now (w b) p1 p2 q1 q2 d) as (s' & -> & Ho & Hc); [done..|]. eexists. split; [done|].
    split; [intros; by apply set_backend_open|]. intros c. cbn. rewrite set_backend_contents. by case_decide.
Defined.

(** *** Ranges *)

(** What a reader with a limit has yet to yield. *)
Definition limited (limit : option Z) (d : bytes) : bytes := match limit with Some n => take (Z.to_nat n) d | None => d end.

(** [read_range] is an offset, then a limit. *)
Lemma limited_range config d :
  limited (if (0 <? config.(RLimit))%Z then Some config.(RLimit) else None)
    (drop (if (0 <? config.(ROffset))%Z then Z.to_nat config.(ROffset) else 0) d) = read_range config d.
Proof.
  unfold read_range. set (e := drop _ d).
  assert ((if (0 <? config.(ROffset))%Z then if (Z.of_nat (length d) <=? config.(ROffset))%Z then [] else drop (Z.to_nat config.(ROffset)) d else d) = e) as ->.
  { unfold e. destruct (0 <? _)%Z; [|by rewrite drop_0]. destruct (Z.leb_spec (Z.of_nat (length d)) config.(ROffset)); [|done].
    symmetry. apply drop_ge. lia. }
  destruct (0 <? config.(RLimit))%Z; cbn [limited andb]; [|done]. destruct (Z.ltb_spec config.(RLimit) (Z.of_nat (length e))); [done|].
  apply take_ge. lia.
Qed.

Lemma read_range_length config d : length (read_range config d) <= length d.
Proof. rewrite <- limited_range. unfold limited. case_match; rewrite ?length_take, length_drop; lia. Qed.

(** *** Listing *)

Lemma List_paths pre (l : list (string * object)) acc :
  fold_left (fun paths '(p, obj) =>
    if obj.(isDir) then paths
    else if bool_decide (pre = "") || HasPrefix p pre || HasPrefix p (pre +:+ "/") then paths ++ [p] else paths) l acc
  = acc ++ (filter (fun kv => kv.2.(isDir) = false /\ HasPrefix kv.1 pre = true) l).*1.
Proof.
  revert acc. induction l as [|[k o] l IH]; intros acc; [by rewrite app_nil_r|].
  cbn [fold_left]. rewrite IH, filter_cons. cbn [fst snd].
  destruct o.(isDir) eqn:Hd; [rewrite decide_False by (intros [? _]; congruence); done|].
  assert (bool_decide (pre = "") || HasPrefix k pre || HasPrefix k (pre +:+ "/") = HasPrefix k pre) as ->.
  { destruct (HasPrefix k pre) eqn:Hp; [by rewrite orb_true_r|]. rewrite orb_false_r.
    destruct (HasPrefix k (pre +:+ "/")) eqn:Hp2.
    - unfold HasPrefix in *. apply prefix_split in Hp2 as [t ->]. rewrite <- string_app_assoc, prefix_app in Hp. done.
    - rewrite orb_false_r. apply bool_decide_eq_false. intros ->. by destruct k. }
  destruct (HasPrefix k pre) eqn:Hp.
  - rewrite decide_True by done. rewrite fmap_cons. by rewrite <- app_assoc.
  - rewrite decide_False; [done|]. intros [_ ?]. congruence.
Qed.

Lemma elem_of_List s prefix l q :
  s.(closed) = false -> List None s prefix = Ok l ->
  q ∈ l <-> HasPrefix q (normalizePath prefix) = true /\ is_Some (contents s !! q).
Proof.
  intros Hc. unfold List. rewrite checks_open by done. cbn [fold_left]. intros [= <-].
  rewrite elem_of_sort_strings, List_paths. cbn [app]. rewrite list_elem_of_fmap, lookup_contents. split.
  - intros ([k o] & -> & [[Hd Hp] Hin]%list_elem_of_filter). apply elem_of_range in Hin. cbn [fst snd] in *.
    rewrite Hin, Hd. by eexists.
  - intros [Hp Hs]. destruct (objs s !! q) as [o|] eqn:Ho; [|by destruct Hs].
    destruct o.(isDir) eqn:Hd; [by destruct Hs|]. exists (q, o). split; [done|].
    apply list_elem_of_filter. split; [done|]. by apply elem_of_range.
Qed.

Lemma List_open s prefix : s.(closed) = false -> exists l, List None s prefix = Ok l /\
  NoDup l /\ StronglySorted String.le l.
Proof.
  intros Hc. unfold List. rewrite checks_open by done. cbn [fold_left]. eexists. split; [done|].
  split; [|apply sort_strings_sorted]. rewrite sort_strings_perm, List_paths. cbn [app].
  eapply sublist_NoDup; [apply (NoDup_range_keys (objs s))|apply fmap_sublist, sublist_filter].
Qed.

(** *** Mkdir *)

(** The directories [Mkdir] makes: the path and its ancestors. *)
Definition ancestors (q : string) : list string :=
  (fun i => join_slash (take (i + 1) (split_slash q))) <$> seq 0 (length (split_slash q)).

Definition make_dirs (now : time) (ds : list string) (s : Store) : option Store :=
  fold_left (fun acc d =>
    s ← acc; match objs s !! d with Some _ => Some s | None => assign d (mkObject [] "" now true) s end)
    ds (Some s).

Lemma Mkdir_locked_dirs now p s : Mkdir_locked now p s = make_dirs now (ancestors (normalizePath p)) s.
Proof.
  unfold Mkdir_locked, make_dirs, ancestors. generalize (Some s). cbv zeta.
  generalize (seq 0 (length (split_slash (normalizePath p)))). intros l. induction l as [|i l IH]; intros acc; [done|].
  rewrite fmap_cons. cbn [fold_left]. apply IH.
Qed.

Lemma make_dirs_open now ds s :
  well_open s ->
  exists s', make_dirs now ds s = Some s' /\ well_open s' /\
    forall q, objs s' !! q =
      match objs s !! q with
      | Some o => Some o
      | None => if decide (q ∈ ds) then Some (mkObject [] "" now true) else None
      end.
Proof.
  revert s. induction ds as [|d ds IH]; intros s Hopen.
  { exists s. split_and!; [done..|]. intros q. destruct (objs s !! q); [done|].
    by rewrite decide_False by apply not_elem_of_nil. }
  unfold make_dirs. cbn [fold_left mbind option_bind]. destruct (objs s !! d) as [o|] eqn:Hd.
  - destruct (IH s Hopen) as (s' & Hs' & Ho & Hl). exists s'. split_and!; [done..|]. intros q. rewrite Hl.
    destruct (objs s !! q) eqn:Hq; [done|]. apply decide_ext. rewrite elem_of_cons. split; [by right|].
    intros [->|]; [congruence|done].
  - destruct (assign_open d (mkObject [] "" now true) s Hopen) as (s1 & -> & Ho1 & Hobj).
    destruct (IH s1 Ho1) as (s' & Hs' & Ho & Hl). exists s'. split_and!; [done..|]. intros q. rewrite Hl, Hobj.
    destruct (decide (d = q)) as [<-|Hne].
    + rewrite lookup_insert_eq, Hd, decide_True; [done|left].
    + rewrite lookup_insert_ne by done. destruct (objs s !! q); [done|]. apply decide_ext.
      rewrite elem_of_cons. naive_solver.
Qed.

Lemma ancestors_canonical q d : canonical q -> d ∈ ancestors q -> canonical d.
Proof.
  intros Hq Hd. unfold ancestors in Hd. apply list_elem_of_fmap in Hd as (i & -> & _).
  destruct Hq as [->|Hq]; [left; by rewrite take_ge by (simpl; lia)|]. apply canonical_join. by apply Forall_take.
Qed.

End lemmas.

(** ** Histories *)

Section histories.
Context `{O : MapOrder}.

(** Every step a program can make on one backend; a writer keeps the path [NewWriter] gave it. *)
Inductive mem_step : Store -> Store -> Prop :=
  | step_close_writer ctx now s0 s p opts w buf :
      NewWriter ctx s0 p opts = Ok w ->
      mem_step s (CloseWriter now s (mkWriter w.(w_path) buf w.(w_contentType) false)).1.1
  | step_delete ctx s p : mem_step s (Delete ctx s p).1
  | step_mkdir ctx now s p s' e : Mkdir ctx now s p = Some (s', e) -> mem_step s s'
  | step_rmdir ctx s p : mem_step s (Rmdir ctx s p).1
  | step_copy ctx now s src dst s' e : Copy ctx now s src dst = Some (s', e) -> mem_step s s'
  | step_move ctx now s src dst s' e : Move ctx now s src dst = Some (s', e) -> mem_step s s'
  | step_close s : mem_step s (Close s).1
  | step_clear s : mem_step s (Clear s).

(** Every key is a canonical path, and an open backend has a map. *)
Definition mem_wf (s : Store) : Prop :=
  (forall q o, objs s !! q = Some o -> canonical q) /\ (s.(closed) = false -> is_Some s.(objects)).

Lemma assign_canonical q o s s' :
  canonical q -> mem_wf s -> assign q o s = Some s' -> mem_wf s'.
Proof.
  intros Hq [H1 H2]. unfold assign. destruct (objects s) as [m|] eqn:Hm; [|done]. intros [= <-].
  split; [|by eexists]. intros i o'. unfold objs. cbn. rewrite lookup_insert_Some. intros [[<- _]|[_ Hi]]; [done|].
  apply (H1 i o'). unfold objs. by rewrite Hm.
Qed.

Lemma remove_wf q s : mem_wf s -> mem_wf (remove q s).
Proof.
  intros [H1 H2]. split.
  - intros i o. rewrite objs_remove, lookup_delete_Some. intros [_ ?]. by eapply H1.
  - intros Hc. destruct (H2 Hc) as [m Hm]. unfold remove. cbn. rewrite Hm. by eexists.
Qed.

Lemma checks_valid ctx s ps p : checks ctx s ps = None -> p ∈ ps -> validatePath p = None /\ s.(closed) = false.
Proof.
  unfold checks, checkClosed. destruct s.(closed); [done|]. destruct (ctx_err ctx); [done|]. intros Hf Hp.
  split; [|done]. revert Hf. induction ps as [|x ps IH]; [by apply not_elem_of_nil in Hp|]. cbn [fold_left].
  assert (forall l e, fold_left (fun acc p => match acc with Some e => Some e | None => validatePath p end) l (Some e) = Some e)
    as Hsome by (induction l; done).
  destruct (validatePath x) eqn:Hx; [by rewrite Hsome|]. apply elem_of_cons in Hp as [->|Hp]; [done|by apply IH].
Qed.

Lemma make_dirs_wf now ds s s' : Forall canonical ds -> mem_wf s -> make_dirs now ds s = Some s' -> mem_wf s'.
Proof.
  intros Hds. revert s. induction Hds as [|d ds Hd Hds IH]; intros s Hwf; [by intros [= <-]|].
  unfold make_dirs. cbn [fold_left mbind option_bind]. destruct (objs s !! d); [by apply IH|].
  destruct (assign d _ s) as [s1|] eqn:Ha; [apply IH; by eapply assign_canonical|].
  assert (forall l, fold_left (fun acc d => s ← acc; match objs s !! d with Some _ => Some s
    | None => assign d (mkObject [] "" now true) s end) l None = None) as -> by (induction l; done). done.
Qed.

Lemma mem_step_wf s s' : mem_step s s' -> mem_wf s -> mem_wf s'.
Proof.
  intros Hstep Hwf. destruct Hstep as [ctx now s0 s p opts w buf Hw|ctx s p|ctx now s p s' e Hm|ctx s p
    |ctx now s src dst s' e Hm|ctx now s src dst s' e Hm|s|s].
  - unfold NewWriter in Hw. destruct (checks ctx s0 [p]) eqn:Hck; [done|]. injection Hw as <-.
    apply checks_valid with (p := p) in Hck as [Hv _]; [|left]. unfold CloseWriter. cbn [w_closed w_path].
    destruct s.(closed); [done|]. destruct (assign _ _ s) eqn:Ha; [|done]. cbn.
    eapply assign_canonical; [|exact Hwf|exact Ha]. by apply normalizePath_canonical.
  - unfold Delete. destruct (checks _ _ _); [done|by apply remove_wf].
  - unfold Mkdir in Hm. destruct (checks ctx s [p]) eqn:Hck; [by injection Hm as <- _|].
    apply checks_valid with (p := p) in Hck as [Hv _]; [|left]. rewrite Mkdir_locked_dirs in Hm.
    destruct (make_dirs _ _ s) eqn:Hd; [|done]. injection Hm as <- _.
    eapply make_dirs_wf; [|done..]. apply Forall_forall. intros d. apply ancestors_canonical.
    by apply normalizePath_canonical.
  - unfold Rmdir. destruct (checks _ _ _); [done|]. repeat (case_match; try done). by apply remove_wf.
  - unfold Copy in Hm. destruct (checks ctx s [src; dst]) eqn:Hck; [by injection Hm as <- _|].
    apply checks_valid with (p := dst) in Hck as [Hv _]; [|right; left].
    destruct (objs s !! _) as [o|]; [|by injection Hm as <- _]. destruct o.(isDir); [by injection Hm as <- _|].
    destruct (assign _ _ s) eqn:Ha; [|done]. injection Hm as <- _.
    eapply assign_canonical; [|exact Hwf|exact Ha]. by apply normalizePath_canonical.
  - unfold Move in Hm. destruct (checks ctx s [src; dst]) eqn:Hck; [by injection Hm as <- _|].
    apply checks_valid with (p := dst) in Hck as [Hv _]; [|right; left].
    destruct (objs s !! _) as [o|]; [|by injection Hm as <- _]. destruct o.(isDir); [by injection Hm as <- _|].
    destruct (assign _ _ s) eqn:Ha; [|done]. injection Hm as <- _. apply remove_wf.
    eapply assign_canonical; [|exact Hwf|exact Ha]. by apply normalizePath_canonical.
  - split; [|done]. intros q o. unfold objs. cbn. by rewrite lookup_empty.
  - split; [|by eexists]. intros q o. unfold objs. cbn. by rewrite lookup_empty.
Qed.

End histories.

(** ** Properties *)

Section properties.
Context `{O : MapOrder}.
Implicit Types s : Store.

(** Claim C25. No name escapes and no two spellings diverge: whatever a program does with a fresh
    backend, every stored path is canonical (relative, without empty, ["."] or [".."] elements),
    normalizing it again changes nothing, and an open backend always has its map. *)
Theorem stored_paths_canonical s q o :
  rtc mem_step New s ->
  (objs s !! q = Some o -> canonical q /\ normalizePath q = q /\ String.prefix "../" q = false) /\
  (s.(closed) = false -> is_Some s.(objects)).
Proof.
  intros Hr. assert (mem_wf s) as [H1 H2].
  { remember New as s0 eqn:Hs0. assert (mem_wf s0) as Hwf.
    { subst. split; [|by eexists]. intros i x. unfold objs. cbn. by rewrite lookup_empty. }
    clear Hs0. induction Hr; eauto using mem_step_wf. }
  split; [|done]. intros Ho. apply H1 in Ho. split_and!; [done|by apply normalizePath_id|].
  destruct (String.prefix "../" q) eqn:Hp; [|done]. apply prefix_split in Hp as [t ->].
  destruct Ho as [?|Ho]; [done|]. change ("../" +:+ t) with (".." +:+ String slash t) in Ho.
  rewrite split_slash_app in Ho by (unfold no_slash; vm_compute; set_solver).
  apply Forall_cons in Ho as [(_ & _ & ? & _) _]. done.
Qed.

(** A ranged read yields exactly the requested window of the object: [Limit] bytes
    from [Offset] on, as far as there are any; a limit of 0 means to the end. *)
Theorem ranged_read s p q d off lim :
  well_open s -> mem_path p = Some q -> contents s !! q = Some d -> (0 <= off)%Z -> (0 <= lim)%Z ->
  exists r, NewReader None s p [WithOffset off; WithLimit lim] = Ok r /\
    r.(r_rest) = (if (lim =? 0)%Z then drop (Z.to_nat off) d else take (Z.to_nat lim) (drop (Z.to_nat off) d)).
Proof.
  intros [Hc _] Hp Hd Hoff Hlim. destruct (contents_file _ _ _ Hd) as (o & Ho & Hdir & <-).
  unfold NewReader. rewrite checks_one by done. revert Hp. unfold mem_path.
  destruct (validatePath p); [done|]. intros [= <-]. rewrite Ho, Hdir. eexists. split; [done|].
  unfold read_range, ApplyReaderOptions. cbn [fold_left WithOffset WithLimit ROffset RLimit r_rest].
  assert ((if (0 <? off)%Z then if (Z.of_nat (length o.(data)) <=? off)%Z then [] else drop (Z.to_nat off) o.(data)
           else o.(data)) = drop (Z.to_nat off) o.(data)) as ->.
  { destruct (0 <? off)%Z eqn:H1; [|by replace off with 0%Z by lia].
    destruct (Z.of_nat _ <=? off)%Z eqn:H2; [|done]. by rewrite drop_ge by lia. }
  destruct (0 <? lim)%Z eqn:H1; cbn [andb].
  - rewrite (proj2 (Z.eqb_neq _ _)) by lia. destruct (lim <? _)%Z eqn:H2; [done|]. by rewrite take_ge by lia.
  - by rewrite (proj2 (Z.eqb_eq _ _)) by lia.
Qed.

(** Feeding a writer chunk by chunk. *)
Definition write_all (w : memoryWriter) (chunks : list bytes) : memoryWriter :=
  fold_left (fun w c => (Write w c).1.1) chunks w.

Lemma write_all_open w chunks :
  w.(w_closed) = false -> write_all w chunks = mkWriter w.(w_path) (w.(w_buffer) ++ concat chunks) w.(w_contentType) false.
Proof.
  revert w. induction chunks as [|c chunks IH]; intros w Hc; cbn.
  - rewrite app_nil_r. destruct w; cbn in *; by subst.
  - unfold write_all in IH. rewrite IH; unfold Write; rewrite Hc; [|done]. cbn. by rewrite app_assoc.
Qed.

(** What is written is read: however the content is cut into writes, once the writer
    is closed the object holds their concatenation with the content type asked for and the time
    of the close, every other object is as it was, and before the close nothing shows; writing
    to the closed writer fails, and closing it again changes nothing. *)
Theorem write_then_read now s p q ct chunks :
  well_open s -> mem_path p = Some q ->
  exists w, NewWriter None s p [WithContentType ct] = Ok w /\
    let w' := write_all w chunks in
    exists s' w'', CloseWriter now s w' = (s', w'', None) /\
      contents s' = <[q := concat chunks]> (contents s) /\
      Stat None s' p = Ok (mkInfo q (Z.of_nat (length (concat chunks))) now false ct None None) /\
      (exists r, NewReader None s' p [] = Ok r /\ r.(r_rest) = concat chunks) /\
      (forall c, Write w'' c = (w'', 0, Some (err_object ObjErrWriterClosed))) /\
      CloseWriter now s' w'' = (s', w'', None).
Proof.
  intros Hopen. unfold mem_path. destruct (validatePath p) eqn:Hv; [done|]. intros [= <-].
  unfold NewWriter. rewrite checks_one, Hv by apply Hopen. eexists. split; [done|]. cbv zeta.
  rewrite write_all_open by done. unfold CloseWriter. cbn [w_closed w_path w_buffer w_contentType].
  rewrite (proj1 Hopen). set (o := mkObject _ _ _ _).
  destruct (assign_open (normalizePath p) o s Hopen) as (s' & -> & Hopen' & Ho).
  exists s'. eexists. split; [done|]. split_and!; [by rewrite (contents_assign _ _ _ _ Ho)| | |done|done].
  - unfold Stat. rewrite checks_one, Hv by apply Hopen'. by rewrite Ho, lookup_insert_eq.
  - unfold NewReader. rewrite checks_one, Hv by apply Hopen'. rewrite Ho, lookup_insert_eq. by eexists.
Qed.

(** Mkdir makes the directory and all its ancestors, as directories, and nothing else:
    what was there stays (so a file in the way of the path stays a file, and Mkdir still
    succeeds), no content changes, and a second Mkdir changes nothing. *)
Theorem Mkdir_exact now s p :
  well_open s -> validatePath p = None ->
  exists s', Mkdir None now s p = Some (s', None) /\ well_open s' /\ contents s' = contents s /\
    (forall q, objs s' !! q =
      match objs s !! q with
      | Some o => Some o
      | None => if decide (q ∈ ancestors (normalizePath p)) then Some (mkObject [] "" now true) else None
      end) /\
    forall later s'', Mkdir None later s' p = Some (s'', None) -> objs s'' = objs s'.
Proof.
  intros Hopen Hv. unfold Mkdir. rewrite checks_one, Hv by apply Hopen. rewrite Mkdir_locked_dirs.
  destruct (make_dirs_open now (ancestors (normalizePath p)) s Hopen) as (s' & -> & Hopen' & Hl).
  exists s'. split_and!; [done..| |done|].
  - apply map_eq. intros q. rewrite !lookup_contents, Hl. destruct (objs s !! q); [done|]. by case_decide.
  - intros later s''. rewrite checks_one, Hv by apply Hopen'. rewrite Mkdir_locked_dirs.
    destruct (make_dirs_open later (ancestors (normalizePath p)) s' Hopen') as (s2 & -> & _ & Hl2). intros [= <-].
    apply map_eq. intros q. rewrite Hl2, Hl. destruct (objs s !! q); [done|]. by case_decide.
Qed.

(** Mkdir and Close race: a Mkdir that has passed its checks panics, assigning to a nil
    map, when the backend is closed before it takes the lock again. *)
Theorem Mkdir_Close_panics now s p :
  checks None s [p] = None ->
  Mkdir_locked now p (Close s).1 = None /\ (well_open s -> is_Some (Mkdir None now s p)).
Proof.
  intros Hck. split.
  - unfold Mkdir_locked. pose proof (split_slash_nonempty (normalizePath p)).
    destruct (split_slash (normalizePath p)) as [|x xs]; [done|]. cbn [length seq fold_left mbind option_bind].
    unfold Close, objs, assign. cbn [fst objects default]. rewrite lookup_empty.
    generalize (seq 1 (length xs)). intros l. induction l; done.
  - intros Hopen. unfold Mkdir. rewrite Hck, Mkdir_locked_dirs.
    destruct (make_dirs_open now (ancestors (normalizePath p)) s Hopen) as (s' & -> & _). by eexists.
Qed.

(** List is exact as its code is, by bytes and not by path elements: it names, in
    ascending order and once each, the objects (not the directories) whose path starts with the
    normalized prefix, so that listing ["a"] also names ["ab/c"]. *)
Theorem List_exact s prefix :
  s.(closed) = false ->
  exists l, List None s prefix = Ok l /\ NoDup l /\ StronglySorted String.le l /\
    forall q, q ∈ l <-> HasPrefix q (normalizePath prefix) = true /\ is_Some (contents s !! q).
Proof.
  intros Hc. destruct (List_open s prefix Hc) as (l & Hl & Hnd & Hs). exists l. split_and!; [done..|].
  intros q. by apply elem_of_List.
Qed.

(** Rmdir removes a directory only when nothing is stored below it, and no operation of
    it touches an object's content. *)
Theorem Rmdir_safe s p s' e :
  well_open s -> Rmdir None s p = (s', e) ->
  contents s' = contents s /\
  (e = None <->
    validatePath p = None /\ (exists o, objs s !! normalizePath p = Some o /\ o.(isDir) = true) /\
    forall q, is_Some (objs s !! q) -> HasPrefix q (normalizePath p +:+ "/") = false) /\
  (e = None -> objs s' = delete (normalizePath p) (objs s)) /\ (e <> None -> s' = s).
Proof.
  intros Hopen. unfold Rmdir. rewrite checks_one by apply Hopen.
  destruct (validatePath p) eqn:Hv.
  { intros [= <- <-]. split_and!; [done| |done|done]. split; [done|]. by intros [? _]. }
  destruct (objs s !! normalizePath p) as [o|] eqn:Ho.
  2: { intros [= <- <-]. split_and!; [done| |done|done]. split; [done|]. by intros (_ & (o & ? & _) & _). }
  destruct o.(isDir) eqn:Hd; cbn [negb].
  2: { intros [= <- <-]. split_and!; [done| |done|done]. split; [done|]. intros (_ & (o' & [= <-] & ?) & _). congruence. }
  destruct (existsb _ _) eqn:Hex.
  - intros [= <- <-]. split_and!; [done| |done|done]. split; [done|]. intros (_ & _ & Hall).
    apply existsb_exists in Hex as (q & Hq & Hp). apply list_elem_of_In, elem_of_range_keys in Hq.
    rewrite (Hall q Hq) in Hp. done.
  - intros [= <- <-]. split; [|split; [split; [intros _|done]|split; [intros _; apply objs_remove|done]]].
    + rewrite contents_remove. apply delete_id. by rewrite lookup_contents, Ho, Hd.
    + split; [done|]. split; [by exists o|]. intros q Hq. destruct (HasPrefix q _) eqn:Hp; [|done].
      rewrite <- Hex. symmetry. apply existsb_exists. exists q. split; [|done].
      apply list_elem_of_In, elem_of_range_keys. done.
Qed.

End properties.

(** ** Witnesses *)

#[local] Existing Instance tree_order.

(** Digests to run the definitions with: the data itself. *)
#[local] Instance demo_digests : Digests :=
  {| md5_sum b := b; sha1_sum b := b; sha256_sum b := b; crc32c_sum b := b |}.

(** Backend 0 holds "a/b"; the others are empty. *)
Definition demo_store : Store := (CloseWriter 5 New (mkWriter "a/b" [x68; x69] "text/plain" false)).1.1.
Definition demo_world : world := set_backend 0 demo_store (fun _ => New).

Lemma demo_open : well_open demo_store.
Proof. split; [done|by eexists]. Qed.

Lemma demo_world_open b : is_open demo_world b.
Proof. destruct b; (split; [done|by eexists]). Qed.

Lemma CopyPath_correct_witness :
  exists w', CopyPath 3 None 9 demo_world 0 "a/b" 1 "/c/../d" [] = Some (w', None) /\
    files w' 1 !! "d" = Some [x68; x69] /\ files w' 0 !! "a/b" = Some [x68; x69].
Proof.
  destruct (CopyPath_correct 3 9 demo_world 0 "a/b" 1 "/c/../d" [] "a/b" "d"
    (demo_world_open 0) (demo_world_open 1) eq_refl eq_refl) as (w' & Hc & _ & Hf); [cbn; lia|].
  exists w'. split; [done|]. rewrite !Hf. split; vm_compute; reflexivity.
Defined.

Lemma CopyPathWithHash_correct_witness :
  exists w1 w2,
    CopyPathWithHash 3 None 9 demo_world 0 "a/b" 1 "d" HashMD5 [] = Some (w1, Ok "6869") /\
    CopyPathWithHash 3 None 9 demo_world 0 "a/b" 0 "a/b" "blake3" [] = Some (w2, Err (err_object ObjErrNotSupported)) /\
    files w2 0 !! "a/b" = Some [].
Proof.
  destruct (CopyPathWithHash_correct 3 9 demo_world 0 "a/b" 1 "d" HashMD5 [] "a/b" "d" [x68; x69]
    (demo_world_open 0) (demo_world_open 1) eq_refl eq_refl eq_refl ltac:(cbn; lia)) as (w1 & _ & H1).
  destruct (CopyPathWithHash_correct 3 9 demo_world 0 "a/b" 0 "a/b" "blake3" [] "a/b" "a/b" [x68; x69]
    (demo_world_open 0) (demo_world_open 0) eq_refl eq_refl eq_refl ltac:(cbn; lia)) as (w2 & [_ Hf] & H2).
  exists w1, w2. split_and!; [exact H1|exact H2|]. rewrite Hf. vm_compute. reflexivity.
Defined.

Lemma SmartCopy_correct_witness :
  exists w', SmartCopy 3 None 9 demo_world 0 "a/b" 0 "d" [] = Some (w', None) /\
    files w' 0 !! "d" = Some [x68; x69].
Proof.
  destruct (SmartCopy_correct 3 9 demo_world 0 "a/b" 0 "d" [] "a/b" "d" [x68; x69]
    (demo_world_open 0) (demo_world_open 0) eq_refl eq_refl eq_refl ltac:(cbn; lia)) as (w' & Hc & _ & Hf).
  exists w'. split; [done|]. rewrite Hf. vm_compute. reflexivity.
Defined.

Lemma move_correct_witness :
  exists w1 w2,
    SmartMove 3 None 9 demo_world 0 "a/b" 1 "d" [] = Some (w1, None) /\ files w1 1 !! "d" = Some [x68; x69] /\
    SmartMove 3 None 9 demo_world 0 "a/b" 0 "a//b" [] = Some (w2, None) /\ files w2 0 !! "a/b" = None.
Proof.
  destruct (move_correct 3 9 demo_world 0 "a/b" 1 "d" [] "a/b" "d" [x68; x69]
    (demo_world_open 0) (demo_world_open 1) eq_refl eq_refl eq_refl ltac:(cbn; lia)) as [(w1 & H1 & _ & Hq & _) _].
  destruct (move_correct 3 9 demo_world 0 "a/b" 0 "a//b" [] "a/b" "a/b" [x68; x69]
    (demo_world_open 0) (demo_world_open 0) eq_refl eq_refl eq_refl ltac:(cbn; lia)) as [(w2 & H2 & Hp & _) _].
  exists w1, w2. split_and!; [exact H1|by apply Hq|exact H2|exact Hp].
Defined.

Lemma stored_paths_canonical_witness :
  rtc mem_step New demo_store /\ canonical "a/b".
Proof.
  assert (rtc mem_step New demo_store) as Hr.
  { apply rtc_once. apply (step_close_writer None 5 New New "/x/../a/b" [WithContentType "text/plain"]
      (mkWriter "a/b" [] "text/plain" false) [x68; x69]). reflexivity. }
  split; [exact Hr|].
  apply (stored_paths_canonical demo_store "a/b" (mkObject [x68; x69] "text/plain" 5 false) Hr). reflexivity.
Defined.

Lemma ranged_read_witness :
  exists r, NewReader None demo_store "a/b" [WithOffset 1; WithLimit 5] = Ok r /\ r.(r_rest) = [x69].
Proof.
  apply (ranged_read demo_store "a/b" "a/b" [x68; x69] 1 5 demo_open); [reflexivity|reflexivity|lia|lia].
Defined.

Lemma write_then_read_witness :
  exists w, NewWriter None New "x" [WithContentType "t"] = Ok w /\
    exists s' w'', CloseWriter 7 New (write_all w [[x01]; []; [x02; x03]]) = (s', w'', None) /\
      contents s' = <[ "x" := [x01; x02; x03] ]> ∅.
Proof.
  destruct (write_then_read 7 New "x" "x" "t" [[x01]; []; [x02; x03]]) as (w & Hw & s' & w'' & Hc & Hcon & _);
    [split; [done|by eexists]|reflexivity|].
  exists w. split; [exact Hw|]. exists s', w''. split; [exact Hc|exact Hcon].
Defined.

Lemma Mkdir_exact_witness :
  exists s', Mkdir None 7 demo_store "a/c" = Some (s', None) /\
    objs s' !! "a" = Some (mkObject [] "" 7 true) /\ contents s' !! "a/b" = Some [x68; x69].
Proof.
  destruct (Mkdir_exact 7 demo_store "a/c" demo_open eq_refl) as (s' & Hs & _ & Hc & Hq & _).
  exists s'. split; [exact Hs|]. rewrite Hq, Hc. split; vm_compute; reflexivity.
Defined.

Lemma Mkdir_Close_panics_witness : Mkdir_locked 7 "a/c" (Close demo_store).1 = None.
Proof. exact (proj1 (Mkdir_Close_panics 7 demo_store "a/c" eq_refl)). Defined.

Lemma List_exact_witness :
  exists l, List None (CloseWriter 6 demo_store (mkWriter "ab/c" [] "" false)).1.1 "a" = Ok l /\
    "a/b" ∈ l /\ "ab/c" ∈ l.
Proof.
  destruct (List_exact (CloseWriter 6 demo_store (mkWriter "ab/c" [] "" false)).1.1 "a" eq_refl)
    as (l & Hl & _ & _ & Hq).
  exists l. split; [exact Hl|]. rewrite !Hq. split; (split; [reflexivity|vm_compute; by eexists]).
Defined.

Lemma Rmdir_safe_witness :
  exists s1 s2 e, Mkdir None 7 demo_store "a" = Some (s1, None) /\ Rmdir None s1 "a" = (s2, e) /\ e <> None /\ s2 = s1.
Proof.
  destruct (Mkdir None 7 demo_store "a") as [[s1 e1]|] eqn:Hm; [|discriminate].
  destruct (Rmdir None s1 "a") as [s2 e2] eqn:Hr.
  assert (e1 = None /\ e2 = Some (Errorf "directory not empty: a") /\ well_open s1) as (-> & He & Ho).
  { vm_compute in Hm. injection Hm as <- <-. vm_compute in Hr. injection Hr as _ <-.
    split_and!; [done|done|split; [done|by eexists]]. }
  exists s1, s2, e2. split_and!; [done|done|by rewrite He|].
  apply (Rmdir_safe s1 "a" s2 e2 Ho Hr). by rewrite He.
Defined.

(** A name that cleans to "..foo" is accepted with a leading slash, stored and listed without it,
    and refused when it is read back as listed. *)
Lemma listed_name_unreadable :
  exists w s', NewWriter None New "/..foo" [] = Ok w /\ CloseWriter 1 New w = (s', mkWriter "..foo" [] "" true, None) /\
    List None s' "" = Ok ["..foo"] /\ NewReader None s' "..foo" [] = Err (err_object ObjErrInvalidPath).
Proof. eexists _, _. split_and!; vm_compute; reflexivity. Qed.
