(* ===== verification/MultiWriter.v ===== *)
(** * object/multi/writer.go: fan-out writing to several backends

    A [Writer] over the backends of a world opens a writer on each of them and writes every
    chunk to all.  Both mutexes make each method one step.  [multi.MultiError] is
    [Errors.MultiError]. *)

From S2P Require Import Prelude GoLib Errors ObjectTypes ObjectBackend.

(** An int; the constants name the modes, and any other value acts as the best effort. *)
Inductive WriteMode := WriteAll | WriteBestEffort | WriteQuorum | WriteModeUnknown (n : Z).

#[export] Instance WriteMode_eq_dec : EqDecision WriteMode.
Proof. solve_decision. Defined.

Section multi.
Context `{OB : ObjectBackend W B}.

Record Writer := mkMulti { backends : list B; mode : WriteMode }.

(** [WithMode] *)
Definition WithMode (m : WriteMode) (w : Writer) : Writer := mkMulti w.(backends) m.

(** The constructors; a nil backend is [None]. *)
Definition multi_NewWriter (bs : list (option B)) : result error Writer :=
  if decide (length bs = 0) then Err (Errorf "at least one backend is required")
  else
    let validBackends := omap id bs in
    if decide (length validBackends = 0) then Err (Errorf "no valid backends provided")
    else Ok (mkMulti validBackends WriteAll).

Definition NewWriterWithOptions (bs : list (option B)) (opts : list (Writer -> Writer)) : result error Writer :=
  match multi_NewWriter bs with
  | Err err => Err err
  | Ok w => Ok (fold_left (fun w opt => opt w) opts w)
  end.

Definition Backends (w : Writer) : nat := length w.(backends).

Record multiWriteCloser := mkMultiWriteCloser {
  writers : list Wr;
  m_mode : WriteMode;
  errs : list error;
  m_closed : bool
}.

(** The loop over the backends; the flag is the early end of [WriteAll]. *)
Fixpoint open_loop (mode : WriteMode) (ctx : context) (w : W) (path : string) (opts : list WriterOption) (bs : list B)
    (writers : list Wr) (errs : list error) : W * list Wr * list error * bool :=
  match bs with
  | [] => (w, writers, errs, false)
  | b :: bs =>
      match NewWriter ctx w b path opts with
      | (w, Err err) =>
          if decide (mode = WriteAll) then (w, writers, errs ++ [err], true)
          else open_loop mode ctx w path opts bs writers (errs ++ [err])
      | (w, Ok writer) => open_loop mode ctx w path opts bs (writers ++ [writer]) errs
      end
  end.

Definition close_ignoring (now : time) (w : W) (writers : list Wr) : W :=
  fold_left (fun w wr => (CloseWriter now w wr).1) writers w.

(** [Writer.NewWriter] *)
Definition Writer_NewWriter (ctx : context) (now : time) (w : W) (mw : Writer) (path : string) (opts : list WriterOption)
    : W * result error multiWriteCloser :=
  let '(w, writers, errs, failed) := open_loop mw.(mode) ctx w path opts mw.(backends) [] [] in
  if failed : bool then (close_ignoring now w writers, Err (MultiError errs))
  else if bool_decide (mw.(mode) = WriteQuorum) && (length writers <=? length mw.(backends) / 2) then
    (close_ignoring now w writers, Err (MultiError (errs ++ [Errorf "failed to achieve write quorum"])))
  else if decide (length writers = 0) then (w, Err (MultiError errs))
  else (w, Ok (mkMultiWriteCloser writers mw.(mode) errs false)).

(** The loop over the writers, those before them already [written]. *)
Fixpoint write_loop (mode : WriteMode) (w : W) (p : bytes) (todo written : list Wr) (writeErrs : list error)
    (successCount maxN : nat) : W * list Wr * list error * nat * nat * bool :=
  match todo with
  | [] => (w, written, writeErrs, successCount, maxN, false)
  | wr :: todo =>
      match Write w wr p with
      | (w, wr, _, Some werr) =>
          if decide (mode = WriteAll) then (w, written ++ wr :: todo, writeErrs ++ [werr], successCount, maxN, true)
          else write_loop mode w p todo (written ++ [wr]) (writeErrs ++ [werr]) successCount maxN
      | (w, wr, n, None) =>
          write_loop mode w p todo (written ++ [wr]) writeErrs (S successCount) (if maxN <? n then n else maxN)
      end
  end.

Definition set_writers (l : list Wr) (m : multiWriteCloser) : multiWriteCloser :=
  mkMultiWriteCloser l m.(m_mode) m.(errs) m.(m_closed).

(** [multiWriteCloser.Write] *)
Definition multi_Write (w : W) (m : multiWriteCloser) (p : bytes) : W * multiWriteCloser * nat * option error :=
  if m.(m_closed) then (w, m, 0, Some (err_object ObjErrWriterClosed))
  else
    let '(w, writers, writeErrs, successCount, maxN, failed) := write_loop m.(m_mode) w p m.(writers) [] [] 0 0 in
    let m' := set_writers writers m in
    if failed : bool then (w, m', 0, Some (MultiError writeErrs))
    else if bool_decide (m.(m_mode) = WriteQuorum) && (successCount <=? length writers / 2) then
      (w, m', 0, Some (MultiError (writeErrs ++ [Errorf "write quorum not achieved"])))
    else if decide (successCount = 0) then (w, m', 0, Some (MultiError writeErrs))
    else (w, m', maxN, None).

Fixpoint close_loop (now : time) (w : W) (writers : list Wr) (closeErrs : list error) : W * list error :=
  match writers with
  | [] => (w, closeErrs)
  | wr :: writers =>
      let '(w, err) := CloseWriter now w wr in
      close_loop now w writers (match err with Some err => closeErrs ++ [err] | None => closeErrs end)
  end.

(** [multiWriteCloser.Close] *)
Definition multi_Close (now : time) (w : W) (m : multiWriteCloser) : W * multiWriteCloser * option error :=
  if m.(m_closed) then (w, m, None)
  else
    let m := mkMultiWriteCloser m.(writers) m.(m_mode) m.(errs) true in
    let '(w, closeErrs) := close_loop now w m.(writers) [] in
    (w, m, if decide (0 < length closeErrs) then Some (MultiError closeErrs) else None).

End multi.
Arguments Writer : clear implicits.

(** ** What each mode asks for *)

(** Of [total] writers, [ok] accepted. *)
Definition accepted (mode : WriteMode) (total ok : nat) : bool :=
  match mode with
  | WriteAll => (0 <? total) && (ok =? total)
  | WriteQuorum => (total / 2 <? ok)
  | _ => (0 <? ok)
  end.

Section outcomes.
Context `{OB : ObjectBackend W B}.

(** Every writer is given the chunk, whatever the others answer. *)
Fixpoint write_each (w : W) (p : bytes) (vs : list Wr) : W * list Wr * list (result error nat) :=
  match vs with
  | [] => (w, [], [])
  | v :: vs =>
      let '(w, v, n, e) := Write w v p in
      let '(w, vs, outs) := write_each w p vs in
      (w, v :: vs, (match e with Some err => Err err | None => Ok n end) :: outs)
  end.

Definition oks (outs : list (result error nat)) : list nat :=
  omap (fun o => match o with Ok n => Some n | Err _ => None end) outs.
Definition failures (outs : list (result error nat)) : list error :=
  omap (fun o => match o with Ok _ => None | Err e => Some e end) outs.

Lemma write_each_length w p vs w' vs' outs :
  write_each w p vs = (w', vs', outs) -> length vs' = length vs /\ length outs = length vs.
Proof.
  revert w w' vs' outs. induction vs as [|v vs IH]; intros w w' vs' outs; cbn; [by intros [= <- <- <-]|].
  destruct (Write w v p) as [[[w1 v1] n] e], (write_each w1 p vs) as [[w2 vs2] outs2] eqn:Hw. intros [= <- <- <-].
  destruct (IH _ _ _ _ Hw). cbn. lia.
Qed.

Lemma oks_failures outs : length (oks outs) + length (failures outs) = length outs.
Proof. induction outs as [|[n|e] outs IH]; cbn; [done| |]; unfold oks, failures in *; lia. Qed.

(** Without an early end the loop gives the chunk to each writer. *)
Lemma write_loop_each mode w p vs done_ es k m :
  mode <> WriteAll ->
  write_loop mode w p vs done_ es k m =
    let '(w', vs', outs) := write_each w p vs in
    (w', done_ ++ vs', es ++ failures outs, k + length (oks outs), foldl Nat.max m (oks outs), false).
Proof.
  intros Hmode. revert w done_ es k m. induction vs as [|v vs IH]; intros w dn es k m.
  { cbn. by rewrite !app_nil_r, Nat.add_0_r. }
  cbn [write_loop write_each]. destruct (Write w v p) as [[[w1 v1] n] [e|]].
  - rewrite decide_False by done. rewrite IH. destruct (write_each w1 p vs) as [[w2 vs2] outs2].
    cbn [failures oks omap list_omap]. by rewrite <- !app_assoc.
  - rewrite IH. destruct (write_each w1 p vs) as [[w2 vs2] outs2].
    cbn [failures oks omap list_omap foldl length]. rewrite <- app_assoc.
    assert ((if m <? n then n else m) = m `max` n) as -> by (destruct (Nat.ltb_spec m n); lia).
    by rewrite Nat.add_succ_comm.
Qed.

(** With [WriteAll] the first failure ends the loop. *)
Lemma write_loop_all w p vs done_ es k m :
  let '(w', vs', outs) := write_each w p vs in
  match failures outs with
  | [] => write_loop WriteAll w p vs done_ es k m = (w', done_ ++ vs', es, k + length vs, foldl Nat.max m (oks outs), false)
  | e :: _ => exists w2 vs2 k2 m2, write_loop WriteAll w p vs done_ es k m = (w2, vs2, es ++ [e], k2, m2, true)
  end.
Proof.
  revert w done_ es k m. induction vs as [|v vs IH]; intros w dn es k m.
  { cbn. by rewrite app_nil_r, Nat.add_0_r. }
  cbn [write_loop write_each]. destruct (Write w v p) as [[[w1 v1] n] [e|]].
  - destruct (write_each w1 p vs) as [[w2 vs2] outs2]. cbn. by repeat eexists.
  - specialize (IH w1 (dn ++ [v1]) es (S k) (if m <? n then n else m)).
    destruct (write_each w1 p vs) as [[w2 vs2] outs2]. cbn [failures oks omap list_omap]. fold (failures outs2) (oks outs2).
    destruct (failures outs2) as [|e es2]; [|done]. rewrite IH, <- app_assoc. cbn [foldl length].
    assert ((if m <? n then n else m) = m `max` n) as -> by (destruct (Nat.ltb_spec m n); lia).
    by rewrite Nat.add_succ_comm.
Qed.

Lemma multi_Write_outcomes w (m : multiWriteCloser) p :
  m.(m_closed) = false ->
  let '(w', vs, outs) := write_each w p m.(writers) in
  if accepted m.(m_mode) (length m.(writers)) (length (oks outs))
  then multi_Write w m p = (w', set_writers vs m, foldl Nat.max 0 (oks outs), None)
  else exists w2 m2 es, multi_Write w m p = (w2, m2, 0, Some (MultiError es)) /\
    (m.(m_mode) <> WriteAll -> w2 = w' /\ m2 = set_writers vs m /\ failures outs `prefix_of` es).
Proof.
  unfold multi_Write. intros ->. destruct (write_each w p m.(writers)) as [[w' vs] outs] eqn:Hw.
  destruct (write_each_length _ _ _ _ _ _ Hw) as [Hl1 Hl2]. pose proof (oks_failures outs) as Hof.
  destruct (decide (m.(m_mode) = WriteAll)) as [Hall|Hall].
  - rewrite Hall. pose proof (write_loop_all w p m.(writers) [] [] 0 0) as Hloop. rewrite Hw in Hloop. cbn [accepted].
    destruct (failures outs) as [|e es] eqn:Hf; cbn in Hof.
    + rewrite Hloop. cbn [app]. rewrite bool_decide_eq_false_2, andb_false_l by done. rewrite (proj2 (Nat.eqb_eq _ _)) by lia.
      rewrite andb_true_r. destruct (Nat.ltb_spec 0 (length m.(writers))); case_decide; try lia; [done|].
      by eexists _, _, _.
    + destruct Hloop as (w2 & vs2 & k2 & m2 & ->). rewrite (proj2 (Nat.eqb_neq _ _)) by lia. rewrite andb_false_r.
      by eexists _, _, _.
  - rewrite write_loop_each, Hw by done. cbn [app Nat.add]. rewrite Hl1.
    destruct m.(m_mode) eqn:Hm; cbn [accepted]; [done| | |].
    2: { rewrite bool_decide_eq_true_2, andb_true_l by done.
      destruct (Nat.leb_spec (length (oks outs)) (length m.(writers) / 2)), (Nat.ltb_spec (length m.(writers) / 2) (length (oks outs)));
        try lia; [|case_decide; [lia|done]].
      eexists _, _, _. split; [done|]. intros _. split_and!; [done..|by eexists]. }
    all: rewrite bool_decide_eq_false_2, andb_false_l by done; destruct (Nat.ltb_spec 0 (length (oks outs))); case_decide; try lia; [done|].
    all: eexists _, _, _; split; [done|]; intros _; by split_and!.
Qed.

(** A write to several backends succeeds exactly when its mode is satisfied with the
    writers that accept the chunk: all of them, at least one, or more than half of the writers
    that are still there.  It then returns the largest count and every writer has been given
    the chunk; else it returns no bytes and, unless the first failure ends the call, the
    errors of the writers that refused it.  A closed writer refuses every write. *)
Theorem multi_Write_modes w (m : multiWriteCloser) p :
  (m.(m_closed) = true -> multi_Write w m p = (w, m, 0, Some (err_object ObjErrWriterClosed))) /\
  (m.(m_closed) = false ->
   let '(w', vs, outs) := write_each w p m.(writers) in
   if accepted m.(m_mode) (length m.(writers)) (length (oks outs))
   then multi_Write w m p = (w', set_writers vs m, foldl Nat.max 0 (oks outs), None)
   else exists w2 m2 es, multi_Write w m p = (w2, m2, 0, Some (MultiError es)) /\
     (m.(m_mode) <> WriteAll -> w2 = w' /\ m2 = set_writers vs m /\ failures outs `prefix_of` es)).
Proof. split; [unfold multi_Write; by intros ->|apply multi_Write_outcomes]. Qed.
End outcomes.

(** ** Replication *)

Section replication.
Context `{BS : BackendSpec W B}.
Context (path : string).

(** The backends on which a writer is opened: those that accept the path, up to the first
    refusal when all have to. *)
Fixpoint reached (mode : WriteMode) (bs : list B) : list B :=
  match bs with
  | [] => []
  | b :: bs =>
      match path_of b path with
      | Some _ => b :: reached mode bs
      | None => if decide (mode = WriteAll) then [] else reached mode bs
      end
  end.

(** Each of the backends holds [d] at its path; nothing else changed. *)
Definition published (bs : list B) (d : bytes) (w w' : W) : Prop :=
  (forall c, is_open w c -> is_open w' c) /\
  forall c, files w' c =
    if decide (c ∈ bs) then match path_of c path with Some q => <[q := d]> (files w c) | None => files w c end
    else files w c.

(** A writer of [b] with the content [d] so far. *)
Definition holds (d : bytes) (b : B) (v : Wr) : Prop :=
  exists q, path_of b path = Some q /\ writes_to b q v /\ pending v = d.

Lemma open_loop_ok mode w opts bs vs0 es0 :
  Forall (is_open w) bs ->
  exists vs es, open_loop mode None w path opts bs vs0 es0 =
      (w, vs0 ++ vs, es0 ++ es, bool_decide (mode = WriteAll) && negb (length (reached mode bs) =? length bs)) /\
    Forall2 (holds []) (reached mode bs) vs.
Proof.
  intros Ho. revert vs0 es0. induction bs as [|b bs IH]; intros vs0 es0.
  { exists [], []. cbn. rewrite !app_nil_r, andb_false_r. split; [done|constructor]. }
  apply Forall_cons in Ho as [Hb Ho]. cbn [open_loop reached]. pose proof (NewWriter_spec w b path opts Hb) as Hw.
  destruct (path_of b path) as [q|] eqn:Hq.
  - destruct Hw as (v & -> & Hwo & Ht & Hp). destruct (IH Ho (vs0 ++ [v]) es0) as (vs & es & -> & Hall).
    exists (v :: vs), es. rewrite <- app_assoc. split; [done|]. constructor; [|done]. exists q. split_and!; [done|by split|done].
  - destruct Hw as (e & ->). case_decide as Hm.
    + exists [], [e]. rewrite app_nil_r, bool_decide_eq_true_2 by done. split; [done|constructor].
    + destruct (IH Ho vs0 (es0 ++ [e])) as (vs & es & -> & Hall). exists vs, (e :: es).
      rewrite <- app_assoc, bool_decide_eq_false_2 by done. done.
Qed.

Lemma published_nil d w : published [] d w w.
Proof. split; [done|]. intros c. by rewrite decide_False by apply not_elem_of_nil. Qed.

Lemma close_loop_ok now d bs vs w es :
  Forall (is_open w) bs -> Forall2 (holds d) bs vs ->
  exists w', close_loop now w vs es = (w', es) /\ close_ignoring now w vs = w' /\ published bs d w w'.
Proof.
  intros Ho Hall. revert w Ho. induction Hall as [|b v bs vs (q & Hq & Hv & Hd) Hall IH]; intros w Ho.
  { exists w. split_and!; [done..|apply published_nil]. }
  apply Forall_cons in Ho as [Hb Ho]. destruct (publish now w v b q d Hb Hv Hd) as (w1 & Hc & Ho1 & Hf1).
  destruct (IH w1) as (w' & Hcl & Hig & Ho' & Hf'); [by eapply Forall_impl|].
  exists w'. cbn [close_loop close_ignoring fold_left]. rewrite Hc. split_and!; [done..|]. split; [auto|].
  intros c. rewrite Hf', Hf1. destruct (decide (c = b)) as [->|Hne].
  - rewrite Hq, (decide_True (P := b ∈ b :: bs)) by left. case_decide; [by rewrite insert_insert_eq|done].
  - destruct (decide (c ∈ bs)); [rewrite decide_True by by right|rewrite decide_False by (rewrite not_elem_of_cons; done)]; done.
Qed.

Lemma write_each_ok w p d bs vs :
  Forall2 (holds d) bs vs ->
  exists vs', write_each w p vs = (w, vs', replicate (length bs) (Ok (length p))) /\ Forall2 (holds (d ++ p)) bs vs'.
Proof.
  induction 1 as [|b v bs vs (q & Hq & Hv & Hd) Hall (vs' & IH & Hall')]; [by exists []|]. cbn [write_each length replicate].
  destruct (write_pending w v p b q Hv) as (v' & -> & Hp & Hv'). rewrite IH. exists (v' :: vs'). split; [done|].
  constructor; [|done]. exists q. split_and!; [done..|]. by rewrite Hp, Hd.
Qed.

Lemma oks_replicate n k : oks (replicate k (Ok n)) = replicate k n.
Proof. induction k as [|k IH]; [done|]. cbn. by rewrite <- IH. Qed.

Lemma foldl_max_replicate n k : 0 < k -> foldl Nat.max 0 (replicate k n) = n.
Proof.
  intros Hk. destruct k as [|k]; [lia|]. cbn [replicate foldl]. rewrite Nat.max_0_l. clear Hk.
  induction k as [|k IH]; [done|]. cbn [replicate foldl]. by rewrite Nat.max_id.
Qed.

Lemma accepted_all mode n : 0 < n -> accepted mode n n = true.
Proof.
  intros Hn. assert ((0 <? n) = true) as H0 by by apply Nat.ltb_lt.
  destruct mode; cbn [accepted]; rewrite ?H0, ?Nat.eqb_refl; try done. apply Nat.ltb_lt. apply Nat.div_lt; lia.
Qed.

(** The three ways [NewWriter] gives up with [k] writers for [n] backends. *)
Lemma accepted_open mode n k :
  k <= n ->
  accepted mode n k =
    if bool_decide (mode = WriteAll) && negb (k =? n) then false
    else if bool_decide (mode = WriteQuorum) && (k <=? n / 2) then false
    else if decide (k = 0) then false else true.
Proof.
  intros Hle.
  destruct mode; cbn [accepted]; repeat (rewrite bool_decide_eq_true_2 by done || rewrite bool_decide_eq_false_2 by done); cbn [andb].
  all: repeat match goal with |- context [?a <? ?b] => destruct (Nat.ltb_spec a b) | |- context [?a =? ?b] => destruct (Nat.eqb_spec a b)
    | |- context [?a <=? ?b] => destruct (Nat.leb_spec a b) end; cbn [andb negb]; repeat case_decide; (done || lia).
Qed.

Lemma multi_Write_ok w (m : multiWriteCloser) p d bs :
  m.(m_closed) = false -> 0 < length bs -> Forall2 (holds d) bs m.(writers) ->
  exists vs, multi_Write w m p = (w, set_writers vs m, length p, None) /\ Forall2 (holds (d ++ p)) bs vs.
Proof.
  intros Hc Hn Hall. pose proof (multi_Write_outcomes w m p Hc) as Hout. pose proof (Forall2_length _ _ _ Hall) as Hl.
  destruct (write_each_ok w p d bs m.(writers) Hall) as (vs & Hw & Hall'). rewrite Hw, oks_replicate, length_replicate, <- Hl in Hout.
  rewrite accepted_all, foldl_max_replicate in Hout by done. by exists vs.
Qed.

(** A client's writes, up to the first error. *)
Fixpoint multi_writes (w : W) (m : multiWriteCloser) (chunks : list bytes) : W * multiWriteCloser * option error :=
  match chunks with
  | [] => (w, m, None)
  | p :: chunks =>
      match multi_Write w m p with
      | (w, m, _, Some err) => (w, m, Some err)
      | (w, m, _, None) => multi_writes w m chunks
      end
  end.

Lemma multi_writes_ok w (m : multiWriteCloser) chunks d bs :
  m.(m_closed) = false -> 0 < length bs -> Forall2 (holds d) bs m.(writers) ->
  exists vs, multi_writes w m chunks = (w, set_writers vs m, None) /\ Forall2 (holds (d ++ concat chunks)) bs vs.
Proof.
  intros Hc Hn. revert m d Hc. induction chunks as [|p chunks IH]; intros m d Hc Hall.
  { exists m.(writers). rewrite app_nil_r. by destruct m. }
  cbn [multi_writes concat]. destruct (multi_Write_ok w m p d bs Hc Hn Hall) as (vs & -> & Hall').
  destruct (IH (set_writers vs m) (d ++ p) Hc Hall') as (vs' & -> & Hall2). exists vs'. by rewrite app_assoc.
Qed.

Lemma reached_in mode bs b : b ∈ reached mode bs -> b ∈ bs /\ is_Some (path_of b path).
Proof.
  induction bs as [|c bs IH]; cbn; [by intros []%elem_of_nil|]. destruct (path_of c path) as [q|] eqn:Hq; [|case_decide].
  - intros [->|Hb]%elem_of_cons; [split; [left|by eexists]|]. destruct (IH Hb). split; [by right|done].
  - by intros []%elem_of_nil.
  - intros Hb. destruct (IH Hb). split; [by right|done].
Qed.

Lemma length_reached mode bs : length (reached mode bs) <= length bs.
Proof. induction bs as [|c bs IH]; cbn; [lia|]. destruct (path_of c path); [|case_decide]; cbn; lia. Qed.

(** Claim C20. A fan-out over open backends, some of which refuse the path.  When the mode is
    satisfied by those that accept it, every chunk sequence is written without an error, and
    closing publishes the concatenation on each of them and changes nothing else; that other
    backends missed it is not reported.  When it is not, [NewWriter] fails, and the writers it
    had opened have been closed: an empty object has replaced what was there. *)
Theorem fan_out now w mw opts :
  Forall (is_open w) mw.(backends) ->
  let bs := reached mw.(mode) mw.(backends) in
  if accepted mw.(mode) (length mw.(backends)) (length bs)
  then exists m, Writer_NewWriter None now w mw path opts = (w, Ok m) /\
    forall chunks, exists m' w' m2, multi_writes w m chunks = (w, m', None) /\
      multi_Close now w m' = (w', m2, None) /\ published bs (concat chunks) w w' /\
      multi_Close now w' m2 = (w', m2, None) /\
      (forall p, multi_Write w' m2 p = (w', m2, 0, Some (err_object ObjErrWriterClosed)))
  else exists w' es, Writer_NewWriter None now w mw path opts = (w', Err (MultiError es)) /\ published bs [] w w'.
Proof.
  intros Ho bs. destruct (open_loop_ok mw.(mode) w opts mw.(backends) [] [] Ho) as (vs & es & Hopen & Hall).
  pose proof (Forall2_length _ _ _ Hall) as Hl. fold bs in Hopen, Hall, Hl. cbn [app] in Hopen.
  assert (Forall (is_open w) bs) as Hob.
  { rewrite Forall_forall in Ho |- *. intros b Hb. apply Ho. by apply (reached_in mw.(mode)). }
  destruct (close_loop_ok now [] bs vs w [] Hob Hall) as (w0 & _ & Hig & Hpub).
  pose proof (length_reached mw.(mode) mw.(backends)) as Hle. fold bs in Hle. unfold Writer_NewWriter. rewrite Hopen.
  assert (forall m, m = mkMultiWriteCloser vs mw.(mode) es false -> 0 < length bs -> forall chunks, exists m' w' m2,
    multi_writes w m chunks = (w, m', None) /\ multi_Close now w m' = (w', m2, None) /\ published bs (concat chunks) w w' /\
    multi_Close now w' m2 = (w', m2, None) /\ (forall p, multi_Write w' m2 p = (w', m2, 0, Some (err_object ObjErrWriterClosed))))
    as Hdone.
  { intros m -> Hpos chunks. edestruct (multi_writes_ok w (mkMultiWriteCloser vs mw.(mode) es false) chunks [] bs) as (vs' & Hw & Hall'); [done..|].
    destruct (close_loop_ok now (concat chunks) bs vs' w [] Hob Hall') as (w' & Hcl & _ & Hp).
    eexists _, w', _. split; [exact Hw|]. unfold multi_Close at 1. cbn [m_closed set_writers writers]. rewrite Hcl. by split_and!. }
  rewrite (accepted_open _ _ _ Hle), <- Hl.
  destruct (bool_decide (mw.(mode) = WriteAll) && _); [by exists w0, es; rewrite Hig|].
  destruct (bool_decide (mw.(mode) = WriteQuorum) && _); [by eexists w0, _; rewrite Hig|].
  case_decide as Hb; [|eexists; split; [done|apply Hdone; [done|lia]]].
  exists w, es. split; [done|]. apply nil_length_inv in Hb as ->. apply published_nil.
Qed.
End replication.

(** ** Runs

    Four plain stores: 2 refuses every name, and the writers of 3 fail. *)

Module Demo.
Definition stores := nat -> gmap string bytes.

Definition set_store (b : nat) (m : gmap string bytes) (w : stores) : stores := fun c => if decide (c = b) then m else w c.

#[export] Instance stores_streams : Streams stores nat | 5 := {|
  Rd := bytes; Wr := nat * string * bytes;
  NewWriter _ w b p _ := (w, if decide (b = 2) then Err (Opaque "read-only") else Ok (b, p, []));
  NewReader _ w b p _ :=
    (w, match w b !! p with Some d => if decide (b = 2) then Err (Opaque "read-only") else Ok d
        | None => Err (err_object ObjErrNotFound) end);
  Exists _ w b p := (w, Ok (bool_decide (is_Some (w b !! p))));
  Delete _ w b p := if decide (b = 2) then (w, Some (Opaque "read-only")) else (set_store b (delete p (w b)) w, None);
  Read w r n := match r with [] => (w, r, [], Some (err_io EOF)) | _ => (w, drop n r, take n r, None) end;
  CloseReader w r := (w, None);
  Write w v p := let '(b, q, d) := v in
    if decide (b = 3) then (w, v, 0, Some (Opaque "disk full")) else (w, (b, q, d ++ p), length p, None);
  CloseWriter _ w v := let '(b, q, d) := v in (set_store b (<[q := d]> (w b)) w, None)
|}.

#[export] Instance stores_backend : ObjectBackend stores nat := {|
  ob_streams := stores_streams;
  List _ w b p := (w, Ok (map_to_list (w b)).*1);
  AsExtended _ := false;
  Features_of _ _ := mkFeatures false false false false false [] false false false false false false false;
  Stat _ w _ _ := (w, Err (err_object ObjErrNotSupported));
  Mkdir _ _ w _ _ := (w, Some (err_object ObjErrNotSupported));
  Rmdir _ w _ _ := (w, Some (err_object ObjErrNotSupported));
  Copy _ _ w _ _ _ := (w, Some (err_object ObjErrNotSupported));
  Move _ _ w _ _ _ := (w, Some (err_object ObjErrNotSupported))
|}.

#[export] Instance stores_spec : BackendSpec stores nat.
Proof.
  refine {| is_open _ b := b <= 2; files w b := if decide (b = 2) then ∅ else w b;
    path_of b p := if decide (b = 2) then None else Some p; rd_open _ := True;
    unread := id : @Rd stores nat stores_streams -> bytes;
    wr_open := (fun v : nat * string * bytes => v.1.1 < 2) : @Wr stores nat stores_streams -> Prop;
    target := fst : @Wr stores nat stores_streams -> nat * string;
    pending := snd : @Wr stores nat stores_streams -> bytes |}.
  - intros w b p Hb. cbn. case_decide; cbn; [by destruct (w b !! p); eexists|]. destruct (w b !! p); by eexists.
  - intros w b p opts Hb. cbn. case_decide; [by eexists|]. eexists. split; [done|]. cbn. split_and!; (done || lia).
  - intros w r n Hn _. cbn. destruct r as [|c r]; [by eexists|]. exists (drop n (c :: r)), (take n (c :: r)).
    split_and!; [done..| | |by rewrite take_drop]; [by destruct n; [lia|]|]. rewrite length_take. lia.
  - done.
  - intros w [[b q] d] p Hv. cbn in *. rewrite decide_False by lia. by eexists.
  - intros now w [[b q] d] Ho Hv. cbn in *. eexists. split_and!; [done..|]. intros c. unfold set_store.
    rewrite (decide_False (P := b = 2)) by lia. repeat case_decide; subst; (done || lia).
  - intros w b p Hb. cbn. case_decide; cbn.
    + eexists _, _. by split_and!.
    + eexists. split_and!; [done..|]. intros c. unfold set_store. repeat case_decide; subst; (done || lia).
  - done.
  - done.
Defined.

Definition old_stores : stores := fun _ => {["x" := [x6f; x6c; x64]]}.

(** Two of five backends accept the chunk, and the write is a success. *)
Lemma multi_Write_modes_witness :
  exists m m' : multiWriteCloser,
    Writer_NewWriter None 0 old_stores (mkMulti [0; 1; 2; 2; 3] WriteQuorum) "x" [] = (old_stores, Ok m) /\
    multi_Write old_stores m [x61] = (old_stores, m', 1, None).
Proof.
  eexists _, _. split; [reflexivity|].
  exact (proj2 (multi_Write_modes old_stores (mkMultiWriteCloser [(0, "x", []); (1, "x", []); (3, "x", [])] WriteQuorum
    [Opaque "read-only"; Opaque "read-only"] false) [x61]) eq_refl).
Defined.

(** The first backend accepts the name and the second does not: its old content is lost.  With
    the best effort the second failure is not reported. *)
Lemma fan_out_witness :
  (exists w' es, Writer_NewWriter None 0 old_stores (mkMulti [0; 2] WriteAll) "x" [] = (w', Err (MultiError es)) /\
    files w' 0 !! "x" = Some []) /\
  exists m, Writer_NewWriter None 0 old_stores (mkMulti [0; 2] WriteBestEffort) "x" [] = (old_stores, Ok m).
Proof.
  split.
  - destruct (fan_out "x" 0 old_stores (mkMulti [0; 2] WriteAll) []) as (w' & es & Hw & _ & Hf); [repeat constructor; cbn; lia|].
    exists w', es. split; [exact Hw|]. by rewrite Hf.
  - destruct (fan_out "x" 0 old_stores (mkMulti [0; 2] WriteBestEffort) []) as (m & Hm & _); [repeat constructor; cbn; lia|].
    by exists m.
Defined.

End Demo.
