(* ===== verification/Bufio.v ===== *)
(** * What the program uses of bufio and of bytes

    [bufio.Writer], [bufio.Scanner] with [ScanLines], and the trimming functions of [bytes],
    over any underlying reader or writer given by its [Read] or [Write], as in [io_Copy]. *)

From S2P Require Import Prelude GoLib Errors.

#[export] Instance byte_eq_dec : EqDecision byte := Byte.byte_eq_dec.

(** ** bufio.Writer *)

Section writer.
Context {W V : Type}.
Context (write : W -> V -> bytes -> W * V * nat * option error).

Record bufioWriter := mkBufioWriter { bw_wr : V; bw_buf : bytes; bw_size : nat; bw_err : option error }.

(** [bufio.NewWriterSize]: a size that is not positive stands for 4096. *)
Definition NewWriterSize (v : V) (size : Z) : bufioWriter :=
  mkBufioWriter v [] (if (size <=? 0)%Z then 4096 else Z.to_nat size) None.

Definition bw_Flush (w : W) (b : bufioWriter) : W * bufioWriter * option error :=
  match b.(bw_err) with
  | Some e => (w, b, Some e)
  | None =>
      match b.(bw_buf) with
      | [] => (w, b, None)
      | _ =>
          let '(w, v, n, err) := write w b.(bw_wr) b.(bw_buf) in
          let err := match err with
                     | Some e => Some e
                     | None => if n <? length b.(bw_buf) then Some (err_io ErrShortWrite) else None
                     end in
          match err with
          | Some e => (w, mkBufioWriter v (drop n b.(bw_buf)) b.(bw_size) (Some e), Some e)
          | None => (w, mkBufioWriter v [] b.(bw_size) None, None)
          end
      end
  end.

Definition bw_available (b : bufioWriter) : nat := b.(bw_size) - length b.(bw_buf).

(** [Write]; one unit of fuel for each round of its loop. *)
Fixpoint bw_Write (fuel : nat) (w : W) (b : bufioWriter) (p : bytes) : option (W * bufioWriter * option error) :=
  match b.(bw_err) with
  | Some e => Some (w, b, Some e)
  | None =>
      if bw_available b <? length p then
        match fuel with
        | 0 => None
        | S fuel =>
            match b.(bw_buf) with
            | [] =>
                let '(w, v, n, err) := write w b.(bw_wr) p in
                bw_Write fuel w (mkBufioWriter v [] b.(bw_size) err) (drop n p)
            | _ =>
                let n := bw_available b in
                let '(w, b, _) := bw_Flush w (mkBufioWriter b.(bw_wr) (b.(bw_buf) ++ take n p) b.(bw_size) None) in
                bw_Write fuel w b (drop n p)
            end
        end
      else Some (w, mkBufioWriter b.(bw_wr) (b.(bw_buf) ++ p) b.(bw_size) None, None)
  end.

(** Over a writer that accepts everything, what the underlying writer has got and what is
    buffered is what was written, and two rounds are enough. *)
Section spec.
Context (got : V -> bytes) (ok : V -> Prop).
Hypothesis Hwrite : forall w v p, ok v -> exists v', write w v p = (w, v', length p, None) /\ got v' = got v ++ p /\ ok v'.

Definition bw_content (b : bufioWriter) : bytes := got b.(bw_wr) ++ b.(bw_buf).
Definition bw_ok (b : bufioWriter) : Prop := ok b.(bw_wr) /\ b.(bw_err) = None /\ length b.(bw_buf) <= b.(bw_size).

Lemma bw_Flush_ok w b :
  bw_ok b -> exists b', bw_Flush w b = (w, b', None) /\ bw_ok b' /\ b'.(bw_buf) = [] /\ got b'.(bw_wr) = bw_content b /\
    b'.(bw_size) = b.(bw_size).
Proof.
  intros (Hok & He & Hl). unfold bw_Flush, bw_content. rewrite He. destruct b.(bw_buf) as [|c d] eqn:Hb.
  { exists b. rewrite Hb, app_nil_r. split_and!; try done. split_and!; [done..|]. rewrite Hb. cbn. lia. }
  destruct (Hwrite w b.(bw_wr) (c :: d) Hok) as (v & -> & Hg & Hv). rewrite Nat.ltb_irrefl.
  eexists. split_and!; [done|split_and!; [done..|cbn; lia]|done..].
Qed.

Lemma bw_Write_ok fuel w b p :
  bw_ok b -> 2 <= fuel ->
  exists b', bw_Write fuel w b p = Some (w, b', None) /\ bw_ok b' /\ bw_content b' = bw_content b ++ p /\
    b'.(bw_size) = b.(bw_size).
Proof.
  assert (forall fuel w b p, bw_ok b -> length p <= bw_available b -> exists b', bw_Write fuel w b p = Some (w, b', None) /\
    bw_ok b' /\ bw_content b' = bw_content b ++ p /\ b'.(bw_size) = b.(bw_size)) as Hfits.
  { intros f w0 b0 p0 (Hok & He & Hl) Hp. unfold bw_available in Hp. eexists. split.
    - destruct f; cbn [bw_Write]; rewrite He; unfold bw_available; by rewrite (proj2 (Nat.ltb_ge _ _)) by lia.
    - split_and!; [split_and!; cbn; [done..|rewrite length_app; lia]|unfold bw_content; cbn; by rewrite app_assoc|done]. }
  assert (forall fuel w b p, bw_ok b -> b.(bw_buf) = [] -> 1 <= fuel -> exists b', bw_Write fuel w b p = Some (w, b', None) /\
    bw_ok b' /\ bw_content b' = bw_content b ++ p /\ b'.(bw_size) = b.(bw_size)) as Hempty.
  { intros f w0 b0 p0 Hb Hnil Hf. destruct (Nat.ltb_spec (bw_available b0) (length p0)) as [Hlt|Hge]; [|by apply Hfits].
    destruct f as [|f]; [lia|]. pose proof Hb as (Hok & He & Hl). cbn [bw_Write]. rewrite He, (proj2 (Nat.ltb_lt _ _) Hlt), Hnil.
    destruct (Hwrite w0 b0.(bw_wr) p0 Hok) as (v & -> & Hg & Hv). rewrite drop_all.
    destruct (Hfits f w0 (mkBufioWriter v [] b0.(bw_size) None) []) as (b' & -> & Hb' & Hc & Hs); [split_and!; cbn; (done || lia)|cbn; lia|].
    exists b'. split_and!; [done..| |done]. rewrite Hc. unfold bw_content. cbn. by rewrite Hg, Hnil, !app_nil_r. }
  intros Hb Hf. destruct (Nat.ltb_spec (bw_available b) (length p)) as [Hlt|Hge]; [|by apply Hfits].
  destruct b.(bw_buf) as [|c d] eqn:Hbuf; [apply Hempty; (done || lia)|].
  destruct fuel as [|fuel]; [lia|]. pose proof Hb as (Hok & He & Hl). cbn [bw_Write]. rewrite He, (proj2 (Nat.ltb_lt _ _) Hlt), Hbuf.
  destruct (bw_Flush_ok w (mkBufioWriter b.(bw_wr) ((c :: d) ++ take (bw_available b) p) b.(bw_size) None)) as (b1 & -> & Hb1 & Hn & Hg & Hs1).
  { split_and!; [done..|]. cbn [bw_buf bw_size]. rewrite length_app, length_take. unfold bw_available in *. rewrite Hbuf in *. lia. }
  destruct (Hempty fuel w b1 (drop (bw_available b) p) Hb1 Hn) as (b' & -> & Hb' & Hc & Hs); [lia|].
  exists b'. split_and!; [done..| |by rewrite Hs]. rewrite Hc. unfold bw_content in *. rewrite Hn, Hg. cbn [bw_wr bw_buf].
  by rewrite app_nil_r, Hbuf, <- !app_assoc, take_drop.
Qed.
End spec.
End writer.
Arguments bufioWriter : clear implicits.

(** ** bufio.ScanLines *)

(** The bytes before the first newline and those after it. *)
Fixpoint cut_line (data : bytes) : option (bytes * bytes) :=
  match data with
  | [] => None
  | c :: data =>
      if decide (c = x0a) then Some ([], data)
      else '(line, rest) ← cut_line data; Some (c :: line, rest)
  end.

Definition dropCR (data : bytes) : bytes :=
  match List.rev data with x0d :: r => List.rev r | _ => data end.

Definition ScanLines (data : bytes) (atEOF : bool) : nat * option bytes :=
  if atEOF && bool_decide (data = []) then (0, None)
  else match cut_line data with
       | Some (line, _) => (S (length line), Some (dropCR line))
       | None => if atEOF then (length data, Some (dropCR data)) else (0, None)
       end.

(** ** bufio.Scanner

    The buffer is the length of its array, the offset and the bytes of its unread part. *)

Definition ErrTooLong : error := Errorf "bufio.Scanner: token too long".
Definition ErrBadReadCount : error := Errorf "bufio.Scanner: Read returned impossible count".
Definition ErrNoProgress : error := Errorf "multiple Read calls return no data or error".
Definition maxConsecutiveEmptyReads : nat := 100.
Definition startBufSize : nat := 4096.

Section scanner.
Context {W R : Type}.
Context (read : W -> R -> nat -> W * R * bytes * option error).

Record Scanner := mkScanner {
  sc_src : R;
  sc_data : bytes;
  sc_start : nat;
  sc_len : nat;
  sc_max : nat;
  sc_err : option error
}.

(** [NewScanner] and [Buffer]. *)
Definition NewScanner (r : R) (bufferSize : nat) : Scanner := mkScanner r [] 0 bufferSize bufferSize None.

Definition setErr (e : error) (s : Scanner) : Scanner :=
  mkScanner s.(sc_src) s.(sc_data) s.(sc_start) s.(sc_len) s.(sc_max)
    (match s.(sc_err) with Some e' => if is_sentinel (IoSentinel EOF) e' then Some e else Some e' | None => Some e end).

Definition sc_end (s : Scanner) : nat := s.(sc_start) + length s.(sc_data).

Definition set_buffer (start len : nat) (s : Scanner) : Scanner :=
  mkScanner s.(sc_src) s.(sc_data) start len s.(sc_max) s.(sc_err).

Definition shift (s : Scanner) : Scanner :=
  if (0 <? s.(sc_start)) && ((sc_end s =? s.(sc_len)) || (s.(sc_len) / 2 <? s.(sc_start)))
  then set_buffer 0 s.(sc_len) s else s.

Definition grow (s : Scanner) : Scanner :=
  let newSize := s.(sc_len) * 2 in
  set_buffer 0 (Nat.min (if decide (newSize = 0) then startBufSize else newSize) s.(sc_max)) s.

(** The loop that reads, [k] more empty reads allowed. *)
Fixpoint fill (k : nat) (w : W) (s : Scanner) : W * Scanner :=
  let '(w, r, chunk, err) := read w s.(sc_src) (s.(sc_len) - sc_end s) in
  if s.(sc_len) - sc_end s <? length chunk then
    (w, setErr ErrBadReadCount (mkScanner r s.(sc_data) s.(sc_start) s.(sc_len) s.(sc_max) s.(sc_err)))
  else
    let s := mkScanner r (s.(sc_data) ++ chunk) s.(sc_start) s.(sc_len) s.(sc_max) s.(sc_err) in
    match err with
    | Some e => (w, setErr e s)
    | None =>
        match chunk with
        | [] => match k with 0 => (w, setErr ErrNoProgress s) | S k => fill k w s end
        | _ => (w, s)
        end
    end.

(** [Scan], one unit of fuel for each round of its loop, with the token when it is true. *)
Fixpoint scan_loop (fuel : nat) (w : W) (s : Scanner) : option (W * Scanner * option bytes) :=
  match fuel with
  | 0 => None
  | S fuel =>
      let atEOF := bool_decide (is_Some s.(sc_err)) in
      match (if bool_decide (s.(sc_data) <> []) || atEOF then ScanLines s.(sc_data) atEOF else (0, None)) with
      | (advance, Some token) =>
          Some (w, mkScanner s.(sc_src) (drop advance s.(sc_data)) (s.(sc_start) + advance) s.(sc_len) s.(sc_max) s.(sc_err), Some token)
      | (_, None) =>
          if atEOF then Some (w, mkScanner s.(sc_src) [] 0 s.(sc_len) s.(sc_max) s.(sc_err), None)
          else
            let s := shift s in
            if sc_end s =? s.(sc_len) then
              if s.(sc_max) <=? s.(sc_len) then Some (w, setErr ErrTooLong s, None)
              else let '(w, s) := fill maxConsecutiveEmptyReads w (grow s) in scan_loop fuel w s
            else let '(w, s) := fill maxConsecutiveEmptyReads w s in scan_loop fuel w s
      end
  end.

(** [Err] *)
Definition sc_Err (s : Scanner) : option error :=
  match s.(sc_err) with Some e => if is_sentinel (IoSentinel EOF) e then None else Some e | None => None end.

End scanner.
Arguments Scanner : clear implicits.

(** ** The trimming functions of bytes *)

(** The encoding of a space ([unicode.IsSpace]) at the head of the bytes. *)
Definition cut_space (data : bytes) : option bytes :=
  match data with
  | (x09 | x0a | x0b | x0c | x0d | x20) :: rest => Some rest
  | xc2 :: (x85 | xa0) :: rest => Some rest
  | xe1 :: x9a :: x80 :: rest => Some rest
  | xe2 :: x80 :: (x80 | x81 | x82 | x83 | x84 | x85 | x86 | x87 | x88 | x89 | x8a | xa8 | xa9 | xaf) :: rest => Some rest
  | xe2 :: x81 :: x9f :: rest => Some rest
  | xe3 :: x80 :: x80 :: rest => Some rest
  | _ => None
  end.

(** [len(bytes.TrimSpace(data)) == 0]: the data is a sequence of spaces. *)
Fixpoint blank_fuel (n : nat) (data : bytes) : bool :=
  match n with
  | 0 => bool_decide (data = [])
  | S n => match data with [] => true | _ => match cut_space data with Some rest => blank_fuel n rest | None => false end end
  end.
Definition blank (data : bytes) : bool := blank_fuel (length data) data.

(** [bytes.TrimRight(data, cutset)] for an ASCII cutset. *)
Definition TrimRight (cutset : list byte) (data : bytes) : bytes :=
  let fix trim r := match r with c :: r' => if decide (c ∈ cutset) then trim r' else r | [] => [] end in
  List.rev (trim (List.rev data)).

(** ** Lemmas *)

Lemma cut_line_app data u :
  cut_line (data ++ u) =
    match cut_line data with
    | Some (l, r) => Some (l, r ++ u)
    | None => '(l, r) ← cut_line u; Some (data ++ l, r)
    end.
Proof.
  induction data as [|c data IH]; cbn; [by destruct (cut_line u) as [[]|]|]. case_decide; [done|]. rewrite IH.
  destruct (cut_line data) as [[]|]; [done|]. by destruct (cut_line u) as [[]|].
Qed.

Lemma cut_line_Some data l r : cut_line data = Some (l, r) -> data = l ++ x0a :: r /\ x0a ∉ l.
Proof.
  revert l r. induction data as [|c data IH]; intros l r; cbn; [done|]. case_decide as Hc.
  - intros [= <- <-]. split; [by rewrite Hc|apply not_elem_of_nil].
  - destruct (cut_line data) as [[l' r']|]; [|done]. cbn. intros [= <- <-]. destruct (IH l' r' eq_refl) as [-> Hn].
    split; [done|]. by apply not_elem_of_cons.
Qed.

Lemma cut_line_None data : cut_line data = None <-> x0a ∉ data.
Proof.
  induction data as [|c data IH]; cbn; [split; [intros; apply not_elem_of_nil|done]|]. rewrite not_elem_of_cons. case_decide as Hc.
  - split; [done|]. intros [H _]. by rewrite Hc in H.
  - rewrite <- IH. destruct (cut_line data) as [[]|]; naive_solver.
Qed.

Lemma cut_line_make l r : x0a ∉ l -> cut_line (l ++ x0a :: r) = Some (l, r).
Proof. intros Hl. rewrite cut_line_app, (proj2 (cut_line_None l) Hl). cbn [cut_line]. rewrite decide_True by done. cbn. by rewrite app_nil_r. Qed.

(** The first line of a content, and what follows it. *)
Definition next_line (c : bytes) : option (bytes * bytes) :=
  match cut_line c with
  | Some (l, r) => Some (dropCR l, r)
  | None => match c with [] => None | _ => Some (dropCR c, []) end
  end.

(** Whether the first line fits a buffer of [N] bytes with a newline. *)
Definition line_fits (N : nat) (c : bytes) : Prop :=
  match cut_line c with Some (l, _) => length l < N | None => length c < N end.

Section scan.
Context {W R : Type} (read : W -> R -> nat -> W * R * bytes * option error) (ok : R -> Prop) (rest : R -> bytes).
Hypothesis Hread : forall w r n, 0 < n -> ok r ->
  match rest r with
  | [] => exists r', read w r n = (w, r', [], Some (err_io EOF))
  | _ => exists r' chunk, read w r n = (w, r', chunk, None) /\ ok r' /\ chunk <> [] /\ length chunk <= n /\
           rest r = chunk ++ rest r'
  end.

(** A scanner with a buffer of [N] bytes that has [c] to go. *)
Definition scans (N : nat) (s : Scanner R) (c : bytes) : Prop :=
  s.(sc_len) = N /\ s.(sc_max) = N /\
  match s.(sc_err) with
  | None => ok s.(sc_src) /\ s.(sc_data) ++ rest s.(sc_src) = c /\ sc_end s <= N
  | Some e => e = err_io EOF /\ s.(sc_data) = c
  end.

(** How many bytes a scanner has yet to read. *)
Definition to_read (s : Scanner R) : nat := match s.(sc_err) with None => S (length (rest s.(sc_src))) | Some _ => 0 end.

Lemma fill_ok N w s c k :
  scans N s c -> s.(sc_err) = None -> sc_end s < N ->
  exists s', fill read k w s = (w, s') /\ scans N s' c /\ s.(sc_data) `prefix_of` s'.(sc_data) /\
    match rest s.(sc_src) with
    | [] => s'.(sc_err) = Some (err_io EOF)
    | _ => s'.(sc_err) = None /\ length (rest s'.(sc_src)) < length (rest s.(sc_src))
    end.
Proof.
  intros (Hl & Hm & Hs) He Hend. rewrite He in Hs. destruct Hs as (Hok & Hc & _).
  assert (0 < s.(sc_len) - sc_end s) as Hpos by lia. pose proof (Hread w s.(sc_src) _ Hpos Hok) as Hr.
  destruct k as [|k]; cbn [fill]; destruct (rest s.(sc_src)) as [|b u] eqn:Hu.
  1, 3: destruct Hr as (r' & ->); rewrite (proj2 (Nat.ltb_ge _ _)) by (cbn; lia); eexists; split; [done|];
    unfold setErr, scans; cbn; rewrite He; cbn; rewrite app_nil_r in *; split_and!; done.
  all: destruct Hr as (r' & chunk & -> & Hok' & Hne & Hlen & Hsplit); rewrite (proj2 (Nat.ltb_ge _ _)) by lia;
    destruct chunk as [|x chunk]; [done|]; eexists; split; [done|]; unfold scans, sc_end in *; cbn [sc_len sc_max sc_err sc_src sc_data sc_start];
    rewrite He; rewrite length_app; split_and!; try done; try lia;
    [by rewrite <- app_assoc, <- Hsplit|by apply prefix_app_r|rewrite Hsplit, length_app; cbn; lia].
Qed.

Lemma shift_ok N s c : scans N s c -> s.(sc_err) = None -> scans N (shift s) c /\ (shift s).(sc_err) = None /\
  (shift s).(sc_data) = s.(sc_data) /\ (shift s).(sc_src) = s.(sc_src) /\ (sc_end (shift s) = N -> length s.(sc_data) = N).
Proof.
  intros (Hl & Hm & Hs) He. rewrite He in Hs. destruct Hs as (Hok & Hc & Hle). unfold shift, sc_end in *.
  destruct ((0 <? s.(sc_start)) && _) eqn:Hb; unfold scans, set_buffer, sc_end; cbn; rewrite He.
  - split_and!; try done; lia.
  - split_and!; try done. intros Heq. apply andb_false_iff in Hb as [Hb%Nat.ltb_ge|[Hb%Nat.eqb_neq _]%orb_false_iff]; lia.
Qed.

(** The token the scanner can make of what it holds. *)
Definition held (s : Scanner R) (atEOF : bool) : nat * option bytes :=
  if bool_decide (s.(sc_data) <> []) || atEOF then ScanLines s.(sc_data) atEOF else (0, None).

Definition take_token (n : nat) (s : Scanner R) : Scanner R :=
  mkScanner s.(sc_src) (drop n s.(sc_data)) (s.(sc_start) + n) s.(sc_len) s.(sc_max) s.(sc_err).

Lemma drop_line l r : drop (S (length l)) (l ++ x0a :: r) = r.
Proof. by induction l. Qed.

(** Before the end a token is a whole line. *)
Lemma held_open s :
  held s false = match cut_line s.(sc_data) with Some (l, _) => (S (length l), Some (dropCR l)) | None => (0, None) end.
Proof.
  unfold held, ScanLines. rewrite orb_false_r. destruct s.(sc_data) as [|c d]; [done|]. by rewrite bool_decide_eq_true_2.
Qed.

Lemma take_token_open N s c l r :
  scans N s c -> s.(sc_err) = None -> cut_line s.(sc_data) = Some (l, r) ->
  next_line c = Some (dropCR l, r ++ rest s.(sc_src)) /\ scans N (take_token (S (length l)) s) (r ++ rest s.(sc_src)).
Proof.
  intros (Hl & Hm & Hs) He Hcut. rewrite He in Hs. destruct Hs as (Hok & <- & Hend). unfold next_line. rewrite cut_line_app, Hcut.
  split; [done|]. unfold scans, take_token, sc_end in *. cbn. rewrite He. apply cut_line_Some in Hcut as [Hd _].
  rewrite Hd, drop_line in *. rewrite length_app in Hend. cbn in Hend. split_and!; (done || lia).
Qed.

Lemma scan_eof N w s c fuel :
  scans N s c -> s.(sc_err) = Some (err_io EOF) ->
  exists s', scan_loop read (S fuel) w s = Some (w, s', fst <$> next_line c) /\
    scans N s' (match next_line c with Some (_, r) => r | None => [] end) /\ s'.(sc_err) = Some (err_io EOF).
Proof.
  intros (Hl & Hm & Hs) He. rewrite He in Hs. destruct Hs as [_ Hc]. cbn [scan_loop]. rewrite He, (bool_decide_eq_true_2 (is_Some (Some (err_io EOF)))) by by eexists.
  rewrite orb_true_r. unfold ScanLines, next_line. rewrite Hc. cbn [andb]. destruct c as [|b c]; [|rewrite bool_decide_eq_false_2 by done].
  { rewrite bool_decide_eq_true_2 by done. eexists. split; [done|]. by split_and!. }
  destruct (cut_line (b :: c)) as [[l r]|] eqn:Hcut; (eexists; split; [done|]; split; [|done]); split_and!; try done.
  - cbn [sc_err sc_data]. split; [done|]. apply cut_line_Some in Hcut as [-> _]. apply drop_line.
  - cbn [sc_err sc_data]. split; [done|]. apply drop_all.
Qed.

Lemma scan_ok N w s c fuel :
  scans N s c -> line_fits N c -> to_read s < fuel ->
  exists s', scan_loop read fuel w s = Some (w, s', fst <$> next_line c) /\
    scans N s' (match next_line c with Some (_, r) => r | None => [] end) /\ to_read s' <= to_read s /\
    (next_line c = None -> s'.(sc_err) = Some (err_io EOF)).
Proof.
  intros Hs Hfits. revert s Hs. induction fuel as [|fuel IH]; intros s Hs Hf; [lia|].
  destruct (s.(sc_err)) as [e|] eqn:He.
  { pose proof Hs as (_ & _ & Hs'). rewrite He in Hs'. destruct Hs' as [-> _].
    destruct (scan_eof N w s c fuel Hs He) as (s' & H1 & H2 & H3). exists s'. unfold to_read. rewrite H3, He. split_and!; (done || lia). }
  cbn [scan_loop]. rewrite He, (bool_decide_eq_false_2 (is_Some None)) by by intros [? ?]. fold (held s false). rewrite held_open.
  destruct (cut_line s.(sc_data)) as [[l r]|] eqn:Hcut.
  { destruct (take_token_open N s c l r Hs He Hcut) as [-> Hs']. exists (take_token (S (length l)) s). split; [unfold take_token; by rewrite He|].
    split; [done|]. split; [|done]. unfold to_read, take_token. cbn. by rewrite He. }
  destruct (shift_ok N s c Hs He) as (Hs1 & He1 & Hd1 & Hsrc1 & Hfull). pose proof Hs1 as (Hl1 & Hm1 & Hs1'). rewrite He1 in Hs1'.
  destruct Hs1' as (_ & Hc1 & Hend1). rewrite Hl1. destruct (Nat.eqb_spec (sc_end (shift s)) N) as [Heq|Hne].
  { exfalso. apply Hfull in Heq. unfold line_fits in Hfits. rewrite <- Hc1, Hd1, cut_line_app, Hcut in Hfits.
    destruct (cut_line (rest _)) as [[l r]|]; cbn in Hfits; rewrite length_app in Hfits; lia. }
  destruct (fill_ok N w (shift s) c maxConsecutiveEmptyReads Hs1 He1) as (s2 & -> & Hs2 & _ & Hr); [lia|].
  assert (to_read s2 < to_read s) as Hlt.
  { unfold to_read. rewrite He. rewrite Hsrc1 in Hr. destruct (rest s.(sc_src)) as [|b u].
    - rewrite Hr. lia.
    - destruct Hr as [-> Hr]. lia. }
  destruct (IH s2 Hs2) as (s' & H1 & H2 & H3 & H4); [lia|]. exists s'. split_and!; (done || lia).
Qed.

(** A line that fills the buffer stops the scanner with an error, and the scanner's next token
    is the part of the line that it holds. *)
Lemma scan_too_long N w s c fuel :
  scans N s c -> s.(sc_err) = None -> N <= length c -> (x0a ∉ take N c) -> to_read s < fuel ->
  exists s', scan_loop read fuel w s = Some (w, s', None) /\ s'.(sc_err) = Some ErrTooLong /\ s'.(sc_data) = take N c.
Proof.
  intros Hs He Hlen Hnl. revert s Hs He. induction fuel as [|fuel IH]; intros s Hs He Hf; [lia|].
  pose proof Hs as (Hl & Hm & Hs'). rewrite He in Hs'. destruct Hs' as (Hok & Hc & Hend). unfold sc_end in Hend.
  assert (s.(sc_data) = take (length s.(sc_data)) (take N c)) as Hpre
    by (rewrite take_take, Nat.min_l by lia; rewrite <- Hc; by rewrite take_app_length).
  assert (cut_line s.(sc_data) = None) as Hcut
    by (apply cut_line_None; intros Hin; apply Hnl; rewrite Hpre in Hin; by apply subseteq_take in Hin).
  cbn [scan_loop]. rewrite He, (bool_decide_eq_false_2 (is_Some None)) by by intros [? ?]. fold (held s false). rewrite held_open, Hcut.
  destruct (shift_ok N s c Hs He) as (Hs1 & He1 & Hd1 & Hsrc1 & Hfull). pose proof Hs1 as (Hl1 & Hm1 & Hs1'). rewrite He1 in Hs1'.
  destruct Hs1' as (_ & Hc1 & Hend1). rewrite Hl1, Hm1. destruct (Nat.eqb_spec (sc_end (shift s)) N) as [Heq|Hne].
  { rewrite Nat.leb_refl. eexists. split; [done|]. cbn. rewrite He1, Hd1. split; [done|]. rewrite Hpre, (Hfull Heq). by rewrite take_take, Nat.min_id. }
  destruct (fill_ok N w (shift s) c maxConsecutiveEmptyReads Hs1 He1) as (s2 & -> & Hs2 & _ & Hr); [lia|].
  rewrite Hsrc1 in Hr. destruct (rest s.(sc_src)) as [|b u] eqn:Hu.
  { exfalso. rewrite app_nil_r in Hc. unfold sc_end in *. rewrite Hd1 in *. rewrite <- Hc in Hlen. lia. }
  destruct Hr as [He2 Hr]. apply IH; [done..|]. unfold to_read in *. rewrite He2. rewrite He, Hu in Hf. lia.
Qed.
End scan.
