(* ===== verification/Ndjson.v ===== *)
(** * object/format/ndjson: records as lines

    The reader and the writer of newline-delimited records, over the readers and writers of a
    backend, with the buffering of [Bufio].  The mutexes make each method one step. *)

From S2P Require Import Prelude GoLib Errors ObjectTypes ObjectBackend ObjectMemory Bufio.

Definition DefaultBufferSize : nat := 64 * 1024.

Section ndjson.
Context `{OB : ObjectBackend W B}.

(** ** writer.go *)

Record Writer := mkWriter { nd_w : bufioWriter Wr; nd_wclosed : bool }.

Definition NewWriterSize (w : Wr) (bufferSize : Z) : Writer := mkWriter (Bufio.NewWriterSize w bufferSize) false.
Definition NewWriter (w : Wr) : Writer := NewWriterSize w (Z.of_nat DefaultBufferSize).

Definition newline : bytes := [x0a].

Definition Writer_Write (fuel : nat) (w : W) (nw : Writer) (data : bytes) : option (W * Writer * option error) :=
  if nw.(nd_wclosed) then Some (w, nw, Some (err_object ObjErrWriterClosed))
  else
    '(w, b, err) ← bw_Write Write fuel w nw.(nd_w) data;
    match err with
    | Some err => Some (w, mkWriter b false, Some err)
    | None =>
        '(w, b, err) ← bw_Write Write fuel w b newline;
        Some (w, mkWriter b false, err)
    end.

Definition WriteJSON (fuel : nat) (w : W) (nw : Writer) (data : bytes) : option (W * Writer * option error) :=
  Writer_Write fuel w nw (TrimRight [x20; x09; x0d; x0a] data).

Definition Flush (w : W) (nw : Writer) : W * Writer * option error :=
  if nw.(nd_wclosed) then (w, nw, Some (err_object ObjErrWriterClosed))
  else let '(w, b, err) := bw_Flush Write w nw.(nd_w) in (w, mkWriter b false, err).

Definition Writer_Close (now : time) (w : W) (nw : Writer) : W * Writer * option error :=
  if nw.(nd_wclosed) then (w, nw, None)
  else
    let '(w, b, err) := bw_Flush Write w nw.(nd_w) in
    let '(w, cerr) := CloseWriter now w b.(bw_wr) in
    (w, mkWriter b true, match err with Some err => Some err | None => cerr end).

(** ** reader.go *)

Record Reader := mkReader { scanner : Scanner Rd; nd_rclosed : bool }.

Definition NewReaderSize (r : Rd) (bufferSize : nat) : Reader := mkReader (NewScanner r bufferSize) false.
Definition NewReader (r : Rd) : Reader := NewReaderSize r DefaultBufferSize.

(** The loop over [Scan], with the fuel of each scan and one unit for each line. *)
Fixpoint read_loop (scan_fuel fuel : nat) (w : W) (s : Scanner Rd) : option (W * Scanner Rd * result error bytes) :=
  match fuel with
  | 0 => None
  | S fuel =>
      '(w, s, token) ← scan_loop Read scan_fuel w s;
      match token with
      | Some line => if blank line then read_loop scan_fuel fuel w s else Some (w, s, Ok line)
      | None => Some (w, s, Err (match sc_Err s with Some err => err | None => err_io EOF end))
      end
  end.

Definition Reader_Read (fuel : nat) (w : W) (nr : Reader) : option (W * Reader * result error bytes) :=
  if nr.(nd_rclosed) then Some (w, nr, Err (err_object ObjErrReaderClosed))
  else
    '(w, s, res) ← read_loop fuel fuel w nr.(scanner);
    Some (w, mkReader s false, res).

Definition Reader_Close (w : W) (nr : Reader) : W * Reader * option error :=
  if nr.(nd_rclosed) then (w, nr, None)
  else let '(w, err) := CloseReader w nr.(scanner).(sc_src) in (w, mkReader nr.(scanner) true, err).

#[export] Instance ndjson_writer : RecordWriter W Writer := {
  rw_Write := Writer_Write; rw_Flush := Flush; rw_Close := Writer_Close
}.
#[export] Instance ndjson_reader : RecordReader W Reader := { rr_Read := Reader_Read; rr_Close := Reader_Close }.

End ndjson.

(** ** The records of a content *)

(** The records that are left, and whether every line fits a buffer of [N] bytes; a line takes
    a byte at least, so the length is fuel enough. *)
Fixpoint records_fuel (n : nat) (c : bytes) : list bytes :=
  match n with
  | 0 => []
  | S n => match next_line c with
           | None => []
           | Some (l, r) => if blank l then records_fuel n r else l :: records_fuel n r
           end
  end.
Definition records (c : bytes) : list bytes := records_fuel (length c) c.

Fixpoint lines_fit_fuel (n N : nat) (c : bytes) : Prop :=
  match n with
  | 0 => True
  | S n => match next_line c with None => True | Some (_, r) => line_fits N c /\ lines_fit_fuel n N r end
  end.
Definition lines_fit (N : nat) (c : bytes) : Prop := lines_fit_fuel (length c) N c.

Lemma next_line_shorter c l r : next_line c = Some (l, r) -> length r < length c.
Proof.
  unfold next_line. destruct (cut_line c) as [[l' r']|] eqn:Hc; [|by destruct c as [|b c]; intros [= <- <-]; cbn; lia].
  intros [= <- <-]. apply cut_line_Some in Hc as [-> _]. rewrite length_app. cbn. lia.
Qed.

Lemma records_fuel_enough n m c : length c <= n -> length c <= m -> records_fuel n c = records_fuel m c.
Proof.
  revert m c. induction n as [|n IH]; intros m c Hn Hm; [by destruct c, m; cbn in *; (done || lia)|].
  destruct m as [|m]; [by destruct c; cbn in *; (done || lia)|]. cbn. destruct (next_line c) as [[l r]|] eqn:Hl; [|done].
  apply next_line_shorter in Hl. by rewrite (IH m) by lia.
Qed.

Lemma records_next c :
  records c = match next_line c with None => [] | Some (l, r) => if blank l then records r else l :: records r end.
Proof.
  unfold records. destruct (next_line c) as [[l r]|] eqn:Hl; [|by destruct c; [|cbn; rewrite Hl]].
  pose proof (next_line_shorter _ _ _ Hl). destruct c as [|b c]; [done|]. cbn [length records_fuel]. rewrite Hl.
  cbn in *. by rewrite (records_fuel_enough (length c) (length r)) by lia.
Qed.

Lemma lines_fit_fuel_enough N n m c : length c <= n -> length c <= m -> lines_fit_fuel n N c -> lines_fit_fuel m N c.
Proof.
  revert m c. induction n as [|n IH]; intros m c Hn Hm; [by destruct c, m; cbn in *; (done || lia)|].
  destruct m as [|m]; [by destruct c; cbn in *; (done || lia)|]. cbn. destruct (next_line c) as [[l r]|] eqn:Hl; [|done].
  apply next_line_shorter in Hl. intros [? ?]. split; [done|]. by apply IH; [lia..|].
Qed.

Lemma lines_fit_next N c l r : next_line c = Some (l, r) -> lines_fit N c <-> line_fits N c /\ lines_fit N r.
Proof.
  intros Hl. unfold lines_fit. pose proof (next_line_shorter _ _ _ Hl). destruct c as [|b c]; [done|]. cbn [length lines_fit_fuel].
  rewrite Hl. cbn in *. split; (intros [? ?]; split; [done|]); (eapply lines_fit_fuel_enough; [| |done]; lia).
Qed.

Lemma line_fits_end N c : 0 < N -> next_line c = None -> line_fits N c.
Proof. unfold next_line, line_fits. destruct (cut_line c) as [[]|]; [done|]. by destruct c. Qed.

(** ** Reading *)

Section reading.
Context `{BS : BackendSpec W B}.

Local Abbreviation scans := (scans rd_open unread).
Local Abbreviation to_read := (to_read unread).

Lemma read_loop_ok N w s c sf fuel :
  0 < N -> scans N s c -> lines_fit N c -> to_read s < sf -> length c < fuel ->
  exists s', read_loop sf fuel w s =
      Some (w, s', match records c with [] => Err (err_io EOF) | l :: _ => Ok l end) /\
    exists c', scans N s' c' /\ lines_fit N c' /\ records c' = tail (records c) /\ to_read s' <= to_read s /\ length c' <= length c.
Proof.
  intros HN. revert s c. induction fuel as [|fuel IH]; intros s c Hs Hfit Hsf Hf; [lia|]. cbn [read_loop].
  rewrite (records_next c). destruct (next_line c) as [[l r]|] eqn:Hl.
  - apply (lines_fit_next N c l r Hl) in Hfit as [Hline Hfit].
    destruct (scan_ok Read rd_open unread Read_spec N w s c sf Hs Hline Hsf) as (s1 & -> & Hs1 & Hle & _).
    rewrite Hl in Hs1 |- *. cbn [fmap option_fmap option_map fst mbind option_bind]. pose proof (next_line_shorter _ _ _ Hl) as Hlt.
    destruct (blank l).
    + destruct (IH s1 r Hs1 Hfit) as (s' & -> & c' & ? & ? & ? & ? & ?); [lia..|]. exists s'. split; [done|].
      exists c'. split_and!; (done || lia).
    + exists s1. split; [done|]. exists r. split_and!; (done || lia).
  - destruct (scan_ok Read rd_open unread Read_spec N w s c sf Hs (line_fits_end N c HN Hl) Hsf) as (s1 & -> & Hs1 & Hle & He).
    rewrite Hl in Hs1 |- *. cbn [fmap option_fmap option_map mbind option_bind]. exists s1. split.
    + unfold sc_Err. by rewrite (He Hl).
    + exists []. split_and!; try done; cbn; lia.
Qed.

(** A reader that has the content [c] to go. *)
Definition reads (N : nat) (nr : Reader) (c : bytes) : Prop :=
  nr.(nd_rclosed) = false /\ scans N nr.(scanner) c /\ lines_fit N c.

(** The fuel a reader needs. *)
Definition reader_fuel (nr : Reader) (c : bytes) : nat := S (to_read nr.(scanner) + length c).

Lemma Reader_Read_ok N w nr c fuel :
  0 < N -> reads N nr c -> reader_fuel nr c <= fuel ->
  exists nr' c', Reader_Read fuel w nr = Some (w, nr', match records c with [] => Err (err_io EOF) | l :: _ => Ok l end) /\
    reads N nr' c' /\ records c' = tail (records c) /\ reader_fuel nr' c' <= reader_fuel nr c.
Proof.
  intros HN (Hc & Hs & Hfit) Hf. unfold Reader_Read, reader_fuel in *. rewrite Hc.
  destruct (read_loop_ok N w nr.(scanner) c fuel fuel HN Hs Hfit) as (s' & -> & c' & ? & ? & ? & ? & ?); [lia..|].
  exists (mkReader s' false), c'. split; [done|]. split_and!; [by split_and!|done|]. cbn. lia.
Qed.

(** A client's reads, until an error ends them: the records and the error. *)
Fixpoint read_all (fuel n : nat) (w : W) (nr : Reader) : option (W * Reader * list bytes * option error) :=
  match n with
  | 0 => Some (w, nr, [], None)
  | S n =>
      '(w, nr, res) ← Reader_Read fuel w nr;
      match res with
      | Ok l => '(w, nr, ls, e) ← read_all fuel n w nr; Some (w, nr, l :: ls, e)
      | Err e => Some (w, nr, [], Some e)
      end
  end.

Lemma read_all_ok N w nr c fuel n :
  0 < N -> reads N nr c -> reader_fuel nr c <= fuel -> length (records c) < n ->
  exists nr', read_all fuel n w nr = Some (w, nr', records c, Some (err_io EOF)).
Proof.
  intros HN. revert nr c. induction n as [|n IH]; intros nr c Hr Hf Hn; [lia|]. cbn [read_all].
  destruct (Reader_Read_ok N w nr c fuel HN Hr Hf) as (nr' & c' & -> & Hr' & Hc' & Hf'). cbn [mbind option_bind].
  destruct (records c) as [|l ls] eqn:Hrec; [by exists nr'|]. cbn in Hc', Hn.
  destruct (IH nr' c' Hr') as (nr2 & ->); [lia|rewrite Hc'; lia|]. rewrite Hc'. by exists nr2.
Qed.

Lemma new_reads N (r : Rd) : rd_open r -> lines_fit N (unread r) -> reads N (NewReaderSize r N) (unread r).
Proof. intros Hr Hfit. split_and!; [done| |done]. split_and!; [done..|]. cbn. split_and!; [done..|lia]. Qed.

(** Reading a content whose lines are shorter than the buffer gives its lines in order,
    each without its newline and a carriage return before it, those that hold only spaces
    left out, and then the end of the file; a closed reader refuses to read. *)
Theorem Reader_records N w (r : Rd) :
  0 < N -> rd_open r -> lines_fit N (unread r) ->
  exists nr, read_all (S (S (2 * length (unread r)))) (S (length (records (unread r)))) w (NewReaderSize r N) =
      Some (w, nr, records (unread r), Some (err_io EOF)) /\
    forall fuel w', Reader_Read fuel w' (Reader_Close w nr).1.2 = Some (w', (Reader_Close w nr).1.2, Err (err_object ObjErrReaderClosed)).
Proof.
  intros HN Hr Hfit. destruct (read_all_ok N w (NewReaderSize r N) (unread r) (S (S (2 * length (unread r))))
    (S (length (records (unread r)))) HN (new_reads N r Hr Hfit)) as (nr & Hread); [unfold reader_fuel; cbn; lia|lia|].
  exists nr. split; [exact Hread|]. intros fuel w'. unfold Reader_Read, Reader_Close. destruct nr as [s [|]]; [done|].
  cbn [nd_rclosed scanner]. by destruct (CloseReader w s.(sc_src)).
Qed.

(** A line as long as the buffer is an error, and reading on gives the part of it that
    is in the buffer as if it were a record. *)
Theorem Reader_too_long N w (r : Rd) :
  0 < N -> rd_open r -> N <= length (unread r) -> x0a ∉ take N (unread r) -> blank (dropCR (take N (unread r))) = false ->
  exists nr nr', Reader_Read (S (S (length (unread r)))) w (NewReaderSize r N) = Some (w, nr, Err ErrTooLong) /\
    forall fuel, Reader_Read (S fuel) w nr = Some (w, nr', Ok (dropCR (take N (unread r)))).
Proof.
  intros HN Hr Hlen Hnl Hb. unfold Reader_Read at 1. cbn [nd_rclosed NewReaderSize read_loop scanner].
  destruct (scan_too_long Read rd_open unread Read_spec N w (NewScanner r N) (unread r) (S (S (length (unread r)))))
    as (s & -> & He & Hd); [split_and!; [done..|]; cbn; split_and!; [done..|lia]|done|done|done|cbn; lia|].
  cbn [mbind option_bind]. unfold sc_Err. rewrite He. cbn [is_sentinel ErrTooLong].
  eexists _, _. split; [reflexivity|]. intros fuel. unfold Reader_Read. cbn [nd_rclosed scanner read_loop scan_loop].
  rewrite He, (bool_decide_eq_true_2 (is_Some (Some ErrTooLong))) by by eexists. rewrite orb_true_r, Hd.
  set (d := take N (unread r)) in *. assert (d <> []) as Hne by (unfold d; destruct (unread r); [cbn in *; lia|]; by destruct N; [lia|]).
  unfold ScanLines. rewrite (proj2 (cut_line_None d) Hnl), bool_decide_eq_false_2 by done. cbn [andb mbind option_bind].
  rewrite Hb. reflexivity.
Qed.
End reading.

(** ** Writing *)

(** The content that holds the records. *)
Definition frame (rs : list bytes) : bytes := concat ((fun r => r ++ newline) <$> rs).

(** What is kept of the data given to [Write], or to [WriteJSON]. *)
Definition record_of (entry : bool * bytes) : bytes :=
  let '(json, data) := entry in if json : bool then TrimRight [x20; x09; x0d; x0a] data else data.

(** A record that can be read back through a buffer of [N] bytes. *)
Definition readable (N : nat) (r : bytes) : Prop := (x0a ∉ r) /\ dropCR r = r /\ blank r = false /\ length r < N.

Lemma dropCR_TrimRight data : dropCR (TrimRight [x20; x09; x0d; x0a] data) = TrimRight [x20; x09; x0d; x0a] data.
Proof.
  unfold TrimRight, dropCR. rewrite List.rev_involutive. induction (List.rev data) as [|c r IH]; [done|]. cbn.
  case_decide as Hc; [exact IH|]. destruct c; try done. destruct Hc. by do 2 right; left.
Qed.

Lemma next_line_frame r rs : (x0a ∉ r) -> dropCR r = r -> next_line (frame (r :: rs)) = Some (r, frame rs).
Proof.
  intros Hn Hcr. unfold next_line, frame, newline. rewrite fmap_cons. cbn [concat]. rewrite <- app_assoc. cbn [app].
  by rewrite cut_line_make, Hcr.
Qed.

Lemma records_frame N rs : Forall (readable N) rs -> records (frame rs) = rs /\ lines_fit N (frame rs).
Proof.
  induction 1 as [|r rs (Hn & Hcr & Hb & Hl) Hall [IH1 IH2]]; [done|].
  pose proof (next_line_frame r rs Hn Hcr) as Hnext. split.
  - rewrite records_next, Hnext, Hb. by f_equal.
  - apply (lines_fit_next N _ _ _ Hnext). split; [|done]. unfold line_fits, frame, newline. rewrite fmap_cons. cbn [concat].
    rewrite <- app_assoc. cbn [app]. by rewrite cut_line_make.
Qed.

Section writing.
Context `{BS : BackendSpec W B}.
Context (b : B) (q : string).

(** A writer that will publish at [q] on [b] and has been given [c]. *)
Definition writes (nw : Writer) (c : bytes) : Prop :=
  nw.(nd_wclosed) = false /\ bw_ok (writes_to b q) nw.(nd_w) /\ bw_content pending nw.(nd_w) = c.

Lemma bw_write_ok fuel w (bw : bufioWriter Wr) p :
  bw_ok (writes_to b q) bw -> 2 <= fuel ->
  exists bw', bw_Write Write fuel w bw p = Some (w, bw', None) /\ bw_ok (writes_to b q) bw' /\
    bw_content pending bw' = bw_content pending bw ++ p.
Proof.
  intros Hb Hf. destruct (bw_Write_ok Write pending (writes_to b q)) with (fuel := fuel) (w := w) (b := bw) (p := p)
    as (bw' & ? & ? & ? & _); [intros; by apply write_pending|done|done|by exists bw'].
Qed.

Lemma Writer_Write_ok w nw c data :
  writes nw c -> exists nw', Writer_Write 2 w nw data = Some (w, nw', None) /\ writes nw' (c ++ data ++ newline).
Proof.
  intros (Hc & Hb & Hcont). unfold Writer_Write. rewrite Hc.
  destruct (bw_write_ok 2 w nw.(nd_w) data Hb) as (b1 & -> & Hb1 & Hc1); [lia|]. cbn [mbind option_bind].
  destruct (bw_write_ok 2 w b1 newline Hb1) as (b2 & -> & Hb2 & Hc2); [lia|]. cbn [mbind option_bind].
  eexists. split; [done|]. split_and!; [done..|]. cbn. by rewrite Hc2, Hc1, Hcont, app_assoc.
Qed.

(** A client that writes the entries one after the other. *)
Fixpoint write_entries (w : W) (nw : Writer) (entries : list (bool * bytes)) : option (W * Writer * option error) :=
  match entries with
  | [] => Some (w, nw, None)
  | (json, data) :: entries =>
      '(w, nw, err) ← (if json : bool then WriteJSON 2 w nw data else Writer_Write 2 w nw data);
      match err with Some err => Some (w, nw, Some err) | None => write_entries w nw entries end
  end.

Lemma write_entries_ok w nw c entries :
  writes nw c -> exists nw', write_entries w nw entries = Some (w, nw', None) /\ writes nw' (c ++ frame (record_of <$> entries)).
Proof.
  revert nw c. induction entries as [|[json data] entries IH]; intros nw c Hw; [exists nw; by rewrite app_nil_r|].
  cbn [write_entries]. assert (exists nw', (if json then WriteJSON 2 w nw data else Writer_Write 2 w nw data) = Some (w, nw', None) /\
    writes nw' (c ++ record_of (json, data) ++ newline)) as (nw1 & -> & Hw1).
  { destruct json; by apply Writer_Write_ok. }
  cbn [mbind option_bind]. destruct (IH nw1 _ Hw1) as (nw' & -> & Hw'). exists nw'. split; [done|].
  rewrite fmap_cons. unfold frame in *. rewrite fmap_cons. cbn [concat]. by rewrite <- app_assoc in Hw'.
Qed.

Lemma Writer_Close_ok now w nw c :
  is_open w b -> writes nw c -> exists w' nw', Writer_Close now w nw = (w', nw', None) /\ stored_at w w' b q c /\ nw'.(nd_wclosed) = true.
Proof.
  intros Ho (Hc & Hb & Hcont). unfold Writer_Close. rewrite Hc.
  destruct (bw_Flush_ok Write pending (writes_to b q)) with (w := w) (b := nw.(nd_w)) as (b1 & -> & Hb1 & Hn & Hg & _);
    [intros; by apply write_pending|done|].
  destruct (publish now w b1.(bw_wr) b q c Ho) as (w' & -> & Hst); [apply Hb1|by rewrite Hg|]. by eexists w', _.
Qed.

(** Claim C21. Records written to an object through any buffer and read back through a buffer
    that is longer than each of them come back unchanged and in order, whether [Write] or
    [WriteJSON], which trims them first, wrote them.  A record must have a byte that is not a
    space, no newline and no carriage return at its end.  The writer, once closed, refuses
    records. *)
Theorem ndjson_roundtrip now w p opts size N entries :
  is_open w b -> path_of b p = Some q -> 0 < N -> Forall (fun e => readable N (record_of e)) entries ->
  exists v, ObjectBackend.NewWriter None w b p opts = (w, Ok v) /\
  exists nw w' nw', write_entries w (NewWriterSize v size) entries = Some (w, nw, None) /\
    Writer_Close now w nw = (w', nw', None) /\ stored_at w w' b q (frame (record_of <$> entries)) /\
    (forall data, Writer_Write 2 w' nw' data = Some (w', nw', Some (err_object ObjErrWriterClosed))) /\
  exists r, ObjectBackend.NewReader None w' b p [] = (w', Ok r) /\
  exists nr, read_all (S (S (2 * length (frame (record_of <$> entries))))) (S (length entries)) w' (NewReaderSize r N) =
    Some (w', nr, record_of <$> entries, Some (err_io EOF)).
Proof.
  intros Ho Hp HN Hall. pose proof (NewWriter_spec w b p opts Ho) as Hv. rewrite Hp in Hv. destruct Hv as (v & Hv & Hwo & Ht & Hpend).
  exists v. split; [exact Hv|]. destruct (write_entries_ok w (NewWriterSize v size) [] entries) as (nw & Hwr & Hnw).
  { split_and!; [done| |]; [split_and!; [by split|done|cbn; lia]|]. unfold bw_content. cbn. by rewrite Hpend. }
  destruct (Writer_Close_ok now w nw _ Ho Hnw) as (w' & nw' & Hcl & Hst & Hclosed). exists nw, w', nw'. split_and!; [done..| |].
  { intros data. unfold Writer_Write. by rewrite Hclosed. }
  destruct (records_frame N (record_of <$> entries)) as [Hrec Hfit]; [by apply Forall_fmap|].
  assert (files w' b !! q = Some (frame (record_of <$> entries))) as Hf.
  { rewrite (proj2 Hst), decide_True by done. apply lookup_insert_eq. }
  destruct (NewReader_at w' b p q _ (proj1 Hst _ Ho) Hp Hf) as (r & -> & Hro & Hr). exists r. split; [done|].
  destruct (read_all_ok N w' (NewReaderSize r N) (frame (record_of <$> entries)) (S (S (2 * length (frame (record_of <$> entries)))))
    (S (length entries)) HN) as (nr & Hread).
  - rewrite <- Hr. apply new_reads; [done|]. by rewrite Hr.
  - unfold reader_fuel. cbn. rewrite Hr. lia.
  - rewrite Hrec, length_fmap. lia.
  - exists nr. by rewrite Hread, Hrec.
Qed.
End writing.

(** ** Runs, on the in-memory backend *)

#[local] Existing Instance tree_order.

Definition demo_reader (d : bytes) : @Rd Mem.world nat (@ob_streams _ _ Mem.memory_backend) := Mem.mkReader d false.
Definition demo_writer (v : nat * Mem.memoryWriter) : @Wr Mem.world nat (@ob_streams _ _ Mem.memory_backend) := v.
Definition demo_content : bytes := [x61; x0d; x0a; x20; x0a; x62].

Lemma Reader_records_witness :
  exists nr, read_all 14 3 (fun _ => Mem.New) (NewReaderSize (demo_reader demo_content) 8) =
    Some (fun _ => Mem.New, nr, [[x61]; [x62]], Some (err_io EOF)).
Proof.
  destruct (Reader_records 8 (fun _ => Mem.New) (demo_reader demo_content))
    as (nr & Hread & _); [lia|reflexivity|vm_compute; split_and!; lia|].
  exists nr. exact Hread.
Defined.

(** "abcdef" is too long for a buffer of four bytes; "abcd" comes next. *)
Lemma Reader_too_long_witness :
  exists nr nr', Reader_Read 10 (fun _ => Mem.New)
      (NewReaderSize (demo_reader [x61; x62; x63; x64; x65; x66; x0a; x78]) 4) =
      Some (fun _ => Mem.New, nr, Err ErrTooLong) /\
    Reader_Read 1 (fun _ => Mem.New) nr = Some (fun _ => Mem.New, nr', Ok [x61; x62; x63; x64]).
Proof.
  destruct (Reader_too_long 4 (fun _ => Mem.New)
    (demo_reader [x61; x62; x63; x64; x65; x66; x0a; x78])) as (nr & nr' & H1 & H2);
    [lia|reflexivity|cbn; lia| |reflexivity|].
  - cbn. rewrite !not_elem_of_cons. repeat split; try discriminate. apply not_elem_of_nil.
  - exists nr, nr'. split; [exact H1|apply (H2 0)].
Defined.

Lemma ndjson_roundtrip_witness :
  exists v : nat * Mem.memoryWriter, ObjectBackend.NewWriter None (fun _ => Mem.New) 0 "log" [] = (fun _ => Mem.New, Ok v) /\
  exists nw w' nw', write_entries (fun _ => Mem.New) (NewWriterSize (demo_writer v) 3) [(false, [x61; x62]); (true, [x63; x20; x0a])] =
      Some (fun _ => Mem.New, nw, None) /\
    Writer_Close 7 (fun _ => Mem.New) nw = (w', nw', None) /\
    files w' 0 !! "log" = Some [x61; x62; x0a; x63; x0a].
Proof.
  destruct (ndjson_roundtrip (W := Mem.world) (B := nat) 0 "log" 7 (fun _ => Mem.New) "log" [] 3 4 [(false, [x61; x62]); (true, [x63; x20; x0a])])
    as (v & Hv & nw & w' & nw' & Hw & Hc & Hst & _).
  - split; [done|by eexists].
  - reflexivity.
  - lia.
  - apply Forall_cons; split; [|apply Forall_cons; split; [|constructor]]; (split_and!; [|reflexivity|reflexivity|vm_compute; lia]);
      apply (bool_decide_eq_true_1 _); vm_compute; reflexivity.
  - exists v. split; [exact Hv|]. exists nw, w', nw'. split; [exact Hw|]. split; [exact Hc|]. by rewrite (proj2 Hst).
Defined.
