(* ===== verification/Channel.v ===== *)
(** * object/backend/channel/backend.go: Go channels as objects

    A path names a channel of messages.  The channel infos are shared, so they live in a list
    that the map of paths, the writers and the readers point into.  A Go channel is a queue
    with a capacity: a send waits for room, a receive for a message or for the close, and a
    send on a closed channel panics.  Each operation is cut where it lets its locks go.
    Messages are values; Broadcast sends one slice of its caller to all, who may not change it. *)

From S2P Require Import Prelude GoLib Errors ObjectTypes Bufio.

Module Chan.

Record channelInfo := mkInfo { queue : list bytes; i_closed : bool; buffered : list bytes }.

(** [channels] is [None] once it is nil. *)
Record Backend := mkBackend {
  channels : option (gmap string nat);
  infos : list channelInfo;
  bufferSize : nat;
  persistent : bool;
  b_closed : bool
}.

(** ** Construction *)

Definition WithBufferSize (size : nat) (b : Backend) : Backend :=
  mkBackend b.(channels) b.(infos) size b.(persistent) b.(b_closed).
Definition WithPersistence (enabled : bool) (b : Backend) : Backend :=
  mkBackend b.(channels) b.(infos) b.(bufferSize) enabled b.(b_closed).

Definition New (opts : list (Backend -> Backend)) : Backend :=
  fold_left (fun b opt => opt b) opts (mkBackend (Some ∅) [] 100 false false).

(** [fmt.Sscanf(s, "%d", &size)]: spaces other than newlines, a sign, digits; what follows is
    not looked at. *)
Definition digit (c : byte) : option Z :=
  let n := Z.of_N (Byte.to_N c) in if ((48 <=? n) && (n <=? 57))%Z then Some (n - 48)%Z else None.

Fixpoint digits (acc : Z) (some : bool) (data : bytes) : option Z :=
  match data with
  | [] => if some then Some acc else None
  | c :: data => match digit c with Some d => digits (acc * 10 + d) true data | None => if some then Some acc else None end
  end.

Fixpoint skip_space (n : nat) (data : bytes) : option bytes :=
  match n with
  | 0 => Some data
  | S n =>
      match data with
      | x0a :: _ => None
      | _ => match cut_space data with Some rest => skip_space n rest | None => Some data end
      end
  end.

Definition Sscanf_d (s : string) : option Z :=
  let data := bytes_of_string s in
  data ← skip_space (length data) data;
  z ← match data with
      | x2b :: data => digits 0 false data
      | x2d :: data => Z.opp <$> digits 0 false data
      | _ => digits 0 false data
      end;
  if ((- two63 <=? z) && (z <? two63))%Z then Some z else None.

Definition NewFromConfig (config : gmap string string) : Backend :=
  let opts := match config !! "buffer_size" ≫= Sscanf_d with
              | Some size => if (0 <? size)%Z then [WithBufferSize (Z.to_nat size)] else []
              | None => []
              end in
  let opts := match config !! "persistent" with
              | Some s => if bool_decide (s = "true") || bool_decide (s = "1") then opts ++ [WithPersistence true] else opts
              | None => opts
              end in
  New opts.

(** ** Shared state *)

Definition set_infos (l : list channelInfo) (b : Backend) : Backend :=
  mkBackend b.(channels) l b.(bufferSize) b.(persistent) b.(b_closed).
Definition on_info (i : nat) (f : channelInfo -> channelInfo) (b : Backend) : Backend :=
  set_infos (alter f i b.(infos)) b.

Definition enqueue (d : bytes) (c : channelInfo) : channelInfo := mkInfo (c.(queue) ++ [d]) c.(i_closed) c.(buffered).
Definition dequeue (c : channelInfo) : channelInfo := mkInfo (tail c.(queue)) c.(i_closed) c.(buffered).
Definition keep (d : bytes) (c : channelInfo) : channelInfo := mkInfo c.(queue) c.(i_closed) (c.(buffered) ++ [d]).
(** [if !info.closed { close(info.ch); info.closed = true }] *)
Definition close_info (c : channelInfo) : channelInfo := mkInfo c.(queue) true c.(buffered).

Definition checkClosed (b : Backend) : option error :=
  if b.(b_closed) then Some (err_object ObjErrBackendClosed) else None.

(** The tests each method starts with. *)
Definition checks (ctx : context) (b : Backend) : option error :=
  match checkClosed b with Some e => Some e | None => ctx_err ctx end.

(** [None] is the panic of an assignment to the nil map. *)
Definition getOrCreateChannel (path : string) (b : Backend) : option (Backend * nat) :=
  match b.(channels) ≫= (.!! path) with
  | Some i => Some (b, i)
  | None =>
      m ← b.(channels);
      let i := length b.(infos) in
      Some (mkBackend (Some (<[path := i]> m)) (b.(infos) ++ [mkInfo [] false []]) b.(bufferSize) b.(persistent) b.(b_closed), i)
  end.

(** ** Writers *)

Record channelWriter := mkWriter { w_info : nat; w_path : string; w_closed : bool }.

Definition NewWriter_checks (ctx : context) (path : string) (b : Backend) : option error :=
  onerr e <- checks ctx b return Some e else
  if decide (path = "") then Some (err_object ObjErrInvalidPath) else None.

Definition NewWriter (ctx : context) (path : string) (b : Backend) : option (Backend * result error channelWriter) :=
  onerr e <- NewWriter_checks ctx path b return Some (b, Err e) else
  '(b, i) ← getOrCreateChannel path b;
  Some (b, Ok (mkWriter i path false)).

(** The first part of [Write]: the tests, and the data kept for late readers. *)
Definition Write_keep (ctx : context) (w : channelWriter) (p : bytes) (b : Backend) : Backend * option error :=
  if w.(w_closed) then (b, Some (err_object ObjErrWriterClosed))
  else
    onerr e <- ctx_err ctx return (b, Some e) else
    (if b.(persistent) then on_info w.(w_info) (keep p) b else b, None).

(** The test of the channel. *)
Definition Write_check (w : channelWriter) (b : Backend) : option error :=
  match b.(infos) !! w.(w_info) with
  | Some info => if info.(i_closed) then Some (err_io ErrClosedPipe) else None
  | None => None
  end.

Inductive sending := Sent | SendPanic | SendBlocked.

(** The send: it waits while the queue is full and panics on a closed channel. *)
Definition send (i : nat) (p : bytes) (b : Backend) : Backend * sending :=
  match b.(infos) !! i with
  | None => (b, SendBlocked)
  | Some info =>
      if info.(i_closed) then (b, SendPanic)
      else if length info.(queue) <? b.(bufferSize) then (on_info i (enqueue p) b, Sent)
      else (b, SendBlocked)
  end.

(** A [Write] that nothing interrupts: the bytes written and the error; [None] when it waits
    for a reader. *)
Definition Write (ctx : context) (w : channelWriter) (p : bytes) (b : Backend) : option (Backend * nat * option error) :=
  let '(b, e) := Write_keep ctx w p b in
  onerr e <- e return Some (b, 0, Some e) else
  onerr e <- Write_check w b return Some (b, 0, Some e) else
  match send w.(w_info) p b with
  | (b, Sent) => Some (b, length p, None)
  | _ => None
  end.

Definition Writer_Close (w : channelWriter) (b : Backend) : Backend * channelWriter :=
  if w.(w_closed) then (b, w)
  else (on_info w.(w_info) close_info b, mkWriter w.(w_info) w.(w_path) true).

(** ** Readers *)

(** [current[offset:]] is all that is read of a message; [buffer] is what is replayed. *)
Record channelReader := mkReader { r_info : nat; r_path : string; r_buffer : bytes; r_current : bytes; r_closed : bool }.

(** Its two lock regions are one step. *)
Definition NewReader (ctx : context) (path : string) (b : Backend) : option (Backend * result error channelReader) :=
  onerr e <- NewWriter_checks ctx path b return Some (b, Err e) else
  '(b, i) ← getOrCreateChannel path b;
  let replay := match b.(infos) !! i with Some info => if b.(persistent) then concat info.(buffered) else [] | None => [] end in
  Some (b, Ok (mkReader i path replay [] false)).

Definition set_current (d : bytes) (r : channelReader) : channelReader :=
  mkReader r.(r_info) r.(r_path) r.(r_buffer) d r.(r_closed).
Definition set_buffer (d : bytes) (r : channelReader) : channelReader :=
  mkReader r.(r_info) r.(r_path) d r.(r_current) r.(r_closed).

(** What [Read] does before it looks at the channel, into a buffer of [n] bytes. *)
Definition Read_local (ctx : context) (n : nat) (r : channelReader) : option (channelReader * bytes * option error) :=
  if r.(r_closed) then Some (r, [], Some (err_object ObjErrReaderClosed))
  else
    onerr e <- ctx_err ctx return Some (r, [], Some e) else
    if bool_decide (r.(r_buffer) <> []) then Some (set_buffer (drop n r.(r_buffer)) r, take n r.(r_buffer), None)
    else if bool_decide (r.(r_current) <> []) then Some (set_current (drop n r.(r_current)) r, take n r.(r_current), None)
    else None.

(** [None] when it waits for a message. *)
Definition Read (ctx : context) (n : nat) (r : channelReader) (b : Backend)
    : option (Backend * channelReader * bytes * option error) :=
  match Read_local ctx n r with
  | Some (r, chunk, e) => Some (b, r, chunk, e)
  | None =>
      info ← b.(infos) !! r.(r_info);
      match info.(queue) with
      | d :: _ => Some (on_info r.(r_info) dequeue b, set_current (drop n d) r, take n d, None)
      | [] => if info.(i_closed) then Some (b, r, [], Some (err_io EOF)) else None
      end
  end.

Definition Reader_Close (r : channelReader) : channelReader := mkReader r.(r_info) r.(r_path) r.(r_buffer) r.(r_current) true.

(** ** The other methods *)

Definition Exists (ctx : context) (path : string) (b : Backend) : result error bool :=
  onerr e <- checks ctx b return Err e else
  Ok (bool_decide (is_Some (b.(channels) ≫= (.!! path)))).

Definition Delete (ctx : context) (path : string) (b : Backend) : Backend * option error :=
  onerr e <- checks ctx b return (b, Some e) else
  match b.(channels) ≫= (.!! path) with
  | Some i =>
      (mkBackend (delete path <$> b.(channels)) (alter close_info i b.(infos)) b.(bufferSize) b.(persistent) b.(b_closed), None)
  | None => (b, None)
  end.

Definition List `{MapOrder} (ctx : context) (prefix : string) (b : Backend) : result error (list string) :=
  onerr e <- checks ctx b return Err e else
  let paths := match b.(channels) with Some m => range_keys m | None => [] end in
  Ok (sort_strings (filter (fun p => prefix = "" \/ HasPrefix p prefix = true) paths)).

Definition Close `{MapOrder} (b : Backend) : Backend :=
  if b.(b_closed) then b
  else
    let ids := match b.(channels) with Some m => (range m).*2 | None => [] end in
    mkBackend None (fold_left (fun l i => alter close_info i l) ids b.(infos)) b.(bufferSize) b.(persistent) true.

(** [Broadcast]; when the context is done, [select] may take either side ([pick]). *)
Fixpoint broadcast_loop (ctx : context) (pick : nat -> bool) (prefix : string) (data : bytes) (l : list (string * nat)) (b : Backend)
    : Backend * option error :=
  match l with
  | [] => (b, None)
  | (path, i) :: l =>
      let next := broadcast_loop ctx pick prefix data l in
      if bool_decide (prefix = "" \/ HasPrefix path prefix = true) then
        match b.(infos) !! i with
        | Some info =>
            if info.(i_closed) then next b
            else
              match ctx_err ctx, send i data b with
              | Some e, (b', Sent) => if pick (length l) then (b, Some e) else next b'
              | Some e, (b', _) => (b, Some e)
              | None, (b', _) => next b'
              end
        | None => next b
        end
      else next b
  end.

Definition Broadcast `{MapOrder} (ctx : context) (pick : nat -> bool) (prefix : string) (data : bytes) (b : Backend)
    : Backend * option error :=
  onerr e <- checkClosed b return (b, Some e) else
  broadcast_loop ctx pick prefix data (match b.(channels) with Some m => range m | None => [] end) b.

Definition ChannelCount (b : Backend) : nat := match b.(channels) with Some m => size m | None => 0 end.

(** ** The machine

    Writers and readers share a backend.  A writer holds its mutex from the start of a [Write]
    to its end, and is meanwhile at one of the two stops below; a panic ends the program. *)

Inductive stop := Idle | Kept (p : bytes) | Checked (p : bytes).

Record sys := mkSys {
  bk : Backend;
  writers : list (channelWriter * stop);
  readers : list channelReader;
  panicked : bool
}.

Definition start (opts : list (Backend -> Backend)) : sys := mkSys (New opts) [] [] false.

(** Calls and their continuations.  [LSend] is also what [Broadcast] does to a channel, with no
    writer; [LHandoff] is a send that meets a waiting receiver, as on a channel without room. *)
Inductive label :=
  | LNewWriter (ctx : context) (path : string)
  | LNewReader (ctx : context) (path : string)
  | LDelete (ctx : context) (path : string)
  | LClose
  | LWrite (i : nat) (ctx : context) (p : bytes)
  | LCheck (i : nat)
  | LSend (i : nat)
  | LGiveUp (i : nat)
  | LOffer (k : nat) (data : bytes)
  | LCloseWriter (i : nat)
  | LRead (j : nat) (ctx : context) (n : nat)
  | LHandoff (i j n : nat)
  | LCloseReader (j : nat).

(** What can be seen: message [d] went into channel [k], reader [j] took it out, a [Read] of [j]
    returned [c], reader [j] was opened with [c] to replay. *)
Inductive event :=
  | EvSent (k : nat) (d : bytes)
  | EvReceived (j k : nat) (d : bytes)
  | EvRead (j : nat) (c : bytes)
  | EvOpened (j : nat) (c : bytes).

Definition set_bk (b : Backend) (s : sys) : sys := mkSys b s.(writers) s.(readers) s.(panicked).
Definition set_writer (i : nat) (w : channelWriter * stop) (s : sys) : sys :=
  mkSys s.(bk) (<[i := w]> s.(writers)) s.(readers) s.(panicked).
Definition set_reader (j : nat) (r : channelReader) (s : sys) : sys :=
  mkSys s.(bk) s.(writers) (<[j := r]> s.(readers)) s.(panicked).
Definition crash (s : sys) : sys := mkSys s.(bk) s.(writers) s.(readers) true.

Definition do_send (k : nat) (p : bytes) (s : sys) (go_on : sys -> sys) (wait : option (sys * list event)) : option (sys * list event) :=
  match send k p s.(bk) with
  | (b, Sent) => Some (go_on (set_bk b s), [EvSent k p])
  | (_, SendPanic) => Some (crash s, [])
  | (_, SendBlocked) => wait
  end.

(** [None] when the step is not enabled. *)
Definition exec `{MapOrder} (s : sys) (l : label) : option (sys * list event) :=
  if s.(panicked) then None
  else
    match l with
    | LNewWriter ctx path =>
        match NewWriter ctx path s.(bk) with
        | None => Some (crash s, [])
        | Some (b, Err _) => Some (set_bk b s, [])
        | Some (b, Ok w) => Some (mkSys b (s.(writers) ++ [(w, Idle)]) s.(readers) false, [])
        end
    | LNewReader ctx path =>
        match NewReader ctx path s.(bk) with
        | None => Some (crash s, [])
        | Some (b, Err _) => Some (set_bk b s, [])
        | Some (b, Ok r) => Some (mkSys b s.(writers) (s.(readers) ++ [r]) false, [EvOpened (length s.(readers)) r.(r_buffer)])
        end
    | LDelete ctx path => Some (set_bk (Delete ctx path s.(bk)).1 s, [])
    | LClose => Some (set_bk (Close s.(bk)) s, [])
    | LWrite i ctx p =>
        '(w, stop) ← s.(writers) !! i;
        match stop with
        | Idle =>
            match Write_keep ctx w p s.(bk) with
            | (b, Some _) => Some (set_bk b s, [])
            | (b, None) => Some (set_writer i (w, Kept p) (set_bk b s), [])
            end
        | _ => None
        end
    | LCheck i =>
        '(w, stop) ← s.(writers) !! i;
        match stop with
        | Kept p =>
            match Write_check w s.(bk) with
            | Some _ => Some (set_writer i (w, Idle) s, [])
            | None => Some (set_writer i (w, Checked p) s, [])
            end
        | _ => None
        end
    | LSend i =>
        '(w, stop) ← s.(writers) !! i;
        match stop with
        | Checked p => do_send w.(w_info) p s (set_writer i (w, Idle)) None
        | _ => None
        end
    | LGiveUp i =>
        '(w, stop) ← s.(writers) !! i;
        match stop with Checked _ => Some (set_writer i (w, Idle) s, []) | _ => None end
    | LOffer k data => do_send k data s id (Some (s, []))
    | LCloseWriter i =>
        '(w, stop) ← s.(writers) !! i;
        match stop with
        | Idle => let '(b, w) := Writer_Close w s.(bk) in Some (set_writer i (w, Idle) (set_bk b s), [])
        | _ => None
        end
    | LRead j ctx n =>
        r ← s.(readers) !! j;
        '(b, r', c, e) ← Read ctx n r s.(bk);
        Some (set_reader j r' (set_bk b s),
              match Read_local ctx n r, s.(bk).(infos) !! r.(r_info) ≫= (fun info => head info.(queue)) with
              | None, Some d => [EvReceived j r.(r_info) d; EvRead j c]
              | _, _ => [EvRead j c]
              end)
    | LHandoff i j n =>
        '(w, stop) ← s.(writers) !! i;
        r ← s.(readers) !! j;
        info ← s.(bk).(infos) !! r.(r_info);
        match stop, Read_local None n r, info.(queue), info.(i_closed) with
        | Checked d, None, [], false =>
            if decide (w.(w_info) = r.(r_info)) then
              Some (set_writer i (w, Idle) (set_reader j (set_current (drop n d) r) s),
                    [EvSent r.(r_info) d; EvReceived j r.(r_info) d; EvRead j (take n d)])
            else None
        | _, _, _, _ => None
        end
    | LCloseReader j => r ← s.(readers) !! j; Some (set_reader j (Reader_Close r) s, [])
    end.

Fixpoint run `{MapOrder} (s : sys) (ls : list label) : option (sys * list event) :=
  match ls with
  | [] => Some (s, [])
  | l :: ls =>
      '(s, ev) ← exec s l;
      '(s, evs) ← run s ls;
      Some (s, ev ++ evs)
  end.

(** ** What the machine conserves *)

Definition sent (k : nat) (evs : list event) : list bytes :=
  omap (fun e => match e with EvSent k' d => if decide (k' = k) then Some d else None | _ => None end) evs.
Definition received (k : nat) (evs : list event) : list bytes :=
  omap (fun e => match e with EvReceived _ k' d => if decide (k' = k) then Some d else None | _ => None end) evs.
Definition received_by (j : nat) (evs : list event) : list bytes :=
  omap (fun e => match e with EvReceived j' _ d => if decide (j' = j) then Some d else None | _ => None end) evs.
Definition read_by (j : nat) (evs : list event) : list bytes :=
  omap (fun e => match e with EvRead j' c => if decide (j' = j) then Some c else None | _ => None end) evs.
Definition opened_with (j : nat) (evs : list event) : list bytes :=
  omap (fun e => match e with EvOpened j' c => if decide (j' = j) then Some c else None | _ => None end) evs.

Definition queues (b : Backend) (k : nat) : list bytes := match b.(infos) !! k with Some info => info.(queue) | None => [] end.
(** What reader [j] has taken and not returned yet. *)
Definition leftover (s : sys) (j : nat) : bytes :=
  match s.(readers) !! j with Some r => r.(r_buffer) ++ r.(r_current) | None => [] end.

(** Per channel, what was sent is what was received, in order, and then what is queued; the queue
    is within its capacity.  Per reader, what it was given is what it returned, in order, and
    then what it has left. *)
Record conserved (s : sys) (evs : list event) : Prop := {
  c_fifo : forall k, sent k evs = received k evs ++ queues s.(bk) k;
  c_room : forall k, length (queues s.(bk) k) <= s.(bk).(bufferSize);
  c_stream : forall j, concat (opened_with j evs) ++ concat (received_by j evs) = concat (read_by j evs) ++ leftover s j;
  c_fresh : forall j, length s.(readers) <= j -> opened_with j evs = [] /\ received_by j evs = [] /\ read_by j evs = []
}.

(** Two backends with the same queues. *)
Definition same_queues (b b' : Backend) : Prop := (forall k, queues b' k = queues b k) /\ b'.(bufferSize) = b.(bufferSize).

Lemma alter_queues f (l : list channelInfo) i k :
  (forall c, (f c).(queue) = c.(queue)) -> queue <$> alter f i l !! k = queue <$> l !! k.
Proof. intros Hf. destruct (decide (i = k)) as [->|Hne]; [rewrite list_lookup_alter_eq; destruct (l !! k); cbn; by rewrite ?Hf|by rewrite list_lookup_alter_ne]. Qed.

Lemma queues_fmap b k : queues b k = default [] (queue <$> b.(infos) !! k).
Proof. unfold queues. by destruct (infos b !! k). Qed.

Lemma same_queues_on i f b : (forall c, (f c).(queue) = c.(queue)) -> same_queues b (on_info i f b).
Proof. intros Hf. split; [|done]. intros k. rewrite !queues_fmap. cbn. by rewrite alter_queues. Qed.

Lemma same_queues_refl b : same_queues b b.
Proof. done. Qed.

Lemma getOrCreate_queues path b b' i : getOrCreateChannel path b = Some (b', i) -> same_queues b b'.
Proof.
  unfold getOrCreateChannel. destruct (b.(channels) ≫= (.!! path)) as [i'|]; [by intros [= -> _]|].
  destruct b.(channels) as [m|]; [|done]. cbn. intros [= <- _]. split; [|done]. intros k. unfold queues. cbn.
  destruct (decide (k < length b.(infos))) as [Hlt|Hge]; [by rewrite lookup_app_l|].
  rewrite lookup_app_r, (lookup_ge_None_2 b.(infos)) by lia. by destruct (k - _) as [|[|]].
Qed.

Lemma Delete_queues ctx path b : same_queues b (Delete ctx path b).1.
Proof.
  unfold Delete. destruct (checks ctx b); [done|]. destruct (b.(channels) ≫= _) as [i|]; [|done]. split; [|done].
  intros k. rewrite !queues_fmap. cbn. by rewrite alter_queues.
Qed.

Lemma Close_queues `{MapOrder} b : same_queues b (Close b).
Proof.
  unfold Close. destruct b.(b_closed); [done|]. split; [|done]. intros k. rewrite !queues_fmap. cbn.
  set (ids := match b.(channels) with Some m => (range m).*2 | None => [] end). clearbody ids.
  generalize b.(infos) as l. induction ids as [|i ids IH]; intros l; [done|]. cbn [fold_left]. by rewrite IH, alter_queues.
Qed.

Lemma Write_keep_queues ctx w p b : same_queues b (Write_keep ctx w p b).1.
Proof.
  unfold Write_keep. destruct w.(w_closed); [done|]. destruct (ctx_err ctx); [done|]. cbn. destruct b.(persistent); [|done].
  by apply same_queues_on.
Qed.

Lemma Writer_Close_queues w b : same_queues b (Writer_Close w b).1.
Proof. unfold Writer_Close. destruct w.(w_closed); [done|]. by apply same_queues_on. Qed.

Lemma NewWriter_queues ctx path b b' res : NewWriter ctx path b = Some (b', res) -> same_queues b b'.
Proof.
  unfold NewWriter. destruct (NewWriter_checks ctx path b); [by intros [= -> _]|].
  destruct (getOrCreateChannel path b) as [[b1 i]|] eqn:Hg; [|done]. cbn. intros [= <- _]. by eapply getOrCreate_queues.
Qed.

Lemma NewReader_queues ctx path b b' res :
  NewReader ctx path b = Some (b', res) -> same_queues b b' /\ forall r, res = Ok r -> r.(r_current) = [].
Proof.
  unfold NewReader. destruct (NewWriter_checks ctx path b); [by intros [= -> <-]|].
  destruct (getOrCreateChannel path b) as [[b1 i]|] eqn:Hg; [|done]. cbn. intros [= <- <-]. split; [by eapply getOrCreate_queues|].
  by intros r [= <-].
Qed.

Lemma send_queues k p b b' : send k p b = (b', Sent) ->
  (forall i, queues b' i = queues b i ++ (if decide (k = i) then [p] else [])) /\ b'.(bufferSize) = b.(bufferSize) /\
  length (queues b k) < b.(bufferSize).
Proof.
  unfold send, queues. destruct (b.(infos) !! k) as [info|] eqn:Hk; [|done]. destruct info.(i_closed); [done|].
  destruct (Nat.ltb_spec (length info.(queue)) b.(bufferSize)) as [Hlt|]; [|done]. intros [= <-]. split_and!; [|done|done].
  intros i. cbn. case_decide as Heq; [subst i; rewrite list_lookup_alter_eq, Hk; done|].
  rewrite list_lookup_alter_ne by done. destruct (infos b !! i); by rewrite app_nil_r.
Qed.

Ltac per_event := unfold sent, received, received_by, read_by, opened_with; rewrite !omap_app; cbn [omap list_omap].

Lemma conserved_quiet s s' evs :
  same_queues s.(bk) s'.(bk) -> (forall j, leftover s' j = leftover s j) -> length s.(readers) <= length s'.(readers) ->
  conserved s evs -> conserved s' (evs ++ []).
Proof.
  intros [Hq Hb] Hl Hn [H1 H2 H3 H4]. rewrite app_nil_r. split.
  - intros k. by rewrite Hq.
  - intros k. by rewrite Hq, Hb.
  - intros j. by rewrite Hl.
  - intros j Hj. apply H4. lia.
Qed.

Lemma conserved_send s s' evs k p b :
  send k p s.(bk) = (b, Sent) -> s'.(bk) = b -> s'.(readers) = s.(readers) -> conserved s evs -> conserved s' (evs ++ [EvSent k p]).
Proof.
  intros Hsend Hbk Hr [H1 H2 H3 H4]. apply send_queues in Hsend as (Hq & Hb & Hroom). split.
  - intros i. rewrite Hbk, Hq. per_event. specialize (H1 i). unfold sent, received in H1. rewrite H1, app_nil_r, <- app_assoc.
    by case_decide.
  - intros i. rewrite Hbk, Hb, Hq, length_app. specialize (H2 i). case_decide; subst; cbn; lia.
  - intros j. unfold leftover. rewrite Hr. per_event. rewrite !app_nil_r. apply H3.
  - intros j. rewrite Hr. per_event. rewrite !app_nil_r. apply H4.
Qed.

Lemma leftover_set_reader s b j r r' j' :
  s.(readers) !! j = Some r ->
  leftover (set_reader j r' (set_bk b s)) j' = if decide (j = j') then r'.(r_buffer) ++ r'.(r_current) else leftover s j'.
Proof.
  intros Hj. unfold leftover. cbn. case_decide as Heq.
  - subst j'. by rewrite list_lookup_insert_eq by (by eapply lookup_lt_Some).
  - by rewrite list_lookup_insert_ne.
Qed.

Lemma conserved_read s evs j r r' b c :
  s.(readers) !! j = Some r -> same_queues s.(bk) b -> r.(r_buffer) ++ r.(r_current) = c ++ r'.(r_buffer) ++ r'.(r_current) ->
  conserved s evs -> conserved (set_reader j r' (set_bk b s)) (evs ++ [EvRead j c]).
Proof.
  intros Hj [Hq Hb] Hc [H1 H2 H3 H4]. split.
  - intros k. per_event. rewrite !app_nil_r. cbn. rewrite Hq. apply H1.
  - intros k. cbn. rewrite Hq, Hb. apply H2.
  - intros j'. rewrite (leftover_set_reader s b j r r' j' Hj). per_event. rewrite !app_nil_r. specialize (H3 j').
    unfold opened_with, received_by, read_by in H3. rewrite H3, concat_app. case_decide as Heq.
    + subst j'. unfold leftover. rewrite Hj. cbn. by rewrite app_nil_r, <- app_assoc, Hc.
    + cbn. by rewrite app_nil_r.
  - intros j' Hj'. cbn in Hj'. rewrite length_insert in Hj'. destruct (H4 j' Hj') as (E1 & E2 & E3). per_event.
    rewrite !decide_False by (intros <-; apply lookup_lt_Some in Hj; lia). by rewrite !app_nil_r.
Qed.

(** A message [d] that passes from the head of a queue to reader [j], which returns [c] of it. *)
Lemma conserved_receive s evs j k r r' b c d :
  s.(readers) !! j = Some r -> (forall i, queues s.(bk) i = (if decide (k = i) then [d] else []) ++ queues b i) ->
  b.(bufferSize) = s.(bk).(bufferSize) -> r.(r_buffer) ++ r.(r_current) = [] -> d = c ++ r'.(r_buffer) ++ r'.(r_current) ->
  conserved s evs -> conserved (set_reader j r' (set_bk b s)) (evs ++ [EvReceived j k d; EvRead j c]).
Proof.
  intros Hj Hq Hb Hl Hd [H1 H2 H3 H4]. split.
  - intros i. per_event. specialize (H1 i). unfold sent, received in H1. rewrite app_nil_r, H1, Hq, <- app_assoc. cbn. by case_decide.
  - intros i. cbn. specialize (H2 i). rewrite Hq, length_app in H2. rewrite Hb. lia.
  - intros j'. rewrite (leftover_set_reader s b j r r' j' Hj). specialize (H3 j'). unfold opened_with, received_by, read_by in *. per_event.
    rewrite app_nil_r, !concat_app, app_assoc, H3. case_decide as Heq.
    + subst j'. unfold leftover. rewrite Hj, Hl. cbn. rewrite !app_nil_r. by rewrite Hd, <- app_assoc.
    + cbn. by rewrite !app_nil_r.
  - intros j' Hj'. cbn in Hj'. rewrite length_insert in Hj'. destruct (H4 j' Hj') as (E1 & E2 & E3). per_event.
    rewrite !decide_False by (intros <-; apply lookup_lt_Some in Hj; lia). by rewrite !app_nil_r.
Qed.

Lemma conserved_open s evs b r :
  same_queues s.(bk) b -> r.(r_current) = [] -> conserved s evs ->
  conserved (mkSys b s.(writers) (s.(readers) ++ [r]) false) (evs ++ [EvOpened (length s.(readers)) r.(r_buffer)]).
Proof.
  intros [Hq Hb] Hc [H1 H2 H3 H4]. split.
  - intros k. per_event. rewrite !app_nil_r. cbn. rewrite Hq. apply H1.
  - intros k. cbn. rewrite Hq, Hb. apply H2.
  - intros j. specialize (H3 j). unfold leftover in *. unfold opened_with, received_by, read_by in *. per_event. cbn [readers].
    rewrite !app_nil_r. case_decide as Heq.
    + subst j. destruct (H4 (length s.(readers))) as (E1 & E2 & E3); [lia|]. unfold opened_with, received_by, read_by in *.
      rewrite E1, E2, E3, list_lookup_middle by done. cbn. by rewrite Hc, !app_nil_r.
    + rewrite app_nil_r, H3. f_equal. destruct (decide (j < length s.(readers))); [by rewrite lookup_app_l|].
      rewrite (lookup_ge_None_2 s.(readers)), lookup_ge_None_2 by (rewrite ?length_app; cbn; lia). done.
  - intros j Hj. cbn in Hj. rewrite length_app in Hj. cbn in Hj. destruct (H4 j) as (E1 & E2 & E3); [lia|]. per_event.
    rewrite !decide_False by lia. by rewrite !app_nil_r.
Qed.

Lemma Read_local_stream ctx n r r' c e :
  Read_local ctx n r = Some (r', c, e) -> r.(r_buffer) ++ r.(r_current) = c ++ r'.(r_buffer) ++ r'.(r_current).
Proof.
  unfold Read_local. destruct r.(r_closed); [by intros [= <- <- _]|]. destruct (ctx_err ctx); [by intros [= <- <- _]|].
  case_bool_decide as Hb; [intros [= <- <- _]; cbn; by rewrite app_assoc, take_drop|].
  case_bool_decide as Hc; [|done]. intros [= <- <- _]. cbn. rewrite Hb. cbn. by rewrite take_drop.
Qed.

Lemma Read_local_None ctx n r : Read_local ctx n r = None -> r.(r_buffer) = [] /\ r.(r_current) = [] /\ r.(r_closed) = false.
Proof.
  unfold Read_local. destruct r.(r_closed); [done|]. destruct (ctx_err ctx); [done|]. case_bool_decide as Hb; [done|].
  case_bool_decide as Hc; [done|]. done.
Qed.

Lemma conserved_LRead s evs j ctx n r b r' c e :
  s.(readers) !! j = Some r -> Read ctx n r s.(bk) = Some (b, r', c, e) -> conserved s evs ->
  conserved (set_reader j r' (set_bk b s)) (evs ++
    match Read_local ctx n r, s.(bk).(infos) !! r.(r_info) ≫= (fun info => head info.(queue)) with
    | None, Some d => [EvReceived j r.(r_info) d; EvRead j c]
    | _, _ => [EvRead j c]
    end).
Proof.
  intros Hj Hread Hs. unfold Read in Hread. destruct (Read_local ctx n r) as [[[r1 c1] e1]|] eqn:Hloc.
  { injection Hread as <- <- <- _. apply (conserved_read s evs j r); [done..| |done]. by eapply Read_local_stream. }
  destruct (Read_local_None _ _ _ Hloc) as (Hb & Hc & _). destruct (s.(bk).(infos) !! r.(r_info)) as [info|] eqn:Hinfo; [|done].
  cbn [mbind option_bind] in *. destruct info.(queue) as [|d q] eqn:Hq; cbn [head hd_error].
  - destruct info.(i_closed); [|done]. injection Hread as <- <- <- _. by apply (conserved_read s evs j r).
  - injection Hread as <- <- <- _. apply (conserved_receive s evs j r.(r_info) r); [done| |done|by rewrite Hb, Hc| |done].
    + intros i. unfold queues. cbn. destruct (decide (r.(r_info) = i)) as [<-|Hne].
      * rewrite list_lookup_alter_eq, Hinfo. cbn. by rewrite Hq.
      * by rewrite list_lookup_alter_ne.
    + cbn. rewrite Hb. cbn. by rewrite take_drop.
Qed.

Lemma conserved_LHandoff s evs i j n w r d info :
  s.(writers) !! i = Some (w, Checked d) -> s.(readers) !! j = Some r -> s.(bk).(infos) !! r.(r_info) = Some info ->
  Read_local None n r = None -> info.(queue) = [] -> conserved s evs ->
  conserved (set_writer i (w, Idle) (set_reader j (set_current (drop n d) r) s))
    (evs ++ [EvSent r.(r_info) d; EvReceived j r.(r_info) d; EvRead j (take n d)]).
Proof.
  intros Hi Hj Hinfo Hloc Hq Hs. destruct (Read_local_None _ _ _ Hloc) as (Hb & Hc & _).
  change [EvSent r.(r_info) d; EvReceived j r.(r_info) d; EvRead j (take n d)]
    with ([EvSent r.(r_info) d] ++ [EvReceived j r.(r_info) d; EvRead j (take n d)]). rewrite app_assoc.
  destruct Hs as [H1 H2 H3 H4].
  assert (queues s.(bk) r.(r_info) = []) as Hnil by (unfold queues; by rewrite Hinfo).
  split.
  - intros k. specialize (H1 k). per_event. unfold sent, received in H1. rewrite H1, !app_nil_r. cbn [bk set_writer set_reader].
    case_decide as Heq; [subst k|by rewrite !app_nil_r]. by rewrite Hnil, !app_nil_r.
  - exact H2.
  - intros j'. change (leftover (set_writer i (w, Idle) (set_reader j (set_current (drop n d) r) s)) j')
      with (leftover (set_reader j (set_current (drop n d) r) (set_bk s.(bk) s)) j').
    rewrite (leftover_set_reader s s.(bk) j r _ j' Hj). specialize (H3 j'). unfold opened_with, received_by, read_by in *. per_event.
    rewrite !app_nil_r, !concat_app, app_assoc, H3. case_decide as Heq.
    + subst j'. unfold leftover. rewrite Hj. cbn. rewrite Hb, Hc, !app_nil_r. cbn. by rewrite <- app_assoc, take_drop.
    + cbn. by rewrite !app_nil_r.
  - intros j' Hj'. cbn in Hj'. rewrite length_insert in Hj'. destruct (H4 j' Hj') as (E1 & E2 & E3). per_event.
    rewrite !decide_False by (intros <-; apply lookup_lt_Some in Hj; lia). by rewrite !app_nil_r.
Qed.

Lemma exec_conserved `{MapOrder} s evs l s' ev : conserved s evs -> exec s l = Some (s', ev) -> conserved s' (evs ++ ev).
Proof.
  intros Hs. unfold exec. destruct s.(panicked) eqn:Hp; [done|].
  assert (forall x evs', x = s -> conserved x evs' -> conserved (crash x) evs') as Hcrash by (intros x evs' -> []; by split).
  destruct l as [ctx path|ctx path|ctx path| |i ctx p|i|i|i|k p|i|j ctx n|i j n|j].
  - destruct (NewWriter ctx path s.(bk)) as [[b [e|w]]|] eqn:Hnw; intros [= <- <-]; [| |by apply conserved_quiet with s].
    all: apply NewWriter_queues in Hnw; by apply conserved_quiet with s.
  - destruct (NewReader ctx path s.(bk)) as [[b [r|e]]|] eqn:Hnr; intros [= <- <-]; [| |by apply conserved_quiet with s].
    + apply NewReader_queues in Hnr as [Hq Hc]. apply conserved_open; [done|by apply Hc|done].
    + apply NewReader_queues in Hnr as [Hq _]. by apply conserved_quiet with s.
  - intros [= <- <-]. apply conserved_quiet with s; try done. apply Delete_queues.
  - intros [= <- <-]. apply conserved_quiet with s; try done. apply Close_queues.
  - destruct (s.(writers) !! i) as [[w [|p0|p0]]|]; try done. cbn. pose proof (Write_keep_queues ctx w p s.(bk)) as Hq.
    destruct (Write_keep ctx w p s.(bk)) as [b [e|]]; intros [= <- <-]; by apply conserved_quiet with s.
  - destruct (s.(writers) !! i) as [[w [|p0|p0]]|]; try done. cbn.
    destruct (Write_check w s.(bk)); intros [= <- <-]; by apply conserved_quiet with s.
  - destruct (s.(writers) !! i) as [[w [|p0|p0]]|]; try done. cbn. unfold do_send. destruct (send _ _ _) as [b [| |]] eqn:Hsend; intros [= <- <-].
    + by eapply conserved_send.
    + by apply conserved_quiet with s.
  - destruct (s.(writers) !! i) as [[w [|p0|p0]]|]; try done. cbn. intros [= <- <-]. by apply conserved_quiet with s.
  - unfold do_send. destruct (send _ _ _) as [b [| |]] eqn:Hsend; intros [= <- <-].
    + by eapply conserved_send.
    + by apply conserved_quiet with s.
    + by apply conserved_quiet with s.
  - destruct (s.(writers) !! i) as [[w [|p0|p0]]|]; try done. cbn. pose proof (Writer_Close_queues w s.(bk)) as Hq.
    destruct (Writer_Close w s.(bk)) as [b w']. intros [= <- <-]. by apply conserved_quiet with s.
  - destruct (s.(readers) !! j) as [r|] eqn:Hj; [|done]. cbn [mbind option_bind].
    destruct (Read ctx n r s.(bk)) as [[[[b r'] c] e]|] eqn:Hr; [|done]. cbn [mbind option_bind]. intros [= <- <-].
    by eapply conserved_LRead.
  - destruct (s.(writers) !! i) as [[w st]|] eqn:Hi; [|done]. cbn [mbind option_bind].
    destruct (s.(readers) !! j) as [r|] eqn:Hj; [|done]. cbn [mbind option_bind].
    destruct (s.(bk).(infos) !! r.(r_info)) as [info|] eqn:Hinfo; [|done]. cbn [mbind option_bind].
    destruct st as [|p|d]; [done..|]. destruct (Read_local None n r) eqn:Hloc; [done|]. destruct info.(queue) eqn:Hq; [|done].
    destruct info.(i_closed); [done|]. case_decide; [|done]. intros [= <- <-]. by eapply conserved_LHandoff.
  - destruct (s.(readers) !! j) as [r|] eqn:Hj; [|done]. cbn. intros [= <- <-]. apply conserved_quiet with s; try done.
    + intros j'. change (leftover (set_reader j (Reader_Close r) s) j') with (leftover (set_reader j (Reader_Close r) (set_bk s.(bk) s)) j').
      rewrite (leftover_set_reader s s.(bk) j r _ j' Hj). case_decide; [subst; unfold leftover; by rewrite Hj|done].
    + cbn. by rewrite length_insert.
Qed.

Lemma run_conserved `{MapOrder} s evs ls s' evs' : conserved s evs -> run s ls = Some (s', evs') -> conserved s' (evs ++ evs').
Proof.
  revert s evs evs'. induction ls as [|l ls IH]; intros s evs evs' Hs; cbn [run]; [intros [= <- <-]; by rewrite app_nil_r|].
  destruct (exec s l) as [[s1 ev]|] eqn:Hx; [|done]. cbn [mbind option_bind].
  destruct (run s1 ls) as [[s2 ev2]|] eqn:Hr; [|done]. cbn. intros [= <- <-]. rewrite app_assoc. eapply IH; [|done]. by eapply exec_conserved.
Qed.

(** ** Draining a closed channel *)

(** A client's reads until an error ends them: the bytes and the error. *)
Fixpoint read_all (fuel n : nat) (r : channelReader) (b : Backend) : option (Backend * channelReader * bytes * option error) :=
  match fuel with
  | 0 => None
  | S fuel =>
      '(b, r, c, e) ← Read None n r b;
      match e with
      | Some e => Some (b, r, c, Some e)
      | None => '(b, r, c', e) ← read_all fuel n r b; Some (b, r, c ++ c', e)
      end
  end.

(** Enough reads: each returns a byte that is left, or takes a message. *)
Definition reads_left (r : channelReader) (q : list bytes) : nat :=
  length r.(r_buffer) + length r.(r_current) + length (concat q) + length q.

Lemma drain_ok n r b info fuel :
  0 < n -> r.(r_closed) = false -> b.(infos) !! r.(r_info) = Some info -> info.(i_closed) = true ->
  reads_left r info.(queue) < fuel ->
  exists b' r', read_all fuel n r b = Some (b', r', r.(r_buffer) ++ r.(r_current) ++ concat info.(queue), Some (err_io EOF)).
Proof.
  intros Hn. revert r b info. induction fuel as [|fuel IH]; intros r b info Hc Hi Hcl Hf; [lia|]. unfold reads_left in Hf.
  cbn [read_all]. unfold Read, Read_local. rewrite Hc. cbn [ctx_err fmap option_fmap option_map].
  destruct r.(r_buffer) as [|x buf] eqn:Hb; [rewrite (bool_decide_eq_false_2 (@nil byte <> [])) by auto|rewrite bool_decide_eq_true_2 by done].
  - destruct r.(r_current) as [|x cur] eqn:Hcur; [rewrite (bool_decide_eq_false_2 (@nil byte <> [])) by auto|rewrite bool_decide_eq_true_2 by done].
    + rewrite Hi. cbn [mbind option_bind]. destruct info.(queue) as [|d q] eqn:Hq; [rewrite Hcl; by eexists _, _|].
      destruct (IH (set_current (drop n d) r) (on_info r.(r_info) dequeue b) (dequeue info)) as (b' & r' & Hr);
        [done|cbn; by rewrite list_lookup_alter_eq, Hi|done| |].
      { unfold reads_left. cbn. rewrite Hb, Hq, length_drop. cbn in *. rewrite length_app in Hf. lia. }
      eexists b', r'. cbn [mbind option_bind]. rewrite Hr. cbn. rewrite Hb, Hq. cbn. by rewrite app_assoc, take_drop.
    + destruct (IH (set_current (drop n (x :: cur)) r) b info) as (b' & r' & Hr); [done..| |].
      { unfold reads_left. cbn [set_current r_buffer r_current]. rewrite Hb, length_drop. cbn in *. lia. }
      eexists b', r'. cbn [mbind option_bind]. rewrite Hr. cbn [mbind option_bind set_current r_buffer r_current]. rewrite Hb. cbn [app].
      by rewrite app_assoc, take_drop.
  - destruct (IH (set_buffer (drop n (x :: buf)) r) b info) as (b' & r' & Hr); [done..| |].
    { unfold reads_left. cbn [set_buffer r_buffer r_current]. rewrite length_drop. cbn in *. lia. }
    eexists b', r'. cbn [mbind option_bind]. rewrite Hr. cbn [mbind option_bind set_buffer r_buffer r_current].
    by rewrite app_assoc, take_drop.
Qed.

(** ** A writer that is done before its reader comes *)

Fixpoint write_chunks (w : channelWriter) (chunks : list bytes) (b : Backend) : option (Backend * option error) :=
  match chunks with
  | [] => Some (b, None)
  | p :: chunks =>
      '(b, _, e) ← Write None w p b;
      match e with Some e => Some (b, Some e) | None => write_chunks w chunks b end
  end.

Lemma on_info_twice i f g b : on_info i f (on_info i g b) = on_info i (f ∘ g) b.
Proof. unfold on_info, set_infos. cbn. by rewrite list_alter_alter_eq. Qed.

(** The channel after the chunks. *)
Definition filled (b : Backend) (chunks : list bytes) (info : channelInfo) : channelInfo :=
  mkInfo (info.(queue) ++ chunks) info.(i_closed) (if b.(persistent) then info.(buffered) ++ chunks else info.(buffered)).

Lemma Write_ok w p b info :
  w.(w_closed) = false -> b.(infos) !! w.(w_info) = Some info -> info.(i_closed) = false -> length info.(queue) < b.(bufferSize) ->
  Write None w p b = Some (on_info w.(w_info) (filled b [p]) b, length p, None).
Proof.
  intros Hw Hi Hc Hl. unfold Write, Write_keep. rewrite Hw. cbn [ctx_err fmap option_fmap option_map].
  destruct b.(persistent) eqn:Hp; unfold Write_check, send; cbn [on_info set_infos infos bufferSize]; rewrite ?list_lookup_alter_eq, Hi;
    cbn [fmap option_fmap option_map keep i_closed queue]; rewrite Hc, (proj2 (Nat.ltb_lt _ _) Hl); do 3 f_equal.
  - rewrite on_info_twice. unfold on_info, filled, set_infos. rewrite Hp. done.
  - unfold on_info, filled, set_infos. rewrite Hp. done.
Qed.

Lemma write_chunks_ok w chunks b info :
  w.(w_closed) = false -> b.(infos) !! w.(w_info) = Some info -> info.(i_closed) = false ->
  length info.(queue) + length chunks <= b.(bufferSize) ->
  exists b', write_chunks w chunks b = Some (b', None) /\ b'.(channels) = b.(channels) /\ b'.(persistent) = b.(persistent) /\
    b'.(b_closed) = b.(b_closed) /\ b'.(infos) !! w.(w_info) = Some (filled b chunks info).
Proof.
  intros Hw. revert b info. induction chunks as [|p chunks IH]; intros b info Hi Hc Hl.
  { exists b. split_and!; try done. rewrite Hi. unfold filled. rewrite !app_nil_r. destruct info; by destruct b.(persistent). }
  cbn [write_chunks length] in *. rewrite (Write_ok w p b info) by (done || lia). cbn [mbind option_bind].
  destruct (IH (on_info w.(w_info) (filled b [p]) b) (filled b [p] info)) as (b' & -> & H1 & H2 & H3 & H4).
  - cbn. by rewrite list_lookup_alter_eq, Hi.
  - done.
  - cbn. rewrite length_app. cbn. lia.
  - exists b'. split_and!; try done. rewrite H4. unfold filled. cbn. rewrite <- app_assoc. by destruct b.(persistent); rewrite <- ?app_assoc.
Qed.

(** ** Properties *)

Section properties.
Context `{MapOrder}.

(** Claim C19. Whatever the interleaving of writers, readers, broadcasts, deletions and closes: each
    channel passes its messages on once each and in order, those not received being queued
    within the capacity, and the bytes a reader has returned are those replayed to it and then
    those of the messages it took, in order, up to what it has still to return. *)
Theorem channel_fifo size keep_data ls s evs :
  run (start [WithBufferSize size; WithPersistence keep_data]) ls = Some (s, evs) ->
  (forall k, sent k evs = received k evs ++ queues s.(bk) k /\ length (queues s.(bk) k) <= s.(bk).(bufferSize)) /\
  forall j, concat (opened_with j evs) ++ concat (received_by j evs) = concat (read_by j evs) ++ leftover s j.
Proof.
  intros Hrun. destruct (run_conserved (start [WithBufferSize size; WithPersistence keep_data]) [] ls s evs) as [H1 H2 H3 _]; [|done|].
  - split; [done|intros [|k]; apply Nat.le_0_l|done|done].
  - split; [|exact H3]. intros k. by split; [apply H1|apply H2].
Qed.

(** A reader of a closed channel gets to the end: with any non-empty buffer, a bounded
    number of reads returns what it has left and every message queued, and then [io.EOF]. *)
Theorem closed_channel_drains n r b info :
  0 < n -> r.(r_closed) = false -> b.(infos) !! r.(r_info) = Some info -> info.(i_closed) = true ->
  exists b' r', read_all (S (reads_left r info.(queue))) n r b =
    Some (b', r', r.(r_buffer) ++ r.(r_current) ++ concat info.(queue), Some (err_io EOF)).
Proof. intros. apply drain_ok; try done. lia. Qed.

(** What a writer has written and closed, a reader that is opened later reads and then
    the end of the file, if it fits the capacity; on a persistent backend the reader gets
    everything twice, replayed and again from the channel. *)
Theorem late_reader size keep_data path chunks n :
  path <> "" -> length chunks <= size -> 0 < n ->
  exists b1 w b2 b4 r, NewWriter None path (New [WithBufferSize size; WithPersistence keep_data]) = Some (b1, Ok w) /\
    write_chunks w chunks b1 = Some (b2, None) /\
    NewReader None path (Writer_Close w b2).1 = Some (b4, Ok r) /\
    exists fuel b5 r5, read_all fuel n r b4 =
      Some (b5, r5, (if keep_data then concat chunks else []) ++ concat chunks, Some (err_io EOF)).
Proof.
  intros Hpath Hlen Hn. set (b1 := mkBackend (Some {[path := 0]}) [mkInfo [] false []] size keep_data false).
  destruct (write_chunks_ok (mkWriter 0 path false) chunks b1 (mkInfo [] false [])) as (b2 & Hw & H1 & H2 & H3 & H4); [done..|cbn; lia|].
  set (b3 := on_info 0 close_info b2).
  assert (b3.(infos) !! 0 = Some (close_info (filled b1 chunks (mkInfo [] false [])))) as Hi.
  { cbn in H4 |- *. by rewrite list_lookup_alter_eq, H4. }
  exists b1, (mkWriter 0 path false), b2, b3, (mkReader 0 path (if keep_data then concat chunks else []) [] false).
  split_and!; [|exact Hw| |].
  - unfold NewWriter, NewWriter_checks. cbn. rewrite decide_False by done. unfold getOrCreateChannel. cbn. by rewrite lookup_empty.
  - unfold NewReader, NewWriter_checks, Writer_Close. cbn [w_closed w_info fst]. fold b3. unfold checks, checkClosed.
    change (b_closed b3) with (b_closed b2). rewrite H3. cbn [b_closed b1 ctx_err fmap option_fmap option_map].
    rewrite decide_False by done. unfold getOrCreateChannel. change (channels b3) with (channels b2). rewrite H1. cbn [channels b1 mbind option_bind].
    rewrite lookup_singleton_eq. cbn [mbind option_bind]. rewrite Hi. change (persistent b3) with (persistent b2). rewrite H2.
    cbn. by destruct keep_data.
  - destruct (drain_ok n (mkReader 0 path (if keep_data then concat chunks else []) [] false) b3 _
      (S (reads_left (mkReader 0 path (if keep_data then concat chunks else []) [] false) chunks)) Hn eq_refl Hi eq_refl)
      as (b5 & r5 & Hr); [cbn; lia|]. eexists _, b5, r5. exact Hr.
Qed.

(** A [Write] that has found its channel open panics when the path is deleted, or the
    channel closed by another writer, before it sends. *)
Theorem write_close_race s i w p info path m :
  s.(panicked) = false -> s.(writers) !! i = Some (w, Idle) -> w.(w_closed) = false ->
  s.(bk).(infos) !! w.(w_info) = Some info -> info.(i_closed) = false ->
  s.(bk).(b_closed) = false -> s.(bk).(channels) = Some m -> m !! path = Some w.(w_info) ->
  exists s' evs, run s [LWrite i None p; LCheck i; LDelete None path; LSend i] = Some (s', evs) /\ s'.(panicked) = true.
Proof.
  intros Hp Hw Hc Hi Ho Hb Hm Hpath. pose proof (lookup_lt_Some _ _ _ Hw) as Hlt.
  set (b1 := (Write_keep None w p s.(bk)).1).
  assert (Write_keep None w p s.(bk) = (b1, None)) as Hk by (unfold b1, Write_keep; by rewrite Hc).
  assert (b1.(channels) = Some m /\ b1.(b_closed) = false /\ exists info1, b1.(infos) !! w.(w_info) = Some info1 /\ info1.(i_closed) = false)
    as (Hm1 & Hb1 & info1 & Hi1 & Ho1).
  { unfold b1, Write_keep. rewrite Hc. cbn. destruct s.(bk).(persistent); [|by eauto]. cbn. rewrite list_lookup_alter_eq, Hi. cbn. eauto. }
  set (s1 := set_writer i (w, Kept p) (set_bk b1 s)). set (s2 := set_writer i (w, Checked p) s1).
  set (s3 := set_bk (Delete None path b1).1 s2).
  assert (exec s (LWrite i None p) = Some (s1, [])) as E1.
  { unfold exec. rewrite Hp, Hw. cbn [mbind option_bind]. by rewrite Hk. }
  assert (exec s1 (LCheck i) = Some (s2, [])) as E2.
  { unfold exec. rewrite (Hp : panicked s1 = false).
    assert (s1.(writers) !! i = Some (w, Kept p)) as -> by (cbn; by rewrite list_lookup_insert_eq). cbn [mbind option_bind].
    unfold Write_check. by rewrite (Hi1 : infos (bk s1) !! w_info w = Some info1), Ho1. }
  assert (exec s2 (LDelete None path) = Some (s3, [])) as E3 by (unfold exec; cbn; by rewrite Hp).
  assert (exec s3 (LSend i) = Some (crash s3, [])) as E4.
  { unfold exec. rewrite (Hp : panicked s3 = false). assert (s3.(writers) !! i = Some (w, Checked p)) as ->
      by (cbn; by rewrite list_insert_insert_eq, list_lookup_insert_eq). cbn [mbind option_bind].
    assert (send w.(w_info) p s3.(bk) = (s3.(bk), SendPanic)) as Hsend.
    { unfold s3, send. cbn [bk set_bk]. unfold Delete, checks, checkClosed. rewrite Hb1. cbn [ctx_err fmap option_fmap option_map].
      rewrite Hm1. cbn [mbind option_bind]. rewrite Hpath. cbn [fst infos]. by rewrite list_lookup_alter_eq, Hi1. }
    unfold do_send. by rewrite Hsend. }
  exists (crash s3), []. cbn [run]. rewrite E1. cbn [mbind option_bind]. rewrite E2. cbn [mbind option_bind].
  rewrite E3. cbn [mbind option_bind]. by rewrite E4.
Qed.

(** A path whose writer has been closed cannot be written again until it is deleted: a
    new writer gets the closed channel, and every [Write] fails; a persistent backend keeps the
    refused data all the same, and replays it to later readers. *)
Theorem closed_path_refuses path b m i info :
  path <> "" -> b.(b_closed) = false -> b.(channels) = Some m -> m !! path = Some i ->
  b.(infos) !! i = Some info -> info.(i_closed) = true ->
  exists w, NewWriter None path b = Some (b, Ok w) /\
    forall p, exists b', Write None w p b = Some (b', 0, Some (err_io ErrClosedPipe)) /\
      exists r, NewReader None path b' = Some (b', Ok r) /\
        r.(r_buffer) = if b.(persistent) then concat info.(buffered) ++ p else [].
Proof.
  intros Hpath Hb Hm Hi Hinfo Hc. exists (mkWriter i path false).
  assert (forall b', b'.(b_closed) = false -> b'.(channels) = Some m -> getOrCreateChannel path b' = Some (b', i)) as Hget
    by (intros b' _ Hm'; unfold getOrCreateChannel; rewrite Hm'; cbn; by rewrite Hi).
  assert (forall b', b'.(b_closed) = false -> NewWriter_checks None path b' = None) as Hchk
    by (intros b' Hb'; unfold NewWriter_checks, checks, checkClosed; rewrite Hb'; cbn; by rewrite decide_False).
  split; [unfold NewWriter; by rewrite Hchk, Hget|]. intros p. unfold Write, Write_keep, Write_check. cbn [w_closed w_info ctx_err fmap option_fmap option_map].
  destruct b.(persistent) eqn:Hp.
  - cbn [on_info set_infos infos]. rewrite list_lookup_alter_eq, Hinfo. cbn [fmap option_fmap option_map keep i_closed]. rewrite Hc.
    eexists. split; [done|]. eexists. split; [unfold NewReader; rewrite Hchk, Hget by done; done|].
    cbn. rewrite list_lookup_alter_eq, Hinfo. cbn. rewrite Hp, concat_app. cbn. by rewrite app_nil_r.
  - rewrite Hinfo, Hc. eexists. split; [done|]. eexists. split; [unfold NewReader; rewrite Hchk, Hget by done; done|].
    cbn. by rewrite Hinfo, Hp.
Qed.
End properties.

(** ** Runs *)

#[local] Existing Instance tree_order.

(** Two messages, a reader with a small buffer between them. *)
Lemma channel_fifo_witness :
  exists s evs, run (start [WithBufferSize 2; WithPersistence false])
      [LNewWriter None "p"; LNewReader None "p"; LWrite 0 None [x61; x62]; LCheck 0; LSend 0; LRead 0 None 1;
       LWrite 0 None [x63]; LCheck 0; LSend 0] = Some (s, evs) /\
    sent 0 evs = [[x61; x62]; [x63]] /\ received 0 evs = [[x61; x62]] /\ queues s.(bk) 0 = [[x63]] /\
    sent 0 evs = received 0 evs ++ queues s.(bk) 0 /\ leftover s 0 = [x62].
Proof.
  eexists _, _. split; [vm_compute; reflexivity|]. split; [vm_compute; reflexivity|]. split; [vm_compute; reflexivity|].
  split; [vm_compute; reflexivity|]. split; [|vm_compute; reflexivity].
  eapply (fun Hrun => proj1 (proj1 (channel_fifo 2 false
    [LNewWriter None "p"; LNewReader None "p"; LWrite 0 None [x61; x62]; LCheck 0; LSend 0; LRead 0 None 1;
     LWrite 0 None [x63]; LCheck 0; LSend 0] _ _ Hrun) 0)). vm_compute. reflexivity.
Defined.

Definition demo_closed : Backend := mkBackend (Some {["p" := 0]}) [mkInfo [[x61]; [x62; x63]] true [[x61]]] 2 true false.

Lemma closed_channel_drains_witness :
  exists b' r', read_all 9 2 (mkReader 0 "p" [x7a] [x79] false) demo_closed =
    Some (b', r', [x7a; x79; x61; x62; x63], Some (err_io EOF)) /\ reads_left (mkReader 0 "p" [x7a] [x79] false) [[x61]; [x62; x63]] = 7.
Proof.
  destruct (closed_channel_drains 2 (mkReader 0 "p" [x7a] [x79] false) demo_closed (mkInfo [[x61]; [x62; x63]] true [[x61]]))
    as (b' & r' & Hr); [lia|done|done|done|].
  eexists b', r'. split; [|reflexivity]. etrans; [|exact Hr]. vm_compute. reflexivity.
Defined.

(** Read twice. *)
Lemma late_reader_witness :
  exists b4 r fuel b5 r5, read_all fuel 10 r b4 = Some (b5, r5, [x61; x62; x61; x62], Some (err_io EOF)) /\
    NewReader None "p" b4 = Some (b4, Ok r).
Proof.
  destruct (late_reader 2 true "p" [[x61]; [x62]] 10) as (b1 & w & b2 & b4 & r & H1 & H2 & H3 & fuel & b5 & r5 & Hr); [done|cbn; lia|lia|].
  exists b4, r, fuel, b5, r5. split; [exact Hr|]. vm_compute in H1. injection H1 as <- <-. vm_compute in H2. injection H2 as <-.
  vm_compute in H3. injection H3 as <- <-. vm_compute. reflexivity.
Defined.

Lemma write_close_race_witness :
  exists s s' evs, s.(bk).(b_closed) = false /\
    run s [LWrite 0 None [x61]; LCheck 0; LDelete None "p"; LSend 0] = Some (s', evs) /\ s'.(panicked) = true.
Proof.
  exists (mkSys (mkBackend (Some {["p" := 0]}) [mkInfo [] false []] 2 false false) [(mkWriter 0 "p" false, Idle)] [] false).
  destruct (write_close_race (mkSys (mkBackend (Some {["p" := 0]}) [mkInfo [] false []] 2 false false) [(mkWriter 0 "p" false, Idle)] [] false)
    0 (mkWriter 0 "p" false) [x61] (mkInfo [] false []) "p" {["p" := 0]}) as (s' & evs & Hrun & Hp); [done..|].
  exists s', evs. split; [done|]. split; [exact Hrun|exact Hp].
Defined.

Lemma closed_path_refuses_witness :
  exists w b' r, NewWriter None "p" demo_closed = Some (demo_closed, Ok w) /\
    Write None w [x64] demo_closed = Some (b', 0, Some (err_io ErrClosedPipe)) /\
    NewReader None "p" b' = Some (b', Ok r) /\ r.(r_buffer) = [x61; x64].
Proof.
  destruct (closed_path_refuses "p" demo_closed {["p" := 0]} 0 (mkInfo [[x61]; [x62; x63]] true [[x61]])) as (w & Hw & Hp);
    [done..|]. destruct (Hp [x64]) as (b' & Hb & r & Hr & Hrb). exists w, b', r. split; [exact Hw|]. split; [exact Hb|]. split; [exact Hr|exact Hrb].
Defined.

End Chan.
