(* ===== verification/PosixFs.v ===== *)
(** * A POSIX file system and the functions of package os over it

    Directories and regular files without links: [tree] names the node of every place, an
    absolute path as its elements from the last to the first, and [inodes] holds what the
    files contain.  A system call may fail instead of acting, as the parameter [fault]
    decides (permissions, other file systems, broken media).  The functions of package os
    follow their source: they take strings, which [resolve] walks element by element. *)

From S2P Require Import Prelude GoLib Errors GoPath GoFilepath ObjectBackend.

Inductive errno := ENOENT | ENOTDIR | EISDIR | EEXIST | ENOTEMPTY | EINVAL | EBUSY | EACCES | EPERM | EXDEV | EIO.
#[export] Instance errno_eq_dec : EqDecision errno.
Proof. solve_decision. Defined.

Definition errno_text (e : errno) : string :=
  match e with
  | ENOENT => "no such file or directory" | ENOTDIR => "not a directory" | EISDIR => "is a directory"
  | EEXIST => "file exists" | ENOTEMPTY => "directory not empty" | EINVAL => "invalid argument"
  | EBUSY => "device or resource busy" | EACCES => "permission denied" | EPERM => "operation not permitted"
  | EXDEV => "invalid cross-device link" | EIO => "input/output error"
  end.

(** An [*fs.PathError] or [*os.LinkError]: operation, paths, cause. *)
Record PathError := mkPathError { Op : string; Path : string; Cause : errno }.
Definition os_error (e : PathError) : error := Opaque (e.(Op) +:+ " " +:+ e.(Path) +:+ ": " +:+ errno_text e.(Cause)).
Definition IsNotExist (e : PathError) : bool := bool_decide (e.(Cause) = ENOENT).
Definition IsPermission (e : PathError) : bool := bool_decide (e.(Cause) = EACCES \/ e.(Cause) = EPERM).

(** ** The file system *)

Abbreviation loc := (list string) (only parsing).
Inductive node := DirNode | FileNode (inode : nat).
#[export] Instance node_eq_dec : EqDecision node.
Proof. solve_decision. Defined.

Record fs := mkFs { tree : gmap (list string) node; inodes : gmap nat (bytes * time); next : nat }.

Inductive syscall := SysStat | SysMkdir | SysOpen | SysCreate | SysRead | SysWrite | SysUnlink | SysRmdir | SysRename | SysReaddir.

Class Host := {
  cwd : list string;
  fault : fs -> syscall -> list string -> option errno;
  (** what [Stat] reports of a directory, and [mime.TypeByExtension] *)
  dir_size : fs -> list string -> Z;
  dir_time : fs -> list string -> time;
  TypeByExtension : string -> string
}.

Notation "'try' x <- e ; k" := (match e with Ok x => k | Err err => Err err end)
  (at level 10, x pattern, e at level 100, k at level 200, only parsing).

Definition set_tree (t : gmap (list string) node) (f : fs) : fs := mkFs t f.(inodes) f.(next).
Definition set_inodes (i : gmap nat (bytes * time)) (f : fs) : fs := mkFs f.(tree) i f.(next).

(** From a directory along the elements of a path; the last may be missing. *)
Fixpoint namei (t : gmap (list string) node) (cur : loc) (parts : list string) : result errno loc :=
  match parts with
  | [] => Ok cur
  | part :: parts =>
      match t !! cur with
      | None => Err ENOENT
      | Some (FileNode _) => Err ENOTDIR
      | Some DirNode =>
          namei t (if decide (part = "" \/ part = ".") then cur else if decide (part = "..") then tail cur else part :: cur) parts
      end
  end.

Section os.
Context `{H : Host}.

Definition resolve (f : fs) (p : string) : result errno loc :=
  if decide (p = "") then Err ENOENT else namei f.(tree) (if is_rooted p then [] else cwd) (split_slash p).

(** A call that failed, or its result. *)
Definition sys {A} (f : fs) (c : syscall) (l : loc) (r : result errno A) : result errno A :=
  match fault f c l with Some e => Err e | None => r end.

Definition path_error {A} (op p : string) (r : result errno A) : result PathError A :=
  match r with Ok x => Ok x | Err e => Err (mkPathError op p e) end.

Record FileInfo := mkFileInfo { fi_loc : loc; IsDir : bool; Size : Z; ModTime : time }.

(** [os.Stat] and [os.Lstat], the same without symbolic links. *)
Definition os_Stat (f : fs) (p : string) : result PathError FileInfo :=
  path_error "stat" p (
    try l <- resolve f p;
    sys f SysStat l
      match f.(tree) !! l with
      | None => Err ENOENT
      | Some DirNode => Ok (mkFileInfo l true (dir_size f l) (dir_time f l))
      | Some (FileNode i) =>
          match f.(inodes) !! i with
          | Some (d, t) => Ok (mkFileInfo l false (Z.of_nat (length d)) t)
          | None => Err EIO
          end
      end).

Definition os_Mkdir (f : fs) (p : string) : result PathError fs :=
  path_error "mkdir" p (
    try l <- resolve f p;
    sys f SysMkdir l
      match f.(tree) !! l with Some _ => Err EEXIST | None => Ok (set_tree (<[l := DirNode]> f.(tree)) f) end).

(** The path without its last element and the slashes around it; empty when there is no parent to make. *)
Definition drop_empty (rparts : list string) : list string :=
  (fix go l := match l with "" :: l => go l | _ => l end) rparts.
Definition parent_of (p : string) : string :=
  match drop_empty (rev (split_slash p)) with
  | [] => ""
  | _ :: rest => join_slash (rev rest)
  end.

(** [os.MkdirAll]: the directories made before an error stay.  A path gets shorter with each
    parent, so its length is enough fuel. *)
Fixpoint MkdirAll_fuel (fuel : nat) (f : fs) (p : string) : fs * option PathError :=
  match os_Stat f p with
  | Ok info => (f, if info.(IsDir) then None else Some (mkPathError "mkdir" p ENOTDIR))
  | Err _ =>
      let '(f, err) :=
        match fuel with
        | S fuel => if decide (parent_of p = "") then (f, None) else MkdirAll_fuel fuel f (parent_of p)
        | 0 => (f, None)
        end in
      match err with
      | Some err => (f, Some err)
      | None =>
          match os_Mkdir f p with
          | Ok f => (f, None)
          | Err err =>
              match os_Stat f p with
              | Ok info => (f, if info.(IsDir) then None else Some err)
              | Err _ => (f, Some err)
              end
          end
      end
  end.
Definition os_MkdirAll (f : fs) (p : string) : fs * option PathError := MkdirAll_fuel (String.length p) f p.

(** *** Files *)

(** [f_inode] is [None] for a directory. *)
Record OsFile := mkFile { f_name : string; f_inode : option nat; f_offset : nat; f_writable : bool; f_closed : bool }.

Definition os_Open (f : fs) (p : string) : result PathError OsFile :=
  path_error "open" p (
    try l <- resolve f p;
    sys f SysOpen l
      match f.(tree) !! l with
      | None => Err ENOENT
      | Some DirNode => Ok (mkFile p None 0 false false)
      | Some (FileNode i) => Ok (mkFile p (Some i) 0 false false)
      end).

(** [os.OpenFile(p, O_WRONLY|O_CREATE|O_TRUNC, _)] *)
Definition os_Create (now : time) (f : fs) (p : string) : result PathError (fs * OsFile) :=
  path_error "open" p (
    try l <- resolve f p;
    sys f SysCreate l
      match f.(tree) !! l with
      | Some DirNode => Err EISDIR
      | Some (FileNode i) => Ok (set_inodes (<[i := ([], now)]> f.(inodes)) f, mkFile p (Some i) 0 true false)
      | None =>
          let i := f.(next) in
          Ok (mkFs (<[l := FileNode i]> f.(tree)) (<[i := ([], now)]> f.(inodes)) (S i), mkFile p (Some i) 0 true false)
      end).

Definition ErrClosedFile : error := Opaque "file already closed".

(** What the inode of an open file holds. *)
Definition inode_data (f : fs) (i : nat) : bytes := match f.(inodes) !! i with Some (d, _) => d | None => [] end.

Definition seek_to (n : nat) (h : OsFile) : OsFile := mkFile h.(f_name) h.(f_inode) n h.(f_writable) h.(f_closed).

(** [h.Read] into a buffer of [n] bytes. *)
Definition File_Read (f : fs) (h : OsFile) (n : nat) : OsFile * bytes * option error :=
  if h.(f_closed) then (h, [], Some ErrClosedFile)
  else if decide (n = 0) then (h, [], None)
  else
    match h.(f_inode) with
    | None => (h, [], Some (os_error (mkPathError "read" h.(f_name) EISDIR)))
    | Some i =>
        match fault f SysRead [] with
        | Some e => (h, [], Some (os_error (mkPathError "read" h.(f_name) e)))
        | None =>
            match drop h.(f_offset) (inode_data f i) with
            | [] => (h, [], Some (err_io EOF))
            | rest => let chunk := take n rest in (seek_to (h.(f_offset) + length chunk) h, chunk, None)
            end
        end
    end.

(** The bytes of a file after a write at an offset; a gap is filled with zeros. *)
Definition write_at (off : nat) (p d : bytes) : bytes :=
  take off d ++ replicate (off - length d) x00 ++ p ++ drop (off + length p) d.

Definition File_Write (now : time) (f : fs) (h : OsFile) (p : bytes) : fs * OsFile * nat * option error :=
  if h.(f_closed) then (f, h, 0, Some ErrClosedFile)
  else
    match h.(f_inode), h.(f_writable) with
    | Some i, true =>
        match fault f SysWrite [] with
        | Some e => (f, h, 0, Some (os_error (mkPathError "write" h.(f_name) e)))
        | None =>
            if decide (p = []) then (f, h, 0, None)
            else
              (set_inodes (<[i := (write_at h.(f_offset) p (inode_data f i), now)]> f.(inodes)) f,
               seek_to (h.(f_offset) + length p) h, length p, None)
        end
    | _, _ => (f, h, 0, Some (Opaque ("write " +:+ h.(f_name) +:+ ": bad file descriptor")))
    end.

Definition File_Close (h : OsFile) : OsFile * option error :=
  if h.(f_closed) then (h, Some ErrClosedFile)
  else (mkFile h.(f_name) h.(f_inode) h.(f_offset) h.(f_writable) true, None).

(** [h.Seek(n, io.SeekStart)]; a directory accepts it. *)
Definition File_Seek (h : OsFile) (n : Z) : result error OsFile :=
  if h.(f_closed) then Err ErrClosedFile
  else if (n <? 0)%Z then Err (os_error (mkPathError "seek" h.(f_name) EINVAL)) else Ok (seek_to (Z.to_nat n) h).

(** *** Removing and renaming *)

Definition unlink (f : fs) (l : loc) : result errno fs :=
  sys f SysUnlink l
    match f.(tree) !! l with
    | None => Err ENOENT
    | Some DirNode => Err EISDIR
    | Some (FileNode _) => Ok (set_tree (delete l f.(tree)) f)
    end.

Definition children (t : gmap (list string) node) (l : loc) : list string :=
  sort_strings (omap (fun k => match k with n :: k => if decide (k = l) then Some n else None | [] => None end) (map_to_list t).*1).

(** A path that ends in a dot is refused. *)
Definition ends_in_dot (p : string) : bool := bool_decide (head (drop_empty (rev (split_slash p))) = Some ".").

Definition rmdir (f : fs) (p : string) (l : loc) : result errno fs :=
  if ends_in_dot p then Err EINVAL
  else
    sys f SysRmdir l
      match f.(tree) !! l with
      | None => Err ENOENT
      | Some (FileNode _) => Err ENOTDIR
      | Some DirNode =>
          if decide (l = []) then Err EBUSY
          else if decide (children f.(tree) l <> []) then Err ENOTEMPTY
          else Ok (set_tree (delete l f.(tree)) f)
      end.

(** [os.Remove] tries both calls and reports the error of the second unless it is ENOTDIR. *)
Definition os_Remove (f : fs) (p : string) : result PathError fs :=
  path_error "remove" p (
    match (try l <- resolve f p; unlink f l) with
    | Ok f => Ok f
    | Err e =>
        match (try l <- resolve f p; rmdir f p l) with
        | Ok f => Ok f
        | Err e1 => Err (if decide (e1 <> ENOTDIR) then e1 else e)
        end
    end).

(** Where a place goes when [src] becomes [dst]. *)
Definition rebase (src dst k : loc) : option loc :=
  if decide (src = drop (length k - length src) k) then Some (take (length k - length src) k ++ dst) else None.

Definition move_tree (src dst : loc) (t : gmap (list string) node) : gmap (list string) node :=
  map_fold (fun k n m => match rebase src dst k with Some k' => <[k' := n]> m | None => m end) ∅ t
  ∪ filter (fun kn => rebase src dst kn.1 = None) t.

Definition rename_call (f : fs) (src dst : loc) : result errno fs :=
  sys f SysRename src
    match f.(tree) !! src with
    | None => Err ENOENT
    | Some n =>
        if decide (src = dst) then Ok f
        else if decide (src = []) then Err EBUSY
        else
          match n, f.(tree) !! dst with
          | _, Some DirNode => Err EISDIR
          | DirNode, Some (FileNode _) => Err ENOTDIR
          | DirNode, None =>
              match rebase src dst dst with Some _ => Err EINVAL | None => Ok (set_tree (move_tree src dst f.(tree)) f) end
          | FileNode _, _ => Ok (set_tree (move_tree src dst f.(tree)) f)
          end
    end.

(** [os.Rename]; a directory at the new name is refused before the call. *)
Definition os_Rename (f : fs) (old new : string) : result PathError fs :=
  path_error "rename" (old +:+ " " +:+ new) (
    let call := try src <- resolve f old; try dst <- resolve f new; rename_call f src dst in
    match os_Stat f new with
    | Ok fi =>
        if fi.(IsDir) then
          match os_Stat f old with
          | Err e => Err e.(Cause)
          | Ok ofi =>
              if bool_decide (new = old) || negb (bool_decide (fi.(fi_loc) = ofi.(fi_loc))) then Err EEXIST else call
          end
        else call
    | Err _ => call
    end).

(** *** filepath.Walk

    [walkFn] is given the node or the error met there, accumulates in [acc] and may stop the
    walk with an error (never [SkipDir]); the fuel bounds the depth. *)
Section walk.
Context {A E : Type}.
Context (walkFn : A -> string -> result PathError FileInfo -> A * option E).
Context (f : fs).

Definition readDirNames (p : string) : result PathError (list string) :=
  path_error "open" p (try l <- resolve f p; sys f SysReaddir l (Ok (children f.(tree) l))).

(** The loop over the names of a directory; [visit] stands for its body. *)
Fixpoint entries (visit : A -> string -> option (A * option E)) (acc : A) (names : list string) : option (A * option E) :=
  match names with
  | [] => Some (acc, None)
  | name :: names =>
      match visit acc name with
      | Some (acc, None) => entries visit acc names
      | r => r
      end
  end.

Fixpoint walk (fuel : nat) (acc : A) (p : string) (info : FileInfo) : option (A * option E) :=
  match fuel with
  | 0 => None
  | S fuel =>
      if negb info.(IsDir) then Some (walkFn acc p (Ok info))
      else
        match readDirNames p with
        | Err err => Some (walkFn acc p (Err err))
        | Ok names =>
            match walkFn acc p (Ok info) with
            | (acc, Some e) => Some (acc, Some e)
            | (acc, None) =>
                entries (fun acc name =>
                  let filename := Join p name in
                  match os_Stat f filename with
                  | Err err => Some (walkFn acc filename (Err err))
                  | Ok info => walk fuel acc filename info
                  end) acc names
            end
        end
  end.

Definition Walk (fuel : nat) (acc : A) (root : string) : option (A * option E) :=
  match os_Stat f root with
  | Err err => Some (walkFn acc root (Err err))
  | Ok info => walk fuel acc root info
  end.
End walk.

End os.

(** ** Lemmas *)

(** Directories hold what lies below them; a file has one name and its own contents. *)
Record wf (f : fs) : Prop := {
  wf_root : f.(tree) !! [] = Some DirNode;
  wf_parent n l x : f.(tree) !! (n :: l) = Some x -> f.(tree) !! l = Some DirNode /\ normal_part n;
  wf_inode l i : f.(tree) !! l = Some (FileNode i) -> is_Some (f.(inodes) !! i) /\ i < f.(next);
  wf_unique l1 l2 i : f.(tree) !! l1 = Some (FileNode i) -> f.(tree) !! l2 = Some (FileNode i) -> l1 = l2
}.

(** The same as a test. *)
Definition wf_test (f : fs) : bool :=
  bool_decide (f.(tree) !! [] = Some DirNode) &&
  bool_decide (map_Forall (fun k _ => k = [] \/ (f.(tree) !! tail k = Some DirNode /\ Forall normal_part (take 1 k))) f.(tree)) &&
  bool_decide (map_Forall (fun k x => match x with FileNode i => bool_decide (is_Some (f.(inodes) !! i)) && (i <? f.(next)) | DirNode => true end = true) f.(tree)) &&
  bool_decide (map_Forall (fun k1 x1 => map_Forall (fun k2 x2 => x1 = x2 -> x1 <> DirNode -> k1 = k2) f.(tree)) f.(tree)).

Lemma wf_test_ok f : wf_test f = true -> wf f.
Proof.
  unfold wf_test. intros [[[H1 H2]%andb_true_iff H3]%andb_true_iff H4]%andb_true_iff.
  apply bool_decide_eq_true in H1, H2, H3, H4. split; [done| | |].
  - intros n l x Hx. destruct (H2 _ _ Hx) as [|[? [? _]%Forall_cons]]; done.
  - intros l i Hl. specialize (H3 _ _ Hl). cbn in H3. apply andb_true_iff in H3 as [?%bool_decide_eq_true ?%Nat.ltb_lt]. done.
  - intros l1 l2 i Hl1 Hl2. exact (H4 _ _ Hl1 _ _ Hl2 eq_refl ltac:(done)).
Qed.

Definition step (cur : loc) (part : string) : loc :=
  if decide (part = "" \/ part = ".") then cur else if decide (part = "..") then tail cur else part :: cur.

Definition lexical (cur : loc) (parts : list string) : loc := fold_left step parts cur.

Lemma namei_lexical t cur parts l : namei t cur parts = Ok l -> l = lexical cur parts.
Proof.
  revert cur. induction parts as [|part parts IH]; intros cur; cbn; [by intros [= <-]|].
  destruct (t !! cur) as [[|]|]; [|done..]. apply IH.
Qed.

Lemma namei_app t cur a b : namei t cur (a ++ b) = try l <- namei t cur a; namei t l b.
Proof.
  revert cur. induction a as [|part a IH]; intros cur; [done|]. cbn. destruct (t !! cur) as [[|]|]; [|done..]. apply IH.
Qed.

Lemma lexical_names cur names : Forall normal_part names -> lexical cur names = rev names ++ cur.
Proof.
  intros Hn. revert cur. induction Hn as [|n names (H1 & H2 & H3 & _) _ IH]; intros cur; [done|].
  change (lexical cur (n :: names)) with (lexical (step cur n) names). rewrite IH. unfold step.
  rewrite !decide_False by naive_solver. cbn. by rewrite <- app_assoc.
Qed.

Section wf.
Context (f : fs) (Hwf : wf f).

Lemma wf_ancestor a l x : f.(tree) !! (a ++ l) = Some x -> a = [] \/ f.(tree) !! l = Some DirNode.
Proof.
  revert x. induction a as [|n a IH]; intros x Hx; [by left|right]. apply (wf_parent f Hwf) in Hx as [Hd _].
  by destruct (IH _ Hd) as [->|].
Qed.

Lemma wf_tail l : f.(tree) !! l = Some DirNode -> f.(tree) !! tail l = Some DirNode.
Proof. destruct l as [|n l]; [done|]. intros Hl. by apply (wf_parent f Hwf) in Hl as [? _]. Qed.

(** A place a path names that is not there: its parent is. *)
Lemma namei_new cur parts l :
  f.(tree) !! cur = Some DirNode -> Forall no_slash parts -> namei f.(tree) cur parts = Ok l -> f.(tree) !! l = None ->
  exists n l', l = n :: l' /\ f.(tree) !! l' = Some DirNode /\ normal_part n.
Proof.
  revert cur. induction parts as [|part parts IH]; intros cur Hcur Hns; cbn [namei]; [intros [= <-]; by rewrite Hcur|].
  rewrite Hcur. apply Forall_cons in Hns as [Hp Hns]. fold (step cur part). intros Hn Hl.
  destruct (f.(tree) !! step cur part) as [[|]|] eqn:Hs.
  - by eapply IH.
  - destruct parts; cbn in Hn; [injection Hn as <-; by rewrite Hs in Hl|by rewrite Hs in Hn].
  - assert (step cur part = part :: cur /\ normal_part part) as [Hst Hpart].
    { unfold step in *. case_decide; [by rewrite Hcur in Hs|]. case_decide; [by rewrite wf_tail in Hs|].
      split; [done|]. unfold normal_part, no_slash in *. naive_solver. }
    destruct parts; cbn in Hn; [|by rewrite Hs in Hn]. injection Hn as <-. rewrite Hst. by exists part, cur.
Qed.

(** From a directory along names that exist. *)
Lemma namei_names cur names :
  Forall normal_part names -> f.(tree) !! cur = Some DirNode ->
  (forall n, n < length names -> f.(tree) !! (rev (take n names) ++ cur) = Some DirNode) ->
  namei f.(tree) cur names = Ok (rev names ++ cur).
Proof.
  intros Hn. revert cur. induction Hn as [|x names (H1 & H2 & H3 & _) Hn IH]; intros cur Hcur Hd; [done|]. cbn [namei].
  rewrite Hcur, !decide_False by naive_solver. cbn [rev]. rewrite <- app_assoc. cbn [app].
  destruct names as [|y names]; [done|]. apply IH.
  - specialize (Hd 1). cbn in Hd. apply Hd. lia.
  - intros n Hlt. specialize (Hd (S n)). cbn [take rev] in Hd. rewrite <- app_assoc in Hd. apply Hd. cbn in *. lia.
Qed.

Lemma namei_exists cur names x :
  Forall normal_part names -> f.(tree) !! cur = Some DirNode -> f.(tree) !! (rev names ++ cur) = Some x ->
  namei f.(tree) cur names = Ok (rev names ++ cur).
Proof.
  intros Hn Hcur Hx. apply namei_names; [done|done|]. intros n Hlt. rewrite <- (take_drop n names), rev_app_distr, <- app_assoc in Hx.
  apply wf_ancestor in Hx as [Hx|Hx]; [|done]. apply (f_equal length) in Hx. rewrite length_rev, length_drop in Hx. cbn in Hx. lia.
Qed.

End wf.

Section paths.
Context `{H : Host}.

Definition start (r : bool) : loc := if r then [] else cwd.

(** [os.Getwd] is a directory. *)
Definition wf_host (f : fs) : Prop := wf f /\ f.(tree) !! cwd = Some DirNode.

Lemma start_dir f r : wf_host f -> f.(tree) !! start r = Some DirNode.
Proof. intros [Hwf Hc]. destruct r; [apply Hwf|done]. Qed.

Lemma resolve_render f r parts :
  wf_host f -> Forall clean_part parts -> resolve f (render r parts) = namei f.(tree) (start r) parts.
Proof.
  intros Hh Hc. unfold resolve. rewrite decide_False by apply render_nonempty. rewrite render_rooted by done.
  fold (start r). pose proof (start_dir f r Hh) as Hs. destruct (decide (parts = [])) as [->|Hne].
  - unfold start in *. destruct r.
    + change (split_slash (render true [])) with [""; ""]. cbn [namei]. rewrite !decide_True by auto. by rewrite Hs.
    + change (split_slash (render false [])) with ["."]. cbn [namei]. rewrite decide_True by auto. by rewrite Hs.
  - rewrite split_render by done. unfold start in *. destruct r; [|done]. cbn [namei]. rewrite decide_True by auto. by rewrite Hs.
Qed.

(** What a path below [pre] names, whatever happens on the way. *)
Lemma resolve_below f r pre names l :
  Forall clean_part pre -> Forall normal_part names ->
  resolve f (render r (pre ++ names)) = Ok l -> l = rev names ++ lexical (start r) pre.
Proof.
  intros Hp Hn. assert (Forall clean_part (pre ++ names)) as Hc.
  { apply Forall_app. split; [done|]. eapply Forall_impl; [exact Hn|]. by left. }
  unfold resolve. rewrite decide_False by apply render_nonempty. rewrite render_rooted by done. fold (start r).
  intros Hr%namei_lexical. rewrite <- lexical_names by done. unfold lexical in *. rewrite <- fold_left_app, Hr.
  destruct (decide (pre ++ names = [])) as [->|Hne]; [by destruct r|]. rewrite split_render by done. by destruct r.
Qed.

Lemma resolve_from f r pre rl names :
  wf_host f -> Forall clean_part pre -> Forall normal_part names ->
  namei f.(tree) (start r) pre = Ok rl -> resolve f (render r (pre ++ names)) = namei f.(tree) rl names.
Proof.
  intros Hh Hp Hn Hrl. rewrite resolve_render, namei_app, Hrl; [done|done|].
  apply Forall_app. split; [done|]. eapply Forall_impl; [exact Hn|]. by left.
Qed.

Lemma resolve_new f p l :
  wf_host f -> resolve f p = Ok l -> f.(tree) !! l = None -> exists n l', l = n :: l' /\ f.(tree) !! l' = Some DirNode /\ normal_part n.
Proof.
  intros Hh. unfold resolve. case_decide; [done|]. apply namei_new; [apply Hh| |apply split_slash_no_slash].
  by apply (start_dir f (is_rooted p)).
Qed.

(** *** Directories are only added *)

Definition grows (f f' : fs) : Prop :=
  f'.(inodes) = f.(inodes) /\ f'.(next) = f.(next) /\
  forall l, f'.(tree) !! l = f.(tree) !! l \/ (f.(tree) !! l = None /\ f'.(tree) !! l = Some DirNode).

#[global] Instance grows_preorder : PreOrder grows.
Proof.
  split; [intros f; split_and!; [done..|]; by left|]. intros f g h (Hi & Hn & Ht) (Hi' & Hn' & Ht').
  split_and!; [by rewrite Hi'|by rewrite Hn'|]. intros l. destruct (Ht l) as [E|[E1 E2]], (Ht' l) as [E'|[E1' E2']]; rewrite ?E', ?E; auto.
  right. by rewrite <- E.
Qed.

Lemma wf_add_dir f n l :
  wf f -> f.(tree) !! (n :: l) = None -> f.(tree) !! l = Some DirNode -> normal_part n -> wf (set_tree (<[n :: l := DirNode]> f.(tree)) f).
Proof.
  intros Hwf Hnew Hl Hn. split; cbn.
  - rewrite lookup_insert_ne by done. apply Hwf.
  - intros m k x. destruct (decide (n :: l = m :: k)) as [[= <- <-]|Hne].
    + intros _. rewrite lookup_insert_ne by (intros E; apply (f_equal length) in E; cbn in E; lia). done.
    + rewrite lookup_insert_ne by done. intros [Hk ?]%(wf_parent f Hwf). split; [|done].
      destruct (decide (n :: l = k)) as [<-|]; [by rewrite lookup_insert_eq|by rewrite lookup_insert_ne].
  - intros k i. destruct (decide (n :: l = k)) as [<-|]; [by rewrite lookup_insert_eq|rewrite lookup_insert_ne by done]. apply Hwf.
  - intros k1 k2 i. destruct (decide (n :: l = k1)) as [<-|]; [by rewrite lookup_insert_eq|].
    destruct (decide (n :: l = k2)) as [<-|]; [by rewrite lookup_insert_eq|]. rewrite !lookup_insert_ne by done. apply Hwf.
Qed.

Lemma os_Mkdir_ok f p f' :
  wf_host f -> os_Mkdir f p = Ok f' ->
  exists l, resolve f p = Ok l /\ f.(tree) !! l = None /\ f' = set_tree (<[l := DirNode]> f.(tree)) f /\ grows f f' /\ wf_host f'.
Proof.
  intros Hh. unfold os_Mkdir. destruct (resolve f p) as [l|] eqn:Hr; [|done]. unfold sys. destruct (fault f SysMkdir l); [done|].
  destruct (f.(tree) !! l) eqn:Hl; [done|]. intros [= <-]. exists l. split_and!; [done..| |].
  - split_and!; [done..|]. intros k. cbn. destruct (decide (l = k)) as [<-|]; [rewrite lookup_insert_eq; by right|].
    rewrite lookup_insert_ne by done. by left.
  - destruct (resolve_new f p l Hh Hr Hl) as (n & l' & -> & Hl' & Hn). split; [apply wf_add_dir; [apply Hh|done..]|]. cbn.
    rewrite lookup_insert_ne; [apply Hh|]. intros E. destruct Hh as [_ Hc]. by rewrite <- E, Hl in Hc.
Qed.

(** Whatever fails, [MkdirAll] adds directories and nothing else. *)
Lemma MkdirAll_grows fuel f p f' err :
  wf_host f -> MkdirAll_fuel fuel f p = (f', err) -> grows f f' /\ wf_host f'.
Proof.
  revert f p f' err. induction fuel as [|fuel IH]; intros f p f' err Hh; cbn [MkdirAll_fuel].
  all: destruct (os_Stat f p) as [info|]; [intros [= <- _]; by split|].
  - destruct (os_Mkdir f p) as [g|] eqn:Hm; [intros [= <- _]; apply os_Mkdir_ok in Hm as (? & _ & _ & _ & ? & ?); done|].
    destruct (os_Stat f p); intros [= <- _]; by split.
  - destruct (if decide (parent_of p = "") then (f, None) else MkdirAll_fuel fuel f (parent_of p)) as [g err1] eqn:Hg.
    assert (grows f g /\ wf_host g) as [Hfg Hhg].
    { case_decide; [injection Hg as <- _; by split|by eapply IH]. }
    destruct err1; [by intros [= <- _]|]. destruct (os_Mkdir g p) as [h|] eqn:Hm.
    + intros [= <- _]. apply os_Mkdir_ok in Hm as (? & _ & _ & _ & ? & ?); [|done]. split; [by etrans|done].
    + destruct (os_Stat g p); intros [= <- _]; by split.
Qed.

End paths.

(** *** Removing, creating, writing *)

Lemma elem_of_children t l n : n ∈ children t l <-> is_Some (t !! (n :: l)).
Proof.
  unfold children. rewrite elem_of_sort_strings, list_elem_of_omap. split.
  - intros (k & Hk & Hn). destruct k as [|m k]; [done|]. case_decide; [|done]. subst. injection Hn as ->.
    apply list_elem_of_fmap in Hk as ([k x] & Heq & Hx). cbn in Heq. subst k. apply elem_of_map_to_list in Hx. by eexists.
  - intros [x Hx]. exists (n :: l). split; [|by rewrite decide_True].
    apply list_elem_of_fmap. exists (n :: l, x). split; [done|]. by apply elem_of_map_to_list.
Qed.

Lemma NoDup_children t l : NoDup (children t l).
Proof.
  unfold children. rewrite sort_strings_perm.
  assert (NoDup (map_to_list t).*1) as Hnd by apply NoDup_fst_map_to_list. induction Hnd as [|k ks Hk Hnd IH]; [constructor|].
  cbn. destruct k as [|n k]; [done|]. case_decide as Hl; [|done]. subst k. constructor; [|done].
  intros (k' & Hk' & Hn)%list_elem_of_omap. destruct k' as [|m k']; [done|]. case_decide; [|done]. by simplify_eq.
Qed.

Lemma wf_delete f l : wf f -> l <> [] -> (forall n, f.(tree) !! (n :: l) = None) -> wf (set_tree (delete l f.(tree)) f).
Proof.
  intros Hwf Hl Hch. split; cbn.
  - rewrite lookup_delete_ne by done. apply Hwf.
  - intros n k x [_ Hx]%lookup_delete_Some. assert (l <> k) as Hne by (intros <-; by rewrite Hch in Hx).
    apply (wf_parent f Hwf) in Hx as [Hk ?]. by rewrite lookup_delete_ne.
  - intros k i [_ Hk]%lookup_delete_Some. by apply Hwf in Hk.
  - intros k1 k2 i [_ H1]%lookup_delete_Some [_ H2]%lookup_delete_Some. by eapply Hwf.
Qed.

Lemma wf_set_inode f i d : wf f -> wf (set_inodes (<[i := d]> f.(inodes)) f).
Proof.
  intros Hwf. split; cbn; try apply Hwf. intros l j Hl. apply (wf_inode f Hwf) in Hl as [? ?]. split; [|done].
  destruct (decide (i = j)) as [<-|]; [by rewrite lookup_insert_eq|by rewrite lookup_insert_ne].
Qed.

Lemma wf_add_file f n l d :
  wf f -> f.(tree) !! (n :: l) = None -> f.(tree) !! l = Some DirNode -> normal_part n ->
  wf (mkFs (<[n :: l := FileNode f.(next)]> f.(tree)) (<[f.(next) := d]> f.(inodes)) (S f.(next))).
Proof.
  intros Hwf Hnew Hl Hn.
  assert (forall k i, f.(tree) !! k = Some (FileNode i) -> i <> f.(next)) as Hfresh.
  { intros k i Hk ->. apply (wf_inode f Hwf) in Hk as [_ ?]. lia. }
  split; cbn.
  - rewrite lookup_insert_ne by done. apply Hwf.
  - intros m k x. destruct (decide (n :: l = m :: k)) as [[= <- <-]|Hne].
    + intros _. rewrite lookup_insert_ne by (intros E; apply (f_equal length) in E; cbn in E; lia). done.
    + rewrite lookup_insert_ne by done. intros [Hk ?]%(wf_parent f Hwf). split; [|done].
      destruct (decide (n :: l = k)) as [<-|]; [by rewrite Hnew in Hk|by rewrite lookup_insert_ne].
  - intros k i. destruct (decide (n :: l = k)) as [<-|].
    + rewrite lookup_insert_eq. intros [= <-]. rewrite lookup_insert_eq. split; [by eexists|lia].
    + rewrite lookup_insert_ne by done. intros Hk. pose proof (Hfresh _ _ Hk). apply (wf_inode f Hwf) in Hk as [? ?].
      rewrite lookup_insert_ne by done. split; [done|lia].
  - intros k1 k2 i. destruct (decide (n :: l = k1)) as [<-|], (decide (n :: l = k2)) as [<-|]; rewrite ?lookup_insert_eq, ?lookup_insert_ne by done;
      [done|intros [= <-] Hk; by apply Hfresh in Hk|intros Hk [= <-]; by apply Hfresh in Hk|apply Hwf].
Qed.

Lemma file_no_child f l i n : wf f -> f.(tree) !! l = Some (FileNode i) -> f.(tree) !! (n :: l) = None.
Proof. intros Hwf Hl. destruct (f.(tree) !! (n :: l)) eqn:Hn; [|done]. apply (wf_parent f Hwf) in Hn as [? _]. congruence. Qed.

Section calls.
Context `{H : Host}.

Lemma os_Create_ok now f p f' h :
  wf_host f -> os_Create now f p = Ok (f', h) ->
  exists l i, resolve f p = Ok l /\ h = mkFile p (Some i) 0 true false /\ f'.(inodes) = <[i := ([], now)]> f.(inodes) /\ wf_host f' /\
    f'.(tree) = <[l := FileNode i]> f.(tree) /\ (f.(tree) !! l = Some (FileNode i) \/ f.(tree) !! l = None /\ i = f.(next)).
Proof.
  intros Hh. unfold os_Create. destruct (resolve f p) as [l|] eqn:Hr; [|done]. unfold sys. destruct (fault f SysCreate l); [done|].
  destruct (f.(tree) !! l) as [[|i]|] eqn:Hl; [done|..]; intros [= <- <-].
  - exists l, i. split_and!; [done..| | |by left]; [split; [apply wf_set_inode, Hh|apply Hh]|]. cbn. by rewrite insert_id.
  - exists l, f.(next). split_and!; [done..| | |by right]; [|done]. destruct (resolve_new f p l Hh Hr Hl) as (n & l' & -> & Hl' & Hn).
    split; [apply wf_add_file; [apply Hh|done..]|]. cbn. rewrite lookup_insert_ne; [apply Hh|].
    intros E. destruct Hh as [_ Hc]. by rewrite <- E, Hl in Hc.
Qed.

Lemma os_Remove_ok f p f' :
  wf f -> os_Remove f p = Ok f' ->
  exists l, resolve f p = Ok l /\ l <> [] /\ is_Some (f.(tree) !! l) /\ f' = set_tree (delete l f.(tree)) f /\ wf f'.
Proof.
  intros Hwf. unfold os_Remove. destruct (resolve f p) as [l|] eqn:Hr; [|done]. unfold unlink, rmdir, sys.
  assert (forall i, f.(tree) !! l = Some (FileNode i) -> l <> []) as Hroot.
  { intros i Hl ->. by rewrite (wf_root f Hwf) in Hl. }
  assert ((exists i, f.(tree) !! l = Some (FileNode i)) \/ (f.(tree) !! l = Some DirNode /\ l <> [] /\ children f.(tree) l = []) ->
    (Ok (set_tree (delete l f.(tree)) f) : result PathError fs) = Ok f' ->
    exists l', (Ok l : result errno loc) = Ok l' /\ l' <> [] /\ is_Some (f.(tree) !! l') /\ f' = set_tree (delete l' f.(tree)) f /\ wf f') as Hok.
  { intros Hc [= <-]. exists l. destruct Hc as [[i Hi]|(Hd & Hl & Hch)].
    - split_and!; [done|by eapply Hroot|by eexists|done|]. apply wf_delete; [done|by eapply Hroot|]. intros n. by eapply file_no_child.
    - split_and!; [done|done|by eexists|done|]. apply wf_delete; [done|done|]. intros n.
      destruct (f.(tree) !! (n :: l)) eqn:Hn; [|done]. assert (n ∈ children f.(tree) l) as Hin by (apply elem_of_children; by eexists).
      rewrite Hch in Hin. by apply not_elem_of_nil in Hin. }
  destruct (f.(tree) !! l) as [[|i]|] eqn:Hl.
  - destruct (fault f SysUnlink l); (destruct (ends_in_dot p); [done|]; destruct (fault f SysRmdir l); [done|];
      case_decide; [done|]; case_decide; [done|]; apply Hok; right; by split_and!).
  - destruct (fault f SysUnlink l); [|by apply Hok; left; eexists]. destruct (ends_in_dot p); [done|]. by destruct (fault f SysRmdir l).
  - destruct (fault f SysUnlink l); (destruct (ends_in_dot p); [done|]; by destruct (fault f SysRmdir l)).
Qed.

End calls.

(** *** Renaming *)

Lemma rebase_spec src dst k k' : rebase src dst k = Some k' <-> exists x, k = x ++ src /\ k' = x ++ dst.
Proof.
  unfold rebase. split.
  - case_decide as Hs; [|done]. intros [= <-]. exists (take (length k - length src) k). split; [|done].
    etransitivity; [symmetry; apply (take_drop (length k - length src))|]. by f_equal.
  - intros (x & -> & ->). rewrite length_app. replace (length x + length src - length src) with (length x) by lia.
    by rewrite drop_app_length, decide_True, take_app_length.
Qed.

Lemma rebase_inv src dst k k' : rebase src dst k = Some k' <-> rebase dst src k' = Some k.
Proof. rewrite !rebase_spec. naive_solver. Qed.

Lemma lookup_move_tree src dst t k :
  move_tree src dst t !! k =
    match rebase dst src k ≫= (t !!.) with
    | Some n => Some n
    | None => match rebase src dst k with Some _ => None | None => t !! k end
    end.
Proof.
  unfold move_tree.
  assert (forall k, map_fold (fun k n m => match rebase src dst k with Some k' => <[k' := n]> m | None => m end) (∅ : gmap (list string) node) t !! k
    = rebase dst src k ≫= (t !!.)) as Hmoved.
  { clear k. apply (map_fold_weak_ind (fun (m t : gmap (list string) node) => forall k, m !! k = rebase dst src k ≫= (t !!.))).
    - intros k. by destruct (rebase dst src k).
    - intros k0 n t' m _ IH k. destruct (rebase src dst k0) as [k'|] eqn:Hk0.
      + destruct (decide (k' = k)) as [<-|Hne].
        * apply rebase_inv in Hk0. rewrite lookup_insert_eq, Hk0. cbn. by rewrite lookup_insert_eq.
        * rewrite lookup_insert_ne, IH by done. destruct (rebase dst src k) as [k2|] eqn:Hk2; [|done]. cbn.
          rewrite lookup_insert_ne; [done|]. intros <-. apply rebase_inv in Hk2. congruence.
      + rewrite IH. destruct (rebase dst src k) as [k2|] eqn:Hk2; [|done]. cbn. rewrite lookup_insert_ne; [done|].
        intros <-. apply rebase_inv in Hk2. congruence. }
  destruct (rebase dst src k ≫= (t !!.)) as [n|] eqn:Hm.
  - apply lookup_union_Some_l. by rewrite Hmoved.
  - rewrite lookup_union_r by by rewrite Hmoved. destruct (rebase src dst k) as [k'|] eqn:Hk.
    + apply map_lookup_filter_None_2. right. intros x _. cbn. by rewrite Hk.
    + destruct (t !! k) as [x|] eqn:Hx; [by apply map_lookup_filter_Some|]. apply map_lookup_filter_None_2. by left.
Qed.

Record movable (f : fs) (src dst : loc) : Prop := {
  mv_src : src <> [];
  mv_dst : exists m d, dst = m :: d /\ f.(tree) !! d = Some DirNode /\ normal_part m;
  mv_file : f.(tree) !! dst <> Some DirNode;
  mv_dir : f.(tree) !! src = Some DirNode -> rebase src dst dst = None /\ f.(tree) !! dst = None
}.

Section move.
Context (f : fs) (Hwf : wf f) (src dst : loc) (Hmv : movable f src dst).

Lemma rebase_dst_dir k : f.(tree) !! k = Some DirNode -> rebase dst src k = None.
Proof.
  intros Hk. destruct (rebase dst src k) eqn:E; [|done]. apply rebase_spec in E as (y & -> & _).
  destruct (wf_ancestor f Hwf _ _ _ Hk) as [->|Hd]; by destruct (mv_file f src dst Hmv).
Qed.

(** What the new tree holds came from somewhere. *)
Lemma moved_from k x :
  move_tree src dst f.(tree) !! k = Some x ->
  (exists y, k = y ++ dst /\ f.(tree) !! (y ++ src) = Some x) \/ (rebase src dst k = None /\ f.(tree) !! k = Some x).
Proof.
  rewrite lookup_move_tree. destruct (rebase dst src k ≫= (f.(tree) !!.)) as [n|] eqn:E.
  - intros [= <-]. left. destruct (rebase dst src k) as [k'|] eqn:Hk; [|done]. apply rebase_spec in Hk as (y & -> & ->). by exists y.
  - destruct (rebase src dst k) eqn:Hk; [done|]. by right.
Qed.

Lemma moved_stays k : f.(tree) !! k = Some DirNode -> rebase src dst k = None -> move_tree src dst f.(tree) !! k = Some DirNode.
Proof. intros Hk Hr. by rewrite lookup_move_tree, rebase_dst_dir, Hr. Qed.

Lemma moved_to y x : f.(tree) !! (y ++ src) = Some x -> move_tree src dst f.(tree) !! (y ++ dst) = Some x.
Proof.
  intros Hx. rewrite lookup_move_tree. assert (rebase dst src (y ++ dst) = Some (y ++ src)) as -> by (apply rebase_spec; eauto).
  cbn. by rewrite Hx.
Qed.

Lemma wf_move : wf (set_tree (move_tree src dst f.(tree)) f).
Proof.
  destruct (mv_dst f src dst Hmv) as (m & d & Hdst & Hd & Hm). split; cbn.
  - apply moved_stays; [apply Hwf|]. destruct (rebase src dst []) eqn:E; [|done]. apply rebase_spec in E as (y & Hy & _).
    symmetry in Hy. apply app_eq_nil in Hy as [_ Hy]. by destruct (mv_src f src dst Hmv).
  - intros n l x [(y & Hk & Hx)|[Hr Hx]]%moved_from.
    + destruct y as [|n' y].
      * cbn in Hk, Hx. rewrite Hdst in Hk. injection Hk as -> ->. split; [|done]. apply moved_stays; [done|].
        destruct (rebase src dst d) eqn:E; [|done]. apply rebase_spec in E as (y & -> & _).
        assert (f.(tree) !! src = Some DirNode) as Hs by (by destruct (wf_ancestor f Hwf _ _ _ Hd) as [->|]).
        destruct (mv_dir f src dst Hmv Hs) as [Hnone _]. assert (rebase src dst dst = Some ((m :: y) ++ dst)) as Hsome.
        { apply rebase_spec. exists (m :: y). by rewrite Hdst at 1. }
        congruence.
      * cbn in Hk, Hx. injection Hk as -> ->. apply (wf_parent f Hwf) in Hx as [Hx ?]. split; [by apply moved_to|done].
    + apply (wf_parent f Hwf) in Hx as [Hx ?]. split; [|done]. apply moved_stays; [done|].
      destruct (rebase src dst l) eqn:E; [|done]. apply rebase_spec in E as (y & -> & _).
      assert (rebase src dst (n :: y ++ src) = Some ((n :: y) ++ dst)) as Hsome by (apply rebase_spec; by exists (n :: y)). congruence.
  - intros l i [(y & _ & Hx)|[_ Hx]]%moved_from; by apply (wf_inode f Hwf) in Hx.
  - intros l1 l2 i [(y1 & -> & H1)|[Hr1 H1]]%moved_from [(y2 & -> & H2)|[Hr2 H2]]%moved_from;
      pose proof (wf_unique f Hwf _ _ _ H1 H2) as He.
    + by apply app_inv_tail in He as ->.
    + subst l2. exfalso. assert (rebase src dst (y1 ++ src) = Some (y1 ++ dst)) by (apply rebase_spec; eauto). congruence.
    + subst l1. exfalso. assert (rebase src dst (y2 ++ src) = Some (y2 ++ dst)) by (apply rebase_spec; eauto). congruence.
    + done.
Qed.

End move.

(** *** What happens below a directory stays there *)

(** Outside [rl] nothing is removed, rewritten or added, but directories that lead to [rl]. *)
Definition confined (rl : loc) (f f' : fs) : Prop :=
  forall l, ~ suffix rl l ->
    (f'.(tree) !! l = f.(tree) !! l \/ (f.(tree) !! l = None /\ f'.(tree) !! l = Some DirNode /\ suffix l rl)) /\
    forall i, f.(tree) !! l = Some (FileNode i) -> f'.(inodes) !! i = f.(inodes) !! i.

#[global] Instance confined_preorder rl : PreOrder (confined rl).
Proof.
  split; [intros f l _; split; [by left|done]|]. intros f g h H1 H2 l Hl. destruct (H1 l Hl) as [Ht Hi], (H2 l Hl) as [Ht' Hi']. split.
  - destruct Ht as [E|(E1 & E2 & E3)], Ht' as [E'|(E1' & E2' & E3')]; rewrite ?E', ?E; auto. right. by rewrite <- E.
  - intros i Hf. rewrite <- Hi by done. apply Hi'. destruct Ht as [->|(E & _)]; [done|]. congruence.
Qed.

Lemma grows_confined rl f f' :
  grows f f' -> (forall l, f'.(tree) !! l = f.(tree) !! l \/ suffix rl l \/ suffix l rl) -> confined rl f f'.
Proof.
  intros (Hi & _ & Ht) Hnew l Hl. split; [|intros i _; by rewrite Hi].
  destruct (Ht l) as [|[E1 E2]]; [by left|]. destruct (Hnew l) as [|[|]]; [by left|done|by right].
Qed.

Lemma confined_delete rl f l : suffix rl l -> confined rl f (set_tree (delete l f.(tree)) f).
Proof.
  intros Hs k Hk. split; [|done]. left. cbn. rewrite lookup_delete_ne; [done|]. by intros <-.
Qed.

Lemma confined_inode rl f i l d :
  wf f -> suffix rl l -> f.(tree) !! l = Some (FileNode i) -> confined rl f (set_inodes (<[i := d]> f.(inodes)) f).
Proof.
  intros Hwf Hs Hl k Hk. split; [by left|]. intros j Hj. cbn. rewrite lookup_insert_ne; [done|]. intros <-.
  by rewrite (wf_unique f Hwf _ _ _ Hl Hj) in Hs.
Qed.

Lemma confined_move rl f src dst : suffix rl src -> suffix rl dst -> confined rl f (set_tree (move_tree src dst f.(tree)) f).
Proof.
  intros Hs Hd k Hk. split; [|done]. left. cbn. rewrite lookup_move_tree.
  assert (forall a b, suffix rl a -> rebase a b k = None) as Hn.
  { intros a b Ha. destruct (rebase a b k) eqn:E; [|done]. apply rebase_spec in E as (x & -> & _).
    destruct Hk. by apply suffix_app_r. }
  by rewrite !Hn.
Qed.

Section confined.
Context `{H : Host}.

Lemma confined_create rl now f p f' h l :
  wf_host f -> os_Create now f p = Ok (f', h) -> resolve f p = Ok l -> suffix rl l -> confined rl f f'.
Proof.
  intros Hh Hc Hr Hs. destruct (os_Create_ok now f p f' h Hh Hc) as (l' & i & Hr' & _ & Hi & _ & Ht & Hor).
  rewrite Hr in Hr'. injection Hr' as <-. intros k Hk. rewrite Ht, Hi. split.
  - left. rewrite lookup_insert_ne; [done|]. by intros <-.
  - intros j Hj. rewrite lookup_insert_ne; [done|]. intros <-. destruct Hor as [Hl|[_ ->]].
    + by rewrite (wf_unique f (proj1 Hh) _ _ _ Hl Hj) in Hs.
    + apply (wf_inode f (proj1 Hh)) in Hj as [_ ?]. lia.
Qed.

Lemma rename_call_ok f src dst new g :
  wf_host f -> resolve f new = Ok dst -> rename_call f src dst = Ok g ->
  (g = f \/ movable f src dst /\ g = set_tree (move_tree src dst f.(tree)) f) /\ wf g.
Proof.
  intros Hh Hn. unfold rename_call, sys. destruct (fault f SysRename src); [done|].
  destruct (f.(tree) !! src) as [n|] eqn:Hs; [|done]. case_decide; [intros [= <-]; split; [by left|apply Hh]|].
  case_decide as Hroot; [done|].
  assert (f.(tree) !! dst <> Some DirNode -> exists m d, dst = m :: d /\ f.(tree) !! d = Some DirNode /\ normal_part m) as Hparent.
  { intros Hd. destruct (f.(tree) !! dst) as [[|i]|] eqn:Hl; [done| |by eapply resolve_new].
    destruct dst as [|m d]; [by rewrite (wf_root f (proj1 Hh)) in Hl|].
    exists m, d. split; [done|]. by eapply (wf_parent f (proj1 Hh)). }
  assert (movable f src dst -> (Ok (set_tree (move_tree src dst f.(tree)) f) : result errno fs) = Ok g ->
    (g = f \/ movable f src dst /\ g = set_tree (move_tree src dst f.(tree)) f) /\ wf g) as Hfin.
  { intros Hmv [= <-]. split; [by right|]. apply wf_move; [apply Hh|done]. }
  destruct n as [|i]; destruct (f.(tree) !! dst) as [[|j]|] eqn:Hd; try done.
  - destruct (rebase src dst dst) eqn:E; [done|]. apply Hfin. split; [done|by apply Hparent|by rewrite Hd|done].
  - apply Hfin. split; [done|by apply Hparent|by rewrite Hd|by rewrite Hs].
  - apply Hfin. split; [done|by apply Hparent|by rewrite Hd|by rewrite Hs].
Qed.

Lemma os_Rename_ok f old new f' :
  wf_host f -> os_Rename f old new = Ok f' ->
  exists src dst, resolve f old = Ok src /\ resolve f new = Ok dst /\
    (f' = f \/ movable f src dst /\ f' = set_tree (move_tree src dst f.(tree)) f) /\ wf f'.
Proof.
  intros Hh. unfold os_Rename.
  destruct (resolve f old) as [src|] eqn:Ho.
  2: { by destruct (os_Stat f new) as [[]|]; [destruct (os_Stat f old); [case_match|]|]; try case_match. }
  destruct (resolve f new) as [dst|] eqn:Hn.
  2: { by destruct (os_Stat f new) as [[]|]; [destruct (os_Stat f old); [case_match|]|]; try case_match. }
  intros Hr. exists src, dst. split; [done|]. split; [done|]. apply (rename_call_ok f src dst new f' Hh Hn).
  destruct (os_Stat f new) as [fi|]; [destruct (IsDir fi); [destruct (os_Stat f old); [destruct (_ || _); [done|]|done]|]|];
    by destruct (rename_call f src dst); [injection Hr as ->|].
Qed.

End confined.

(** ** When no call fails *)

Lemma parent_render r parts x :
  Forall clean_part (parts ++ [x]) ->
  parent_of (render r (parts ++ [x])) = if decide (parts = []) then "" else render r parts.
Proof.
  intros Hc. unfold parent_of. rewrite split_render by (done || by destruct parts).
  assert (Forall clean_part parts /\ x <> "") as [Hp Hx].
  { apply Forall_app in Hc as [? [[_ ?]%clean_part_no_slash _]%Forall_cons]. done. }
  assert (drop_empty (rev (if r then "" :: parts ++ [x] else parts ++ [x])) = x :: rev (if r then "" :: parts else parts)) as ->.
  { assert (rev (if r then "" :: parts ++ [x] else parts ++ [x]) = x :: rev (if r then "" :: parts else parts)) as ->.
    { destruct r; [rewrite app_comm_cons|]; by rewrite rev_app_distr. }
    unfold drop_empty. by destruct x. }
  rewrite rev_involutive. case_decide as He; [subst; by destruct r|]. unfold render. destruct r; [by rewrite join_cons|].
  rewrite decide_False; [done|]. by intros ?%join_clean_empty.
Qed.

(** Where [MkdirAll] makes a directory, whatever fails: at the places of the prefixes of its path. *)
Section made.
Context `{H : Host}.

Lemma os_Mkdir_made f r qs f' l :
  wf_host f -> Forall clean_part qs -> os_Mkdir f (render r qs) = Ok f' ->
  f'.(tree) !! l = f.(tree) !! l \/ l = lexical (start r) qs.
Proof.
  intros Hh Hq Hm. apply os_Mkdir_ok in Hm as (k & Hr & _ & -> & _); [|done]. rewrite resolve_render in Hr by done.
  apply namei_lexical in Hr as <-. cbn. destruct (decide (k = l)) as [->|]; [by right|left]. by rewrite lookup_insert_ne.
Qed.

Lemma MkdirAll_made fuel f r qs f' err l :
  wf_host f -> Forall clean_part qs -> MkdirAll_fuel fuel f (render r qs) = (f', err) ->
  f'.(tree) !! l = f.(tree) !! l \/ exists n, l = lexical (start r) (take n qs).
Proof.
  revert f qs f' err. induction fuel as [|fuel IH]; intros f qs f' err Hh Hq; cbn [MkdirAll_fuel].
  all: destruct (os_Stat f (render r qs)) as [info|]; [intros [= <- _]; by left|].
  - destruct (os_Mkdir f (render r qs)) as [g|] eqn:Hm; [|destruct (os_Stat f (render r qs)); intros [= <- _]; by left].
    intros [= <- _]. apply (os_Mkdir_made _ _ _ _ l) in Hm as [|Hl]; [by left| |done..]. right. exists (length qs). by rewrite firstn_all.
  - destruct (if decide (parent_of (render r qs) = "") then (f, None) else MkdirAll_fuel fuel f (parent_of (render r qs))) as [g err1] eqn:Hg.
    assert (wf_host g /\ (g.(tree) !! l = f.(tree) !! l \/ exists n, l = lexical (start r) (take n qs))) as [Hhg Hl].
    { case_decide as Hp; [injection Hg as <- _; split; [done|by left]|]. split; [by eapply MkdirAll_grows|].
      destruct qs as [|x qs _] using rev_ind; [by destruct r|]. rewrite parent_render in Hg, Hp by done.
      destruct (decide (qs = [])) as [|Hne]; [done|]. apply Forall_app in Hq as [Hq _].
      apply IH in Hg as [|[n Hn]]; [by left| |done..]. right. exists (min n (length qs)).
      rewrite take_app_le, <- take_take, firstn_all by lia. exact Hn. }
    destruct err1; [by intros [= <- _]|]. destruct (os_Mkdir g (render r qs)) as [h|] eqn:Hm.
    + intros [= <- _]. apply (os_Mkdir_made _ _ _ _ l) in Hm as [E|E]; [by rewrite E| |done..]. right. exists (length qs). by rewrite firstn_all.
    + destruct (os_Stat g (render r qs)); by intros [= <- _].
Qed.

(** Below a clean [pre] they are below its place, on the way to it, or there already. *)
Lemma prefix_place f r n0 ns names n :
  wf_host f -> Forall normal_part ns -> Forall normal_part names -> let pre := replicate n0 ".." ++ ns in
  let l := lexical (start r) (take n (pre ++ names)) in
  f.(tree) !! l = Some DirNode \/ suffix (lexical (start r) pre) l \/ suffix l (lexical (start r) pre).
Proof.
  intros Hh Hns Hnm pre l. destruct (Nat.le_gt_cases (length pre) n) as [Hle|Hlt].
  - right; left. unfold l. rewrite take_app_ge by done. unfold lexical. rewrite fold_left_app. fold (lexical (start r) pre).
    fold (lexical (lexical (start r) pre) (take (n - length pre) names)). rewrite (lexical_names (lexical (start r) pre)) by (by apply Forall_take). by eexists.
  - assert (l = lexical (start r) (take n pre)) as -> by (unfold l; by rewrite take_app_le by lia).
    destruct (Nat.le_gt_cases n n0) as [Hle|Hgt].
    + left. unfold pre. rewrite take_app_le by (rewrite length_replicate; done). rewrite take_replicate, Nat.min_l by done.
      clear -Hh. pose proof (start_dir f r Hh) as Hd. revert Hd. generalize (start r) as cur.
      induction n as [|n IH]; intros cur Hd; [done|]. cbn [replicate]. change (lexical cur (".." :: replicate n "..")) with (lexical (tail cur) (replicate n "..")).
      apply IH. by apply (wf_tail f (proj1 Hh)).
    + right; right. exists (rev (drop n pre)). rewrite <- (lexical_names _ (drop n pre)).
      * unfold lexical. by rewrite <- fold_left_app, take_drop.
      * unfold pre. rewrite drop_app_ge by (rewrite length_replicate; lia). by apply Forall_drop.
Qed.

Lemma MkdirAll_confined f r n0 ns names f' err :
  wf_host f -> Forall normal_part ns -> Forall normal_part names ->
  os_MkdirAll f (render r ((replicate n0 ".." ++ ns) ++ names)) = (f', err) -> confined (lexical (start r) (replicate n0 ".." ++ ns)) f f'.
Proof.
  intros Hh Hns Hnm Hm. apply grows_confined; [by eapply MkdirAll_grows|]. intros l.
  assert (Forall clean_part ((replicate n0 ".." ++ ns) ++ names)) as Hc.
  { rewrite !Forall_app. split_and!; [apply Forall_replicate; by right|eapply Forall_impl; [exact Hns|by left]|eapply Forall_impl; [exact Hnm|by left]]. }
  apply (MkdirAll_made _ _ _ _ _ _ l) in Hm as Hl; [|done..]. destruct Hl as [|[n ->]]; [by left|].
  destruct (prefix_place f r n0 ns names n Hh Hns Hnm) as [Hd|[|]]; [left|by right; left|by right; right].
  apply MkdirAll_grows in Hm as [(_ & _ & Ht) _]; [|done]. destruct (Ht (lexical (start r) (take n ((replicate n0 ".." ++ ns) ++ names)))) as [|[E _]]; [done|congruence].
Qed.

(** The parent of [pre] itself. *)
Lemma MkdirAll_parent_confined f r n0 ns f' err :
  wf_host f -> Forall normal_part ns ->
  os_MkdirAll f (render r (removelast (replicate n0 ".." ++ ns))) = (f', err) -> confined (lexical (start r) (replicate n0 ".." ++ ns)) f f'.
Proof.
  intros Hh Hns Hm. apply grows_confined; [by eapply MkdirAll_grows|]. intros l.
  assert (exists k, removelast (replicate n0 ".." ++ ns) = take k (replicate n0 ".." ++ ns)) as [k Hk].
  { rewrite removelast_firstn_len. by eexists. }
  assert (Forall clean_part (removelast (replicate n0 ".." ++ ns))) as Hc.
  { rewrite Hk. apply Forall_take, Forall_app. split; [apply Forall_replicate; by right|eapply Forall_impl; [exact Hns|by left]]. }
  apply (MkdirAll_made _ _ _ _ _ _ l) in Hm as Hl; [|done..]. destruct Hl as [|[n ->]]; [by left|]. rewrite Hk, take_take in *.
  pose proof (prefix_place f r n0 ns [] (min n k) Hh Hns ltac:(done)) as Hp. cbv zeta in Hp. rewrite app_nil_r in Hp.
  destruct Hp as [Hd|[|]]; [left|by right; left|by right; right].
  apply MkdirAll_grows in Hm as [(_ & _ & Ht) _]; [|done].
  destruct (Ht (lexical (start r) (take (min n k) (replicate n0 ".." ++ ns)))) as [|[E _]]; [done|congruence].
Qed.
End made.

Lemma length_render r parts : Forall clean_part parts -> length parts <= String.length (render r parts).
Proof.
  intros Hc. assert (length parts <= String.length (join_slash parts)) as Hj.
  { induction Hc as [|p [|q ps] [_ Hp]%clean_part_no_slash _ IH]; [done|destruct p; [done|cbn; lia]|].
    rewrite join_cons, string_length_app by done. cbn [length String.length] in *. lia. }
  unfold render. destruct r; [cbn; lia|]. case_decide as He; [|done]. rewrite He in Hj. cbn in *. lia.
Qed.

Section quiet.
Context `{H : Host} (quiet : forall f c l, fault f c l = None).

Lemma Stat_at f p l :
  wf f -> resolve f p = Ok l ->
  os_Stat f p = match f.(tree) !! l with
    | None => Err (mkPathError "stat" p ENOENT)
    | Some DirNode => Ok (mkFileInfo l true (dir_size f l) (dir_time f l))
    | Some (FileNode i) =>
        match f.(inodes) !! i with
        | Some (d, t) => Ok (mkFileInfo l false (Z.of_nat (length d)) t)
        | None => Err (mkPathError "stat" p EIO)
        end
    end.
Proof.
  intros _ Hr. unfold os_Stat, sys. rewrite Hr, quiet. destruct (f.(tree) !! l) as [[|i]|]; [done| |done].
  by destruct (f.(inodes) !! i) as [[d t]|].
Qed.

Section below.
Context (r : bool) (pre : list string) (rl : loc) (Hpre : Forall clean_part pre).

(** The directory [pre] names. *)
Definition based (f : fs) : Prop := wf_host f /\ namei f.(tree) (start r) pre = Ok rl /\ f.(tree) !! rl = Some DirNode.

Definition at_ (names : list string) : loc := rev names ++ rl.

Lemma based_keep f f' :
  based f -> wf_host f' -> (forall l, f.(tree) !! l = Some DirNode -> f'.(tree) !! l = Some DirNode) -> based f'.
Proof.
  intros (Hh & Hn & Hd) Hh' Hkeep. split_and!; [done| |by apply Hkeep]. pose proof (start_dir f r Hh) as Hs.
  clear -Hn Hs Hkeep. revert Hs Hn. generalize (start r) as cur.
  induction pre as [|part parts IH]; intros cur Hs; [done|]. cbn [namei]. rewrite Hs, (Hkeep _ Hs). fold (step cur part).
  intros Hn. destruct parts as [|q parts]; [done|]. apply IH; [|done]. cbn [namei] in Hn.
  destruct (f.(tree) !! step cur part) as [[|]|]; done.
Qed.

Lemma based_grows f f' : based f -> grows f f' -> wf_host f' -> based f'.
Proof.
  intros Hb (_ & _ & Ht) Hh'. eapply based_keep; [done|done|]. intros l Hl. destruct (Ht l) as [->|[E _]]; [done|congruence].
Qed.

Lemma resolve_at f names :
  based f -> Forall normal_part names -> resolve f (render r (pre ++ names)) = namei f.(tree) rl names.
Proof. intros (Hh & Hn & _) Hnames. by apply resolve_from. Qed.

Lemma resolve_present f names x :
  based f -> Forall normal_part names -> f.(tree) !! at_ names = Some x -> resolve f (render r (pre ++ names)) = Ok (at_ names).
Proof. intros Hb Hn Hx. rewrite resolve_at by done. eapply namei_exists; [apply Hb|done|apply Hb|exact Hx]. Qed.

Lemma resolve_in_dir f names x :
  based f -> Forall normal_part (names ++ [x]) -> f.(tree) !! at_ names = Some DirNode ->
  resolve f (render r (pre ++ names ++ [x])) = Ok (at_ (names ++ [x])).
Proof.
  intros Hb Hn Hd. rewrite resolve_at by done. apply Forall_app in Hn as [Hn Hx]. rewrite namei_app.
  erewrite namei_exists; [|apply Hb|done|apply Hb|exact Hd]. cbn [namei]. change (rev names ++ rl) with (at_ names). rewrite Hd.
  apply Forall_cons in Hx as [(? & ? & ? & _) _]. rewrite !decide_False by naive_solver. unfold at_. by rewrite rev_app_distr.
Qed.

Lemma MkdirAll_below names fuel f :
  based f -> Forall normal_part names -> length names <= fuel ->
  (forall n i, f.(tree) !! at_ (take n names) <> Some (FileNode i)) ->
  exists f', MkdirAll_fuel fuel f (render r (pre ++ names)) = (f', None) /\ based f' /\ grows f f' /\
    f'.(tree) !! at_ names = Some DirNode /\
    forall l, f'.(tree) !! l = f.(tree) !! l \/ exists n, l = at_ (take n names).
Proof.
  revert fuel. induction names as [|x names IH] using rev_ind; intros fuel Hb Hn Hfuel Hfile.
  - exists f. assert (f.(tree) !! at_ [] = Some DirNode) as Hd by apply Hb. split_and!; [|done|done|done|by left].
    destruct fuel; cbn [MkdirAll_fuel]; rewrite (Stat_at f _ (at_ [])), Hd; try done; try apply Hb; by eapply resolve_present.
  - rewrite length_app in Hfuel. cbn in Hfuel. destruct fuel as [|fuel]; [lia|]. cbn [MkdirAll_fuel].
    assert (Forall normal_part names) as Hnames by (apply Forall_app in Hn; tauto).
    destruct (f.(tree) !! at_ (names ++ [x])) as [[|i]|] eqn:Hx.
    { exists f. split_and!; [|done|done|done|by left]. rewrite (Stat_at f _ (at_ (names ++ [x]))), Hx; [done|apply Hb|by eapply resolve_present]. }
    { specialize (Hfile (length (names ++ [x])) i). by rewrite firstn_all in Hfile. }
    assert (exists e, os_Stat f (render r (pre ++ names ++ [x])) = Err e) as [e ->].
    { destruct (resolve f (render r (pre ++ names ++ [x]))) as [l|] eqn:Hr; [|unfold os_Stat; rewrite Hr; by eexists].
      pose proof (resolve_below f r pre (names ++ [x]) l Hpre Hn Hr) as Hl. rewrite (Stat_at f _ l); [|apply Hb|done].
      assert (lexical (start r) pre = rl) as Hlex by (symmetry; eapply namei_lexical; apply Hb). rewrite Hlex in Hl.
      subst l. unfold at_ in Hx. rewrite Hx. by eexists. }
    assert (exists f1, (if decide (parent_of (render r (pre ++ names ++ [x])) = "") then (f, None)
        else MkdirAll_fuel fuel f (parent_of (render r (pre ++ names ++ [x])))) = (f1, None) /\ based f1 /\ grows f f1 /\
        f1.(tree) !! at_ names = Some DirNode /\ forall l, f1.(tree) !! l = f.(tree) !! l \/ exists n, l = at_ (take n names))
      as (f1 & -> & Hb1 & Hg1 & Hd1 & Ht1).
    { rewrite app_assoc, parent_render.
      2: { rewrite <- app_assoc. apply Forall_app. split; [done|]. eapply Forall_impl; [exact Hn|]. by left. }
      destruct (decide (pre ++ names = [])) as [He|He].
      - rewrite decide_True by done. exists f. apply app_eq_nil in He as [_ ->]. split_and!; [done..|apply Hb|by left].
      - rewrite decide_False by apply render_nonempty. apply IH; [done|done|lia|]. intros n i.
        specialize (Hfile (min n (length names)) i). rewrite take_app_le, <- take_take, firstn_all in Hfile by lia. exact Hfile. }
    unfold os_Mkdir, sys. rewrite resolve_in_dir, quiet by done. cbn [path_error].
    assert (f1.(tree) !! at_ (names ++ [x]) = None) as Hnone.
    { destruct (Ht1 (at_ (names ++ [x]))) as [->|[n Heq]]; [done|]. apply (f_equal length) in Heq. unfold at_ in Heq.
      rewrite !length_app, !length_rev, length_take, length_app in Heq. cbn in Heq. lia. }
    rewrite Hnone. cbn [path_error].
    destruct (os_Mkdir_ok f1 (render r (pre ++ names ++ [x])) (set_tree (<[at_ (names ++ [x]) := DirNode]> f1.(tree)) f1)) as (_ & _ & _ & _ & Hg2 & Hh2);
      [apply Hb1|unfold os_Mkdir, sys; by rewrite resolve_in_dir, quiet, Hnone|].
    eexists. split; [done|]. split_and!; [by eapply based_grows|by etrans|cbn; by rewrite lookup_insert_eq|].
    intros l. cbn. destruct (decide (at_ (names ++ [x]) = l)) as [<-|Hne].
    + right. exists (length (names ++ [x])). by rewrite firstn_all.
    + rewrite lookup_insert_ne by done. destruct (Ht1 l) as [?|[n ->]]; [by left|right].
      exists (min n (length names)). rewrite take_app_le, <- take_take, firstn_all by lia. done.
Qed.

End below.

(** *** Contents *)

Definition has_data (f : fs) (i : nat) (d : bytes) : Prop := exists t, f.(inodes) !! i = Some (d, t).

Lemma has_inode_data f i d : has_data f i d -> inode_data f i = d.
Proof. intros [t Ht]. unfold inode_data. by rewrite Ht. Qed.

(** [h] is open for writing at the end of inode [i]. *)
Definition writes_at (f : fs) (h : OsFile) (i : nat) (d : bytes) : Prop :=
  h.(f_closed) = false /\ h.(f_writable) = true /\ h.(f_inode) = Some i /\ h.(f_offset) = length d /\ has_data f i d.

(** Only inode [i] may have changed. *)
Definition same_but (i : nat) (f f' : fs) : Prop :=
  f'.(tree) = f.(tree) /\ f'.(next) = f.(next) /\ (forall j, j <> i -> f'.(inodes) !! j = f.(inodes) !! j) /\
  (is_Some (f.(inodes) !! i) -> is_Some (f'.(inodes) !! i)).

#[global] Instance same_but_preorder i : PreOrder (same_but i).
Proof.
  split; [done|]. intros f g h (Ht & Hn & Hi & Hs) (Ht' & Hn' & Hi' & Hs').
  split_and!; [congruence|congruence|intros j Hj; by rewrite Hi', Hi|auto].
Qed.

Lemma same_but_wf i f f' : same_but i f f' -> wf f -> wf f'.
Proof.
  intros (Ht & Hn & Hi & Hs) [H1 H2 H3 H4]. split; rewrite ?Ht; [done|done| |done]. intros l j [Hj ?]%H3. rewrite Hn. split; [|done].
  destruct (decide (j = i)) as [->|]; [by apply Hs|by rewrite Hi].
Qed.

Definition file_at (f : fs) (l : list string) (d : bytes) : Prop := exists i, f.(tree) !! l = Some (FileNode i) /\ has_data f i d.

(** Every file but the one at [l] is as it was. *)
Definition others_kept (l : list string) (f f' : fs) : Prop := forall k d, k <> l -> file_at f' k d <-> file_at f k d.

#[global] Instance others_kept_preorder l : PreOrder (others_kept l).
Proof. split; [done|]. intros f g h H1 H2 k d Hk. etrans; [by apply H2|by apply H1]. Qed.

Lemma grows_kept l f f' : grows f f' -> others_kept l f f'.
Proof.
  intros (Hi & _ & Ht) k d _. unfold file_at, has_data. rewrite Hi. destruct (Ht k) as [->|[-> ->]]; [done|].
  split; by intros (? & ? & _).
Qed.

Lemma and_iff_under (P Q R : Prop) : (P -> Q <-> R) -> P /\ Q <-> P /\ R.
Proof. tauto. Qed.

Lemma same_but_kept f f' l i : wf f -> f.(tree) !! l = Some (FileNode i) -> same_but i f f' -> others_kept l f f'.
Proof.
  intros Hwf Hl (Ht & _ & Hi & _) k d Hk. unfold file_at, has_data. rewrite Ht. apply exist_proper. intros j.
  apply and_iff_under. intros Hj. rewrite Hi; [done|]. intros ->. destruct Hk. by eapply wf_unique.
Qed.

Lemma create_kept f f' l i d :
  wf f -> f'.(tree) = <[l := FileNode i]> f.(tree) -> f'.(inodes) = <[i := d]> f.(inodes) ->
  (f.(tree) !! l = Some (FileNode i) \/ f.(tree) !! l = None /\ i = f.(next)) -> others_kept l f f'.
Proof.
  intros Hwf Ht Hi Hor k e Hk. unfold file_at, has_data. rewrite Ht, Hi, lookup_insert_ne by done. apply exist_proper. intros j.
  apply and_iff_under. intros Hj. rewrite lookup_insert_ne; [done|]. intros <-. destruct Hor as [Hl|[_ ->]].
  - destruct Hk. by eapply wf_unique.
  - apply (wf_inode f Hwf) in Hj as [_ ?]. lia.
Qed.

Lemma File_Write_end now f h i d p :
  writes_at f h i d ->
  exists f' h', File_Write now f h p = (f', h', length p, None) /\ writes_at f' h' i (d ++ p) /\ same_but i f f'.
Proof.
  intros (Hc & Hw & Hi & Ho & Hd). unfold File_Write. rewrite Hc, Hi, Hw, quiet. case_decide as Hp.
  - subst p. exists f, h. rewrite app_nil_r. split_and!; done.
  - rewrite (has_inode_data f i d Hd). eexists _, _. split; [done|]. split.
    + split_and!; [done..|cbn; rewrite length_app; lia|]. exists now. cbn. rewrite lookup_insert_eq. unfold write_at. rewrite Ho.
      rewrite firstn_all, Nat.sub_diag, drop_ge by lia. by rewrite app_nil_r.
    + split_and!; [done..| |]; [intros j Hj; cbn; by rewrite lookup_insert_ne|intros _; cbn; rewrite lookup_insert_eq; by eexists].
Qed.

(** [h] is open for reading inode [i], with [d] left. *)
Definition reads_at (f : fs) (h : OsFile) (i : nat) (d : bytes) : Prop :=
  h.(f_closed) = false /\ h.(f_inode) = Some i /\ exists all, has_data f i all /\ drop h.(f_offset) all = d.

Lemma File_Read_left f h i d n :
  0 < n -> reads_at f h i d ->
  match d with
  | [] => File_Read f h n = (h, [], Some (err_io EOF))
  | _ => File_Read f h n = (seek_to (h.(f_offset) + length (take n d)) h, take n d, None) /\
         reads_at f (seek_to (h.(f_offset) + length (take n d)) h) i (drop n d)
  end.
Proof.
  intros Hn (Hc & Hi & all & Hall & Hd). unfold File_Read. rewrite Hc, decide_False, Hi, quiet, (has_inode_data f i all Hall), Hd by lia.
  destruct d as [|x d]; [done|]. split; [done|]. split_and!; [done..|]. exists all. split; [done|].
  cbn [seek_to f_offset]. rewrite <- drop_drop, Hd, length_take. rewrite <- (take_drop n (x :: d)) at 2.
  destruct (Nat.le_ge_cases n (length (x :: d))) as [Hle|Hge].
  - rewrite Nat.min_l by done. rewrite drop_app_ge; rewrite length_take_le by done; [|done]. by rewrite Nat.sub_diag.
  - rewrite Nat.min_r by done. rewrite take_drop, !drop_ge; done.
Qed.

Definition copy_read (f : fs) (r : OsFile) (n : nat) : fs * OsFile * bytes * option error :=
  let '(r, chunk, err) := File_Read f r n in (f, r, chunk, err).

(** [io.Copy] between two files. *)
Lemma io_Copy_files now fuel f r v i j d e n :
  reads_at f r i d -> writes_at f v j e -> i <> j -> length d < fuel ->
  exists f' r' v' n', io_Copy copy_read (File_Write now) fuel f r v n = Some (f', r', v', n', None) /\
    writes_at f' v' j (e ++ d) /\ same_but j f f'.
Proof.
  revert f r v d e n. induction fuel as [|fuel IH]; intros f r v d e n Hr Hw Hij Hfuel; [lia|]. cbn [io_Copy]. unfold copy_read at 1.
  pose proof (File_Read_left f r i d copy_buffer copy_buffer_pos Hr) as Hread. destruct d as [|x d].
  - rewrite Hread. exists f, r, v, n. rewrite app_nil_r. done.
  - destruct Hread as [-> Hr']. remember (take copy_buffer (x :: d)) as chunk eqn:Hchunk.
    destruct chunk as [|y chunk]; [by pose proof copy_buffer_pos; destruct copy_buffer; [lia|]|].
    destruct (File_Write_end now f v j e (y :: chunk) Hw) as (f1 & v1 & -> & Hw1 & Hs1). rewrite decide_False by (intros Hne; by apply Hne).
    assert (reads_at f1 (seek_to (f_offset r + length (y :: chunk)) r) i (drop copy_buffer (x :: d))) as Hr1.
    { destruct Hr' as (? & ? & all & ? & ?). split_and!; [done..|]. exists all. split; [|done]. destruct Hs1 as (_ & _ & Hi & _). unfold has_data. by rewrite Hi. }
    destruct (IH f1 _ v1 _ _ (n + Z.of_nat (length (y :: chunk)))%Z Hr1 Hw1 Hij) as (f2 & r2 & v2 & n2 & -> & Hw2 & Hs2).
    { rewrite length_drop. pose proof copy_buffer_pos. cbn [length] in *. lia. }
    exists f2, r2, v2, n2. split; [done|]. split; [|by etrans]. by rewrite Hchunk, <- app_assoc, take_drop in Hw2.
Qed.

End quiet.
