(* ===== verification/File.v ===== *)
(** * object/backend/file: the backend of the local file system

    [FileB.Backend] is the backend; its operations act on the file system [fs] through the
    functions of package os.  The mutex guards [closed] only, so the calls of one operation
    may interleave with others'; they are run one after the other here. *)

From S2P Require Import Prelude GoLib Errors GoPath GoFilepath ObjectTypes ObjectBackend ObjectMemory PosixFs.

Module FileB.
Section file.
Context `{H : Host}.

Record Config := mkConfig { Root : string; CreateDirs : bool; DirPermissions : Z; FilePermissions : Z }.

Definition DefaultConfig : Config := mkConfig "." true 493 420.

Record Backend := mkBackend { config : Config; closed : bool }.

Definition New (c : Config) : Backend :=
  mkBackend (mkConfig (if decide (c.(Root) = "") then "." else c.(Root)) c.(CreateDirs)
    (if decide (c.(DirPermissions) = 0%Z) then 493 else c.(DirPermissions))%Z
    (if decide (c.(FilePermissions) = 0%Z) then 420 else c.(FilePermissions))%Z) false.

Definition NewFromConfig (configMap : gmap string string) : result error Backend :=
  let c := DefaultConfig in
  let c := match configMap !! "root" with
           | Some root => if decide (root <> "") then mkConfig root c.(CreateDirs) c.(DirPermissions) c.(FilePermissions) else c
           | None => c
           end in
  let c := match configMap !! "create_dirs" with
           | Some createDirs => mkConfig c.(Root) (bool_decide (createDirs <> "false")) c.(DirPermissions) c.(FilePermissions)
           | None => c
           end in
  Ok (New c).

Definition checkClosed (b : Backend) : option error :=
  if b.(closed) then Some (err_object ObjErrBackendClosed) else None.

Definition fullPath (b : Backend) (p : string) : string := Join b.(config).(Root) p.

Definition validatePath (p : string) : option error :=
  if decide (p = "") then Some (err_object ObjErrInvalidPath)
  else
    let cleaned := Clean p in
    if HasPrefix cleaned ".." || Contains cleaned "../" then Some (err_object ObjErrInvalidPath) else None.

(** The tests every operation on paths starts with. *)
Definition checks (ctx : context) (b : Backend) (ps : list string) : option error :=
  onerr e <- checkClosed b return Some e else
  onerr e <- ctx_err ctx return Some e else
  fold_left (fun acc p => match acc with Some e => Some e | None => validatePath p end) ps None.

(** Making the directory a file goes to, when configured. *)
Definition create_dirs (b : Backend) (f : fs) (full : string) : fs * option error :=
  if b.(config).(CreateDirs) then
    let dir := Dir full in
    match os_MkdirAll f dir with
    | (f, Some err) => (f, Some (Wrapf ("creating directory " +:+ dir +:+ ": ") (os_error err) ""))
    | (f, None) => (f, None)
    end
  else (f, None).

Definition NewWriter (ctx : context) (now : time) (f : fs) (b : Backend) (p : string) (_ : list WriterOption) : fs * result error OsFile :=
  onerr e <- checks ctx b [p] return (f, Err e) else
  let full := fullPath b p in
  match create_dirs b f full with
  | (f, Some err) => (f, Err err)
  | (f, None) =>
      match os_Create now f full with
      | Err err => (f, Err (Wrapf ("creating file " +:+ p +:+ ": ") (os_error err) ""))
      | Ok (f, h) => (f, Ok h)
      end
  end.

(** A file, behind an [io.LimitReader] with so many bytes left when there is a limit. *)
Record Reader := mkReader { r_file : OsFile; r_limit : option Z }.

(** The errors of the read-only operations. *)
Definition read_error (what : string) (err : PathError) : error :=
  if IsNotExist err then err_object ObjErrNotFound
  else if IsPermission err then err_object ObjErrPermissionDenied
  else Wrapf what (os_error err) "".

Definition NewReader (ctx : context) (f : fs) (b : Backend) (p : string) (opts : list ReaderOption) : result error Reader :=
  onerr e <- checks ctx b [p] return Err e else
  match os_Open f (fullPath b p) with
  | Err err => Err (read_error ("opening file " +:+ p +:+ ": ") err)
  | Ok h =>
      let config := ApplyReaderOptions opts in
      match (if (0 <? config.(ROffset))%Z then File_Seek h config.(ROffset) else Ok h) with
      | Err err => Err (Wrapf ("seeking to offset " +:+ pretty config.(ROffset) +:+ ": ") err "")
      | Ok h => Ok (mkReader h (if (0 <? config.(RLimit))%Z then Some config.(RLimit) else None))
      end
  end.

Definition Read (f : fs) (r : Reader) (n : nat) : Reader * bytes * option error :=
  match r.(r_limit) with
  | None => let '(h, chunk, err) := File_Read f r.(r_file) n in (mkReader h None, chunk, err)
  | Some left_ =>
      if (left_ <=? 0)%Z then (r, [], Some (err_io EOF))
      else
        let '(h, chunk, err) := File_Read f r.(r_file) (if (left_ <? Z.of_nat n)%Z then Z.to_nat left_ else n) in
        (mkReader h (Some (left_ - Z.of_nat (length chunk))%Z), chunk, err)
  end.

Definition Reader_Close (r : Reader) : Reader * option error :=
  let '(h, err) := File_Close r.(r_file) in (mkReader h r.(r_limit), err).

Definition Exists (ctx : context) (f : fs) (b : Backend) (p : string) : result error bool :=
  onerr e <- checks ctx b [p] return Err e else
  match os_Stat f (fullPath b p) with
  | Ok _ => Ok true
  | Err err =>
      if IsNotExist err then Ok false else Err (Wrapf ("checking existence of " +:+ p +:+ ": ") (os_error err) "")
  end.

Definition Delete (ctx : context) (f : fs) (b : Backend) (p : string) : fs * option error :=
  onerr e <- checks ctx b [p] return (f, Some e) else
  match os_Remove f (fullPath b p) with
  | Ok f => (f, None)
  | Err err =>
      if IsNotExist err then (f, None)
      else if IsPermission err then (f, Some (err_object ObjErrPermissionDenied))
      else (f, Some (Wrapf ("deleting " +:+ p +:+ ": ") (os_error err) ""))
  end.

(** What the function [List] hands to [filepath.Walk] returns. *)
Inductive walk_error := WalkCtx (e : error) | WalkPath (e : PathError) | WalkRel (e : error).
Definition walk_err (e : walk_error) : error := match e with WalkCtx e | WalkRel e => e | WalkPath e => os_error e end.

Definition List_fn (ctx : context) (b : Backend) (paths : list string) (path : string) (r : result PathError FileInfo)
    : list string * option walk_error :=
  match ctx_err ctx with
  | Some e => (paths, Some (WalkCtx e))
  | None =>
      match r with
      | Err err => if IsPermission err then (paths, None) else (paths, Some (WalkPath err))
      | Ok info =>
          if info.(IsDir) then (paths, None)
          else
            match Rel b.(config).(Root) path with
            | Err err => (paths, Some (WalkRel err))
            | Ok rel => (paths ++ [rel], None)
            end
      end
  end.

(** [None]: deeper than the fuel. *)
Definition List (fuel : nat) (ctx : context) (f : fs) (b : Backend) (prefix : string) : option (result error (list string)) :=
  onerr e <- checkClosed b return Some (Err e) else
  onerr e <- ctx_err ctx return Some (Err e) else
  let root := if decide (prefix <> "") then fullPath b prefix else b.(config).(Root) in
  match Walk (List_fn ctx b) f fuel [] root with
  | None => None
  | Some (paths, None) => Some (Ok paths)
  | Some (_, Some err) =>
      if match err with WalkPath err => IsNotExist err | _ => false end then Some (Ok [])
      else Some (Err (Wrapf ("listing " +:+ prefix +:+ ": ") (walk_err err) ""))
  end.

Definition Close (b : Backend) : Backend * option error := (mkBackend b.(config) true, None).

(** *** extended.go *)

Definition Stat (ctx : context) (f : fs) (b : Backend) (p : string) : result error ObjectInfo :=
  onerr e <- checks ctx b [p] return Err e else
  match os_Stat f (fullPath b p) with
  | Err err => Err (read_error ("stat " +:+ p +:+ ": ") err)
  | Ok info =>
      let contentType := if info.(IsDir) then "" else if decide (Ext p <> "") then TypeByExtension (Ext p) else "" in
      Ok (mkInfo p info.(Size) info.(ModTime) info.(IsDir) contentType None None)
  end.

Definition Mkdir (ctx : context) (f : fs) (b : Backend) (p : string) : fs * option error :=
  onerr e <- checks ctx b [p] return (f, Some e) else
  match os_MkdirAll f (fullPath b p) with
  | (f, None) => (f, None)
  | (f, Some err) =>
      (f, Some (if IsPermission err then err_object ObjErrPermissionDenied else Wrapf ("mkdir " +:+ p +:+ ": ") (os_error err) ""))
  end.

Definition Rmdir (ctx : context) (f : fs) (b : Backend) (p : string) : fs * option error :=
  onerr e <- checks ctx b [p] return (f, Some e) else
  match os_Stat f (fullPath b p) with
  | Err err => (f, Some (read_error ("stat " +:+ p +:+ ": ") err))
  | Ok info =>
      if negb info.(IsDir) then (f, Some (Errorf ("rmdir " +:+ p +:+ ": not a directory")))
      else
        match os_Remove f (fullPath b p) with
        | Ok f => (f, None)
        | Err err =>
            (f, Some (if IsPermission err then err_object ObjErrPermissionDenied else Wrapf ("rmdir " +:+ p +:+ ": ") (os_error err) ""))
        end
  end.

(** [io.Copy] from the source to the new destination, both closed afterwards; [None]: more
    reads than the fuel. *)
Definition copyFile (fuel : nat) (now : time) (f : fs) (src dst : string) : option (fs * option error) :=
  match os_Open f src with
  | Err err => Some (f, Some (Wrapf "open source: " (os_error err) ""))
  | Ok srcFile =>
      match os_Create now f dst with
      | Err err => Some (f, Some (Wrapf "create destination: " (os_error err) ""))
      | Ok (f, dstFile) =>
          match io_Copy copy_read (File_Write now) fuel f srcFile dstFile 0 with
          | None => None
          | Some (f, _, _, _, Some err) => Some (f, Some (Wrapf "copy data: " err ""))
          | Some (f, _, dstFile, _, None) => Some (f, (File_Close dstFile).2)
          end
      end
  end.

Definition Copy (fuel : nat) (ctx : context) (now : time) (f : fs) (b : Backend) (src dst : string) : option (fs * option error) :=
  onerr e <- checks ctx b [src; dst] return Some (f, Some e) else
  match os_Stat f (fullPath b src) with
  | Err err => Some (f, Some (read_error ("stat " +:+ src +:+ ": ") err))
  | Ok srcInfo =>
      if srcInfo.(IsDir) then Some (f, Some (Errorf ("copy " +:+ src +:+ ": source is a directory")))
      else
        match create_dirs b f (fullPath b dst) with
        | (f, Some err) => Some (f, Some err)
        | (f, None) => copyFile fuel now f (fullPath b src) (fullPath b dst)
        end
  end.

Definition Move (fuel : nat) (ctx : context) (now : time) (f : fs) (b : Backend) (src dst : string) : option (fs * option error) :=
  onerr e <- checks ctx b [src; dst] return Some (f, Some e) else
  match os_Stat f (fullPath b src) with
  | Err err => Some (f, Some (read_error ("stat " +:+ src +:+ ": ") err))
  | Ok _ =>
      match create_dirs b f (fullPath b dst) with
      | (f, Some err) => Some (f, Some err)
      | (f, None) =>
          match os_Rename f (fullPath b src) (fullPath b dst) with
          | Ok f => Some (f, None)
          | Err _ =>
              match copyFile fuel now f (fullPath b src) (fullPath b dst) with
              | None => None
              | Some (f, Some err) => Some (f, Some err)
              | Some (f, None) =>
                  match os_Remove f (fullPath b src) with
                  | Ok f => Some (f, None)
                  | Err err => Some (f, Some (os_error err))
                  end
              end
          end
      end
  end.

Definition Features_ : Features := mkFeatures true true true true true [] true false false true true false false.

End file.
End FileB.

Import FileB.

(** ** Lemmas: paths *)

Section lemmas.
Context `{H : Host} (b : Backend) (Hroot : b.(config).(Root) <> "").

Definition rooted : bool := is_rooted b.(config).(Root).
Definition pre : list string := clean_parts rooted (split_slash b.(config).(Root)).
Definition names (p : string) : list string := clean_parts false (split_slash p).
(** The place of the root directory. *)
Definition root_loc : list string := lexical (start rooted) pre.

(** A path the backend accepts and that does not start with a slash. *)
Definition relative (p : string) : Prop := validatePath p = None /\ is_rooted p = false.

Lemma pre_clean : Forall clean_part pre.
Proof. apply clean_parts_clean, split_slash_no_slash. Qed.

Lemma relative_names p : relative p -> p <> "" /\ Forall normal_part (names p).
Proof.
  intros [Hv Hr]. unfold validatePath in Hv. case_decide as Hp; [done|]. split; [done|].
  destruct (HasPrefix (Clean p) "..") eqn:Hpre; [done|]. rewrite Clean_render, Hr in Hpre by done.
  unfold names. destruct (clean_parts_shape false (split_slash p)) as (n & ns & Heq & Hn & _); [apply split_slash_no_slash|].
  rewrite Heq in *. destruct n as [|n]; [done|]. exfalso. unfold HasPrefix, render in Hpre. cbn [replicate app] in Hpre.
  case_decide as Hj; [by destruct (replicate n ".." ++ ns)|]. by rewrite prefix_join in Hpre.
Qed.

Lemma fullPath_names p : relative p -> fullPath b p = render rooted (pre ++ names p).
Proof. intros [Hp Hn]%relative_names. by apply Join_below. Qed.

Lemma resolve_relative f p l : relative p -> resolve f (fullPath b p) = Ok l -> suffix root_loc l.
Proof.
  intros Hp. rewrite fullPath_names by done. intros Hr. apply relative_names in Hp as [_ Hn].
  apply resolve_below in Hr as ->; [by eexists|apply pre_clean|done].
Qed.

Lemma checks_None ctx ps :
  checks ctx b ps = None -> b.(closed) = false /\ ctx = None /\ Forall (fun p => validatePath p = None) ps.
Proof.
  unfold checks, checkClosed. destruct b.(closed); [done|]. destruct ctx; [done|]. cbn. intros Hf. split_and!; [done..|].
  assert (forall qs e, fold_left (fun acc p => match acc with Some e => Some e | None => validatePath p end) qs (Some e) = Some e) as Hs
    by by intros qs e; induction qs.
  induction ps as [|p ps IH]; [done|]. cbn in Hf. destruct (validatePath p) eqn:Hp; [by rewrite Hs in Hf|]. constructor; [done|by apply IH].
Qed.

(** ** Lemmas: nothing leaves the root *)

Lemma create_dirs_grows f full f' err : wf_host f -> create_dirs b f full = (f', err) -> grows f f' /\ wf_host f'.
Proof.
  intros Hh. unfold create_dirs. destruct (CreateDirs _); [|by intros [= <- _]].
  destruct (os_MkdirAll f _) as [g e] eqn:Hm. apply MkdirAll_grows in Hm as [??]; [|done]. by destruct e; intros [= <- _].
Qed.

Lemma File_Write_confined rl now f h p f' h' n err l j :
  File_Write now f h p = (f', h', n, err) -> wf_host f -> h.(f_inode) = Some j -> f.(tree) !! l = Some (FileNode j) -> suffix rl l ->
  confined rl f f' /\ wf_host f' /\ h'.(f_inode) = Some j /\ f'.(tree) !! l = Some (FileNode j).
Proof.
  intros Hw Hh Hj Hl Hs. unfold File_Write in Hw. rewrite Hj in Hw.
  repeat (case_match; try (injection Hw as <- <- _ _; done)). injection Hw as <- <- _ _. split_and!; [|split; [by apply wf_set_inode, Hh|apply Hh]|done|done].
  eapply confined_inode; [apply Hh|done|done].
Qed.

Lemma io_Copy_confined rl now fuel f r v n f' r' v' n' err l j :
  io_Copy copy_read (File_Write now) fuel f r v n = Some (f', r', v', n', err) ->
  wf_host f -> v.(f_inode) = Some j -> f.(tree) !! l = Some (FileNode j) -> suffix rl l -> confined rl f f' /\ wf_host f'.
Proof.
  revert f r v n. induction fuel as [|fuel IH]; intros f r v n; [done|]. cbn [io_Copy]. unfold copy_read at 1.
  destruct (File_Read f r copy_buffer) as [[r1 chunk] er]. intros Hc Hh Hj Hl Hs. destruct chunk as [|x chunk].
  - destruct er; [by injection Hc as <- _ _ _ _|by eapply IH].
  - destruct (File_Write now f v (x :: chunk)) as [[[f1 v1] nw] ew] eqn:Hw.
    destruct (File_Write_confined rl now f v _ _ _ _ _ l j Hw Hh Hj Hl Hs) as (Hc1 & Hh1 & Hj1 & Hl1).
    destruct ew; [by injection Hc as <- _ _ _ _|]. case_decide; [by injection Hc as <- _ _ _ _|].
    destruct er; [by injection Hc as <- _ _ _ _|]. destruct (IH _ _ _ _ Hc Hh1 Hj1 Hl1 Hs). split; [by etrans|done].
Qed.

Lemma copyFile_confined rl fuel now f src dst f' err :
  copyFile fuel now f src dst = Some (f', err) -> wf_host f ->
  (forall l, resolve f dst = Ok l -> suffix rl l) -> confined rl f f' /\ wf_host f'.
Proof.
  intros Hc Hh Hdst. unfold copyFile in Hc. destruct (os_Open f src) as [srcFile|]; [|by injection Hc as <- _].
  destruct (os_Create now f dst) as [[f1 dstFile]|] eqn:Hcr; [|by injection Hc as <- _].
  destruct (os_Create_ok now f dst f1 dstFile Hh Hcr) as (l & i & Hr & -> & _ & Hh1 & Ht & _).
  pose proof (confined_create rl now f dst f1 _ l Hh Hcr Hr (Hdst l Hr)) as Hc1.
  destruct (io_Copy _ _ _ _ _ _ _) as [[[[[f2 r2] v2] n2] e2]|] eqn:Hio; [|done].
  apply (io_Copy_confined rl now fuel _ _ _ _ _ _ _ _ _ l i) in Hio as [Hc2 Hh2]; [|done|done|by rewrite Ht, lookup_insert_eq|by apply Hdst].
  destruct e2; injection Hc as <- _; (split; [by etrans|done]).
Qed.

Lemma os_Remove_confined f p f' : wf f -> relative p -> os_Remove f (fullPath b p) = Ok f' -> confined root_loc f f' /\ wf f'.
Proof.
  intros Hwf Hp Hr. apply os_Remove_ok in Hr as (l & Hr & _ & _ & -> & Hwf'); [|done]. split; [|done].
  by apply confined_delete, (resolve_relative f p).
Qed.

(** The directories that are made below the root lead to it or lie in it. *)
Lemma MkdirAll_stays f names f' err :
  wf_host f -> Forall normal_part names -> os_MkdirAll f (render rooted (pre ++ names)) = (f', err) -> confined root_loc f f' /\ wf_host f'.
Proof.
  intros Hh Hn Hm. split; [|by eapply MkdirAll_grows]. unfold root_loc, pre in *.
  destruct (clean_parts_shape rooted (split_slash b.(config).(Root))) as (n0 & ns & Heq & Hns & _); [apply split_slash_no_slash|].
  rewrite Heq in *. exact (MkdirAll_confined f _ n0 ns names f' err Hh Hns Hn Hm).
Qed.

(** The same for the root's own parent, which a path that names the root asks for. *)
Lemma MkdirAll_parent_stays f f' err :
  wf_host f -> os_MkdirAll f (render rooted (removelast pre)) = (f', err) -> confined root_loc f f' /\ wf_host f'.
Proof.
  intros Hh Hm. split; [|by eapply MkdirAll_grows]. unfold root_loc, pre in *.
  destruct (clean_parts_shape rooted (split_slash b.(config).(Root))) as (n0 & ns & Heq & Hns & _); [apply split_slash_no_slash|].
  rewrite Heq in *. exact (MkdirAll_parent_confined f _ n0 ns f' err Hh Hns Hm).
Qed.

Lemma create_dirs_confined f p f' err :
  wf_host f -> relative p -> create_dirs b f (fullPath b p) = (f', err) -> confined root_loc f f' /\ wf_host f'.
Proof.
  intros Hh Hp. rewrite fullPath_names by done. apply relative_names in Hp as [_ Hn]. unfold create_dirs.
  destruct (CreateDirs _); [|by intros [= <- _]].
  assert (Forall no_slash pre) as Hpre by apply clean_no_slash, pre_clean.
  pose proof (clean_parts_idem rooted (split_slash b.(config).(Root)) [] (split_slash_no_slash _) ltac:(done)) as Hidem.
  rewrite !app_nil_r in Hidem. fold pre in Hidem.
  destruct (names p) as [|x ns _] eqn:Hnames using rev_ind.
  - rewrite app_nil_r, Dir_removelast; [|apply pre_clean|done|exact Hidem].
    destruct (os_MkdirAll f _) as [g e] eqn:Hm. apply MkdirAll_parent_stays in Hm; [|done]. by destruct e; intros [= <- _].
  - pose proof (Dir_render rooted _ ns x (split_slash_no_slash b.(config).(Root)) Hn) as Hdir. fold pre in Hdir. rewrite Hdir.
    apply Forall_app in Hn as [Hn _].
    destruct (os_MkdirAll f _) as [g e] eqn:Hm. apply MkdirAll_stays in Hm; [|done..]. by destruct e; intros [= <- _].
Qed.

(** Each operation, when its paths are relative. *)
Definition stays (f f' : fs) : Prop := confined root_loc f f' /\ wf f'.

Lemma stays_refl f : wf_host f -> stays f f.
Proof. intros Hh. split; [done|apply Hh]. Qed.

Lemma stays_trans f g h : confined root_loc f g -> stays g h -> stays f h.
Proof. intros Hfg [Hgh ?]. split; [by etrans|done]. Qed.

Lemma NewWriter_stays ctx now f p opts f' r :
  wf_host f -> (checks ctx b [p] = None -> relative p) -> NewWriter ctx now f b p opts = (f', r) -> stays f f'.
Proof.
  intros Hh Hp. unfold NewWriter. destruct (checks ctx b [p]); [intros [= <- _]; by apply stays_refl|]. specialize (Hp eq_refl).
  destruct (create_dirs b f (fullPath b p)) as [f1 err] eqn:Hd. apply create_dirs_confined in Hd as [Hg Hh1]; [|done..].
  destruct err; [intros [= <- _]; by split; [|apply Hh1]|]. intros Hw. eapply stays_trans; [exact Hg|].
  destruct (os_Create now f1 (fullPath b p)) as [[f2 h]|] eqn:Hc; injection Hw as <- _; [|by apply stays_refl].
  destruct (os_Create_ok now f1 _ f2 h Hh1 Hc) as (l & i & Hr & _ & _ & Hh2 & _).
  split; [eapply confined_create; [done..|by eapply resolve_relative]|apply Hh2].
Qed.

Lemma Delete_stays ctx f p f' err :
  wf_host f -> (checks ctx b [p] = None -> relative p) -> Delete ctx f b p = (f', err) -> stays f f'.
Proof.
  intros Hh Hp. unfold Delete. destruct (checks ctx b [p]); [intros [= <- _]; by apply stays_refl|]. specialize (Hp eq_refl).
  destruct (os_Remove f (fullPath b p)) as [g|] eqn:Hr.
  - intros [= <- _]. eapply os_Remove_confined; [apply Hh|done|exact Hr].
  - repeat case_match; intros [= <- _]; by apply stays_refl.
Qed.

Lemma Mkdir_stays ctx f p f' err :
  wf_host f -> (checks ctx b [p] = None -> relative p) -> Mkdir ctx f b p = (f', err) -> stays f f'.
Proof.
  intros Hh Hp. unfold Mkdir. destruct (checks ctx b [p]); [intros [= <- _]; by apply stays_refl|]. specialize (Hp eq_refl).
  destruct (os_MkdirAll f (fullPath b p)) as [g e] eqn:Hm. rewrite fullPath_names in Hm by done.
  apply MkdirAll_stays in Hm as [? [? _]]; [|done|by apply relative_names]. by destruct e; intros [= <- _].
Qed.

Lemma Rmdir_stays ctx f p f' err :
  wf_host f -> (checks ctx b [p] = None -> relative p) -> Rmdir ctx f b p = (f', err) -> stays f f'.
Proof.
  intros Hh Hp. unfold Rmdir. destruct (checks ctx b [p]); [intros [= <- _]; by apply stays_refl|]. specialize (Hp eq_refl).
  destruct (os_Stat f (fullPath b p)) as [info|]; [|intros [= <- _]; by apply stays_refl].
  destruct (negb _); [intros [= <- _]; by apply stays_refl|]. destruct (os_Remove f (fullPath b p)) as [g|] eqn:Hr.
  - intros [= <- _]. eapply os_Remove_confined; [apply Hh|done|exact Hr].
  - intros [= <- _]; by apply stays_refl.
Qed.

Lemma Copy_stays fuel ctx now f src dst f' err :
  wf_host f -> (checks ctx b [src; dst] = None -> relative src /\ relative dst) ->
  Copy fuel ctx now f b src dst = Some (f', err) -> stays f f'.
Proof.
  intros Hh Hp. unfold Copy. destruct (checks ctx b [src; dst]); [intros [= <- _]; by apply stays_refl|]. destruct (Hp eq_refl) as [_ Hd].
  destruct (os_Stat f (fullPath b src)) as [info|]; [|intros [= <- _]; by apply stays_refl].
  destruct (IsDir info); [intros [= <- _]; by apply stays_refl|].
  destruct (create_dirs b f (fullPath b dst)) as [f1 e1] eqn:Hc. apply create_dirs_confined in Hc as [Hg Hh1]; [|done..].
  destruct e1; [intros [= <- _]; by split; [|apply Hh1]|]. intros Hcp.
  apply (copyFile_confined root_loc) in Hcp as [Hc Hh2]; [|done|intros l; by apply resolve_relative].
  eapply stays_trans; [exact Hg|]. split; [done|apply Hh2].
Qed.

Lemma Move_stays fuel ctx now f src dst f' err :
  wf_host f -> (checks ctx b [src; dst] = None -> relative src /\ relative dst) ->
  Move fuel ctx now f b src dst = Some (f', err) -> stays f f'.
Proof.
  intros Hh Hp. unfold Move. destruct (checks ctx b [src; dst]); [intros [= <- _]; by apply stays_refl|]. destruct (Hp eq_refl) as [Hs Hd].
  destruct (os_Stat f (fullPath b src)) as [info|]; [|intros [= <- _]; by apply stays_refl].
  destruct (create_dirs b f (fullPath b dst)) as [f1 e1] eqn:Hc. apply create_dirs_confined in Hc as [Hg Hh1]; [|done..].
  destruct e1; [intros [= <- _]; by split; [|apply Hh1]|]. intros Hm. eapply stays_trans; [exact Hg|].
  destruct (os_Rename f1 (fullPath b src) (fullPath b dst)) as [f2|] eqn:Hr.
  - injection Hm as <- _. destruct (os_Rename_ok f1 _ _ f2 Hh1 Hr) as (s & d & Hrs & Hrd & [->|[_ ->]] & Hwf); [by apply stays_refl|].
    split; [|done]. apply confined_move; [exact (resolve_relative f1 src s Hs Hrs)|exact (resolve_relative f1 dst d Hd Hrd)].
  - destruct (copyFile fuel now f1 (fullPath b src) (fullPath b dst)) as [[f2 e2]|] eqn:Hcp; [|done].
    apply (copyFile_confined root_loc) in Hcp as [Hc2 Hh2]; [|done|intros l; by apply resolve_relative].
    destruct e2; [injection Hm as <- _; split; [done|apply Hh2]|].
    destruct (os_Remove f2 (fullPath b src)) as [f3|] eqn:Hrm; injection Hm as <- _; [|split; [done|apply Hh2]].
    eapply stays_trans; [done|]. exact (os_Remove_confined f2 src f3 (proj1 Hh2) Hs Hrm).
Qed.

End lemmas.

(** ** Lemmas: when no call fails *)

Section quiet.
Context `{H : Host} (quiet : forall f c l, fault f c l = None).

Lemma checks_ok b ps :
  b.(closed) = false -> Forall (fun p => validatePath p = None) ps -> checks None b ps = None.
Proof.
  intros Hc Hv. unfold checks, checkClosed. rewrite Hc. cbn. induction Hv as [|p ps Hp _ IH]; [done|]. cbn. by rewrite Hp.
Qed.

(** The directory a file goes to can be made: no file is in the way. *)
Definition way_free (rl : list string) (ns : list string) (f : fs) : Prop :=
  forall n i, f.(tree) !! at_ rl (take n ns) <> Some (FileNode i).

Section below.
Context (r : bool) (parts : list string) (rl : list string) (Hns : Forall no_slash parts).
Abbreviation base := (clean_parts r parts).

Lemma create_dirs_ok f b ns x :
  based r base rl f -> b.(config).(CreateDirs) = true -> Forall normal_part (ns ++ [x]) -> way_free rl ns f ->
  exists f', create_dirs b f (render r (base ++ ns ++ [x])) = (f', None) /\ based r base rl f' /\ grows f f' /\
    f'.(tree) !! at_ rl ns = Some DirNode /\ forall l, f'.(tree) !! l = f.(tree) !! l \/ exists n, l = at_ rl (take n ns).
Proof.
  intros Hb Hcd Hn Hfree. assert (Forall normal_part ns) as Hn' by (apply Forall_app in Hn; tauto).
  unfold create_dirs, os_MkdirAll. rewrite Hcd, Dir_render by done.
  assert (Forall clean_part base) as Hbase by by apply clean_parts_clean.
  destruct (MkdirAll_below quiet r base rl Hbase ns (String.length (render r (base ++ ns))) f) as (f' & -> & Hf'); [done|done| |done|by exists f'].
  etrans; [|apply length_render].
  - rewrite length_app. lia.
  - apply Forall_app. split; [done|]. eapply Forall_impl; [exact Hn'|]. by left.
Qed.

Lemma os_Create_at now f ns x :
  based r base rl f -> Forall normal_part (ns ++ [x]) -> f.(tree) !! at_ rl ns = Some DirNode ->
  f.(tree) !! at_ rl (ns ++ [x]) <> Some DirNode ->
  let full := render r (base ++ ns ++ [x]) in
  exists f' i, os_Create now f full = Ok (f', mkFile full (Some i) 0 true false) /\
    f'.(tree) !! at_ rl (ns ++ [x]) = Some (FileNode i) /\ has_data f' i [] /\ based r base rl f' /\
    others_kept (at_ rl (ns ++ [x])) f f' /\ (forall l, l <> at_ rl (ns ++ [x]) -> f'.(tree) !! l = f.(tree) !! l) /\
    (f.(tree) !! at_ rl (ns ++ [x]) = Some (FileNode i) \/ f.(tree) !! at_ rl (ns ++ [x]) = None /\ i = f.(next)).
Proof.
  intros Hb Hn Hd Hnd full. assert (Forall clean_part base) as Hbase by by apply clean_parts_clean.
  assert (exists f' h, os_Create now f full = Ok (f', h)) as (f' & h & Hc).
  { unfold os_Create, sys, full. rewrite (resolve_in_dir r base rl Hbase f ns x), quiet by done. cbn [path_error].
    destruct (f.(tree) !! at_ rl (ns ++ [x])) as [[|i]|]; [done|by eexists _, _..]. }
  destruct (os_Create_ok now f full f' h (proj1 Hb) Hc) as (l & i & Hr & -> & Hi & Hh & Ht & Hor).
  unfold full in Hr. rewrite (resolve_in_dir r base rl Hbase f ns x) in Hr by done. injection Hr as <-.
  exists f', i. split_and!; [done|by rewrite Ht, lookup_insert_eq|exists now; by rewrite Hi, lookup_insert_eq| | | |done].
  - eapply based_keep; [exact Hb|done|]. intros k Hk. rewrite Ht. destruct (decide (at_ rl (ns ++ [x]) = k)) as [<-|]; [|by rewrite lookup_insert_ne].
    by destruct Hnd.
  - eapply create_kept; [apply Hb|done|done|done].
  - intros k Hk. by rewrite Ht, lookup_insert_ne.
Qed.

(** Where a new file goes. *)
Lemma NewWriter_ok now f b p opts ns x :
  checks None b [p] = None -> fullPath b p = render r (base ++ ns ++ [x]) -> Forall normal_part (ns ++ [x]) ->
  based r base rl f -> b.(config).(CreateDirs) = true -> way_free rl ns f -> f.(tree) !! at_ rl (ns ++ [x]) <> Some DirNode ->
  exists f' h i, NewWriter None now f b p opts = (f', Ok h) /\ writes_at f' h i [] /\
    f'.(tree) !! at_ rl (ns ++ [x]) = Some (FileNode i) /\ based r base rl f' /\ others_kept (at_ rl (ns ++ [x])) f f'.
Proof.
  intros Hc Hfull Hn Hb Hcd Hfree Hnd. unfold NewWriter. rewrite Hc, Hfull.
  destruct (create_dirs_ok f b ns x Hb Hcd Hn Hfree) as (f1 & -> & Hb1 & Hg & Hd & Ht).
  assert (f1.(tree) !! at_ rl (ns ++ [x]) <> Some DirNode) as Hnd1.
  { destruct (Ht (at_ rl (ns ++ [x]))) as [->|[n Heq]]; [done|]. apply (f_equal length) in Heq. unfold at_ in Heq.
    rewrite !length_app, !length_rev, length_take, length_app in Heq. cbn in Heq. lia. }
  destruct (os_Create_at now f1 ns x Hb1 Hn Hd Hnd1) as (f' & i & -> & Hl & Hdata & Hb' & Hk & _).
  exists f', (mkFile (render r (base ++ ns ++ [x])) (Some i) 0 true false), i. split_and!; [done|done|done|done|].
  etrans; [by apply grows_kept|done].
Qed.

End below.

(** Writing chunk after chunk; [None]: a write failed or was short. *)
Fixpoint write_chunks (now : time) (f : fs) (h : OsFile) (chunks : list bytes) : option (fs * OsFile) :=
  match chunks with
  | [] => Some (f, h)
  | p :: chunks =>
      match File_Write now f h p with
      | (f, h, n, None) => if decide (n = length p) then write_chunks now f h chunks else None
      | _ => None
      end
  end.

Lemma file_write_chunks_ok now f h i d chunks :
  writes_at f h i d -> exists f' h', write_chunks now f h chunks = Some (f', h') /\ writes_at f' h' i (d ++ concat chunks) /\ same_but i f f'.
Proof.
  revert f h d. induction chunks as [|p chunks IH]; intros f h d Hw; cbn [write_chunks concat].
  - exists f, h. by rewrite app_nil_r.
  - destruct (File_Write_end quiet now f h i d p Hw) as (f1 & h1 & -> & Hw1 & Hs1). rewrite decide_True by done.
    destruct (IH f1 h1 _ Hw1) as (f2 & h2 & -> & Hw2 & Hs2). exists f2, h2. rewrite app_assoc. split_and!; [done|done|by etrans].
Qed.

(** Reading in pieces of [n] bytes up to the end; [None]: an error, or more reads than the fuel. *)
Fixpoint read_all (fuel : nat) (f : fs) (r : Reader) (n : nat) : option bytes :=
  match fuel with
  | 0 => None
  | S fuel =>
      match Read f r n with
      | (r, chunk, None) => (fun rest => chunk ++ rest) <$> read_all fuel f r n
      | (_, chunk, Some e) => if is_sentinel (IoSentinel EOF) e then Some chunk else None
      end
  end.

Lemma file_read_all_ok fuel f h limit i d n :
  0 < n -> reads_at f h i d -> length (limited limit d) < fuel -> read_all fuel f (mkReader h limit) n = Some (limited limit d).
Proof.
  intros Hn. revert h limit d. induction fuel as [|fuel IH]; intros h limit d Hr Hf; [lia|]. cbn [read_all]. unfold Read. cbn [r_limit r_file].
  destruct limit as [m|]; cbn [limited] in *.
  - destruct (Z.leb_spec m 0); [by replace (Z.to_nat m) with 0 by lia|].
    set (k := if (m <? Z.of_nat n)%Z then Z.to_nat m else n) in *.
    assert (0 < k <= n /\ (Z.of_nat k <= m)%Z) as [Hk Hkm] by (unfold k; destruct (Z.ltb_spec m (Z.of_nat n)); lia).
    pose proof (File_Read_left quiet f h i d k (proj1 Hk) Hr) as Hread. destruct d as [|x d]; [rewrite Hread; by rewrite take_nil|].
    destruct Hread as [-> Hr']. rewrite (IH _ _ _ Hr'); cbn [limited fmap option_fmap option_map];
      replace (Z.to_nat (m - Z.of_nat (length (take k (x :: d))))) with (Z.to_nat m - length (take k (x :: d))) by lia.
    + f_equal. rewrite length_take. destruct (Nat.le_ge_cases k (length (x :: d))).
      * rewrite Nat.min_l by done. rewrite <- (take_drop k (take (Z.to_nat m) (x :: d))), take_take, Nat.min_l by lia.
        f_equal. by rewrite skipn_firstn_comm.
      * rewrite Nat.min_r by done. rewrite drop_ge, take_nil, app_nil_r by done. rewrite !take_ge by lia. done.
    + rewrite length_take in *. rewrite length_drop. cbn [length] in *. rewrite length_take. cbn [length]. lia.
  - pose proof (File_Read_left quiet f h i d n Hn Hr) as Hread. destruct d as [|x d]; [by rewrite Hread|].
    destruct Hread as [-> Hr']. rewrite (IH _ None _ Hr'); cbn [limited fmap option_fmap option_map]; [by rewrite take_drop|].
    rewrite length_drop. cbn [length] in *. lia.
Qed.

(** *** On the paths of a backend *)

(** An open backend whose root is a directory. *)
Definition serves (b : Backend) (f : fs) : Prop :=
  b.(closed) = false /\ b.(config).(Root) <> "" /\ based (rooted b) (pre b) (root_loc b) f.

(** The place of a path. *)
Definition place (b : Backend) (p : string) : list string := at_ (root_loc b) (names p).

(** A path a file can be written to. *)
Definition writable (b : Backend) (p : string) (f : fs) : Prop :=
  relative p /\ names p <> [] /\ way_free (root_loc b) (removelast (names p)) f /\ f.(tree) !! place b p <> Some DirNode.

Lemma relative_checks b f ps : serves b f -> Forall relative ps -> checks None b ps = None.
Proof. intros (Hc & _) Hp. apply checks_ok; [done|]. eapply Forall_impl; [exact Hp|]. by intros p []. Qed.

Lemma place_split b p : names p <> [] -> exists ns x, names p = ns ++ [x] /\ removelast (names p) = ns /\ place b p = at_ (root_loc b) (ns ++ [x]).
Proof.
  intros Hne. destruct (exists_last Hne) as (ns & x & Heq). exists ns, x. unfold place. rewrite Heq. split_and!; [done|apply removelast_last|done].
Qed.

Lemma resolve_place b p f x : serves b f -> relative p -> f.(tree) !! place b p = Some x -> resolve f (fullPath b p) = Ok (place b p).
Proof.
  intros (_ & Hr & Hb) Hp Hx. rewrite fullPath_names by done. eapply resolve_present; [apply pre_clean|exact Hb|by apply relative_names|exact Hx].
Qed.

Lemma resolve_place_inv b p f l : serves b f -> relative p -> resolve f (fullPath b p) = Ok l -> l = place b p.
Proof.
  intros (_ & Hr & Hb) Hp. rewrite fullPath_names by done. intros Hl. eapply resolve_below in Hl; [|apply pre_clean|by apply relative_names].
  exact Hl.
Qed.

Lemma NewWriter_place now f b p opts :
  serves b f -> b.(config).(CreateDirs) = true -> writable b p f ->
  exists f' h i, NewWriter None now f b p opts = (f', Ok h) /\ writes_at f' h i [] /\
    f'.(tree) !! place b p = Some (FileNode i) /\ serves b f' /\ others_kept (place b p) f f'.
Proof.
  intros Hs Hcd (Hp & Hne & Hfree & Hnd). destruct (place_split b p Hne) as (ns & x & Hns & Hrl & Hpl). rewrite Hrl in Hfree. rewrite Hpl in *.
  pose proof (relative_names p Hp) as [_ Hnorm]. rewrite Hns in Hnorm.
  destruct (NewWriter_ok (rooted b) (split_slash b.(config).(Root)) (root_loc b)) with (now := now) (f := f) (b := b) (p := p) (opts := opts) (ns := ns) (x := x)
    as (f' & h & i & Hw & Hwa & Hl & Hb & Hk); [apply split_slash_no_slash|by eapply relative_checks; [|constructor]| |done|apply Hs|done|done|done|].
  - rewrite fullPath_names by (apply Hs || done). by rewrite Hns.
  - exists f', h, i. destruct Hs as (? & ? & _). by split_and!.
Qed.

Lemma serves_same_but b f f' i : serves b f -> same_but i f f' -> serves b f'.
Proof.
  intros (Hc & Hr & Hb) Hs. split_and!; [done|done|]. pose proof Hs as (Ht & _). eapply based_keep; [exact Hb| |by rewrite Ht].
  split; [eapply same_but_wf; [done|apply Hb]|rewrite Ht; apply Hb].
Qed.

Lemma NewReader_place f b p i d ropts :
  serves b f -> relative p -> f.(tree) !! place b p = Some (FileNode i) -> has_data f i d ->
  let config := ApplyReaderOptions ropts in
  exists h, NewReader None f b p ropts = Ok (mkReader h (if (0 <? config.(RLimit))%Z then Some config.(RLimit) else None)) /\
    reads_at f h i (drop (if (0 <? config.(ROffset))%Z then Z.to_nat config.(ROffset) else 0) d).
Proof.
  intros Hs Hp Hl Hd config. unfold NewReader. erewrite relative_checks; [|exact Hs|by constructor]. unfold os_Open, sys.
  erewrite resolve_place, quiet, Hl; [|done..]. cbn [path_error]. fold config. destruct (Z.ltb_spec 0 config.(ROffset)) as [Ho|Ho].
  - unfold File_Seek. cbn [f_closed]. destruct (Z.ltb_spec config.(ROffset) 0); [lia|]. eexists. split; [done|].
    split_and!; [done..|]. by exists d.
  - eexists. split; [done|]. split_and!; [done..|]. by exists d.
Qed.

Lemma Stat_place f b p x :
  serves b f -> relative p -> f.(tree) !! place b p = Some x ->
  exists info, os_Stat f (fullPath b p) = Ok info /\ info.(fi_loc) = place b p /\ info.(IsDir) = bool_decide (x = DirNode).
Proof.
  intros Hs Hp Hx. rewrite (Stat_at quiet f _ (place b p)), Hx; [|apply Hs|by eapply resolve_place]. destruct x as [|i]; [by eexists|].
  destruct (wf_inode f (proj1 (proj1 (proj2 (proj2 Hs)))) _ _ Hx) as [[y Hy] _].
  destruct (f.(inodes) !! i) as [[d t]|]; [by eexists|done].
Qed.

(** The parent of a writable path, once made. *)
Lemma create_dirs_place f b p :
  serves b f -> b.(config).(CreateDirs) = true -> writable b p f ->
  exists f', create_dirs b f (fullPath b p) = (f', None) /\ serves b f' /\ grows f f' /\
    f'.(tree) !! at_ (root_loc b) (removelast (names p)) = Some DirNode /\ f'.(tree) !! place b p = f.(tree) !! place b p /\
    (forall k, k = place b p \/ is_Some (f.(tree) !! k) -> f'.(tree) !! k = f.(tree) !! k).
Proof.
  intros Hs Hcd (Hp & Hne & Hfree & Hnd). destruct (place_split b p Hne) as (ns & x & Hns & Hrl & Hpl). rewrite Hrl in *. rewrite Hpl in *.
  pose proof (relative_names p Hp) as [_ Hnorm]. rewrite Hns in Hnorm. destruct Hs as (Hc & Hr & Hb).
  rewrite fullPath_names, Hns by done. unfold pre.
  destruct (create_dirs_ok (rooted b) (split_slash b.(config).(Root)) (root_loc b) (split_slash_no_slash _) f b ns x Hb Hcd Hnorm Hfree)
    as (f' & -> & Hb' & Hg & Hd & Ht).
  assert (f'.(tree) !! at_ (root_loc b) (ns ++ [x]) = f.(tree) !! at_ (root_loc b) (ns ++ [x])) as Hpl'.
  { destruct (Ht (at_ (root_loc b) (ns ++ [x]))) as [->|[n Heq]]; [done|]. apply (f_equal length) in Heq. unfold at_ in Heq.
    rewrite !length_app, !length_rev, length_take, length_app in Heq. cbn in Heq. lia. }
  exists f'. split_and!; [done|by split_and!|done|done|done|]. intros k [->|[y Hy]]; [done|].
  destruct Hg as (_ & _ & Hgt). destruct (Hgt k) as [?|[? _]]; [done|congruence].
Qed.

(** [copyFile] between two places. *)
Lemma copyFile_place fuel now f b src dst i d :
  serves b f -> relative src -> f.(tree) !! place b src = Some (FileNode i) -> has_data f i d -> length d < fuel ->
  writable b dst f -> f.(tree) !! at_ (root_loc b) (removelast (names dst)) = Some DirNode ->
  exists f', copyFile fuel now f (fullPath b src) (fullPath b dst) = Some (f', None) /\
    file_at f' (place b dst) (if decide (place b src = place b dst) then [] else d) /\ others_kept (place b dst) f f'.
Proof.
  intros Hs Hsrc Hl Hdata Hfuel (Hp & Hne & _ & Hnd) Hdir. unfold copyFile, os_Open, sys.
  erewrite resolve_place, quiet, Hl; [|done..]. cbn [path_error].
  destruct (place_split b dst Hne) as (ns & x & Hns & Hrl & Hpl). rewrite Hrl in Hdir. rewrite Hpl in *.
  pose proof (relative_names dst Hp) as [_ Hnorm]. rewrite Hns in Hnorm.
  assert (fullPath b dst = render (rooted b) (clean_parts (rooted b) (split_slash b.(config).(Root)) ++ ns ++ [x])) as -> by (rewrite fullPath_names by (apply Hs || done); by rewrite Hns).
  destruct (os_Create_at (rooted b) (split_slash b.(config).(Root)) (root_loc b) (split_slash_no_slash _) now f ns x (proj2 (proj2 Hs)) Hnorm Hdir Hnd)
    as (f1 & j & -> & Hl1 & Hd1 & Hb1 & Hk1 & Ht1 & Hor).
  set (v := mkFile _ (Some j) 0 true false). set (r := mkFile (fullPath b src) (Some i) 0 false false).
  assert (writes_at f1 v j []) as Hw by by split_and!.
  destruct (decide (place b src = at_ (root_loc b) (ns ++ [x]))) as [Heq|Hneq].
  - assert (i = j) as <-. { rewrite Heq in Hl. destruct Hor as [Hor|[Hor _]]; rewrite Hl in Hor; by simplify_eq. }
    assert (reads_at f1 r i []) as Hr by (split_and!; [done..|by exists []]).
    destruct fuel as [|fuel]; [lia|]. cbn [io_Copy]. unfold copy_read at 1.
    rewrite (File_Read_left quiet f1 r i [] copy_buffer copy_buffer_pos Hr). cbn.
    exists f1. split_and!; [done| |done]. by exists i.
  - assert (file_at f1 (place b src) d) as (i' & Hi' & Hdi') by (apply Hk1; [done|by exists i]).
    rewrite Ht1, Hl in Hi' by done. injection Hi' as <-.
    assert (i <> j) as Hij. { intros ->. apply Hneq. eapply (wf_unique f1); [apply Hb1| |exact Hl1]. by rewrite Ht1. }
    assert (reads_at f1 r i d) as Hr by (split_and!; [done..|by exists d]).
    destruct (io_Copy_files quiet now fuel f1 r v i j d [] 0 Hr Hw Hij Hfuel) as (f2 & r2 & v2 & n2 & -> & Hw2 & Hs2).
    exists f2. split_and!; [unfold File_Close; by rewrite (proj1 Hw2)| |].
    + exists j. destruct Hs2 as (-> & _). split; [done|apply Hw2].
    + etrans; [done|]. eapply same_but_kept; [apply Hb1|exact Hl1|done].
Qed.

(** Renaming a file: only its place and the new one change. *)
Lemma Rename_place f b src dst i :
  serves b f -> relative src -> relative dst -> f.(tree) !! place b src = Some (FileNode i) ->
  f.(tree) !! place b dst <> Some DirNode -> resolve f (fullPath b dst) = Ok (place b dst) ->
  exists f', os_Rename f (fullPath b src) (fullPath b dst) = Ok f' /\ f'.(inodes) = f.(inodes) /\
    f'.(tree) !! place b dst = Some (FileNode i) /\
    (place b src <> place b dst -> f'.(tree) !! place b src = None) /\
    forall k, k <> place b src -> k <> place b dst -> f'.(tree) !! k = f.(tree) !! k.
Proof.
  intros Hs Hsrc Hdst Hl Hnd Hr. set (s := place b src) in *. set (d := place b dst) in *.
  assert (wf f) as Hwf by apply Hs.
  assert (s <> []) as Hs0 by (intros He; rewrite He, (wf_root f Hwf) in Hl; done).
  assert (os_Rename f (fullPath b src) (fullPath b dst) = path_error "rename" (fullPath b src +:+ " " +:+ fullPath b dst) (rename_call f s d)) as ->.
  { unfold os_Rename. rewrite (Stat_at quiet f _ d), Hr by done. unfold s. erewrite resolve_place; [|done..].
    destruct (f.(tree) !! d) as [[|j]|]; [done| |done]. by destruct (f.(inodes) !! j) as [[? ?]|]. }
  unfold rename_call, sys. rewrite quiet, Hl. case_decide as Heq.
  { exists f. rewrite <- Heq. split_and!; [done|done|done|done|done]. }
  rewrite decide_False by done.
  assert (forall y n, y <> [] -> f.(tree) !! (y ++ s) = Some n -> False) as Hnochild.
  { intros y n Hy Hn. destruct (wf_ancestor f Hwf y s n Hn); congruence. }
  exists (set_tree (move_tree s d f.(tree)) f). split; [by destruct (f.(tree) !! d) as [[|j]|]|].
  cbn [inodes tree set_tree]. split; [done|]. rewrite !lookup_move_tree.
  assert (rebase d s d = Some s) as -> by (apply rebase_spec; by exists []).
  assert (rebase s d s = Some d) as -> by (apply rebase_spec; by exists []). cbn [mbind option_bind]. rewrite Hl.
  split_and!; [done| |].
  - intros _. destruct (rebase d s s) as [k|] eqn:E; [|done]. apply rebase_spec in E as (y & Hy & ->). cbn.
    destruct (f.(tree) !! (y ++ s)) eqn:Hn; [|done]. destruct y; [done|]. by edestruct Hnochild; [|exact Hn].
  - intros k Hks Hkd. rewrite lookup_move_tree.
    assert (rebase d s k ≫= (f.(tree) !!.) = None) as ->.
    { destruct (rebase d s k) as [k'|] eqn:E; [|done]. apply rebase_spec in E as (y & -> & ->). cbn.
      destruct (f.(tree) !! (y ++ s)) eqn:Hn; [|done]. destruct y; [done|]. by edestruct Hnochild; [|exact Hn]. }
    destruct (rebase s d k) as [k'|] eqn:E; [|done]. apply rebase_spec in E as (y & -> & _). symmetry.
    destruct (f.(tree) !! (y ++ s)) eqn:Hn; [|done]. destruct y; [done|]. by edestruct Hnochild; [|exact Hn].
Qed.

(** What stops the resolution of a path that no file is in the way of. *)
Lemma resolve_missing f b p e :
  serves b f -> relative p -> (forall n i, f.(tree) !! at_ (root_loc b) (take n (names p)) <> Some (FileNode i)) ->
  resolve f (fullPath b p) = Err e -> e = ENOENT.
Proof.
  intros Hs Hp Hfree. pose proof (relative_names p Hp) as [_ Hnorm]. rewrite fullPath_names by (apply Hs || done).
  erewrite resolve_at; [|apply pre_clean|apply Hs|done]. assert (f.(tree) !! root_loc b = Some DirNode) as Hd by apply Hs.
  revert Hfree Hd. unfold at_. generalize (root_loc b) as cur. induction Hnorm as [|x ns (H1 & H2 & H3 & _) _ IH]; intros cur Hfree Hd; [done|].
  cbn [namei]. rewrite Hd, !decide_False by naive_solver. destruct ns as [|y ns]; [done|].
  destruct (f.(tree) !! (x :: cur)) as [[|i]|] eqn:Hx.
  - apply IH; [|done]. intros n i. specialize (Hfree (S n) i). cbn [take rev] in Hfree. by rewrite <- app_assoc in Hfree.
  - by specialize (Hfree 1 i).
  - cbn [namei]. rewrite Hx. by intros [= <-].
Qed.

Lemma ends_in_dot_false f b p : serves b f -> relative p -> names p <> [] -> ends_in_dot (fullPath b p) = false.
Proof.
  intros Hs Hp Hne. destruct (place_split b p Hne) as (ns & x & Hns & _ & _). pose proof (relative_names p Hp) as [_ Hnorm]. rewrite Hns in Hnorm.
  rewrite fullPath_names, Hns by (apply Hs || done). unfold ends_in_dot.
  assert (Forall clean_part (pre b ++ ns ++ [x])) as Hc.
  { apply Forall_app. split; [apply pre_clean|]. eapply Forall_impl; [exact Hnorm|]. by left. }
  rewrite split_render; [|done|by destruct (pre b), ns]. apply Forall_app in Hnorm as [_ [(? & ? & _) _]%Forall_cons].
  assert (rev (if rooted b then "" :: pre b ++ ns ++ [x] else pre b ++ ns ++ [x]) = x :: rev (if rooted b then "" :: pre b ++ ns else pre b ++ ns)) as ->.
  { destruct (rooted b); rewrite ?(app_assoc (pre b)), ?app_comm_cons; by rewrite rev_app_distr. }
  assert (drop_empty (x :: rev (if rooted b then "" :: pre b ++ ns else pre b ++ ns)) = x :: rev (if rooted b then "" :: pre b ++ ns else pre b ++ ns)) as ->
    by (unfold drop_empty; by destruct x).
  apply bool_decide_eq_false. cbn. congruence.
Qed.

(** A path with a file in the way. *)
Lemma Stat_under_file f b p n i :
  serves b f -> relative p -> n < length (names p) -> f.(tree) !! at_ (root_loc b) (take n (names p)) = Some (FileNode i) ->
  resolve f (fullPath b p) = Err ENOTDIR.
Proof.
  intros Hs Hp Hn Hi. pose proof (relative_names p Hp) as [_ Hnorm]. rewrite fullPath_names by (apply Hs || done).
  erewrite resolve_at; [|apply pre_clean|apply Hs|done]. rewrite <- (take_drop n (names p)), namei_app.
  rewrite <- (take_drop n (names p)) in Hnorm. apply Forall_app in Hnorm as [H1 H2].
  erewrite namei_exists; [|apply Hs|done|apply Hs|exact Hi]. destruct (drop n (names p)) as [|x l] eqn:Hd.
  { apply (f_equal length) in Hd. rewrite length_drop in Hd. cbn in Hd. lia. }
  cbn [namei]. unfold at_ in Hi. by rewrite Hi.
Qed.

(** *** A path that starts with a slash *)

Lemma Contains_slash x : no_slash x -> Contains x "../" = false.
Proof.
  induction x as [|c x IH]; [done|]. unfold no_slash. cbn [String.list_ascii_of_string]. rewrite not_elem_of_cons. intros [Hc Hx].
  cbn [Contains]. rewrite (IH Hx), orb_false_r. destruct (String.prefix "../" (String c x)) eqn:Hp; [|done].
  apply prefix_split in Hp as [t Ht]. destruct x as [|c1 [|c2 x]]; [done|done|]. injection Ht as _ _ Hc2 _. destruct Hx.
  rewrite Hc2. right. by left.
Qed.

Lemma climb_parts x : no_slash x -> split_slash ("/../" +:+ x) = [""; ".."; x].
Proof.
  intros Hx. change ("/../" +:+ x) with ("" +:+ String slash (".." +:+ String slash x)). rewrite !split_slash_slash, (split_slash_plain x) by done. done.
Qed.

Lemma validate_rooted x : normal_part x -> validatePath ("/../" +:+ x) = None.
Proof.
  intros Hx. pose proof Hx as (H1 & H2 & H3 & H4). unfold validatePath. rewrite decide_False by done.
  rewrite Clean_render, climb_parts by done. change (is_rooted ("/../" +:+ x)) with true.
  assert (clean_parts true [""; ".."; x] = [x]) as ->.
  { unfold clean_parts. cbn [fold_left]. unfold clean_step at 3. rewrite decide_True by auto. unfold clean_step at 2.
    rewrite decide_False, decide_True by naive_solver. unfold clean_step. rewrite !decide_False by naive_solver. done. }
  unfold render. cbn [join_slash]. change (HasPrefix (String slash x) "..") with false. cbn [orb Contains].
  rewrite Contains_slash, orb_false_r by done. done.
Qed.

Lemma Join_climb r above d x :
  Forall normal_part (above ++ [d]) -> normal_part x -> Join (render r (above ++ [d])) ("/../" +:+ x) = render r (above ++ [x]).
Proof.
  intros Hn Hx. pose proof Hx as (H1 & H2 & H3 & H4).
  assert (Forall clean_part (above ++ [d])) as Hc by (eapply Forall_impl; [exact Hn|by left]).
  set (dir := render r (above ++ [d])). assert (dir <> "") as Hd by apply render_nonempty.
  unfold Join. rewrite filter_cons_True, filter_cons_True by done. cbn [filter list_filter].
  change (join_slash [dir; "/../" +:+ x]) with (dir +:+ String slash ("/../" +:+ x)).
  assert (is_rooted (dir +:+ String slash ("/../" +:+ x)) = is_rooted dir) as Hr by (destruct dir as [|c dir']; [done|by destruct dir']).
  rewrite Clean_render, Hr, split_slash_slash, climb_parts by (done || by destruct dir). unfold dir at 1 2 3. rewrite render_rooted by done.
  f_equal. rewrite split_render by (done || by destruct above).
  assert (forall l, clean_parts r ((if r then "" :: l else l)) = clean_parts r l) as Hskip by (intros l; by destruct r).
  replace ((if r then "" :: above ++ [d] else above ++ [d]) ++ [""; ".."; x]) with (if r then "" :: (above ++ [d]) ++ [""; ".."; x] else (above ++ [d]) ++ [""; ".."; x]) by by destruct r.
  rewrite Hskip. unfold clean_parts. rewrite fold_left_app.
  assert (fold_left (clean_step r) (above ++ [d]) [] = d :: rev above) as ->.
  { rewrite <- (rev_involutive (fold_left _ _ _)). fold (clean_parts r (above ++ [d])). rewrite clean_parts_normal by done. by rewrite rev_app_distr. }
  apply Forall_app in Hn as [_ [(_ & _ & Hd3 & _) _]%Forall_cons]. cbn [fold_left]. unfold clean_step at 3. rewrite decide_True by auto.
  unfold clean_step at 2. rewrite decide_False, decide_True, decide_False by naive_solver. unfold clean_step. rewrite !decide_False by naive_solver.
  cbn. by rewrite rev_involutive.
Qed.

Lemma render_pre b r parts : b.(config).(Root) = render r parts -> Forall normal_part parts -> pre b = parts /\ rooted b = r.
Proof.
  intros Hr Hn. assert (Forall clean_part parts) as Hc by (eapply Forall_impl; [exact Hn|by left]).
  assert (rooted b = r) as Hrb by (unfold rooted; rewrite Hr; by apply render_rooted). split; [|done]. unfold pre. rewrite Hrb, Hr.
  destruct (decide (parts = [])) as [->|Hne]; [by destruct r|]. rewrite split_render by done.
  etransitivity; [|by apply (clean_parts_normal r)]. by destruct r.
Qed.

(** *** Walking the root *)

(** No place is deeper than some bound. *)
Lemma tree_height f : exists h, forall ns rl x, f.(tree) !! at_ rl ns = Some x -> length ns < h.
Proof.
  destruct (keys_height f.(tree)) as [h Hh].
  exists h. intros ns rl x Hx. apply Hh in Hx. unfold at_ in Hx. rewrite length_app, length_rev in Hx. lia.
Qed.

Section walking.
Context (f : fs) (b : Backend) (Hs : serves b f).
Abbreviation node_at ns := (f.(tree) !! at_ (root_loc b) ns).
Abbreviation walk_ := (walk (List_fn None b) f).

(** [path] is a name of the place [ns], as the walk builds them. *)
Definition names_place (path : string) (ns : list string) : Prop :=
  resolve f path = Ok (at_ (root_loc b) ns) /\
  (forall x, normal_part x -> Join path x = render (rooted b) (pre b ++ ns ++ [x])) /\
  (ns <> [] -> Rel b.(config).(Root) path = Ok (join_slash ns)).

(** The files at or below a place, by their names. *)
Definition lists (ns : list string) (found : list (list string)) : Prop :=
  NoDup found /\ forall ns', ns' ∈ found <-> ns `prefix_of` ns' /\ exists i, node_at ns' = Some (FileNode i).

Lemma render_place ns x :
  Forall normal_part ns -> node_at ns = Some x -> names_place (render (rooted b) (pre b ++ ns)) ns.
Proof.
  intros Hn Hx. pose proof Hs as (_ & Hr & Hb). split_and!.
  - eapply resolve_present; [apply pre_clean|exact Hb|done|exact Hx].
  - intros y Hy. pose proof Hy as (? & ? & ? & Hsl). pose proof (pre_clean b) as Hpc.
    assert (Forall clean_part (pre b ++ ns)) as Hc by (apply Forall_app; split; [done|eapply Forall_impl; [exact Hn|by left]]).
    assert (clean_parts false (split_slash y) = [y]) as Hyc by (rewrite split_slash_plain by done; apply clean_parts_normal; by repeat constructor).
    rewrite Join_below; [|apply render_nonempty|done|rewrite Hyc; by repeat constructor]. rewrite Hyc, render_rooted, app_assoc by done.
    f_equal. f_equal. rewrite <- (elements_render (rooted b) (pre b ++ ns)) at 2 by done.
    assert (Clean (render (rooted b) (pre b ++ ns)) = render (rooted b) (pre b ++ ns)) as HC.
    { apply Clean_of_render; [done|]. apply clean_parts_idem; [apply split_slash_no_slash|done]. }
    rewrite <- HC at 2. rewrite Clean_render, render_rooted, elements_render by (done || apply render_nonempty || apply clean_parts_clean, split_slash_no_slash). done.
  - intros Hne. by apply Rel_below.
Qed.

Lemma node_normal ns x : node_at ns = Some x -> Forall normal_part ns.
Proof.
  revert x. induction ns as [|n ns IH] using rev_ind; intros x Hx; [done|]. unfold at_ in Hx. rewrite rev_app_distr in Hx. cbn in Hx.
  assert (wf f) as Hwf by apply Hs. apply (wf_parent f Hwf) in Hx as [Hd Hn]. apply Forall_app. split; [by eapply IH|by constructor].
Qed.

Lemma lists_file ns i : node_at ns = Some (FileNode i) -> lists ns [ns].
Proof.
  intros Hi. split; [apply NoDup_singleton|]. intros ns'. rewrite list_elem_of_singleton. split; [intros ->; split; [done|by eexists]|].
  intros [[k ->] [j Hj]]. unfold at_ in Hj. rewrite rev_app_distr, <- app_assoc in Hj.
  destruct (wf_ancestor f (proj1 (proj1 (proj2 (proj2 Hs)))) _ _ _ Hj) as [Hk|Hd]; [|unfold at_ in Hi; congruence].
  apply (f_equal length) in Hk. rewrite length_rev in Hk. destruct k; [by rewrite app_nil_r|done].
Qed.

(** A directory: what its entries list. *)
Lemma lists_dir ns (found : string -> list (list string)) l :
  node_at ns = Some DirNode -> NoDup l -> (forall x, x ∈ l <-> is_Some (node_at (ns ++ [x]))) ->
  (forall x, x ∈ l -> lists (ns ++ [x]) (found x)) -> lists ns (l ≫= found).
Proof.
  intros Hd Hnd Hl Hf. split.
  - apply NoDup_bind; [|intros x Hx; by apply Hf|done]. intros x y ns' Hx Hy Hin Hin'.
    apply (Hf x Hx) in Hin as [[k1 ->] _]. apply (Hf y Hy) in Hin' as [[k2 Hk] _].
    rewrite <- !app_assoc in Hk. apply app_inv_head in Hk. by injection Hk as -> _.
  - intros ns'. rewrite list_elem_of_bind. split.
    + intros (x & Hin & Hx). apply (Hf x Hx) in Hin as [Hp Hi]. split; [|done].
      etrans; [|exact Hp]. by eexists.
    + intros [[k ->] [i Hi]]. destruct k as [|x k]; [rewrite app_nil_r in Hi; congruence|].
      assert (x ∈ l) as Hx.
      { apply Hl. destruct k as [|y k]; [by eexists|]. exists DirNode.
        replace (ns ++ x :: y :: k) with ((ns ++ [x]) ++ y :: k) in Hi by by rewrite <- app_assoc.
        unfold at_ in Hi |- *. rewrite rev_app_distr, <- app_assoc in Hi.
        destruct (wf_ancestor f (proj1 (proj1 (proj2 (proj2 Hs)))) _ _ _ Hi) as [Hk|]; [|done].
        apply (f_equal length) in Hk. by rewrite length_rev in Hk. }
      exists x. split; [|done]. apply (Hf x Hx). split; [|by exists i].
      exists k. by rewrite <- app_assoc.
Qed.

Lemma entries_ok {E} (visit : list string -> string -> option (list string * option E)) found l acc :
  (forall x acc, x ∈ l -> visit acc x = Some (acc ++ map join_slash (found x), None)) ->
  entries visit acc l = Some (acc ++ map join_slash (l ≫= found), None).
Proof.
  revert acc. induction l as [|x l IH]; intros acc Hv; cbn [entries]; [by rewrite app_nil_r|].
  rewrite Hv by by left. rewrite IH by (intros y acc' Hy; apply Hv; by right). cbn [mbind list_bind]. by rewrite map_app, app_assoc.
Qed.

Lemma Stat_named path ns x : names_place path ns -> node_at ns = Some x -> exists info, os_Stat f path = Ok info.
Proof.
  intros (Hr & _) Hx. pose proof (proj1 (proj1 (proj2 (proj2 Hs)))) as Hwf. rewrite (Stat_at quiet f path _ Hwf Hr), Hx.
  destruct x as [|j]; [by eexists|]. destruct (wf_inode f Hwf _ _ Hx) as [[y Hy] _]. destruct (f.(inodes) !! j) as [[d t]|]; [by eexists|done].
Qed.

Lemma walk_ok h ns path info :
  (forall ns' x, node_at (ns ++ ns') = Some x -> length ns' < h) ->
  names_place path ns -> os_Stat f path = Ok info ->
  exists found, lists ns found /\ forall fuel acc, h <= fuel -> walk_ fuel acc path info = Some (acc ++ map join_slash found, None).
Proof.
  revert ns path info. induction h as [|h IH]; intros ns path info Hh (Hr & Hj & Hrel) Hst.
  all: rewrite (Stat_at quiet f path _ (proj1 (proj1 (proj2 (proj2 Hs)))) Hr) in Hst.
  all: destruct (node_at ns) as [n|] eqn:Hn; [|done].
  { specialize (Hh [] n). rewrite app_nil_r in Hh. apply Hh in Hn. cbn in Hn. lia. }
  destruct n as [|i].
  - injection Hst as <-. set (l := children f.(tree) (at_ (root_loc b) ns)).
    assert (forall x, x ∈ l <-> is_Some (node_at (ns ++ [x]))) as Hl.
    { intros x. unfold l, at_. rewrite elem_of_children, rev_app_distr. done. }
    assert (forall x, x ∈ l -> exists fx, lists (ns ++ [x]) fx /\ forall fuel acc, h <= fuel ->
      (match os_Stat f (Join path x) with
       | Err err => Some (List_fn None b acc (Join path x) (Err err))
       | Ok info => walk_ fuel acc (Join path x) info
       end) = Some (acc ++ map join_slash fx, None)) as Hx.
    { intros x [m Hm]%Hl.
      pose proof (node_normal _ _ Hm) as Hnorm. assert (normal_part x) as Hnx by (apply Forall_app in Hnorm as [_ [? _]%Forall_cons]; done).
      rewrite (Hj x Hnx). pose proof (render_place (ns ++ [x]) m Hnorm Hm) as Hp.
      destruct (Stat_named _ _ _ Hp Hm) as [info Hinfo].
      destruct (IH (ns ++ [x]) (render (rooted b) (pre b ++ ns ++ [x])) info) as (fx & Hfx & Hw); [|exact Hp|exact Hinfo|].
      - intros ns' y Hy. rewrite <- app_assoc in Hy. specialize (Hh ([x] ++ ns') y Hy). cbn in Hh. lia.
      - exists fx. split; [done|]. intros fuel acc Hf. rewrite Hinfo. by apply Hw. }
    apply choice_on in Hx as [found Hfound]; [|exact []].
    exists (l ≫= found). split.
    { apply lists_dir; [done|apply NoDup_children|done|]. intros x Hin. by apply Hfound. }
    intros [|fuel] acc Hf; [lia|]. cbn [walk IsDir negb]. unfold readDirNames, sys. rewrite Hr, quiet. cbn [path_error].
    unfold List_fn at 1. cbn [ctx_err fmap option_fmap option_map IsDir]. fold l. apply entries_ok.
    intros x acc' Hin. destruct (Hfound x Hin) as [_ Hv]. apply Hv. lia.
  - exists [ns]. split; [by eapply lists_file|]. intros [|fuel] acc Hf; [lia|]. cbn [walk].
    assert (IsDir info = false) as Hi by (destruct (f.(inodes) !! i) as [[d t]|]; by simplify_eq).
    rewrite Hi. cbn [negb]. unfold List_fn. cbn [ctx_err fmap option_fmap option_map]. rewrite Hi, Hrel; [done|]. intros ->.
    destruct Hs as (_ & _ & Hb). unfold at_ in Hn. cbn in Hn. by rewrite (proj2 (proj2 Hb)) in Hn.
Qed.

End walking.

(** The walk of a list starts at the place of the prefix. *)
Lemma List_start f b prefix :
  serves b f -> (if decide (prefix = "") then resolve f b.(config).(Root) = Ok (root_loc b) else relative prefix) ->
  exists path, (if decide (prefix <> "") then fullPath b prefix else b.(config).(Root)) = path /\
    forall x, f.(tree) !! at_ (root_loc b) (names prefix) = Some x -> names_place f b path (names prefix).
Proof.
  intros Hs Hp. eexists. split; [done|]. intros x Hx. case_decide as He.
  - subst prefix. rewrite decide_False by auto. change (names "") with (@nil string) in *. split_and!; [done| |done].
    intros y (? & ? & ? & ?). assert (clean_parts false (split_slash y) = [y]) as Hyc.
    { rewrite split_slash_plain by done. apply clean_parts_normal. by repeat constructor. }
    rewrite Join_below; [by rewrite Hyc|apply Hs|done|]. rewrite Hyc. by repeat constructor.
  - rewrite decide_True by done. rewrite fullPath_names by (apply Hs || done). eapply render_place; [done|by apply relative_names|exact Hx].
Qed.

Lemma Stat_missing f b prefix path :
  serves b f -> (if decide (prefix = "") then resolve f b.(config).(Root) = Ok (root_loc b) else relative prefix) ->
  (if decide (prefix <> "") then fullPath b prefix else b.(config).(Root)) = path ->
  f.(tree) !! at_ (root_loc b) (names prefix) = None ->
  (forall n i, n < length (names prefix) -> f.(tree) !! at_ (root_loc b) (take n (names prefix)) <> Some (FileNode i)) ->
  exists e, os_Stat f path = Err e /\ List_fn None b [] path (Err e) = ([], Some (WalkPath e)) /\ IsNotExist e = true.
Proof.
  intros Hs Hp <- Hx Hfree. assert (prefix <> "") as Hne.
  { intros ->. change (names "") with (@nil string) in Hx. unfold at_ in Hx. cbn in Hx. destruct Hs as (_ & _ & Hb). by rewrite (proj2 (proj2 Hb)) in Hx. }
  rewrite decide_False in Hp by done. rewrite decide_True by done.
  assert (os_Stat f (fullPath b prefix) = Err (mkPathError "stat" (fullPath b prefix) ENOENT)) as ->; [|by eexists].
  destruct (resolve f (fullPath b prefix)) as [l|e] eqn:Hr.
  - rewrite (Stat_at quiet f _ l (proj1 (proj1 (proj2 (proj2 Hs)))) Hr), (resolve_place_inv b prefix f l Hs Hp Hr). unfold place. by rewrite Hx.
  - unfold os_Stat. rewrite Hr. rewrite (resolve_missing f b prefix e Hs Hp); [done| |done]. intros n i Hi.
    destruct (Nat.lt_ge_cases n (length (names prefix))); [by eapply Hfree|]. rewrite take_ge in Hi by done. congruence.
Qed.

End quiet.

(** ** Requests *)

Section requests.
Context `{H : Host}.

(** The calls that change the file system. *)
Inductive request :=
  | ReqWrite (p : string) | ReqDelete (p : string) | ReqMkdir (p : string) | ReqRmdir (p : string)
  | ReqCopy (src dst : string) | ReqMove (src dst : string).

Definition paths_of (q : request) : list string :=
  match q with ReqWrite p | ReqDelete p | ReqMkdir p | ReqRmdir p => [p] | ReqCopy s d | ReqMove s d => [s; d] end.

Definition serve (fuel : nat) (ctx : context) (now : time) (f : fs) (b : Backend) (q : request) : option fs :=
  match q with
  | ReqWrite p => Some (NewWriter ctx now f b p []).1
  | ReqDelete p => Some (Delete ctx f b p).1
  | ReqMkdir p => Some (Mkdir ctx f b p).1
  | ReqRmdir p => Some (Rmdir ctx f b p).1
  | ReqCopy src dst => fst <$> Copy fuel ctx now f b src dst
  | ReqMove src dst => fst <$> Move fuel ctx now f b src dst
  end.

End requests.

(** ** Properties *)

Section properties.
Context `{H : Host}.

(** Claim C4. No request on paths that do not start with a slash leaves the root directory: however
    calls of the system fail on the way, outside the root nothing is removed, rewritten or
    created but the missing directories that lead to the root itself, and the file system stays
    well-formed. *)
Theorem requests_confined fuel ctx now f b q f' :
  wf_host f -> b.(config).(Root) <> "" -> Forall (fun p => is_rooted p = false) (paths_of q) ->
  serve fuel ctx now f b q = Some f' -> confined (root_loc b) f f' /\ wf f'.
Proof.
  intros Hh Hroot Hrel Hs.
  assert (checks ctx b (paths_of q) = None -> Forall relative (paths_of q)) as Hok.
  { intros (_ & _ & Hv)%checks_None. rewrite Forall_forall in *. intros p Hp. split; auto. }
  assert (forall p, (checks ctx b [p] = None -> Forall relative [p]) -> checks ctx b [p] = None -> relative p) as H1.
  { intros p Hp Hc. by apply Forall_cons in Hp as [? _]. }
  assert (forall s d, (checks ctx b [s; d] = None -> Forall relative [s; d]) -> checks ctx b [s; d] = None -> relative s /\ relative d) as H2.
  { intros s d Hp Hc. by apply Forall_cons in Hp as [? [? _]%Forall_cons]. }
  destruct q as [p|p|p|p|src dst|src dst]; cbn [serve paths_of] in *.
  - injection Hs as <-. eapply NewWriter_stays; [done..|by apply H1|apply surjective_pairing].
  - injection Hs as <-. eapply Delete_stays; [done..|by apply H1|apply surjective_pairing].
  - injection Hs as <-. eapply Mkdir_stays; [done..|by apply H1|apply surjective_pairing].
  - injection Hs as <-. eapply Rmdir_stays; [done..|by apply H1|apply surjective_pairing].
  - apply fmap_Some in Hs as ([g e] & Hc & ->). eapply Copy_stays; [done..|by apply H2|exact Hc].
  - apply fmap_Some in Hs as ([g e] & Hc & ->). eapply Move_stays; [done..|by apply H2|exact Hc].
Qed.

(** Claim C12. What is written through a writer, in any pieces, is what a reader then yields: the
    bytes from the offset on, up to the limit, exactly as the in-memory backend cuts them;
    the directories on the way are made, and no other file changes. *)
Theorem file_write_read now f b p opts chunks ropts n fuel :
  (forall f c l, fault f c l = None) -> serves b f -> b.(config).(CreateDirs) = true -> writable b p f ->
  0 < n -> length (concat chunks) < fuel ->
  exists f1 h f2 h2 r,
    NewWriter None now f b p opts = (f1, Ok h) /\ write_chunks now f1 h chunks = Some (f2, h2) /\ (File_Close h2).2 = None /\
    NewReader None f2 b p ropts = Ok r /\
    read_all fuel f2 r n = Some (Mem.read_range (ApplyReaderOptions ropts) (concat chunks)) /\
    others_kept (place b p) f f2.
Proof.
  intros quiet Hs Hcd Hw Hn Hfuel. pose proof Hw as (Hp & _).
  destruct (NewWriter_place quiet now f b p opts Hs Hcd Hw) as (f1 & h & i & Hnw & Hwa & Hl & Hs1 & Hk1).
  destruct (file_write_chunks_ok quiet now f1 h i [] chunks Hwa) as (f2 & h2 & Hwc & Hwa2 & Hsb). cbn [app] in Hwa2.
  pose proof (serves_same_but b f1 f2 i Hs1 Hsb) as Hs2. pose proof Hsb as (Ht & _).
  destruct (NewReader_place quiet f2 b p i (concat chunks) ropts Hs2 Hp) as (rh & Hnr & Hra); [by rewrite Ht|apply Hwa2|].
  exists f1, h, f2, h2, (mkReader rh (if (0 <? (ApplyReaderOptions ropts).(RLimit))%Z then Some (ApplyReaderOptions ropts).(RLimit) else None)).
  split_and!; [done|done| |done| |].
  - unfold File_Close. by rewrite (proj1 Hwa2).
  - erewrite file_read_all_ok; [|done|done|exact Hra|]; [by rewrite limited_range|]. rewrite limited_range.
    eapply Nat.le_lt_trans; [apply read_range_length|done].
  - etrans; [done|]. eapply same_but_kept; [apply Hs1|exact Hl|done].
Qed.

(** [Copy] gives the destination the contents of the source and changes no other file;
    copying a file onto itself empties it. *)
Theorem file_Copy fuel now f b src dst d :
  (forall f c l, fault f c l = None) -> serves b f -> b.(config).(CreateDirs) = true ->
  relative src -> file_at f (place b src) d -> writable b dst f -> length d < fuel ->
  exists f', Copy fuel None now f b src dst = Some (f', None) /\
    file_at f' (place b dst) (if decide (place b src = place b dst) then [] else d) /\ others_kept (place b dst) f f'.
Proof.
  intros quiet Hs Hcd Hsrc (i & Hl & Hd) Hw Hfuel. unfold Copy.
  erewrite relative_checks; [|exact Hs|constructor; [done|constructor; [apply Hw|constructor]]].
  destruct (Stat_place quiet f b src _ Hs Hsrc Hl) as (info & -> & _ & ->). cbn [bool_decide].
  destruct (create_dirs_place quiet f b dst Hs Hcd Hw) as (f1 & -> & Hs1 & Hg & Hdir & Hpl & Hk).
  assert (writable b dst f1) as Hw1.
  { destruct Hw as (? & ? & Hfree & Hnd). split_and!; [done|done| |by rewrite Hpl]. intros n j Hj. destruct Hg as (_ & _ & Ht).
    destruct (Ht (at_ (root_loc b) (take n (removelast (names dst))))) as [Heq|[_ Heq]]; rewrite Heq in Hj; [by eapply Hfree|done]. }
  destruct (copyFile_place quiet fuel now f1 b src dst i d Hs1 Hsrc) as (f2 & -> & Hf & Hk2); [rewrite Hk; eauto|by destruct Hg as (Hi & _); unfold has_data; rewrite Hi|done|done|done|].
  exists f2. split_and!; [done|done|]. etrans; [by apply grows_kept|done].
Qed.

(** [Move] of a file leaves its contents at the destination and nothing at the source,
    and no other file changes. *)
Theorem file_Move fuel now f b src dst d :
  (forall f c l, fault f c l = None) -> serves b f -> b.(config).(CreateDirs) = true ->
  relative src -> file_at f (place b src) d -> writable b dst f ->
  exists f', Move fuel None now f b src dst = Some (f', None) /\ file_at f' (place b dst) d /\
    (place b src <> place b dst -> f'.(tree) !! place b src = None) /\
    forall k e, k <> place b src -> k <> place b dst -> file_at f' k e <-> file_at f k e.
Proof.
  intros quiet Hs Hcd Hsrc (i & Hl & Hd) Hw. pose proof Hw as (Hdst & Hne & _ & Hnd). unfold Move.
  erewrite relative_checks; [|exact Hs|constructor; [done|constructor; [done|constructor]]].
  destruct (Stat_place quiet f b src _ Hs Hsrc Hl) as (info & -> & _ & _).
  destruct (create_dirs_place quiet f b dst Hs Hcd Hw) as (f1 & -> & Hs1 & Hg & Hdir & Hpl & Hk).
  assert (resolve f1 (fullPath b dst) = Ok (place b dst)) as Hr.
  { destruct (place_split b dst Hne) as (ns & x & Hns & Hrl & ->). rewrite Hrl in Hdir. rewrite fullPath_names, Hns by (apply Hs || done).
    apply resolve_in_dir; [apply pre_clean|apply Hs1|by rewrite <- Hns; apply relative_names|done]. }
  destruct (Rename_place quiet f1 b src dst i Hs1 Hsrc Hdst) as (f2 & -> & Hi & Hl2 & Hgone & Hrest);
    [rewrite Hk; eauto|by rewrite Hpl|done|].
  destruct Hg as (Hig & _ & Hgt). exists f2. split_and!; [done| |done|].
  - exists i. split; [done|]. unfold has_data. by rewrite Hi, Hig.
  - intros k e Hks Hkd. unfold file_at, has_data. rewrite Hrest, Hi, Hig by done.
    destruct (Hgt k) as [->|[-> ->]]; [done|]. split; by intros (? & ? & _).
Qed.

(** [Delete] removes the file at a path and nothing else, and deleting what is not
    there succeeds; but when a file stands where a directory of the path should, [Delete],
    [Exists] and [Stat] report an error of their own, not that there is nothing. *)
Theorem file_Delete f b p :
  (forall f c l, fault f c l = None) -> serves b f -> relative p ->
  (forall i, f.(tree) !! place b p = Some (FileNode i) ->
    Delete None f b p = (set_tree (delete (place b p) f.(tree)) f, None) /\ Exists None f b p = Ok true) /\
  (f.(tree) !! place b p = None -> (forall n i, f.(tree) !! at_ (root_loc b) (take n (names p)) <> Some (FileNode i)) ->
    Delete None f b p = (f, None) /\ Exists None f b p = Ok false /\ Stat None f b p = Err (err_object ObjErrNotFound)) /\
  (forall n i, n < length (names p) -> f.(tree) !! at_ (root_loc b) (take n (names p)) = Some (FileNode i) ->
    exists e1 e2 e3, Delete None f b p = (f, Some e1) /\ Exists None f b p = Err e2 /\ Stat None f b p = Err e3 /\
      IsNotFound e1 = false /\ IsNotFound e2 = false /\ IsNotFound e3 = false).
Proof.
  intros quiet Hs Hp. unfold Delete, Exists, Stat. erewrite relative_checks; [|exact Hs|by constructor]. split_and!.
  - intros i Hi. destruct (Stat_place quiet f b p _ Hs Hp Hi) as (info & -> & _). split; [|done].
    unfold os_Remove, unlink, sys. erewrite resolve_place, quiet, Hi; [|done..]. done.
  - intros Hnone Hfree.
    assert (exists e, os_Stat f (fullPath b p) = Err e /\ IsNotExist e = true) as (e & -> & He).
    { destruct (resolve f (fullPath b p)) as [l|e] eqn:Hr.
      - rewrite (Stat_at quiet f _ l), (resolve_place_inv b p f l Hs Hp Hr), Hnone; [by eexists|apply Hs|done].
      - unfold os_Stat. rewrite Hr. eexists. split; [done|]. by rewrite (resolve_missing f b p e Hs Hp Hfree Hr). }
    assert (exists e, os_Remove f (fullPath b p) = Err e /\ IsNotExist e = true) as (e' & -> & He').
    { unfold os_Remove, unlink, rmdir, sys. destruct (resolve f (fullPath b p)) as [l|e1] eqn:Hr.
      - rewrite (resolve_place_inv b p f l Hs Hp Hr), !quiet, Hnone. erewrite ends_in_dot_false; [by eexists|exact Hs|done|]. intros Hnil. unfold place in Hnone. rewrite Hnil in Hnone. unfold at_ in Hnone. cbn [rev app] in Hnone. destruct Hs as (_ & _ & Hb). by rewrite (proj2 (proj2 Hb)) in Hnone.
      - rewrite (resolve_missing f b p e1 Hs Hp Hfree Hr). by eexists. }
    unfold read_error. by rewrite He, He'.
  - intros n i Hn Hi. pose proof (Stat_under_file f b p n i Hs Hp Hn Hi) as Hr. unfold os_Stat, os_Remove. rewrite Hr.
    by eexists _, _, _.
Qed.

(** Claim C26. [List] ends and names, once each and relative to the root, exactly the files that
    lie at or below the prefix read as a path: a directory's files, a file itself, or nothing
    when nothing is there. *)
Theorem file_List f b prefix :
  (forall f c l, fault f c l = None) -> serves b f ->
  (if decide (prefix = "") then resolve f b.(config).(Root) = Ok (root_loc b) else relative prefix) ->
  (forall n i, n < length (names prefix) -> f.(tree) !! at_ (root_loc b) (take n (names prefix)) <> Some (FileNode i)) ->
  exists paths h, (forall fuel, h <= fuel -> List fuel None f b prefix = Some (Ok paths)) /\ NoDup paths /\
    forall q, q ∈ paths <-> exists ns, q = join_slash ns /\ names prefix `prefix_of` ns /\ Forall normal_part ns /\
      exists i, f.(tree) !! at_ (root_loc b) ns = Some (FileNode i).
Proof.
  intros quiet Hs Hp Hfree. destruct (tree_height f) as [h Hh].
  destruct (List_start f b prefix Hs Hp) as (path & Hpath & Hnames).
  assert (forall fuel, List fuel None f b prefix = match Walk (List_fn None b) f fuel [] path with
    | None => None | Some (paths, None) => Some (Ok paths)
    | Some (_, Some err) => if match err with WalkPath err => IsNotExist err | _ => false end then Some (Ok [])
        else Some (Err (Wrapf ("listing " +:+ prefix +:+ ": ") (walk_err err) "")) end) as Hlist.
  { intros fuel. unfold List, checkClosed. rewrite (proj1 Hs), <- Hpath. done. }
  destruct (f.(tree) !! at_ (root_loc b) (names prefix)) as [x|] eqn:Hx.
  - specialize (Hnames x eq_refl). destruct (Stat_named quiet f b Hs path _ x Hnames Hx) as [info Hinfo].
    destruct (walk_ok quiet f b Hs h (names prefix) path info) as (found & [Hnd Hfound] & Hw); [intros ns' y Hy; apply Hh in Hy; rewrite length_app in Hy; lia|done|done|].
    exists (map join_slash found), h. split_and!.
    + intros fuel Hf. rewrite Hlist. unfold Walk. by rewrite Hinfo, Hw.
    + apply NoDup_fmap_2_strong; [|done]. intros l1 l2 H1 H2 He. apply Hfound in H1 as [_ [i1 H1]]. apply Hfound in H2 as [_ [i2 H2]].
      by apply (join_names_inj l1 l2); [eapply node_normal..|].
    + intros q. rewrite list_elem_of_fmap. split.
      * intros (ns & -> & [Hpre [i Hi]]%Hfound). exists ns. split_and!; [done|done|by eapply node_normal|by exists i].
      * intros (ns & -> & Hpre & _ & Hi). exists ns. split; [done|]. by apply Hfound.
  - exists [], 0. split_and!; [|constructor|].
    + intros fuel _. rewrite Hlist. unfold Walk. by destruct (Stat_missing quiet f b prefix path Hs Hp Hpath Hx Hfree) as (e & -> & -> & ->).
    + intros q. split; [intros Hq; by apply not_elem_of_nil in Hq|]. intros (ns & _ & [k ->] & _ & i & Hi). exfalso.
      unfold at_ in Hi, Hx. rewrite rev_app_distr, <- app_assoc in Hi.
      destruct (wf_ancestor f (proj1 (proj1 (proj2 (proj2 Hs)))) _ _ _ Hi) as [Hk|]; [|congruence]. rewrite Hk in Hi. cbn in Hi. congruence.
Qed.

(** A path that starts with a slash is accepted although it climbs out: it is cleaned
    on its own when it is checked and below the root when it is used, so ["/../x"] names the
    entry [x] beside the root directory, and writing to it creates or truncates that file. *)
Theorem rooted_path_escapes now f b r above d x parent :
  (forall f c l, fault f c l = None) -> b.(closed) = false -> b.(config).(CreateDirs) = true ->
  b.(config).(Root) = render r (above ++ [d]) -> Forall normal_part (above ++ [d]) -> normal_part x -> x <> d ->
  based r above parent f -> f.(tree) !! (x :: parent) <> Some DirNode ->
  let p := "/../" +:+ x in
  validatePath p = None /\ root_loc b = d :: parent /\ ~ suffix (root_loc b) (x :: parent) /\
  exists f' h i, NewWriter None now f b p [] = (f', Ok h) /\ f'.(tree) !! (x :: parent) = Some (FileNode i) /\ has_data f' i [].
Proof.
  intros quiet Hc Hcd Hroot Hn Hx Hne Hb Hnd p. pose proof Hx as (Hx1 & _ & _ & Hx4).
  assert (clean_parts r above = above) as Hab by (apply clean_parts_normal; apply Forall_app in Hn; tauto).
  assert (pre b = above ++ [d] /\ rooted b = r) as [Hpre Hr] by by apply render_pre.
  assert (root_loc b = d :: parent) as Hrl.
  { unfold root_loc. rewrite Hpre, Hr, lexical_names by done. rewrite rev_app_distr. cbn. f_equal.
    destruct Hb as (_ & Hnm & _). apply namei_lexical in Hnm. rewrite Hnm, lexical_names; [done|]. apply Forall_app in Hn; tauto. }
  assert (validatePath p = None) as Hv by by apply validate_rooted.
  split_and!; [done|done| |].
  - rewrite Hrl. intros [k Hk]. destruct k as [|y k]; cbn in Hk; [congruence|]. injection Hk as _ Hk. apply (f_equal length) in Hk.
    rewrite length_app in Hk. cbn in Hk. lia.
  - destruct (NewWriter_ok quiet r above parent) with (now := now) (f := f) (b := b) (p := p) (opts := @nil WriterOption) (ns := @nil string) (x := x)
      as (f' & h & i & Hw & Hwa & Hl & _ & _).
    + apply normal_no_slash. apply Forall_app in Hn; tauto.
    + apply checks_ok; [done|by apply Forall_singleton].
    + rewrite Hab. unfold fullPath. rewrite Hroot. by apply Join_climb.
    + by apply Forall_singleton.
    + by rewrite Hab.
    + done.
    + intros n i. rewrite take_nil. unfold at_. cbn. destruct Hb as (_ & _ & ->). done.
    + exact Hnd.
    + exists f', h, i. split_and!; [done|exact Hl|apply Hwa].
Qed.

End properties.

(** ** A small file system, and the witnesses *)

Module Demo.

Ltac compute_decide := refine (bool_decide_eq_true_1 _ _); by vm_compute.

#[export] Instance demo_host : Host := {
  cwd := []; fault _ _ _ := None; dir_size _ _ := 4096%Z; dir_time _ _ := 0%Z; TypeByExtension _ := ""
}.

(** /srv/secret beside the root /srv/data, which holds a.txt and sub/b *)
Definition demo_fs : fs :=
  mkFs (list_to_map [([], DirNode); (["srv"], DirNode); (["secret"; "srv"], FileNode 0); (["data"; "srv"], DirNode);
          (["a.txt"; "data"; "srv"], FileNode 1); (["sub"; "data"; "srv"], DirNode); (["b"; "sub"; "data"; "srv"], FileNode 2)])
    (list_to_map [(0, ([x73], 1%Z)); (1, ([x61; x62; x63], 2%Z)); (2, ([x64], 3%Z))]) 3.

Definition backend : Backend := New (mkConfig "/srv/data" true 0 0).

Lemma file_demo_wf : wf_host demo_fs.
Proof. split; [apply wf_test_ok|]; by vm_compute. Qed.

Lemma demo_serves : serves backend demo_fs.
Proof. split_and!; [done|done|]. split; [exact file_demo_wf|]. split; by vm_compute. Qed.

Lemma demo_writable p :
  relative p -> names p <> [] -> bool_decide (Forall (fun n => match demo_fs.(tree) !! at_ (root_loc backend) (take n (removelast (names p))) with Some (FileNode _) => false | _ => true end = true) (seq 0 (S (length (removelast (names p)))))) = true ->
  bool_decide (demo_fs.(tree) !! place backend p = Some DirNode) = false -> writable backend p demo_fs.
Proof.
  intros Hp Hne Hfree%bool_decide_eq_true Hnd%bool_decide_eq_false. split_and!; [done|done| |done]. intros n i Hi.
  rewrite Forall_forall in Hfree. destruct (Nat.le_gt_cases n (length (removelast (names p)))) as [Hle|Hgt].
  - specialize (Hfree n ltac:(apply elem_of_seq; lia)). by rewrite Hi in Hfree.
  - specialize (Hfree (length (removelast (names p))) ltac:(apply elem_of_seq; lia)). rewrite take_ge in Hi by lia.
    rewrite firstn_all in Hfree. by rewrite Hi in Hfree.
Qed.

Lemma requests_confined_witness :
  exists f', serve 5 None 7 demo_fs backend (ReqMove "a.txt" "new/c.txt") = Some f' /\
    confined (root_loc backend) demo_fs f' /\ wf f'.
Proof.
  eexists. split; [by vm_compute|]. apply (requests_confined 5 None 7 demo_fs backend (ReqMove "a.txt" "new/c.txt")); [exact file_demo_wf|done|by repeat constructor|by vm_compute].
Defined.

Lemma file_write_read_witness :
  exists f1 h f2 h2 r, NewWriter None 7 demo_fs backend "x/y" [] = (f1, Ok h) /\
    write_chunks 7 f1 h [[x01; x02]; [x03]] = Some (f2, h2) /\ (File_Close h2).2 = None /\
    NewReader None f2 backend "x/y" [WithOffset 1] = Ok r /\ read_all 10 f2 r 2 = Some [x02; x03] /\ others_kept (place backend "x/y") demo_fs f2.
Proof.
  apply (file_write_read 7 demo_fs backend "x/y" [] [[x01; x02]; [x03]] [WithOffset 1] 2 10); [done|exact demo_serves|done| |lia|cbn; lia].
  apply demo_writable; by vm_compute.
Defined.

(** A copy, and a copy onto itself. *)
Lemma file_Copy_witness :
  (exists f', Copy 9 None 7 demo_fs backend "a.txt" "c/d" = Some (f', None) /\ file_at f' (place backend "c/d") [x61; x62; x63]) /\
  (exists f', Copy 9 None 7 demo_fs backend "a.txt" "sub/../a.txt" = Some (f', None) /\ file_at f' (place backend "a.txt") []).
Proof.
  assert (file_at demo_fs (place backend "a.txt") [x61; x62; x63]) as Ha by (exists 1; split; [by vm_compute|by exists 2%Z]).
  split.
  - destruct (file_Copy 9 7 demo_fs backend "a.txt" "c/d" [x61; x62; x63]) as (f' & Hc & Hf & _);
      [done|exact demo_serves|done|by vm_compute|exact Ha|apply demo_writable; by vm_compute|cbn; lia|]. by exists f'.
  - destruct (file_Copy 9 7 demo_fs backend "a.txt" "sub/../a.txt" [x61; x62; x63]) as (f' & Hc & Hf & _);
      [done|exact demo_serves|done|by vm_compute|exact Ha|apply demo_writable; by vm_compute|cbn; lia|]. by exists f'.
Defined.

Lemma file_Move_witness :
  exists f', Move 9 None 7 demo_fs backend "a.txt" "c/d" = Some (f', None) /\ file_at f' (place backend "c/d") [x61; x62; x63] /\
    f'.(tree) !! place backend "a.txt" = None.
Proof.
  destruct (file_Move 9 7 demo_fs backend "a.txt" "c/d" [x61; x62; x63]) as (f' & Hm & Hf & Hg & _);
    [done|exact demo_serves|done|by vm_compute|exists 1; split; [by vm_compute|by exists 2%Z]|apply demo_writable; by vm_compute|].
  exists f'. split_and!; [done|done|]. apply Hg. by vm_compute.
Defined.

(** "a.txt/x" has a file in the way. *)
Lemma file_Delete_witness :
  (Delete None demo_fs backend "a.txt").2 = None /\ Delete None demo_fs backend "none" = (demo_fs, None) /\
  exists e, Exists None demo_fs backend "a.txt/x" = Err e /\ IsNotFound e = false.
Proof.
  split_and!.
  - destruct (file_Delete demo_fs backend "a.txt") as [Hd _]; [done|exact demo_serves|by vm_compute|].
    by destruct (Hd 1) as [-> _]; [by vm_compute|].
  - destruct (file_Delete demo_fs backend "none") as (_ & Hd & _); [done|exact demo_serves|by vm_compute|].
    apply Hd; [by vm_compute|]. intros [|[|n]] i; by vm_compute.
  - destruct (file_Delete demo_fs backend "a.txt/x") as (_ & _ & Hd); [done|exact demo_serves|by vm_compute|].
    destruct (Hd 1 1) as (_ & e2 & _ & _ & He & _ & _ & H2 & _); [by apply Nat.ltb_lt; vm_compute|by vm_compute|]. by exists e2.
Defined.

Lemma file_List_witness :
  exists paths h, (forall fuel, h <= fuel -> List fuel None demo_fs backend "" = Some (Ok paths)) /\ "sub/b" ∈ paths /\ "secret" ∉ paths.
Proof.
  destruct (file_List demo_fs backend "") as (paths & h & Hl & _ & Hin); [done|exact demo_serves|by vm_compute|intros n i Hn; change (n < 0) in Hn; lia|].
  exists paths, h. split_and!; [done| |].
  - apply Hin. exists ["sub"; "b"]. split_and!; [done|by exists ["sub"; "b"]|compute_decide|by exists 2].
  - intros (ns & He & _ & Hn & i & Hi)%Hin. assert (ns = ["secret"]) as ->; [|by vm_compute in Hi].
    apply join_names_inj; [done|compute_decide|done].
Defined.

Lemma rooted_path_escapes_witness :
  validatePath "/../secret" = None /\
  exists f' h i, NewWriter None 7 demo_fs backend "/../secret" [] = (f', Ok h) /\
    f'.(tree) !! ["secret"; "srv"] = Some (FileNode i) /\ has_data f' i [].
Proof.
  destruct (rooted_path_escapes 7 demo_fs backend true ["srv"] "data" "secret" ["srv"]) as (Hv & _ & _ & Hw);
    [done|done|done|done|compute_decide|compute_decide|done|split; [exact file_demo_wf|split; by vm_compute]|by vm_compute|].
  by split.
Defined.

(** The prefix of a listing is not checked at all. *)
Example list_escapes : List 9 None demo_fs backend ".." = Some (Ok ["a.txt"; "sub/b"; "../secret"]).
Proof. by vm_compute. Qed.

End Demo.
