(* ===== verification/Sftp.v ===== *)
(** * object/backend/sftp: a backend on a file transfer server

    The ssh and sftp clients are a parameter, [SftpClient]: operations on the state [Srv] of
    the outside world.  [SftpSpec] states what the sftp client and protocol document, over the
    remote files seen as a map from absolute places.  The mutex of the backend guards [closed]
    only. *)

From S2P Require Import Prelude GoLib GoConf Errors GoPath GoGlob GoFilepath ObjectTypes ObjectMemory.

(** ** The clients *)

(** What [os.IsNotExist] and [os.IsPermission] tell of an error. *)
Inductive cause := CauseNotExist | CausePermission | CauseOther.
#[export] Instance cause_eq_dec : EqDecision cause.
Proof. solve_decision. Defined.

(** An error of the client: what package os tells of it, and of the [fs.PathError] in its
    chain, and whether there is a [net.Error] in it. *)
Record RemoteError := mkRemoteError { as_error : error; direct : cause; path_cause : option cause; net_error : bool }.

Record RemoteInfo := mkRemoteInfo { Name : string; Size : Z; ModTime : time; IsDir : bool }.

Inductive AuthMethod {S} := PasswordAuth (p : string) | PublicKeys (s : S).
Arguments AuthMethod : clear implicits.

(** [ssh.ClientConfig], the fields the backend sets. *)
Record ClientConfig {S K} := mkClientConfig {
  ssh_User : string; Auth : list (AuthMethod S); ssh_Timeout : duration; HostKeyCallback : K
}.
Arguments ClientConfig : clear implicits.

Class SftpClient := {
  Srv : Type; Signer : Type; KeyCallback : Type; SshConn : Type; Client : Type; SFile : Type;
  os_ReadFile : string -> result error bytes;
  os_UserHomeDir : result error string;
  ParsePrivateKey : bytes -> result error Signer;
  ParsePrivateKeyWithPassphrase : bytes -> string -> result error Signer;
  knownhosts_New : string -> result error KeyCallback;
  ssh_Dial : Srv -> string -> string -> ClientConfig Signer KeyCallback -> Srv * result error SshConn;
  sftp_NewClient : Srv -> SshConn -> Srv * result error Client;
  ssh_Close : Srv -> SshConn -> Srv * option error;
  client_Close : Srv -> Client -> Srv * option error;
  c_Stat : Srv -> Client -> string -> Srv * result RemoteError RemoteInfo;
  c_MkdirAll : Srv -> Client -> string -> Srv * option RemoteError;
  c_Create : Srv -> Client -> string -> Srv * result RemoteError SFile;
  c_Open : Srv -> Client -> string -> Srv * result RemoteError SFile;
  c_Remove : Srv -> Client -> string -> Srv * option RemoteError;
  c_ReadDir : Srv -> Client -> string -> Srv * result RemoteError (list RemoteInfo);
  c_RemoveDirectory : Srv -> Client -> string -> Srv * option RemoteError;
  c_Rename : Srv -> Client -> string -> string -> Srv * option RemoteError;
  f_Seek : Srv -> SFile -> Z -> Srv * result error SFile;
  f_Read : Srv -> SFile -> nat -> Srv * SFile * bytes * option error;
  f_Write : Srv -> SFile -> bytes -> Srv * SFile * nat * option error;
  (** [sftp.File.WriteTo], which [io.Copy] calls *)
  f_WriteTo : Srv -> SFile -> SFile -> Srv * SFile * SFile * option error;
  f_Close : Srv -> SFile -> Srv * option error;
  (** [strconv.Quote], for [%q] *)
  quote : string -> string
}.

Module SftpB.

(** *** options.go *)

Record Config := mkConfig {
  Host : string; Port : Z; User : string; Password : string; KeyFile : string; KeyPassphrase : string;
  Root : string; KnownHostsFile : string; Timeout : Z; Concurrency : Z
}.

Definition DefaultConfig : Config := mkConfig "" 22 "" "" "" "" "" "" 30 5.

Definition set_Host v c := mkConfig v c.(Port) c.(User) c.(Password) c.(KeyFile) c.(KeyPassphrase) c.(Root) c.(KnownHostsFile) c.(Timeout) c.(Concurrency).
Definition set_Port v c := mkConfig c.(Host) v c.(User) c.(Password) c.(KeyFile) c.(KeyPassphrase) c.(Root) c.(KnownHostsFile) c.(Timeout) c.(Concurrency).
Definition set_User v c := mkConfig c.(Host) c.(Port) v c.(Password) c.(KeyFile) c.(KeyPassphrase) c.(Root) c.(KnownHostsFile) c.(Timeout) c.(Concurrency).
Definition set_Password v c := mkConfig c.(Host) c.(Port) c.(User) v c.(KeyFile) c.(KeyPassphrase) c.(Root) c.(KnownHostsFile) c.(Timeout) c.(Concurrency).
Definition set_KeyFile v c := mkConfig c.(Host) c.(Port) c.(User) c.(Password) v c.(KeyPassphrase) c.(Root) c.(KnownHostsFile) c.(Timeout) c.(Concurrency).
Definition set_KeyPassphrase v c := mkConfig c.(Host) c.(Port) c.(User) c.(Password) c.(KeyFile) v c.(Root) c.(KnownHostsFile) c.(Timeout) c.(Concurrency).
Definition set_Root v c := mkConfig c.(Host) c.(Port) c.(User) c.(Password) c.(KeyFile) c.(KeyPassphrase) v c.(KnownHostsFile) c.(Timeout) c.(Concurrency).
Definition set_KnownHostsFile v c := mkConfig c.(Host) c.(Port) c.(User) c.(Password) c.(KeyFile) c.(KeyPassphrase) c.(Root) v c.(Timeout) c.(Concurrency).
Definition set_Timeout v c := mkConfig c.(Host) c.(Port) c.(User) c.(Password) c.(KeyFile) c.(KeyPassphrase) c.(Root) c.(KnownHostsFile) v c.(Concurrency).
Definition set_Concurrency v c := mkConfig c.(Host) c.(Port) c.(User) c.(Password) c.(KeyFile) c.(KeyPassphrase) c.(Root) c.(KnownHostsFile) c.(Timeout) v.

Definition ConfigFromEnv (Getenv : string -> string) : Config :=
  let env name := set_variable Getenv ("OMNISTORAGE_SFTP_" +:+ name) in
  let c := text_setting (env "HOST") set_Host DefaultConfig in
  let c := number_setting (env "PORT") set_Port c in
  let c := text_setting (env "USER") set_User c in
  let c := text_setting (env "PASSWORD") set_Password c in
  let c := text_setting (env "KEY_FILE") set_KeyFile c in
  let c := text_setting (env "KEY_PASSPHRASE") set_KeyPassphrase c in
  let c := text_setting (env "ROOT") set_Root c in
  let c := text_setting (env "KNOWN_HOSTS") set_KnownHostsFile c in
  number_setting (env "TIMEOUT") set_Timeout c.

Definition ConfigFromMap (m : gmap string string) : Config :=
  let c := text_setting (m !! "host") set_Host DefaultConfig in
  let c := number_setting (m !! "port") set_Port c in
  let c := text_setting (m !! "user") set_User c in
  let c := text_setting (m !! "pass") set_Password c in
  let c := text_setting (m !! "password") set_Password c in
  let c := text_setting (m !! "key_file") set_KeyFile c in
  let c := text_setting (m !! "key_passphrase") set_KeyPassphrase c in
  let c := text_setting (m !! "root") set_Root c in
  let c := text_setting (m !! "known_hosts") set_KnownHostsFile c in
  let c := number_setting (m !! "timeout") set_Timeout c in
  number_setting (m !! "concurrency") set_Concurrency c.

(** The package's own sentinels. *)
Definition ErrHostRequired : error := Errorf "sftp: host is required".
Definition ErrUserRequired : error := Errorf "sftp: user is required".

Definition Validate (c : Config) : option error :=
  if decide (c.(Host) = "") then Some ErrHostRequired
  else if decide (c.(User) = "") then Some ErrUserRequired else None.

(** *** backend.go *)

Section sftp.
Context `{SC : SftpClient}.

(** Both clients are set in every backend that [New] makes. *)
Record Backend := mkBackend { sshClient : SshConn; sftpClient : Client; config : Config; closed : bool }.

Definition keyFileAuth (keyFile passphrase : string) : result error (AuthMethod Signer) :=
  match os_ReadFile keyFile with
  | Err err => Err (Wrapf "reading key file: " err "")
  | Ok keyData =>
      match if decide (passphrase <> "") then ParsePrivateKeyWithPassphrase keyData passphrase else ParsePrivateKey keyData with
      | Err err => Err (Wrapf "parsing private key: " err "")
      | Ok signer => Ok (PublicKeys signer)
      end
  end.

(** The methods the configuration asks for. *)
Definition auth_methods (cfg : Config) : result error (list (AuthMethod Signer)) :=
  let password := if decide (cfg.(Password) <> "") then [PasswordAuth cfg.(Password)] else [] in
  if decide (cfg.(KeyFile) <> "") then
    match keyFileAuth cfg.(KeyFile) cfg.(KeyPassphrase) with
    | Err err => Err (Wrapf "sftp: loading key file: " err "")
    | Ok keyAuth => Ok (password ++ [keyAuth])
    end
  else Ok password.

Definition known_hosts_path (homeDir : string) : string := Join (Join homeDir ".ssh") "known_hosts".

Definition connect (s : Srv) (cfg : Config) (sshConfig : ClientConfig Signer KeyCallback) : Srv * result error Backend :=
  match ssh_Dial s "tcp" (cfg.(Host) +:+ ":" +:+ pretty cfg.(Port)) sshConfig with
  | (s, Err err) => (s, Err (Wrapf "sftp: SSH connection failed: " err ""))
  | (s, Ok sshClient) =>
      match sftp_NewClient s sshClient with
      | (s, Err err) =>
          match ssh_Close s sshClient with
          | (s, Some closeErr) =>
              (s, Err (Wrapf "sftp: SFTP session failed: " err (" (also failed to close SSH: " +:+ error_text closeErr +:+ ")")))
          | (s, None) => (s, Err (Wrapf "sftp: SFTP session failed: " err ""))
          end
      | (s, Ok sftpClient) => (s, Ok (mkBackend sshClient sftpClient cfg false))
      end
  end.

Definition New (s : Srv) (cfg : Config) : Srv * result error Backend :=
  onerr err <- Validate cfg return (s, Err err) else
  let cfg := if (cfg.(Port) =? 0)%Z then set_Port 22 cfg else cfg in
  let cfg := if (cfg.(Timeout) =? 0)%Z then set_Timeout 30 cfg else cfg in
  match auth_methods cfg with
  | Err err => (s, Err err)
  | Ok [] => (s, Err (Errorf "sftp: no authentication method provided (password or key_file required)"))
  | Ok authMethods =>
      match os_UserHomeDir with
      | Err err => (s, Err (Wrapf "sftp: could not determine user home directory for known_hosts: " err ""))
      | Ok homeDir =>
          match knownhosts_New (known_hosts_path homeDir) with
          | Err err => (s, Err (Wrapf ("sftp: could not load known_hosts file (" +:+ known_hosts_path homeDir +:+ "): ") err ""))
          | Ok hostKeyCallback =>
              connect s cfg (mkClientConfig _ _ cfg.(User) authMethods (wrap64 (cfg.(Timeout) * Second)) hostKeyCallback)
          end
      end
  end.

Definition NewFromConfig (s : Srv) (configMap : gmap string string) : Srv * result error Backend :=
  New s (ConfigFromMap configMap).

Definition fullPath (b : Backend) (p : string) : string :=
  if decide (b.(config).(Root) = "") then p else Join b.(config).(Root) p.

Definition checkClosed (b : Backend) : option error :=
  if b.(closed) then Some (err_object ObjErrBackendClosed) else None.

(** The tests every operation starts with. *)
Definition checks (ctx : context) (b : Backend) : option error :=
  onerr e <- checkClosed b return Some e else ctx_err ctx.

Definition translateError (err : RemoteError) (p : string) : error :=
  if decide (err.(direct) = CauseNotExist) then err_object ObjErrNotFound
  else if decide (err.(direct) = CausePermission) then err_object ObjErrPermissionDenied
  else if decide (err.(path_cause) = Some CauseNotExist) then err_object ObjErrNotFound
  else if decide (err.(path_cause) = Some CausePermission) then err_object ObjErrPermissionDenied
  else if err.(net_error) then Wrapf ("sftp: network error for " +:+ quote p +:+ ": ") err.(as_error) ""
  else Wrapf ("sftp: error for " +:+ quote p +:+ ": ") err.(as_error) "".

(** [MkdirAll] and its error. *)
Definition make_dirs (s : Srv) (b : Backend) (dir : string) : Srv * option error :=
  match c_MkdirAll s b.(sftpClient) dir with
  | (s, Some err) => (s, Some (Wrapf "sftp: creating directory: " err.(as_error) ""))
  | (s, None) => (s, None)
  end.

Definition NewWriter (ctx : context) (s : Srv) (b : Backend) (p : string) (_ : list WriterOption) : Srv * result error SFile :=
  onerr e <- checks ctx b return (s, Err e) else
  match make_dirs s b (Dir (fullPath b p)) with
  | (s, Some err) => (s, Err err)
  | (s, None) =>
      match c_Create s b.(sftpClient) (fullPath b p) with
      | (s, Err err) => (s, Err (translateError err p))
      | (s, Ok f) => (s, Ok f)
      end
  end.

(** A file, or a [limitedReader] of it. *)
Record Reader := mkReader { r_file : SFile; remaining : option Z }.

Definition NewReader (ctx : context) (s : Srv) (b : Backend) (p : string) (opts : list ReaderOption) : Srv * result error Reader :=
  onerr e <- checks ctx b return (s, Err e) else
  let cfg := ApplyReaderOptions opts in
  let limit := if (0 <? cfg.(RLimit))%Z then Some cfg.(RLimit) else None in
  match c_Open s b.(sftpClient) (fullPath b p) with
  | (s, Err err) => (s, Err (translateError err p))
  | (s, Ok f) =>
      if (0 <? cfg.(ROffset))%Z then
        match f_Seek s f cfg.(ROffset) with
        | (s, Err err) =>
            match f_Close s f with
            | (s, Some closeErr) =>
                (s, Err (Wrapf "sftp: seeking to offset: " err (" (also failed to close: " +:+ error_text closeErr +:+ ")")))
            | (s, None) => (s, Err (Wrapf "sftp: seeking to offset: " err ""))
            end
        | (s, Ok f) => (s, Ok (mkReader f limit))
        end
      else (s, Ok (mkReader f limit))
  end.

Definition Read (s : Srv) (r : Reader) (n : nat) : Srv * Reader * bytes * option error :=
  match r.(remaining) with
  | None => let '(s, f, chunk, err) := f_Read s r.(r_file) n in (s, mkReader f None, chunk, err)
  | Some left_ =>
      if (left_ <=? 0)%Z then (s, r, [], Some (err_io EOF))
      else
        let '(s, f, chunk, err) := f_Read s r.(r_file) (if (left_ <? Z.of_nat n)%Z then Z.to_nat left_ else n) in
        (s, mkReader f (Some (left_ - Z.of_nat (length chunk))%Z), chunk, err)
  end.

Definition Reader_Close (s : Srv) (r : Reader) : Srv * option error := f_Close s r.(r_file).

Definition Exists (ctx : context) (s : Srv) (b : Backend) (p : string) : Srv * result error bool :=
  onerr e <- checks ctx b return (s, Err e) else
  match c_Stat s b.(sftpClient) (fullPath b p) with
  | (s, Err err) => (s, if decide (err.(direct) = CauseNotExist) then Ok false else Err (translateError err p))
  | (s, Ok _) => (s, Ok true)
  end.

Definition Delete (ctx : context) (s : Srv) (b : Backend) (p : string) : Srv * option error :=
  onerr e <- checks ctx b return (s, Some e) else
  match c_Remove s b.(sftpClient) (fullPath b p) with
  | (s, Some err) => (s, if decide (err.(direct) = CauseNotExist) then None else Some (translateError err p))
  | (s, None) => (s, None)
  end.

(** *** List *)

(** The entries of a directory in turn, up to the first error; [None]: out of fuel. *)
Fixpoint each_entry (visit : Srv -> RemoteInfo -> list string -> option (Srv * list string * option error))
    (s : Srv) (entries : list RemoteInfo) (paths : list string) : option (Srv * list string * option error) :=
  match entries with
  | [] => Some (s, paths, None)
  | entry :: entries =>
      match visit s entry paths with
      | Some (s, paths, None) => each_entry visit s entries paths
      | stop => stop
      end
  end.

(** The name a listing gives to a place. *)
Definition relPath (b : Backend) (entryPath : string) : string :=
  TrimPrefix (TrimPrefix entryPath b.(config).(Root)) "/".

Fixpoint walkDir (fuel : nat) (ctx : context) (s : Srv) (b : Backend) (dir namePrefix : string) (paths : list string)
    : option (Srv * list string * option error) :=
  match fuel with
  | 0 => None
  | S fuel =>
      onerr e <- ctx_err ctx return Some (s, paths, Some e) else
      match c_ReadDir s b.(sftpClient) dir with
      | (s, Err err) =>
          if decide (err.(direct) = CauseNotExist) then Some (s, paths, None)
          else Some (s, paths, Some (Wrapf "sftp: listing directory: " err.(as_error) ""))
      | (s, Ok entries) =>
          each_entry (fun s entry paths =>
            if bool_decide (namePrefix <> "") && negb (HasPrefix entry.(Name) namePrefix) then Some (s, paths, None)
            else
              let entryPath := Join dir entry.(Name) in
              if entry.(IsDir) then walkDir fuel ctx s b entryPath "" paths
              else Some (s, paths ++ [relPath b entryPath], None)) s entries paths
      end
  end.

Definition List (fuel : nat) (ctx : context) (s : Srv) (b : Backend) (prefix : string) : option (Srv * result error (list string)) :=
  onerr e <- checks ctx b return Some (s, Err e) else
  let fullPrefix := fullPath b prefix in
  let '(s, info) := c_Stat s b.(sftpClient) fullPrefix in
  let is_dir := match info with Ok info => info.(IsDir) | Err _ => false end in
  match walkDir fuel ctx s b (if is_dir then fullPrefix else Dir fullPrefix) (if is_dir then "" else Base fullPrefix) [] with
  | None => None
  | Some (s, _, Some err) => Some (s, Err err)
  | Some (s, paths, None) => Some (s, Ok paths)
  end.

(** [%v] of a slice of errors. *)
Definition error_list_text (errs : list error) : string :=
  "[" +:+ String.concat " " (map error_text errs) +:+ "]".

Definition Close (s : Srv) (b : Backend) : Srv * Backend * option error :=
  if b.(closed) then (s, b, None)
  else
    let b := mkBackend b.(sshClient) b.(sftpClient) b.(config) true in
    let '(s, e1) := client_Close s b.(sftpClient) in
    let '(s, e2) := ssh_Close s b.(sshClient) in
    let errs := option_list e1 ++ option_list e2 in
    (s, b, if decide (errs = []) then None else Some (Errorf ("sftp: close errors: " +:+ error_list_text errs))).

Definition Stat (ctx : context) (s : Srv) (b : Backend) (p : string) : Srv * result error ObjectInfo :=
  onerr e <- checks ctx b return (s, Err e) else
  match c_Stat s b.(sftpClient) (fullPath b p) with
  | (s, Err err) => (s, Err (translateError err p))
  | (s, Ok info) => (s, Ok (mkInfo p info.(Size) info.(ModTime) info.(IsDir) "" None None))
  end.

Definition Mkdir (ctx : context) (s : Srv) (b : Backend) (p : string) : Srv * option error :=
  onerr e <- checks ctx b return (s, Some e) else make_dirs s b (fullPath b p).

Definition Rmdir (ctx : context) (s : Srv) (b : Backend) (p : string) : Srv * option error :=
  onerr e <- checks ctx b return (s, Some e) else
  match c_ReadDir s b.(sftpClient) (fullPath b p) with
  | (s, Err err) => (s, Some (translateError err p))
  | (s, Ok (_ :: _)) => (s, Some (Errorf ("sftp: directory not empty: " +:+ p)))
  | (s, Ok []) =>
      match c_RemoveDirectory s b.(sftpClient) (fullPath b p) with
      | (s, Some err) => (s, Some (translateError err p))
      | (s, None) => (s, None)
      end
  end.

(** *** Copy and Move *)

(** From the copying on: both files are closed and the first error is returned. *)
Definition stream (s : Srv) (srcFile dstFile : SFile) : Srv * option error :=
  let '(s, srcFile, dstFile, copyErr) := f_WriteTo s srcFile dstFile in
  let '(s, srcCloseErr) := f_Close s srcFile in
  let '(s, dstCloseErr) := f_Close s dstFile in
  (s, match copyErr, dstCloseErr, srcCloseErr with
      | Some err, _, _ => Some (Wrapf "sftp: copying file: " err "")
      | None, Some err, _ => Some (Wrapf "sftp: closing destination file: " err "")
      | None, None, Some err => Some (Wrapf "sftp: closing source file: " err "")
      | None, None, None => None
      end).

Definition Copy (ctx : context) (s : Srv) (b : Backend) (src dst : string) : Srv * option error :=
  onerr e <- checks ctx b return (s, Some e) else
  match make_dirs s b (Dir (fullPath b dst)) with
  | (s, Some err) => (s, Some err)
  | (s, None) =>
      match c_Open s b.(sftpClient) (fullPath b src) with
      | (s, Err err) => (s, Some (translateError err src))
      | (s, Ok srcFile) =>
          match c_Create s b.(sftpClient) (fullPath b dst) with
          | (s, Err err) =>
              match f_Close s srcFile with
              | (s, Some closeErr) =>
                  (s, Some (Wrapf "sftp: " (translateError err dst) (" (also failed to close source: " +:+ error_text closeErr +:+ ")")))
              | (s, None) => (s, Some (translateError err dst))
              end
          | (s, Ok dstFile) => stream s srcFile dstFile
          end
      end
  end.

Definition Move (ctx : context) (s : Srv) (b : Backend) (src dst : string) : Srv * option error :=
  onerr e <- checks ctx b return (s, Some e) else
  match make_dirs s b (Dir (fullPath b dst)) with
  | (s, Some err) => (s, Some err)
  | (s, None) =>
      match c_Rename s b.(sftpClient) (fullPath b src) (fullPath b dst) with
      | (s, None) => (s, None)
      | (s, Some _) =>
          match Copy ctx s b src dst with
          | (s, Some copyErr) => (s, Some copyErr)
          | (s, None) => Delete ctx s b src
          end
      end
  end.

Definition Features_ : Features := mkFeatures true true true true true [] false false false true true false false.

End sftp.
End SftpB.

Import SftpB.

(** ** What the clients document

    The remote files are a map from places, lists of names from the root of the server. *)

Inductive rnode := RDir | RFile (d : bytes).
Definition is_dir (n : rnode) : bool := match n with RDir => true | RFile _ => false end.

Abbreviation rtree := (gmap (list string) rnode).

Definition abs (ns : list string) : string := render true ns.

(** No file is on the way to a place. *)
Definition way_clear (m : rtree) (ns : list string) : Prop :=
  forall k d, k `prefix_of` ns -> k <> ns -> m !! k <> Some (RFile d).

(** The tree with a directory and those above it. *)
Definition with_dirs (ns : list string) (m m' : rtree) : Prop :=
  forall k, m' !! k = if decide (k `prefix_of` ns) then Some RDir else m !! k.

Class SftpSpec `{SC : SftpClient} := {
  remote : Srv -> rtree;
  (** the session of a client is alive *)
  up : Srv -> Client -> Prop;
  (** the place of an open file and its offset *)
  handle : SFile -> list string * nat;

  remote_parent s c ns x n : up s c -> remote s !! (ns ++ [x]) = Some n -> remote s !! ns = Some RDir /\ normal_part x;

  Stat_spec s c ns : up s c -> Forall normal_part ns ->
    exists r, c_Stat s c (abs ns) = (s, r) /\
      match remote s !! ns with
      | Some n => exists i, r = Ok i /\ i.(IsDir) = is_dir n
      | None => exists e, r = Err e /\ (way_clear (remote s) ns -> e.(direct) = CauseNotExist)
      end;
  MkdirAll_spec s c ns : up s c -> Forall normal_part ns ->
    way_clear (remote s) ns -> (forall d, remote s !! ns <> Some (RFile d)) ->
    exists s', c_MkdirAll s c (abs ns) = (s', None) /\ up s' c /\ with_dirs ns (remote s) (remote s');
  Create_spec s c ns x : up s c -> Forall normal_part (ns ++ [x]) ->
    remote s !! ns = Some RDir -> remote s !! (ns ++ [x]) <> Some RDir ->
    exists s' h, c_Create s c (abs (ns ++ [x])) = (s', Ok h) /\ up s' c /\
      remote s' = <[ns ++ [x] := RFile []]> (remote s) /\ handle h = (ns ++ [x], 0);
  Open_spec s c ns : up s c -> Forall normal_part ns ->
    match remote s !! ns with
    | Some (RFile d) => exists s' h, c_Open s c (abs ns) = (s', Ok h) /\ up s' c /\ remote s' = remote s /\ handle h = (ns, 0)
    | Some RDir => True
    | None => exists e, c_Open s c (abs ns) = (s, Err e) /\ (way_clear (remote s) ns -> e.(direct) = CauseNotExist)
    end;
  Remove_spec s c ns : up s c -> Forall normal_part ns ->
    match remote s !! ns with
    | Some (RFile d) => exists s', c_Remove s c (abs ns) = (s', None) /\ up s' c /\ remote s' = delete ns (remote s)
    | Some RDir => (exists x n, remote s !! (ns ++ [x]) = Some n) ->
        exists e, c_Remove s c (abs ns) = (s, Some e) /\ e.(direct) <> CauseNotExist
    | None => exists e, c_Remove s c (abs ns) = (s, Some e) /\ (way_clear (remote s) ns -> e.(direct) = CauseNotExist)
    end;
  (** an entry for each file of the directory *)
  ReadDir_spec s c ns : up s c -> Forall normal_part ns ->
    match remote s !! ns with
    | Some RDir => exists entries, c_ReadDir s c (abs ns) = (s, Ok entries) /\ NoDup (map Name entries) /\
        (forall e, e ∈ entries -> exists n, remote s !! (ns ++ [e.(Name)]) = Some n /\ e.(IsDir) = is_dir n) /\
        (forall x n, remote s !! (ns ++ [x]) = Some n -> x ∈ map Name entries)
    | Some (RFile _) => True
    | None => exists e, c_ReadDir s c (abs ns) = (s, Err e) /\ (way_clear (remote s) ns -> e.(direct) = CauseNotExist)
    end;
  RemoveDirectory_spec s c ns : up s c -> Forall normal_part ns ->
    remote s !! ns = Some RDir -> (forall x, remote s !! (ns ++ [x]) = None) ->
    exists s', c_RemoveDirectory s c (abs ns) = (s', None) /\ up s' c /\ remote s' = delete ns (remote s);
  (** protocol version 3: it is an error when the new name exists *)
  Rename_spec s c ns ns' x d : up s c -> Forall normal_part ns -> Forall normal_part (ns' ++ [x]) ->
    remote s !! ns = Some (RFile d) -> remote s !! ns' = Some RDir ->
    match remote s !! (ns' ++ [x]) with
    | Some _ => exists e, c_Rename s c (abs ns) (abs (ns' ++ [x])) = (s, Some e)
    | None => exists s', c_Rename s c (abs ns) (abs (ns' ++ [x])) = (s', None) /\ up s' c /\
                remote s' = <[ns' ++ [x] := RFile d]> (delete ns (remote s))
    end;

  Seek_spec s c h n : up s c -> (0 <= n)%Z ->
    exists s' h', f_Seek s h n = (s', Ok h') /\ up s' c /\ remote s' = remote s /\ handle h' = ((handle h).1, Z.to_nat n);
  Read_spec s c h ns off d n : up s c -> handle h = (ns, off) -> remote s !! ns = Some (RFile d) -> 0 < n ->
    match drop off d with
    | [] => exists s' h', f_Read s h n = (s', h', [], Some (err_io EOF)) /\ up s' c /\ remote s' = remote s
    | rest => exists s' h' k err, f_Read s h n = (s', h', take k rest, err) /\ 0 < k <= n /\ may_end (drop k rest) err /\
                up s' c /\ remote s' = remote s /\ handle h' = (ns, off + length (take k rest))
    end;
  Write_spec s c h ns d p : up s c -> handle h = (ns, length d) -> remote s !! ns = Some (RFile d) ->
    exists s' h', f_Write s h p = (s', h', length p, None) /\ up s' c /\
      remote s' = <[ns := RFile (d ++ p)]> (remote s) /\ handle h' = (ns, length (d ++ p));
  (** what is left of the source goes to the end of the other file *)
  WriteTo_spec s c h h' ns ns' off d d' : up s c -> handle h = (ns, off) -> handle h' = (ns', length d') ->
    remote s !! ns = Some (RFile d) -> remote s !! ns' = Some (RFile d') -> ns <> ns' \/ drop off d = [] ->
    exists s' g g', f_WriteTo s h h' = (s', g, g', None) /\ up s' c /\
      remote s' = <[ns' := RFile (d' ++ drop off d)]> (remote s) /\ (handle g).1 = ns /\ (handle g').1 = ns';
  FClose_spec s c h : up s c -> exists s', f_Close s h = (s', None) /\ up s' c /\ remote s' = remote s
}.

(** ** Lemmas: paths *)

Lemma Dir_abs ns x : Forall normal_part (ns ++ [x]) -> Dir (abs (ns ++ [x])) = abs ns.
Proof. intros Hn. by apply (Dir_render true [] ns x). Qed.

Lemma last_part_snoc l x : last_part (l ++ [x]) = x.
Proof. induction l as [|y l IH]; [done|]. cbn. destruct l; [done|exact IH]. Qed.

Lemma normal_clean ns : Forall normal_part ns -> Forall clean_part ns.
Proof. intros Hn. eapply Forall_impl; [exact Hn|]. by left. Qed.

Lemma filter_normal ns : Forall normal_part ns -> filter (fun part => part <> "") ns = ns.
Proof. induction 1 as [|n ns (Hn & _) _ IH]; [done|]. by rewrite filter_cons_True, IH. Qed.

Lemma Base_abs ns x : Forall normal_part (ns ++ [x]) -> Base (abs (ns ++ [x])) = x.
Proof.
  intros Hn. unfold Base. rewrite decide_False by done. unfold abs. rewrite split_render by (by apply normal_clean || by destruct ns).
  rewrite filter_cons_False by auto. rewrite filter_normal by done.
  pose proof (last_part_snoc ns x). by destruct (ns ++ [x]) eqn:He; [by destruct ns|].
Qed.

Lemma Join_abs ns x : Forall normal_part (ns ++ [x]) -> Join (abs ns) x = abs (ns ++ [x]).
Proof.
  intros [Hns [Hx _]%Forall_cons]%Forall_app. pose proof Hx as (Hx1 & _ & _ & Hx4).
  assert (clean_parts false (split_slash x) = [x]) as Hc by (rewrite split_slash_plain by done; apply clean_parts_normal; by apply Forall_singleton).
  rewrite Join_below, Hc; [|done|done|rewrite Hc; by apply Forall_singleton].
  unfold abs at 1 2. rewrite render_rooted by by apply normal_clean. f_equal. f_equal.
  destruct (decide (ns = [])) as [->|Hne]; [done|]. unfold abs. rewrite split_render by (done || by apply normal_clean).
  change (clean_parts true ([""] ++ ns) = ns). unfold clean_parts. rewrite fold_left_app. by apply (clean_parts_normal true).
Qed.

Lemma join_app a b : a <> [] -> b <> [] -> join_slash (a ++ b) = join_slash a +:+ String slash (join_slash b).
Proof.
  intros Ha Hb. induction a as [|x [|y a] IH]; [done|by apply join_cons|].
  change ((x :: y :: a) ++ b) with (x :: ((y :: a) ++ b)). rewrite !join_cons, IH by done. by rewrite <- string_app_assoc.
Qed.

Section places.
Context `{SC : SftpClient}.

(** The listing names what is below the root as the backend's paths do. *)
Lemma relPath_abs b pre ns :
  b.(config).(Root) = abs pre -> Forall normal_part (pre ++ ns) -> ns <> [] -> relPath b (abs (pre ++ ns)) = join_slash ns.
Proof.
  intros Hr Hn Hne. unfold relPath. rewrite Hr.
  assert (TrimPrefix (join_slash ns) "/" = join_slash ns) as Hid.
  { apply TrimPrefix_slash_id. destruct ns as [|n ns]; [done|]. apply Forall_app in Hn as [_ [(? & _ & _ & ?) _]%Forall_cons].
    by apply join_not_rooted. }
  destruct (decide (pre = [])) as [->|Hp].
  - change (abs ([] ++ ns)) with ("/" +:+ join_slash ns). change (abs []) with "/". by rewrite TrimPrefix_app.
  - assert (abs (pre ++ ns) = abs pre +:+ "/" +:+ join_slash ns) as ->.
    { unfold abs, render. by rewrite join_app. }
    by rewrite TrimPrefix_app, TrimPrefix_app.
Qed.

Lemma prefix_snoc (pre l : list string) : pre `prefix_of` l -> l <> pre -> exists dir base, l = dir ++ [base] /\ pre `prefix_of` dir.
Proof.
  intros [k ->] Hne. destruct k as [|x k] using rev_ind; [by rewrite app_nil_r in Hne|]. exists (pre ++ k), x.
  rewrite app_assoc. split; [done|by exists k].
Qed.

(** The place a path leads to. *)
Definition place (b : Backend) (p : string) : list string :=
  clean_parts true (split_slash b.(config).(Root) ++ split_slash p).

Lemma place_normal b p : Forall normal_part (place b p).
Proof.
  unfold place. destruct (clean_parts_shape true (split_slash b.(config).(Root) ++ split_slash p)) as (n & ns & -> & Hn & Hr).
  - apply Forall_app. split; apply split_slash_no_slash.
  - by rewrite Hr.
Qed.

Lemma fullPath_place b p : is_rooted b.(config).(Root) = true -> fullPath b p = abs (place b p).
Proof.
  intros Hr. unfold fullPath, place, Join. assert (b.(config).(Root) <> "") as Hne by by intros He; rewrite He in Hr.
  rewrite decide_False, filter_cons_True by done. destruct (decide (p = "")) as [->|Hp].
  - rewrite filter_cons_False by auto. change (join_slash (_ :: filter _ [])) with b.(config).(Root).
    rewrite Clean_render, Hr by done. unfold abs, clean_parts. by rewrite fold_left_app.
  - rewrite filter_cons_True by done. change (join_slash (_ :: p :: filter _ [])) with (b.(config).(Root) +:+ String slash p).
    destruct b.(config).(Root) as [|ch root]; [done|]. cbn [is_rooted String.prefix] in Hr.
    assert (is_rooted (String ch root +:+ String slash p) = true) as Hr'.
    { change (String ch root +:+ String slash p) with (String ch (root +:+ String slash p)). unfold is_rooted. cbn [String.prefix].
      destruct (ascii_dec "/" ch); [by destruct (root +:+ String slash p)|done]. }
    rewrite Clean_render, Hr', split_slash_slash by done. done.
Qed.

End places.

(** ** Lemmas: the operations over the specification *)

(** The same files but at some places. *)
Definition kept_but (l : list (list string)) (m m' : rtree) : Prop :=
  forall k d, k ∉ l -> m' !! k = Some (RFile d) <-> m !! k = Some (RFile d).

Lemma kept_insert l k n m m' : kept_but l m m' -> k ∈ l -> kept_but l m (<[k := n]> m').
Proof. intros Hk Hin k' d Hn. rewrite lookup_insert_ne by by intros ->. by apply Hk. Qed.

Lemma kept_delete l k m m' : kept_but l m m' -> k ∈ l -> kept_but l m (delete k m').
Proof. intros Hk Hin k' d Hn. rewrite lookup_delete_ne by by intros ->. by apply Hk. Qed.

Lemma kept_dirs l ns m m' :
  with_dirs ns m m' -> way_clear m ns -> (forall d, m !! ns <> Some (RFile d)) -> kept_but l m m'.
Proof.
  intros Hw Hc Hn k d _. rewrite Hw. case_decide as Hp; [|done]. split; [done|]. intros Hk. exfalso.
  destruct (decide (k = ns)) as [->|Hne]; [by eapply Hn|by eapply Hc].
Qed.

Section runs.
Context `{SP : SftpSpec}.

(** An open backend whose root is an absolute path. *)
Definition serves (b : Backend) (s : Srv) : Prop :=
  b.(closed) = false /\ is_rooted b.(config).(Root) = true /\ up s b.(sftpClient).

(** A path a file can be written to. *)
Definition writable (b : Backend) (p : string) (m : rtree) : Prop :=
  place b p <> [] /\ way_clear m (place b p) /\ m !! place b p <> Some RDir.

Lemma serves_checks b s : serves b s -> checks None b = None.
Proof. unfold checks, checkClosed. by intros [-> _]. Qed.

Lemma serves_up b s s' : serves b s -> up s' b.(sftpClient) -> serves b s'.
Proof. by intros (? & ? & _). Qed.

Lemma place_snoc b p : place b p <> [] -> exists ns x, place b p = ns ++ [x] /\ Forall normal_part (ns ++ [x]).
Proof.
  intros Hne. destruct (exists_last Hne) as (ns & x & He). exists ns, x. split; [done|]. rewrite <- He. apply place_normal.
Qed.

Lemma way_clear_parent m ns x : way_clear m (ns ++ [x]) -> way_clear m ns /\ forall d, m !! ns <> Some (RFile d).
Proof.
  intros Hc. split; [|intros d; apply Hc; [by exists [x]|]].
  - intros k d Hp Hne. apply Hc; [etrans; [exact Hp|by exists [x]]|]. intros ->. apply prefix_length in Hp. rewrite length_app in Hp. cbn in Hp. lia.
  - intros He. apply (f_equal length) in He. rewrite length_app in He. cbn in He. lia.
Qed.

Lemma with_dirs_snoc m m' ns x : with_dirs ns m m' -> m' !! ns = Some RDir /\ m' !! (ns ++ [x]) = m !! (ns ++ [x]).
Proof.
  intros Hw. rewrite !Hw, decide_True by done. split; [done|]. rewrite decide_False; [done|].
  intros Hp%prefix_length. rewrite length_app in Hp. cbn in Hp. lia.
Qed.

(** The directories above a place are made. *)
Lemma make_dirs_ok s b ns x :
  serves b s -> Forall normal_part (ns ++ [x]) -> way_clear (remote s) (ns ++ [x]) ->
  exists s', make_dirs s b (Dir (abs (ns ++ [x]))) = (s', None) /\ serves b s' /\
    with_dirs ns (remote s) (remote s') /\ forall l, kept_but l (remote s) (remote s').
Proof.
  intros Hs Hn [Hc Hf]%way_clear_parent. rewrite Dir_abs by done. apply Forall_app in Hn as [Hn _].
  destruct (MkdirAll_spec s b.(sftpClient) ns) as (s' & He & Hu & Hw); [apply Hs|done..|].
  exists s'. unfold make_dirs. rewrite He. split_and!; [done|by eapply serves_up|done|]. intros l. by eapply kept_dirs.
Qed.

(** A file made anew where a path leads. *)
Lemma create_ok s b ns x :
  serves b s -> Forall normal_part (ns ++ [x]) -> remote s !! ns = Some RDir -> remote s !! (ns ++ [x]) <> Some RDir ->
  exists s' h, c_Create s b.(sftpClient) (abs (ns ++ [x])) = (s', Ok h) /\ serves b s' /\
    remote s' = <[ns ++ [x] := RFile []]> (remote s) /\ handle h = (ns ++ [x], 0).
Proof.
  intros Hs Hn Hd Hnd. destruct (Create_spec s b.(sftpClient) ns x) as (s' & h & He & Hu & Hr & Hh); [apply Hs|done..|].
  exists s', h. split_and!; [done|by eapply serves_up|done|done].
Qed.

Lemma sftp_NewWriter_ok s b p opts :
  serves b s -> writable b p (remote s) ->
  exists s' h, NewWriter None s b p opts = (s', Ok h) /\ serves b s' /\ handle h = (place b p, 0) /\
    remote s' !! place b p = Some (RFile []) /\ kept_but [place b p] (remote s) (remote s').
Proof.
  intros Hs (Hne & Hc & Hnd). destruct (place_snoc b p Hne) as (ns & x & He & Hn). rewrite He in *.
  destruct (make_dirs_ok s b ns x Hs Hn Hc) as (s1 & Hm & Hs1 & Hw & Hk). destruct (with_dirs_snoc _ _ ns x Hw) as [Hd Hsame].
  destruct (create_ok s1 b ns x Hs1 Hn Hd) as (s2 & h & Hcr & Hs2 & Hr & Hh); [by rewrite Hsame|].
  exists s2, h. unfold NewWriter. rewrite (serves_checks _ _ Hs), fullPath_place, He, Hm, Hcr by apply Hs.
  split_and!; [done|done|done|by rewrite Hr, lookup_insert_eq|]. rewrite Hr. apply kept_insert; [apply Hk|by left].
Qed.

(** Writing chunk after chunk; [None]: a write failed or was short. *)
Fixpoint write_chunks (s : Srv) (h : SFile) (chunks : list bytes) : option (Srv * SFile) :=
  match chunks with
  | [] => Some (s, h)
  | p :: chunks =>
      match f_Write s h p with
      | (s, h, n, None) => if decide (n = length p) then write_chunks s h chunks else None
      | _ => None
      end
  end.

Lemma remote_write_chunks_ok s b h ns d chunks :
  serves b s -> handle h = (ns, length d) -> remote s !! ns = Some (RFile d) ->
  exists s' h', write_chunks s h chunks = Some (s', h') /\ serves b s' /\
    remote s' !! ns = Some (RFile (d ++ concat chunks)) /\ kept_but [ns] (remote s) (remote s').
Proof.
  revert s h d. induction chunks as [|p chunks IH]; intros s h d Hs Hh Hf; cbn [write_chunks concat].
  - exists s, h. rewrite app_nil_r. by split_and!.
  - destruct (Write_spec s b.(sftpClient) h ns d p) as (s1 & h1 & -> & Hu & Hr & Hh1); [apply Hs|done|done|].
    rewrite decide_True by done. destruct (IH s1 h1 (d ++ p)) as (s2 & h2 & Hw & Hs2 & Hf2 & Hk);
      [by eapply serves_up|done|by rewrite Hr, lookup_insert_eq|].
    exists s2, h2. rewrite app_assoc. split_and!; [done|done|done|]. intros k d' Hk'. rewrite (Hk k d' Hk'), Hr.
    rewrite lookup_insert_ne; [done|]. intros ->. apply Hk'. by left.
Qed.

Lemma NewReader_ok s b p d ropts :
  serves b s -> remote s !! place b p = Some (RFile d) ->
  let config := ApplyReaderOptions ropts in
  exists s' h, NewReader None s b p ropts = (s', Ok (mkReader h (if (0 <? config.(RLimit))%Z then Some config.(RLimit) else None))) /\
    serves b s' /\ remote s' = remote s /\
    handle h = (place b p, if (0 <? config.(ROffset))%Z then Z.to_nat config.(ROffset) else 0).
Proof.
  intros Hs Hd config. unfold NewReader. rewrite (serves_checks _ _ Hs), fullPath_place by apply Hs. fold config.
  pose proof (Open_spec s b.(sftpClient) (place b p) (proj2 (proj2 Hs)) (place_normal b p)) as Ho. rewrite Hd in Ho.
  destruct Ho as (s1 & h & -> & Hu & Hr & Hh). destruct (Z.ltb_spec 0 config.(ROffset)).
  - destruct (Seek_spec s1 b.(sftpClient) h config.(ROffset)) as (s2 & h2 & -> & Hu2 & Hr2 & Hh2); [done|lia|].
    exists s2, h2. rewrite Hh2, Hh. split_and!; [done|by eapply serves_up|congruence|done].
  - exists s1, h. split_and!; [done|by eapply serves_up|done|done].
Qed.

(** Reading in pieces of [n] bytes up to the end; [None]: an error, or more reads than the fuel. *)
Fixpoint read_all (fuel : nat) (s : Srv) (r : Reader) (n : nat) : option (Srv * bytes) :=
  match fuel with
  | 0 => None
  | S fuel =>
      match Read s r n with
      | (s, r, chunk, None) => (fun rest => (rest.1, chunk ++ rest.2)) <$> read_all fuel s r n
      | (s, _, chunk, Some e) => if is_sentinel (IoSentinel EOF) e then Some (s, chunk) else None
      end
  end.

Lemma drop_taken (k off : nat) (d : bytes) : drop (off + length (take k (drop off d))) d = drop k (drop off d).
Proof.
  rewrite <- drop_drop, length_take. destruct (Nat.le_ge_cases k (length (drop off d))) as [H|H]; [by rewrite Nat.min_l|].
  rewrite Nat.min_r by done. by rewrite !(drop_ge (drop off d)).
Qed.

(** One read of what is left, within the limit. *)
Lemma Read_ok s b h ns off d limit n :
  serves b s -> handle h = (ns, off) -> remote s !! ns = Some (RFile d) -> 0 < n ->
  let left_ := limited limit (drop off d) in
  (left_ = [] /\ exists s' r', Read s (mkReader h limit) n = (s', r', [], Some (err_io EOF)) /\ serves b s' /\ remote s' = remote s) \/
  (exists s' h' chunk limit' off' err, Read s (mkReader h limit) n = (s', mkReader h' limit', chunk, err) /\ chunk <> [] /\
     may_end (limited limit' (drop off' d)) err /\
     serves b s' /\ remote s' = remote s /\ handle h' = (ns, off') /\ left_ = chunk ++ limited limit' (drop off' d)).
Proof.
  intros Hs Hh Hf Hn. cbn zeta. unfold Read. cbn [remaining r_file].
  pose proof (fun n => Read_spec s b.(sftpClient) h ns off d n (proj2 (proj2 Hs)) Hh Hf) as Hread.
  destruct (decide (limited limit (drop off d) = [])) as [He|Hne].
  - left. split; [done|]. destruct limit as [m|]; cbn [limited] in He.
    + destruct (Z.leb_spec m 0); [by exists s, (mkReader h (Some m))|].
      assert (drop off d = []) as Hd by (destruct (drop off d); [done|]; by destruct (Z.to_nat m) eqn:Hm; [lia|]).
      specialize (Hread (if (m <? Z.of_nat n)%Z then Z.to_nat m else n)). rewrite Hd in Hread.
      destruct Hread as (s' & h' & -> & Hu & Hr); [destruct (Z.ltb_spec m (Z.of_nat n)); lia|]. eexists s', _. split; [done|]. split; [by eapply serves_up|done].
    + specialize (Hread n Hn). rewrite He in Hread. destruct Hread as (s' & h' & -> & Hu & Hr). eexists s', _.
      split; [done|]. split; [by eapply serves_up|done].
  - right. destruct (drop off d) as [|y rest] eqn:Hd; [by destruct limit; cbn in Hne; rewrite ?take_nil in Hne|].
    destruct limit as [m|]; cbn [limited] in *.
    + destruct (Z.leb_spec m 0); [by replace (Z.to_nat m) with 0 in Hne by lia|].
      specialize (Hread (if (m <? Z.of_nat n)%Z then Z.to_nat m else n)).
      destruct Hread as (s' & h' & k & err & -> & Hk & Herr & Hu & Hr & Hh'); [destruct (Z.ltb_spec m (Z.of_nat n)); lia|].
      assert (k <= Z.to_nat m) as Hkm by (destruct (Z.ltb_spec m (Z.of_nat n)); lia).
      eexists s', h', _, _, _, err. split; [done|]. split; [by destruct k; [lia|]|]. rewrite <- Hd in *. cbn [limited]. rewrite drop_taken.
      split; [destruct Herr as [->|[-> ->]]; [by left|right; by rewrite take_nil]|].
      split; [by eapply serves_up|]. split_and!; [done|exact Hh'|]. rewrite <- (take_drop k (take _ _)), take_take, Nat.min_l by done. f_equal.
      rewrite skipn_firstn_comm. destruct (Nat.le_ge_cases k (length (drop off d))) as [Hl|Hl].
      * f_equal. rewrite length_take, Nat.min_l by done. lia.
      * by rewrite drop_ge, !take_nil by done.
    + specialize (Hread n Hn). destruct Hread as (s' & h' & k & err & -> & Hk & Herr & Hu & Hr & Hh').
      eexists s', h', _, _, _, err. split; [done|]. split; [by destruct k; [lia|]|]. rewrite <- Hd in *. cbn [limited]. rewrite drop_taken.
      split; [done|]. split; [by eapply serves_up|]. split_and!; [done|exact Hh'|]. by rewrite take_drop.
Qed.

Lemma remote_read_all_ok fuel s b h ns off d limit n :
  serves b s -> handle h = (ns, off) -> remote s !! ns = Some (RFile d) -> 0 < n ->
  length (limited limit (drop off d)) < fuel ->
  exists s', read_all fuel s (mkReader h limit) n = Some (s', limited limit (drop off d)) /\ serves b s' /\ remote s' = remote s.
Proof.
  revert s h off limit. induction fuel as [|fuel IH]; intros s h off limit Hs Hh Hf Hn Hl; [lia|]. cbn [read_all].
  destruct (Read_ok s b h ns off d limit n Hs Hh Hf Hn)
    as [(-> & s' & r' & -> & Hs' & Hr)|(s' & h' & chunk & limit' & off' & err & -> & Hne & Herr & Hs' & Hr & Hh' & He)]; [by exists s'|].
  rewrite He in *. destruct Herr as [->|[-> ->]]; [|rewrite app_nil_r; by exists s']. rewrite length_app in Hl. destruct (IH s' h' off' limit') as (s2 & -> & Hs2 & Hr2); [done|done|by rewrite Hr|done| |].
  - destruct chunk; [done|]. cbn in Hl. lia.
  - exists s2. split_and!; [done|done|congruence].
Qed.

(** *** Copies *)

Lemma writable_kept b p m m' : kept_but [] m m' -> writable b p m -> m' !! place b p <> Some RDir -> writable b p m'.
Proof.
  intros Hk (Hne & Hc & _) Hnd. split_and!; [done| |done]. intros k d Hp Hkp Hd. apply (Hc k d Hp Hkp).
  apply Hk; [apply not_elem_of_nil|done].
Qed.

(** [stream] copies a source that was just opened to a file that was just made. *)
Lemma stream_ok s b h h' ns ns' d :
  serves b s -> handle h = (ns, 0) -> handle h' = (ns', 0) ->
  remote s !! ns = Some (RFile d) -> remote s !! ns' = Some (RFile []) -> (ns = ns' -> d = []) ->
  exists s', stream s h h' = (s', None) /\ serves b s' /\ remote s' = <[ns' := RFile d]> (remote s).
Proof.
  intros Hs Hh Hh' Hf Hf' Hsame.
  destruct (WriteTo_spec s b.(sftpClient) h h' ns ns' 0 d []) as (s1 & g & g' & He & Hu & Hr & _); [apply Hs|done..| |].
  { destruct (decide (ns = ns')) as [Heq|]; [right; by rewrite Hsame|by left]. }
  unfold stream. rewrite He. destruct (FClose_spec s1 b.(sftpClient) g Hu) as (s2 & -> & Hu2 & Hr2).
  destruct (FClose_spec s2 b.(sftpClient) g' Hu2) as (s3 & -> & Hu3 & Hr3). exists s3.
  split_and!; [done|by eapply serves_up|]. by rewrite Hr3, Hr2, Hr.
Qed.

Lemma sftp_Copy_ok s b src dst d :
  serves b s -> remote s !! place b src = Some (RFile d) -> writable b dst (remote s) ->
  exists s', Copy None s b src dst = (s', None) /\ serves b s' /\
    remote s' !! place b dst = Some (RFile (if decide (place b src = place b dst) then [] else d)) /\
    kept_but [place b dst] (remote s) (remote s').
Proof.
  intros Hs Hf (Hne & Hc & Hnd). destruct (place_snoc b dst Hne) as (ns & x & He & Hn).
  unfold Copy. rewrite (serves_checks _ _ Hs), !fullPath_place by apply Hs. rewrite He in *.
  destruct (make_dirs_ok s b ns x Hs Hn Hc) as (s1 & -> & Hs1 & Hw & Hk). destruct (with_dirs_snoc _ _ ns x Hw) as [Hd Hsame].
  assert (remote s1 !! place b src = Some (RFile d)) as Hf1 by (apply (Hk []); [apply not_elem_of_nil|done]).
  pose proof (Open_spec s1 b.(sftpClient) (place b src) (proj2 (proj2 Hs1)) (place_normal b src)) as Ho. rewrite Hf1 in Ho.
  destruct Ho as (s2 & h & -> & Hu2 & Hr2 & Hh). pose proof (serves_up b s1 s2 Hs1 Hu2) as Hs2.
  destruct (create_ok s2 b ns x Hs2 Hn) as (s3 & h' & -> & Hs3 & Hr3 & Hh'); [by rewrite Hr2|by rewrite Hr2, Hsame|].
  destruct (stream_ok s3 b h h' (place b src) (ns ++ [x]) (if decide (place b src = ns ++ [x]) then [] else d))
    as (s4 & -> & Hs4 & Hr4); [done|done|done| |by rewrite Hr3, lookup_insert_eq|by intros ?; rewrite decide_True|].
  - rewrite Hr3, Hr2. case_decide as Heq; [by rewrite Heq, lookup_insert_eq|by rewrite lookup_insert_ne].
  - exists s4. split_and!; [done|done|by rewrite Hr4, lookup_insert_eq|]. rewrite Hr4, Hr3, Hr2.
    apply kept_insert; [apply kept_insert; [apply Hk|]|]; by left.
Qed.

Lemma Delete_file s b p d :
  serves b s -> remote s !! place b p = Some (RFile d) ->
  exists s', Delete None s b p = (s', None) /\ serves b s' /\ remote s' = delete (place b p) (remote s).
Proof.
  intros Hs Hf. unfold Delete. rewrite (serves_checks _ _ Hs), fullPath_place by apply Hs.
  pose proof (Remove_spec s b.(sftpClient) (place b p) (proj2 (proj2 Hs)) (place_normal b p)) as Hr. rewrite Hf in Hr.
  destruct Hr as (s' & -> & Hu & Hr). exists s'. split_and!; [done|by eapply serves_up|done].
Qed.

(** *** Listings *)

Lemma remote_ancestor s c a k n : up s c -> remote s !! (a ++ k) = Some n -> is_Some (remote s !! a).
Proof.
  intros Hu. revert n. induction k as [|x k IH] using rev_ind; intros n Hn; [rewrite app_nil_r in Hn; by eexists|].
  rewrite app_assoc in Hn. apply (remote_parent s c) in Hn as [Hn _]; [|done]. by eapply IH.
Qed.

Lemma remote_normal s c ns n : up s c -> remote s !! ns = Some n -> Forall normal_part ns.
Proof.
  intros Hu. revert n. induction ns as [|x ns IH] using rev_ind; intros n Hn; [done|].
  apply (remote_parent s c) in Hn as [Hn Hx]; [|done]. apply Forall_app. split; [by eapply IH|by apply Forall_singleton].
Qed.

Lemma each_entry_ok {name : list string -> string} (visit : Srv -> RemoteInfo -> list string -> option (Srv * list string * option error))
    (found : string -> list (list string)) s entries paths :
  (forall e paths, e ∈ entries -> visit s e paths = Some (s, paths ++ map name (found e.(Name)), None)) ->
  each_entry visit s entries paths = Some (s, paths ++ map name (map Name entries ≫= found), None).
Proof.
  revert paths. induction entries as [|e entries IH]; intros paths Hv; cbn [each_entry]; [by rewrite app_nil_r|].
  rewrite Hv by by left. rewrite IH by (intros e' paths' He; apply Hv; by right). cbn [map mbind list_bind]. by rewrite map_app, app_assoc.
Qed.

Lemma HasPrefix_empty x : HasPrefix x "" = true.
Proof. by destruct x. Qed.

(** The files below the entries of a directory whose names begin with a prefix. *)
Definition under (m : rtree) (ns : list string) (namePrefix : string) (k : list string) : Prop :=
  exists x rest d, k = ns ++ x :: rest /\ HasPrefix x namePrefix = true /\ m !! k = Some (RFile d).

(** What one entry contributes. *)
Definition entry_lists (m : rtree) (ns : list string) (namePrefix x : string) (found : list (list string)) : Prop :=
  NoDup found /\ forall k, k ∈ found <-> exists rest d, k = ns ++ x :: rest /\ HasPrefix x namePrefix = true /\ m !! k = Some (RFile d).

Lemma entries_under s c ns namePrefix (names : list string) found :
  up s c -> NoDup names -> (forall x n, remote s !! (ns ++ [x]) = Some n -> x ∈ names) ->
  (forall x, x ∈ names -> entry_lists (remote s) ns namePrefix x (found x)) ->
  NoDup (names ≫= found) /\ forall k, k ∈ names ≫= found <-> under (remote s) ns namePrefix k.
Proof.
  intros Hu Hnd Hall Hf. split.
  - apply NoDup_bind; [|intros x Hx; by apply Hf|done]. intros x y k Hx Hy Hin Hin'.
    apply (Hf x Hx) in Hin as (r1 & d1 & -> & _). apply (Hf y Hy) in Hin' as (r2 & d2 & Hk & _).
    apply app_inv_head in Hk. by injection Hk as ->.
  - intros k. rewrite list_elem_of_bind. split.
    + intros (x & Hin & Hx). apply (Hf x Hx) in Hin as (rest & d & ? & ? & ?). by exists x, rest, d.
    + intros (x & rest & d & -> & Hp & Hk). assert (x ∈ names) as Hx.
      { destruct (remote_ancestor s c (ns ++ [x]) rest (RFile d) Hu) as [n Hn]; [by rewrite <- app_assoc|]. by eapply Hall. }
      exists x. split; [|done]. apply (Hf x Hx). by exists rest, d.
Qed.

Section walking.
Context (s : Srv) (b : Backend) (pre : list string) (Hs : serves b s) (Hroot : b.(config).(Root) = abs pre).

Definition rel (k : list string) : string := join_slash (drop (length pre) k).

Lemma rel_entry ns x n :
  pre `prefix_of` ns -> remote s !! (ns ++ [x]) = Some n -> relPath b (Join (abs ns) x) = rel (ns ++ [x]).
Proof.
  intros [k ->] Hn. apply (remote_normal s b.(sftpClient)) in Hn; [|apply Hs]. rewrite Join_abs by done.
  unfold rel. rewrite <- app_assoc in *. rewrite drop_app_length. apply relPath_abs; [done..|by destruct k].
Qed.

(** What the walk does with one entry. *)
Definition visit (fuel : nat) (ns : list string) (namePrefix : string) (s : Srv) (entry : RemoteInfo) (paths : list string)
    : option (Srv * list string * option error) :=
  if bool_decide (namePrefix <> "") && negb (HasPrefix entry.(Name) namePrefix) then Some (s, paths, None)
  else if entry.(IsDir) then walkDir fuel None s b (Join (abs ns) entry.(Name)) "" paths
  else Some (s, paths ++ [relPath b (Join (abs ns) entry.(Name))], None).

(** A walk that, given enough fuel, lists what is under a directory. *)
Definition walks (h : nat) (ns : list string) (namePrefix : string) (found : list (list string)) : Prop :=
  NoDup found /\ (forall k, k ∈ found <-> under (remote s) ns namePrefix k) /\
  forall fuel acc, h <= fuel -> walkDir fuel None s b (abs ns) namePrefix acc = Some (s, acc ++ map rel found, None).

Definition visits (h : nat) (ns : list string) (namePrefix x : string) (n : rnode) (fx : list (list string)) : Prop :=
  entry_lists (remote s) ns namePrefix x fx /\
  forall e fuel acc, e.(Name) = x -> e.(IsDir) = is_dir n -> h <= fuel ->
    visit fuel ns namePrefix s e acc = Some (s, acc ++ map rel fx, None).

Lemma visit_skipped h ns namePrefix x n : HasPrefix x namePrefix = false -> visits h ns namePrefix x n [].
Proof.
  intros Hpx. split; [split; [constructor|]|].
  - intros k. split; [by intros ?%not_elem_of_nil|intros (rest & d & _ & Hpx' & _); congruence].
  - intros e fuel acc <- _ _. unfold visit. rewrite Hpx, bool_decide_eq_true_2; [by rewrite app_nil_r|]. intros He. by rewrite He, HasPrefix_empty in Hpx.
Qed.

Lemma visit_dir h ns namePrefix x fx :
  HasPrefix x namePrefix = true -> remote s !! (ns ++ [x]) = Some RDir -> walks h (ns ++ [x]) "" fx ->
  visits h ns namePrefix x RDir fx.
Proof.
  intros Hpx Hn (Hfx & Hin & Hw). split; [split; [done|]|].
  - intros k. rewrite Hin. split.
    + intros (y & rest & d & -> & _ & Hk). exists (y :: rest), d. by rewrite <- app_assoc in *.
    + intros ([|y rest] & d & -> & _ & Hk); [congruence|]. exists y, rest, d. rewrite <- app_assoc. split_and!; [done|apply HasPrefix_empty|done].
  - intros e fuel acc <- He Hf. unfold visit. rewrite Hpx, andb_false_r, He. cbn [is_dir].
    rewrite Join_abs; [by apply Hw|]. eapply remote_normal; [apply Hs|exact Hn].
Qed.

Lemma visit_file h ns namePrefix x d :
  pre `prefix_of` ns -> HasPrefix x namePrefix = true -> remote s !! (ns ++ [x]) = Some (RFile d) ->
  visits h ns namePrefix x (RFile d) [ns ++ [x]].
Proof.
  intros Hp Hpx Hn. split; [split; [apply NoDup_singleton|]|].
  - intros k. rewrite list_elem_of_singleton. split; [intros ->; by exists [], d|].
    intros ([|y rest] & d' & -> & _ & Hk); [done|]. exfalso.
    destruct (remote_ancestor s b.(sftpClient) ((ns ++ [x]) ++ [y]) rest (RFile d')) as [n Hy]; [apply Hs|by rewrite <- !app_assoc|].
    apply (remote_parent s b.(sftpClient)) in Hy as [Hy _]; [congruence|apply Hs].
  - intros e fuel acc <- He Hf. unfold visit. rewrite Hpx, andb_false_r, He. cbn [is_dir map]. by erewrite rel_entry.
Qed.

Lemma sftp_walk_ok h : forall ns namePrefix,
  (forall k n, remote s !! (ns ++ k) = Some n -> length k < h) -> pre `prefix_of` ns -> remote s !! ns = Some RDir ->
  exists found, walks h ns namePrefix found.
Proof.
  induction h as [|h IH]; intros ns namePrefix Hh Hp Hd; [specialize (Hh [] RDir); rewrite app_nil_r in Hh; apply Hh in Hd; cbn in Hd; lia|].
  pose proof (ReadDir_spec s b.(sftpClient) ns (proj2 (proj2 Hs)) (remote_normal s _ _ _ (proj2 (proj2 Hs)) Hd)) as Hr. rewrite Hd in Hr.
  destruct Hr as (entries & Hread & Hnd & Hent & Hall).
  assert (forall x, x ∈ map Name entries -> exists fx, forall n, remote s !! (ns ++ [x]) = Some n -> visits h ns namePrefix x n fx) as Hx.
  { intros x _. destruct (HasPrefix x namePrefix) eqn:Hpx; [|exists []; intros n _; by apply visit_skipped].
    destruct (remote s !! (ns ++ [x])) as [[|d]|] eqn:Hn; [| |by exists []].
    - destruct (IH (ns ++ [x]) "") as [fx Hfx]; [|by apply prefix_app_r|done|].
      + intros k n Hk. rewrite <- app_assoc in Hk. apply Hh in Hk. cbn in Hk. lia.
      + exists fx. intros n [= <-]. by apply visit_dir.
    - exists [ns ++ [x]]. intros n [= <-]. by apply visit_file. }
  apply choice_on in Hx as [found Hfound]; [|exact []].
  assert (forall e, e ∈ entries -> exists n, e.(IsDir) = is_dir n /\ visits h ns namePrefix e.(Name) n (found e.(Name))) as Hv.
  { intros e He. destruct (Hent e He) as (n & Hn & Hi). exists n. split; [done|]. apply Hfound; [|done].
    apply list_elem_of_fmap. by exists e. }
  destruct (entries_under s b.(sftpClient) ns namePrefix (map Name entries) found) as [Hnd' Hin]; [apply Hs|done|done| |].
  { intros x (e & -> & He)%list_elem_of_fmap. destruct (Hv e He) as (n & _ & Hl & _). done. }
  exists (map Name entries ≫= found). split_and!; [done|done|]. intros [|fuel] acc Hf; [lia|]. cbn [walkDir ctx_err fmap option_fmap option_map].
  rewrite Hread. apply (each_entry_ok (visit fuel ns namePrefix) found). intros e paths He.
  destruct (Hv e He) as (n & Hi & _ & Hvis). apply Hvis; [done|done|lia].
Qed.

(** A directory that is not there has no files. *)
Lemma walks_missing h ns namePrefix :
  Forall normal_part ns -> remote s !! ns = None -> way_clear (remote s) ns -> walks (S h) ns namePrefix [].
Proof.
  intros Hn Hm Hc. split_and!; [constructor| |].
  - intros k. split; [by intros ?%not_elem_of_nil|]. intros (x & rest & d & -> & _ & Hk).
    apply (remote_ancestor s b.(sftpClient)) in Hk as [? ?]; [congruence|apply Hs].
  - intros [|fuel] acc Hf; [lia|]. cbn [walkDir ctx_err fmap option_fmap option_map].
    pose proof (ReadDir_spec s b.(sftpClient) ns (proj2 (proj2 Hs)) Hn) as Hr. rewrite Hm in Hr.
    destruct Hr as (e & -> & He). rewrite decide_True by auto. by rewrite app_nil_r.
Qed.

End walking.

(** What a listing of a place names: what is below it when it is a directory, otherwise what
    has its last name as a prefix there. *)
Definition listed (m : rtree) (pl k : list string) : Prop :=
  match m !! pl with
  | Some RDir => under m pl "" k
  | _ => exists dir base, pl = dir ++ [base] /\ under m dir base k
  end.

(** A listing is the walk of a directory: of the prefix, or of the one its last name is looked up in. *)
Lemma List_walks s b pre prefix :
  serves b s -> remote s !! pre = Some RDir -> b.(config).(Root) = abs pre ->
  pre `prefix_of` place b prefix -> way_clear (remote s) (place b prefix) ->
  exists dir np found h, walks s b pre h dir np found /\
    (forall fuel, h <= fuel -> List fuel None s b prefix = Some (s, Ok (map (rel pre) found))) /\
    (forall k, listed (remote s) (place b prefix) k <-> under (remote s) dir np k) /\ pre `prefix_of` dir.
Proof.
  intros Hs Hpre Hroot Hp Hc. pose proof (proj2 (proj2 Hs)) as Hu. pose proof (place_normal b prefix) as Hn.
  destruct (keys_height (remote s)) as [h Hh].
  assert (forall ns namePrefix, pre `prefix_of` ns -> remote s !! ns = Some RDir -> exists found, walks s b pre (S h) ns namePrefix found) as Hwalk.
  { intros ns np Hpn Hd. apply sftp_walk_ok; [done|done| |done|done]. intros k n Hk. apply Hh in Hk. rewrite length_app in Hk. lia. }
  destruct (Stat_spec s b.(sftpClient) (place b prefix) Hu Hn) as (r & Hst & Hrs).
  assert (forall dir np found fuel, walks s b pre (S h) dir np found -> S h <= fuel ->
    (if match r with Ok info => info.(IsDir) | Err _ => false end then abs (place b prefix) else Dir (abs (place b prefix))) = abs dir ->
    (if match r with Ok info => info.(IsDir) | Err _ => false end then "" else Base (abs (place b prefix))) = np ->
    List fuel None s b prefix = Some (s, Ok (map (rel pre) found))) as Hlist.
  { intros dir np found fuel (_ & _ & Hw) Hf H1 H2. unfold List. rewrite (serves_checks _ _ Hs), fullPath_place, Hst by apply Hs.
    rewrite H1, H2, Hw by done. done. }
  destruct (remote s !! place b prefix) as [[|d]|] eqn:Hpl.
    1: { destruct Hrs as (i & -> & Hi). destruct (Hwalk (place b prefix) "" Hp Hpl) as [found Hw]. exists (place b prefix), "", found, (S h).
         split; [done|]. split; [|split; [by intros k; unfold listed; rewrite Hpl|done]].
         intros fuel Hf. rewrite Hi in Hlist. by eapply Hlist. }
    all: assert (match r with Ok info => info.(IsDir) | Err _ => false end = false) as Hfile
      by (destruct Hrs as (? & -> & ?); done); rewrite Hfile in Hlist.
    all: assert (place b prefix <> pre) as Hne by congruence.
    all: destruct (prefix_snoc pre (place b prefix) Hp Hne) as (dir & base & Hdb & Hpd); rewrite Hdb in *.
    all: destruct (way_clear_parent _ _ _ Hc) as [Hcd Hnf].
    all: assert (exists found, walks s b pre (S h) dir base found) as [found Hw]
      by (destruct (remote s !! dir) as [[|d']|] eqn:Hd; [by apply Hwalk|by destruct (Hnf d')|
          exists []; apply walks_missing; [done|by apply Forall_app in Hn as [? _]|done|done]]).
    all: exists dir, base, found, (S h); split; [done|]; split;
      [intros fuel Hf; eapply Hlist; [done|done|by apply Dir_abs|by apply Base_abs]|split; [|done]].
    all: intros k; unfold listed; rewrite Hpl; split; [|by eexists dir, base].
    all: by intros (dir' & base' & [-> [= ->]]%app_inj_tail & Hk).
Qed.

End runs.

(** ** Properties *)

(** Numbers that do not parse or are not positive leave the default, so a configuration's
    numbers are positive; the key "password" wins over "pass". *)
Theorem config_sound m Getenv :
  (forall c, c = ConfigFromMap m \/ c = ConfigFromEnv Getenv -> (0 < c.(Port))%Z /\ (0 < c.(Timeout))%Z /\ (0 < c.(Concurrency))%Z) /\
  (ConfigFromMap m).(Password) = default (default "" (m !! "pass")) (m !! "password").
Proof.
  split.
  - intros c [-> | ->]; unfold ConfigFromMap, ConfigFromEnv; split_and!;
      repeat first [done | rewrite text_setting_keep by done | rewrite number_setting_keep by done | apply number_setting_pos; [done|]].
  - unfold ConfigFromMap. do 2 rewrite (number_setting_keep Password) by done. do 4 rewrite (text_setting_keep Password) by done.
    destruct (m !! "password"); [done|]. destruct (m !! "pass"); [done|]. cbn [text_setting default].
    rewrite (text_setting_keep Password), (number_setting_keep Password), (text_setting_keep Password) by done. done.
Qed.

Section properties.
Context `{SC : SftpClient}.

(** Where a backend connects to. *)
Definition address (cfg : Config) : string :=
  cfg.(Host) +:+ ":" +:+ pretty (if (cfg.(Port) =? 0)%Z then 22%Z else cfg.(Port)).

(** A method the configuration asked for: its password, or a signer parsed from its key file. *)
Definition asked_for (cfg : Config) (m : AuthMethod Signer) : Prop :=
  (cfg.(Password) <> "" /\ m = PasswordAuth cfg.(Password)) \/
  (cfg.(KeyFile) <> "" /\ exists key signer, os_ReadFile cfg.(KeyFile) = Ok key /\ m = PublicKeys signer /\
     (if decide (cfg.(KeyPassphrase) <> "") then ParsePrivateKeyWithPassphrase key cfg.(KeyPassphrase) else ParsePrivateKey key) = Ok signer).

Lemma auth_methods_asked cfg l m : auth_methods cfg = Ok l -> m ∈ l -> asked_for cfg m.
Proof.
  unfold auth_methods, keyFileAuth, asked_for. intros Ha Hm.
  assert (m ∈ (if decide (cfg.(Password) <> "") then [PasswordAuth cfg.(Password)] else []) -> asked_for cfg m) as Hp.
  { destruct (decide (cfg.(Password) <> "")); [|by intros ?%not_elem_of_nil]. intros ->%list_elem_of_singleton. by left. }
  unfold asked_for in Hp. revert Ha. destruct (decide (cfg.(KeyFile) <> "")) as [Hk|]; [|intros [= <-]; by apply Hp].
  destruct (os_ReadFile cfg.(KeyFile)) as [key|] eqn:Hf; [|done].
  destruct (if decide (cfg.(KeyPassphrase) <> "") then _ else _) as [signer|] eqn:Hs; [|done].
  intros [= <-]. apply elem_of_app in Hm as [Hm|Hm%list_elem_of_singleton]; [by apply Hp|]. right. split; [done|]. by exists key, signer.
Qed.

(** Claim C22. [New] connects only to a server whose key is verified against the user's known_hosts
    file, with a host, a user and at least one authentication method, each one asked for; on
    any other way out it has touched nothing, and a connection that gets no session is closed. *)
Theorem sftp_New_verified s cfg :
  let '(s', r) := New s cfg in
  (s' = s /\ exists err, r = Err err) \/
  exists home callback methods timeout s1 dialled,
    cfg.(Host) <> "" /\ cfg.(User) <> "" /\ os_UserHomeDir = Ok home /\
    knownhosts_New (known_hosts_path home) = Ok callback /\
    methods <> [] /\ (forall m, m ∈ methods -> asked_for cfg m) /\
    ssh_Dial s "tcp" (address cfg) (mkClientConfig _ _ cfg.(User) methods timeout callback) = (s1, dialled) /\
    match r with
    | Ok b => b.(closed) = false /\ dialled = Ok b.(sshClient) /\ sftp_NewClient s1 b.(sshClient) = (s', Ok b.(sftpClient)) /\
        b.(config).(Root) = cfg.(Root)
    | Err _ => (s' = s1 /\ exists err, dialled = Err err) \/
        exists conn s2 err, dialled = Ok conn /\ sftp_NewClient s1 conn = (s2, Err err) /\ s' = (ssh_Close s2 conn).1
    end.
Proof.
  unfold New, Validate. case_decide as Hh; [left; by eauto|]. case_decide as Hu; [left; by eauto|].
  set (cfg1 := if (cfg.(Port) =? 0)%Z then set_Port 22 cfg else cfg). set (cfg2 := if (cfg1.(Timeout) =? 0)%Z then set_Timeout 30 cfg1 else cfg1).
  assert (forall A (f : Config -> A), (forall v, f (set_Port v cfg) = f cfg) -> (forall v c, f (set_Timeout v c) = f c) -> f cfg2 = f cfg) as Hsame.
  { intros A f H1 H2. unfold cfg2, cfg1. repeat case_match; by rewrite ?H2, ?H1. }
  destruct (auth_methods cfg2) as [methods|err] eqn:Ha; [|left; by eauto].
  assert (forall m, m ∈ methods -> asked_for cfg m) as Hm.
  { intros m Hm. rewrite <- (Hsame _ (fun c => asked_for c m)) by done. by eapply auth_methods_asked. }
  destruct methods as [|m1 methods]; [left; by eauto|].
  destruct os_UserHomeDir as [home|err] eqn:Hd; [|left; by eauto].
  destruct (knownhosts_New (known_hosts_path home)) as [callback|err] eqn:Hk; [|left; by eauto].
  assert (cfg2.(Host) +:+ ":" +:+ pretty cfg2.(Port) = address cfg) as Haddr.
  { unfold address, cfg2, cfg1. repeat case_match; done. }
  unfold connect. rewrite Haddr, (Hsame _ User) by done.
  destruct (ssh_Dial s "tcp" (address cfg) _) as [s1 dialled] eqn:Hdial.
  destruct dialled as [conn|err]; [destruct (sftp_NewClient s1 conn) as [s2 [client|err]] eqn:Hc|].
  - right. eexists home, callback, (m1 :: methods), _, s1, _. split_and!; [done..|exact Hdial|done|done|done|]. by apply (Hsame _ Root).
  - destruct (ssh_Close s2 conn) as [s3 [e|]] eqn:Hcl; right; eexists home, callback, (m1 :: methods), _, s1, _;
      split_and!; try done; try exact Hdial; right; exists conn, s2, err; by rewrite Hcl.
  - right. eexists home, callback, (m1 :: methods), _, s1, _. split_and!; try done; try exact Hdial. left. by eauto.
Qed.

Context {SP : SftpSpec}.

(** What is written through a writer, in any pieces, is what a reader then yields, the
    window of its options cut exactly as the in-memory backend cuts it; the directories on
    the way are made, and no other file changes. *)
Theorem sftp_write_read s b p opts chunks ropts n fuel :
  serves b s -> writable b p (remote s) -> 0 < n -> length (concat chunks) < fuel ->
  exists s1 h s2 h2 s3 r s4,
    NewWriter None s b p opts = (s1, Ok h) /\ write_chunks s1 h chunks = Some (s2, h2) /\
    NewReader None s2 b p ropts = (s3, Ok r) /\
    read_all fuel s3 r n = Some (s4, Mem.read_range (ApplyReaderOptions ropts) (concat chunks)) /\
    kept_but [place b p] (remote s) (remote s4) /\ serves b s4.
Proof.
  intros Hs Hw Hn Hfuel. destruct (sftp_NewWriter_ok s b p opts Hs Hw) as (s1 & h & Hnw & Hs1 & Hh & Hf1 & Hk1).
  destruct (remote_write_chunks_ok s1 b h (place b p) [] chunks Hs1 Hh Hf1) as (s2 & h2 & Hwc & Hs2 & Hf2 & Hk2). cbn [app] in Hf2.
  destruct (NewReader_ok s2 b p (concat chunks) ropts Hs2 Hf2) as (s3 & h3 & Hnr & Hs3 & Hr3 & Hh3).
  rewrite <- Hr3 in Hf2. edestruct (remote_read_all_ok fuel s3 b h3 (place b p)) as (s4 & Hra & Hs4 & Hr4); [exact Hs3|exact Hh3|exact Hf2|exact Hn| |].
  - rewrite limited_range. eapply Nat.le_lt_trans; [apply read_range_length|done].
  - rewrite limited_range in Hra. eexists s1, h, s2, h2, s3, _, s4. split_and!; [done|done|exact Hnr|exact Hra| |done].
    intros k d Hkd. rewrite Hr4, Hr3, (Hk2 k d Hkd). by apply Hk1.
Qed.

(** [Copy] gives the destination the content of the source and changes no other file;
    copying a file onto itself empties it. *)
Theorem sftp_Copy s b src dst d :
  serves b s -> remote s !! place b src = Some (RFile d) -> writable b dst (remote s) ->
  exists s', Copy None s b src dst = (s', None) /\ serves b s' /\
    remote s' !! place b dst = Some (RFile (if decide (place b src = place b dst) then [] else d)) /\
    kept_but [place b dst] (remote s) (remote s').
Proof. apply sftp_Copy_ok. Qed.

(** Claim C23. [Move] takes the content of the source to the destination, whether there was a file (the
    protocol's rename refuses, and the backend copies and deletes) or not, and changes no
    other file; a file that is moved onto itself is destroyed. *)
Theorem sftp_Move s b src dst d :
  serves b s -> remote s !! place b src = Some (RFile d) -> writable b dst (remote s) ->
  exists s', Move None s b src dst = (s', None) /\ serves b s' /\
    remote s' !! place b src = None /\
    (place b src <> place b dst -> remote s' !! place b dst = Some (RFile d)) /\
    kept_but [place b src; place b dst] (remote s) (remote s').
Proof.
  intros Hs Hf Hw. pose proof Hw as (Hne & Hc & Hnd). destruct (place_snoc b dst Hne) as (ns & x & He & Hn).
  unfold Move. rewrite (serves_checks _ _ Hs), !fullPath_place by apply Hs. rewrite He in *.
  destruct (make_dirs_ok s b ns x Hs Hn Hc) as (s1 & -> & Hs1 & Hd & Hk). destruct (with_dirs_snoc _ _ ns x Hd) as [Hdir Hsame].
  assert (remote s1 !! place b src = Some (RFile d)) as Hf1 by (apply (Hk []); [apply not_elem_of_nil|done]).
  pose proof (Rename_spec s1 b.(sftpClient) (place b src) ns x d (proj2 (proj2 Hs1)) (place_normal b src) Hn Hf1 Hdir) as Hr.
  rewrite Hsame in Hr. destruct (remote s !! (ns ++ [x])) as [n|] eqn:Hdst.
  - destruct Hr as [e ->]. destruct (sftp_Copy_ok s1 b src dst d) as (s2 & -> & Hs2 & Hf2 & Hk2); [done|done| |].
    { apply (writable_kept b dst (remote s)); [apply Hk|done|]. by rewrite He, Hsame. }
    assert (exists d', remote s2 !! place b src = Some (RFile d')) as [d' Hsrc].
    { destruct (decide (place b src = place b dst)) as [Heq|Hneq]; [rewrite Heq; by eexists|]. exists d.
      apply Hk2; [|done]. by intros ?%list_elem_of_singleton. }
    destruct (Delete_file s2 b src d' Hs2 Hsrc) as (s3 & -> & Hs3 & Hr3). exists s3. rewrite <- He in *.
    split_and!; [done|done|by rewrite Hr3, lookup_delete_eq| |].
    + intros Hneq. rewrite Hr3, lookup_delete_ne, Hf2 by done. by rewrite decide_False.
    + rewrite Hr3. apply kept_delete; [|by left]. intros k dk Hkd. rewrite (Hk2 k dk); [by apply (Hk _ _ _ Hkd)|].
      intros ->%list_elem_of_singleton. apply Hkd. right. by left.
  - destruct Hr as (s2 & -> & Hu & Hr). exists s2. assert (place b src <> ns ++ [x]) as Hneq by (intros Heq; rewrite Heq in Hf; congruence).
    split_and!; [done|by eapply serves_up| | |].
    + by rewrite Hr, lookup_insert_ne, lookup_delete_eq by done.
    + intros _. by rewrite Hr, lookup_insert_eq.
    + rewrite Hr. apply kept_insert; [apply kept_delete; [apply Hk|by left]|right; by left].
Qed.

(** [List] ends and names, once each, exactly the files below the prefix when it is a
    directory, and otherwise those whose path goes on from the prefix. *)
Theorem sftp_List s b pre prefix :
  serves b s -> b.(config).(Root) = abs pre -> remote s !! pre = Some RDir ->
  pre `prefix_of` place b prefix -> way_clear (remote s) (place b prefix) ->
  exists paths h, (forall fuel, h <= fuel -> List fuel None s b prefix = Some (s, Ok paths)) /\ NoDup paths /\
    forall q, q ∈ paths <-> exists ns, q = join_slash ns /\ listed (remote s) (place b prefix) (pre ++ ns).
Proof.
  intros Hs Hroot Hpre Hp Hc. pose proof (proj2 (proj2 Hs)) as Hu.
  destruct (List_walks s b pre prefix Hs Hpre Hroot Hp Hc) as (dir & np & found & h & (Hnd & Hin & _) & Hl & Hiff & Hdir).
  assert (forall k, k ∈ found -> exists ns, k = pre ++ ns /\ Forall normal_part ns) as Hbelow.
  { intros k (x & rest & d & -> & _ & Hk)%Hin. destruct Hdir as [r' ->]. exists (r' ++ x :: rest). rewrite app_assoc. split; [done|].
    apply (remote_normal s _ _ _ Hu) in Hk. rewrite <- app_assoc in Hk. by apply Forall_app in Hk as [_ ?]. }
  exists (map (rel pre) found), h. split; [done|]. split.
  - apply NoDup_fmap_2_strong; [|done]. intros k1 k2 (n1 & -> & H1)%Hbelow (n2 & -> & H2)%Hbelow. unfold rel.
    rewrite !drop_app_length. intros Hj. f_equal. by apply join_names_inj.
  - intros q. rewrite list_elem_of_fmap. split.
    + intros (k & -> & Hk). destruct (Hbelow k Hk) as (ns & -> & _). exists ns. unfold rel. rewrite drop_app_length.
      split; [done|]. by apply Hiff, Hin.
    + intros (ns & -> & Hns%Hiff%Hin). exists (pre ++ ns). split; [|done]. unfold rel. by rewrite drop_app_length.
Qed.
(** What is not there is not there for every operation: [Exists] is false, [Stat] and [NewReader]
    give [ErrNotFound], [Delete] does nothing and succeeds. *)
Theorem sftp_absent s b p opts :
  serves b s -> remote s !! place b p = None -> way_clear (remote s) (place b p) ->
  (exists s', Exists None s b p = (s', Ok false)) /\ (exists s', Stat None s b p = (s', Err (err_object ObjErrNotFound))) /\
  NewReader None s b p opts = (s, Err (err_object ObjErrNotFound)) /\ Delete None s b p = (s, None).
Proof.
  intros Hs Hm Hc. pose proof (proj2 (proj2 Hs)) as Hu. pose proof (place_normal b p) as Hn.
  destruct (Stat_spec s b.(sftpClient) (place b p) Hu Hn) as (r & Hst & Hr).
  pose proof (Open_spec s b.(sftpClient) (place b p) Hu Hn) as Ho. pose proof (Remove_spec s b.(sftpClient) (place b p) Hu Hn) as Hd.
  rewrite Hm in Hr, Ho, Hd. destruct Hr as (e1 & -> & H1), Ho as (e2 & Ho & H2), Hd as (e3 & Hd & H3).
  unfold Exists, Stat, NewReader, Delete, translateError. rewrite (serves_checks _ _ Hs), fullPath_place, Hst, Ho, Hd, H1, H2, H3 by (done || apply Hs).
  split_and!; eauto.
Qed.

(** [Rmdir] removes an empty directory and refuses any other, leaving it as it was. *)
Theorem sftp_Rmdir s b p :
  serves b s -> remote s !! place b p = Some RDir ->
  ((forall x, remote s !! (place b p ++ [x]) = None) ->
   exists s', Rmdir None s b p = (s', None) /\ serves b s' /\ remote s' = delete (place b p) (remote s)) /\
  (forall x n, remote s !! (place b p ++ [x]) = Some n ->
   Rmdir None s b p = (s, Some (Errorf ("sftp: directory not empty: " +:+ p)))).
Proof.
  intros Hs Hd. pose proof (proj2 (proj2 Hs)) as Hu. pose proof (place_normal b p) as Hn.
  pose proof (ReadDir_spec s b.(sftpClient) (place b p) Hu Hn) as Hr. rewrite Hd in Hr. destruct Hr as (entries & Hread & _ & Hent & Hall).
  unfold Rmdir. rewrite (serves_checks _ _ Hs), fullPath_place, Hread by apply Hs. split.
  - intros Hempty. destruct entries as [|e entries]; [|destruct (Hent e) as (n & Hx & _); [by left|by rewrite Hempty in Hx]].
    destruct (RemoveDirectory_spec s b.(sftpClient) (place b p) Hu Hn Hd Hempty) as (s' & -> & Hu' & Hr).
    exists s'. split_and!; [done|by eapply serves_up|done].
  - intros x n Hx%Hall. destruct entries; [by apply not_elem_of_nil in Hx|done].
Qed.

(** Paths are not validated: one that climbs with two dots leads out of the root directory,
    and [Delete] removes the file it names there. *)
Theorem sftp_path_escapes s b above d x data :
  b.(closed) = false -> up s b.(sftpClient) -> b.(config).(Root) = abs (above ++ [d]) ->
  Forall normal_part (above ++ [d]) -> normal_part x -> x <> d -> remote s !! (above ++ [x]) = Some (RFile data) ->
  ~ (above ++ [d]) `prefix_of` (above ++ [x]) /\
  exists s', Delete None s b ("../" +:+ x) = (s', None) /\ remote s' = delete (above ++ [x]) (remote s).
Proof.
  intros Hcl Hu Hroot Hn Hx Hne Hf. split; [intros [k Hk]; rewrite <- app_assoc in Hk; apply app_inv_head in Hk; by simplify_eq/=|].
  assert (serves b s) as Hs by (split_and!; [done|rewrite Hroot; unfold abs; rewrite render_rooted by (by apply normal_clean); done|done]).
  assert (place b ("../" +:+ x) = above ++ [x]) as Hp.
  { unfold place. rewrite Hroot. unfold abs. rewrite split_render by (by apply normal_clean || by destruct above).
    change ("../" +:+ x) with (".." +:+ String slash x). rewrite split_slash_slash, (split_slash_plain x) by apply Hx.
    change (split_slash "..") with [".."]. unfold clean_parts. rewrite !fold_left_app.
    pose proof (clean_parts_normal true _ Hn) as Hc. unfold clean_parts in Hc. apply (f_equal (@rev _)) in Hc. rewrite rev_involutive in Hc.
    change (fold_left (clean_step true) ("" :: above ++ [d]) []) with (fold_left (clean_step true) (above ++ [d]) []).
    rewrite Hc, rev_app_distr. apply Forall_app in Hn as [_ [(_ & _ & Hd & _) _]%Forall_cons]. destruct Hx as (? & ? & ? & _).
    assert (clean_step true (rev [d] ++ rev above) ".." = rev above) as Hup by (unfold clean_step; rewrite decide_False by naive_solver; rewrite decide_True by done; cbn; by rewrite decide_False).
    assert (clean_step true (rev above) x = x :: rev above) as Hdown by (unfold clean_step; by rewrite !decide_False by naive_solver).
    change (rev (clean_step true (clean_step true (rev [d] ++ rev above) "..") x) = above ++ [x]). rewrite Hup, Hdown. cbn. by rewrite rev_involutive. }
  rewrite <- Hp in Hf. destruct (Delete_file s b ("../" +:+ x) data Hs Hf) as (s' & Hd & _ & Hr). exists s'. by rewrite <- Hp.
Qed.

End properties.

(** ** A server that keeps its files in a map, and the witnesses *)

Module Demo.

Definition place_of (p : string) : list string := clean_parts true (split_slash p).

Definition blocked (m : rtree) (q : list string) : bool :=
  existsb (fun i => match m !! take i q with Some (RFile _) => true | _ => false end) (seq 0 (length q)).

Definition failure (c : cause) : RemoteError := mkRemoteError (Opaque "failure") c None false.
Definition missing (m : rtree) (q : list string) : RemoteError := failure (if blocked m q then CauseOther else CauseNotExist).

Definition info (x : string) (n : rnode) : RemoteInfo :=
  mkRemoteInfo x (match n with RFile d => Z.of_nat (length d) | RDir => 0 end) 0 (is_dir n).

Definition add_dirs (q : list string) (m : rtree) : rtree := fold_right (fun i => insert (take i q) RDir) m (seq 0 (S (length q))).

(** The names in a directory. *)
Definition child (q : list string) (kn : list string * rnode) : option string :=
  match rev kn.1 with x :: above => if decide (rev above = q) then Some x else None | [] => None end.
Definition children (m : rtree) (q : list string) : list string := base.elements (list_to_set (omap (child q) (map_to_list m)) : gset string).

Definition content (m : rtree) (q : list string) : bytes := match m !! q with Some (RFile d) => d | _ => [] end.

#[export] Instance demo_client : SftpClient := {
  Srv := rtree; Signer := unit; KeyCallback := unit; SshConn := unit; Client := unit; SFile := list string * nat;
  os_ReadFile _ := Err (Opaque "no file"); os_UserHomeDir := Ok "/home/u";
  ParsePrivateKey _ := Ok tt; ParsePrivateKeyWithPassphrase _ _ := Ok tt; knownhosts_New _ := Ok tt;
  ssh_Dial m _ _ _ := (m, Ok tt); sftp_NewClient m _ := (m, Ok tt); ssh_Close m _ := (m, None); client_Close m _ := (m, None);
  c_Stat m _ p := (m, match m !! place_of p with Some n => Ok (info (Base p) n) | None => Err (missing m (place_of p)) end);
  c_MkdirAll m _ p := (add_dirs (place_of p) m, None);
  c_Create m _ p := (<[place_of p := RFile []]> m, Ok (place_of p, 0));
  c_Open m _ p := (m, match m !! place_of p with
    | Some (RFile _) => Ok (place_of p, 0) | Some RDir => Err (failure CauseOther) | None => Err (missing m (place_of p)) end);
  c_Remove m _ p :=
    match m !! place_of p with
    | None => (m, Some (missing m (place_of p)))
    | Some (RFile _) => (delete (place_of p) m, None)
    | Some RDir => if decide (children m (place_of p) = []) then (delete (place_of p) m, None) else (m, Some (failure CauseOther))
    end;
  c_ReadDir m _ p :=
    (m, match m !! place_of p with
        | Some RDir => Ok (map (fun x => info x (default RDir (m !! (place_of p ++ [x])))) (children m (place_of p)))
        | Some (RFile _) => Err (failure CauseOther)
        | None => Err (missing m (place_of p))
        end);
  c_RemoveDirectory m _ p := (delete (place_of p) m, None);
  c_Rename m _ p q :=
    match m !! place_of q with
    | Some _ => (m, Some (failure CauseOther))
    | None => (<[place_of q := RFile (content m (place_of p))]> (delete (place_of p) m), None)
    end;
  f_Seek m h n := (m, Ok (h.1, Z.to_nat n));
  f_Read m h n :=
    match drop h.2 (content m h.1) with
    | [] => (m, h, [], Some (err_io EOF))
    | rest => (m, (h.1, h.2 + length (take n rest)), take n rest, if decide (drop n rest = []) then Some (err_io EOF) else None)
    end;
  f_Write m h p :=
    (<[h.1 := RFile (take h.2 (content m h.1) ++ p)]> m, (h.1, length (take h.2 (content m h.1) ++ p)), length p, None);
  f_WriteTo m h h' := (<[h'.1 := RFile (content m h'.1 ++ drop h.2 (content m h.1))]> m, h, h', None);
  f_Close m _ := (m, None);
  quote s := s
}.

(** Files are in directories and have names. *)
Definition wf (m : rtree) : Prop := forall ns x n, m !! (ns ++ [x]) = Some n -> m !! ns = Some RDir /\ normal_part x.

Lemma place_of_abs ns : Forall normal_part ns -> place_of (abs ns) = ns.
Proof.
  intros Hn. unfold place_of, abs. destruct (decide (ns = [])) as [->|Hne]; [done|].
  rewrite split_render by (done || by apply normal_clean). change (clean_parts true ns = ns). by apply clean_parts_normal.
Qed.

Lemma missing_direct m q : way_clear m q -> (missing m q).(direct) = CauseNotExist.
Proof.
  intros Hc. unfold missing. cbn. destruct (blocked m q) eqn:Hb; [|done]. unfold blocked in Hb. apply existsb_exists in Hb as (i & Hi & Hf).
  apply in_seq in Hi. destruct (m !! take i q) as [[|d]|] eqn:Hd; [done| |done]. exfalso. apply (Hc (take i q) d); [| |done].
  - exists (drop i q). by rewrite take_drop.
  - intros He. apply (f_equal length) in He. rewrite length_take in He. lia.
Qed.

Lemma elem_of_entries_in m q x : x ∈ children m q <-> is_Some (m !! (q ++ [x])).
Proof.
  unfold children. rewrite elem_of_elements, elem_of_list_to_set, list_elem_of_omap. split.
  - intros ([k n] & Hk%elem_of_map_to_list & Hc). unfold child in Hc. cbn [fst] in Hc. destruct (rev k) as [|y above] eqn:Hr; [done|].
    apply (f_equal (@rev _)) in Hr. rewrite rev_involutive in Hr. cbn in Hr. case_decide; simplify_eq. by eexists.
  - intros [n Hn]. exists (q ++ [x], n). split; [by apply elem_of_map_to_list|]. unfold child. cbn [fst].
    rewrite rev_app_distr. cbn. by rewrite rev_involutive, decide_True.
Qed.

Lemma lookup_add_dirs q m k : add_dirs q m !! k = if decide (k `prefix_of` q) then Some RDir else m !! k.
Proof.
  unfold add_dirs.
  assert (forall l, fold_right (fun i => insert (take i q) RDir) m l !! k = if decide (k ∈ map (fun i => take i q) l) then Some RDir else m !! k) as H.
  { induction l as [|i l IH]; [done|]. cbn [fold_right map]. destruct (decide (take i q = k)) as [<-|Hne].
    - rewrite lookup_insert_eq, decide_True; [done|by left].
    - rewrite lookup_insert_ne, IH by done. apply decide_ext. rewrite elem_of_cons. naive_solver. }
  rewrite H. apply decide_ext. rewrite list_elem_of_fmap. split.
  - intros (i & -> & _). exists (drop i q). by rewrite take_drop.
  - intros Hp. exists (length k). split; [destruct Hp as [r ->]; by rewrite take_app_length|]. apply elem_of_seq. apply prefix_length in Hp. lia.
Qed.

Lemma wf_dirs q m : Forall normal_part q -> wf m -> wf (add_dirs q m).
Proof.
  intros Hq Hwf ns x n. rewrite !lookup_add_dirs. case_decide as Hp.
  - intros _. destruct Hp as [r Hr]. rewrite <- app_assoc in Hr. rewrite decide_True by (rewrite Hr; by exists ([x] ++ r)).
    split; [done|]. rewrite Hr in Hq. apply Forall_app in Hq as [_ [? _]%Forall_cons]. done.
  - intros [-> Hx]%Hwf. split; [by case_decide|done].
Qed.

Lemma wf_put ns x d m : m !! ns = Some RDir -> normal_part x -> m !! (ns ++ [x]) <> Some RDir -> wf m -> wf (<[ns ++ [x] := RFile d]> m).
Proof.
  intros Hd Hx Hnd Hwf k y n Hk. assert (m !! k = Some RDir /\ normal_part y) as [Hkd Hy].
  { apply lookup_insert_Some in Hk as [[[-> [= ->]]%app_inj_tail _]|[_ Hk]]; [done|by apply Hwf in Hk]. }
  split; [|done]. rewrite lookup_insert_ne; [done|]. by intros <-.
Qed.

Lemma sftp_wf_rewrite ns d d' m : m !! ns = Some (RFile d) -> wf m -> wf (<[ns := RFile d']> m).
Proof.
  intros Hf Hwf k y n Hk. assert (m !! k = Some RDir /\ normal_part y) as [Hkd Hy].
  { destruct (decide (ns = k ++ [y])) as [->|Hne]; [by apply Hwf in Hf|]. rewrite lookup_insert_ne in Hk by done. by apply Hwf in Hk. }
  split; [|done]. rewrite lookup_insert_ne; [done|]. intros <-. congruence.
Qed.

Lemma wf_remove ns m : (forall x, m !! (ns ++ [x]) = None) -> wf m -> wf (delete ns m).
Proof.
  intros He Hwf k y n [Hne Hk]%lookup_delete_Some. pose proof (Hwf _ _ _ Hk) as [Hd Hy]. split; [|done].
  rewrite lookup_delete_ne; [done|]. intros ->. by rewrite He in Hk.
Qed.

Lemma file_childless ns d m x : wf m -> m !! ns = Some (RFile d) -> m !! (ns ++ [x]) = None.
Proof. intros Hwf Hf. destruct (m !! (ns ++ [x])) eqn:Hx; [|done]. apply Hwf in Hx as [? _]. congruence. Qed.

Lemma children_nil m q x n : m !! (q ++ [x]) = Some n -> children m q <> [].
Proof. intros Hx He. assert (x ∈ children m q) as Hin by by apply elem_of_entries_in. rewrite He in Hin. by apply not_elem_of_nil in Hin. Qed.

#[local] Arguments place_of : simpl never.
#[local] Arguments abs : simpl never.
#[local] Arguments add_dirs : simpl never.
#[local] Arguments missing : simpl never.

#[export] Instance demo_spec : SftpSpec.
Proof.
  refine {| remote := (fun m => m) : @Srv demo_client -> rtree; up := (fun m _ => wf m) : @Srv demo_client -> @Client demo_client -> Prop;
    handle := (fun h => h) : @SFile demo_client -> list string * nat |}; cbn.
  - intros m _ ns x n Hwf. apply Hwf.
  - intros m _ ns Hwf Hn. rewrite place_of_abs by done. eexists. split; [done|]. destruct (m !! ns); [by eexists|].
    eexists. split; [done|]. apply missing_direct.
  - intros m _ ns Hwf Hn Hc Hf. rewrite place_of_abs by done. eexists. split; [done|]. split; [by apply wf_dirs|].
    intros k. apply lookup_add_dirs.
  - intros m _ ns x Hwf Hn Hd Hnd. rewrite place_of_abs by done. eexists _, _. split_and!; [done| |done|done].
    apply wf_put; [done|by apply Forall_app in Hn as [_ [? _]%Forall_cons]|done|done].
  - intros m _ ns Hwf Hn. rewrite place_of_abs by done. destruct (m !! ns) as [[|d]|]; [done|by eexists _, _|].
    eexists. split; [done|]. apply missing_direct.
  - intros m _ ns Hwf Hn. rewrite place_of_abs by done. destruct (m !! ns) as [[|d]|] eqn:Hm.
    + intros (x & n & Hx). rewrite decide_False by by eapply children_nil. by eexists.
    + eexists. split_and!; [done| |done]. apply wf_remove; [|done]. intros x. by eapply file_childless.
    + eexists. split; [done|]. apply missing_direct.
  - intros m _ ns Hwf Hn. rewrite place_of_abs by done. destruct (m !! ns) as [[|d]|] eqn:Hm; [|done|].
    + eexists. split; [done|]. rewrite map_map, map_id. split_and!; [apply NoDup_elements| |].
      * intros e (x & -> & [n Hx]%elem_of_entries_in)%list_elem_of_fmap. exists n. cbn. by rewrite Hx.
      * intros x n Hx. by apply elem_of_entries_in.
    + eexists. split; [done|]. apply missing_direct.
  - intros m _ ns Hwf Hn Hd He. rewrite place_of_abs by done. eexists. split_and!; [done| |done]. by apply wf_remove.
  - intros m _ ns ns' x d Hwf Hn Hn' Hf Hd. rewrite !place_of_abs by done. destruct (m !! (ns' ++ [x])) as [n|] eqn:Hx; [by eexists|].
    eexists. unfold content. rewrite Hf. split_and!; [done| |done]. apply wf_put.
    + rewrite lookup_delete_ne; [done|]. intros ->. congruence.
    + by apply Forall_app in Hn' as [_ [? _]%Forall_cons].
    + rewrite lookup_delete_ne, Hx by (intros ->; congruence). done.
    + apply wf_remove; [|done]. intros y. by eapply file_childless.
  - intros m _ h n Hwf Hn. by eexists _, _.
  - intros m _ h ns off d n Hwf -> Hf Hn. unfold content. cbn. rewrite Hf. destruct (drop off d) as [|y rest] eqn:Hd; [by eexists _, _|].
    eexists _, _, n, _. split_and!; [done|lia|done| |done|done|done].
    destruct (decide (drop n (y :: rest) = [])) as [He|]; [right; split; [done|exact He]|by left].
  - intros m _ h ns d p Hwf -> Hf. unfold content. cbn. rewrite Hf, firstn_all. eexists _, _. split_and!; [done| |done|done].
    by eapply sftp_wf_rewrite.
  - intros m _ h h' ns ns' off d d' Hwf -> -> Hf Hf' _. unfold content. cbn. rewrite Hf, Hf'. eexists _, _, _. split_and!; [done| |done|done|done].
    by eapply sftp_wf_rewrite.
  - intros m _ h Hwf. by eexists.
Defined.

(** /srv/secret beside the root /srv/data, which holds a.txt, a.md and sub/b *)
Definition demo_tree : rtree := list_to_map
  [([], RDir); (["srv"], RDir); (["srv"; "secret"], RFile [x73]); (["srv"; "data"], RDir); (["srv"; "data"; "a.txt"], RFile [x61; x62; x63]);
   (["srv"; "data"; "a.md"], RFile [x64]); (["srv"; "data"; "sub"], RDir); (["srv"; "data"; "sub"; "b"], RFile [x65])].

Definition backend : Backend := mkBackend tt tt (set_Root "/srv/data" DefaultConfig) false.

Definition wf_test (m : rtree) : bool :=
  forallb (fun kn => match rev kn.1 with
    | x :: above => bool_decide (normal_part x) && match m !! rev above with Some RDir => true | _ => false end
    | [] => true end) (map_to_list m).

Lemma sftp_wf_test_ok m : wf_test m = true -> wf m.
Proof.
  unfold wf_test. rewrite forallb_forall. intros Ht ns x n Hx. specialize (Ht (ns ++ [x], n)).
  rewrite <- list_elem_of_In, elem_of_map_to_list in Ht. specialize (Ht Hx). cbn [fst] in Ht. rewrite rev_app_distr in Ht. cbn in Ht.
  rewrite rev_involutive in Ht. apply andb_true_iff in Ht as [Hn%bool_decide_eq_true Hd]. split; [|done]. by destruct (m !! ns) as [[]|].
Qed.

Definition server : @Srv demo_client := demo_tree.

Lemma sftp_demo_serves : serves backend server.
Proof. split_and!; [done|done|]. apply sftp_wf_test_ok. by vm_compute. Qed.

Lemma clear_test m q : blocked m q = false -> way_clear m q.
Proof.
  intros Hb k d [r ->] Hne Hk. assert (blocked m (k ++ r) = true) as Ht; [|congruence]. unfold blocked. apply existsb_exists.
  exists (length k). rewrite take_app_length, Hk. split; [|done]. apply in_seq. rewrite length_app. destruct r; [by rewrite app_nil_r in Hne|]. cbn. lia.
Qed.

Lemma sftp_demo_writable p : place backend p <> [] -> blocked demo_tree (place backend p) = false ->
  match demo_tree !! place backend p with Some RDir => false | _ => true end = true -> writable backend p demo_tree.
Proof. intros Hne Hb Hd. split_and!; [done|by apply clear_test|]. by destruct (demo_tree !! place backend p) as [[]|]. Qed.

Lemma sftp_write_read_witness :
  exists s1 h s2 h2 s3 r s4, NewWriter None server backend "x/y" [] = (s1, Ok h) /\
    write_chunks s1 h [[x01; x02]; [x03]] = Some (s2, h2) /\ NewReader None s2 backend "x/y" [WithOffset 1] = (s3, Ok r) /\
    read_all 10 s3 r 1 = Some (s4, [x02; x03]) /\ kept_but [["srv"; "data"; "x"; "y"]] demo_tree (remote s4).
Proof.
  destruct (sftp_write_read server backend "x/y" [] [[x01; x02]; [x03]] [WithOffset 1] 1 10)
    as (s1 & h & s2 & h2 & s3 & r & s4 & H1 & H2 & H3 & H4 & H5 & _); [exact sftp_demo_serves|apply sftp_demo_writable; by vm_compute|lia|cbn; lia|].
  by exists s1, h, s2, h2, s3, r, s4.
Defined.

Lemma sftp_Copy_witness :
  exists s', Copy None server backend "a.txt" "c/d" = (s', None) /\ remote s' !! ["srv"; "data"; "c"; "d"] = Some (RFile [x61; x62; x63]).
Proof.
  destruct (sftp_Copy server backend "a.txt" "c/d" [x61; x62; x63]) as (s' & Hc & _ & Hf & _);
    [exact sftp_demo_serves|by vm_compute|apply sftp_demo_writable; by vm_compute|]. by exists s'.
Defined.

(** Over a file, and onto itself. *)
Lemma sftp_Move_witness :
  (exists s', Move None server backend "a.txt" "sub/b" = (s', None) /\
     remote s' !! ["srv"; "data"; "sub"; "b"] = Some (RFile [x61; x62; x63]) /\ remote s' !! ["srv"; "data"; "a.txt"] = None) /\
  (exists s', Move None server backend "a.txt" "sub/../a.txt" = (s', None) /\ remote s' !! ["srv"; "data"; "a.txt"] = None).
Proof.
  split.
  - destruct (sftp_Move server backend "a.txt" "sub/b" [x61; x62; x63]) as (s' & Hm & _ & Hg & Hf & _);
      [exact sftp_demo_serves|by vm_compute|apply sftp_demo_writable; by vm_compute|]. exists s'. split_and!; [done|by apply Hf|done].
  - destruct (sftp_Move server backend "a.txt" "sub/../a.txt" [x61; x62; x63]) as (s' & Hm & _ & Hg & _);
      [exact sftp_demo_serves|by vm_compute|apply sftp_demo_writable; by vm_compute|]. by exists s'.
Defined.

(** The prefix is no directory: files that begin with it are listed. *)
Lemma sftp_List_witness :
  exists paths h, (forall fuel, h <= fuel -> List fuel None server backend "a" = Some (server, Ok paths)) /\ NoDup paths /\ "a.md" ∈ paths.
Proof.
  destruct (sftp_List server backend ["srv"; "data"] "a") as (paths & h & Hl & Hnd & Hin);
    [exact sftp_demo_serves|done|by vm_compute|by exists ["a"]|by apply clear_test|].
  exists paths, h. split_and!; [done|done|]. apply Hin. exists ["a.md"]. split; [done|].
  change (exists dir base, ["srv"; "data"; "a"] = dir ++ [base] /\ under demo_tree dir base ["srv"; "data"; "a.md"]).
  exists ["srv"; "data"], "a". split; [done|]. by exists "a.md", [], [x64].
Defined.

Lemma sftp_absent_witness :
  NewReader None server backend "none" [] = (server, Err (err_object ObjErrNotFound)) /\ Delete None server backend "none" = (server, None).
Proof.
  destruct (sftp_absent server backend "none" []) as (_ & _ & Hr & Hd); [exact sftp_demo_serves|by vm_compute|by apply clear_test|]. by split.
Defined.

Lemma sftp_Rmdir_witness : Rmdir None server backend "sub" = (server, Some (Errorf "sftp: directory not empty: sub")).
Proof.
  destruct (sftp_Rmdir server backend "sub") as [_ Hr]; [exact sftp_demo_serves|by vm_compute|]. apply (Hr "b" (RFile [x65])). by vm_compute.
Defined.

Lemma sftp_path_escapes_witness :
  exists s', Delete None server backend "../secret" = (s', None) /\ remote s' !! ["srv"; "secret"] = None.
Proof.
  destruct (sftp_path_escapes server backend ["srv"] "data" "secret" [x73]) as (_ & s' & Hd & Hr);
    [done|apply sftp_demo_serves|done|refine (bool_decide_eq_true_1 _ _); by vm_compute|refine (bool_decide_eq_true_1 _ _); by vm_compute|done|by vm_compute|].
  exists s'. split; [done|]. change (remote s' = delete ["srv"; "secret"] demo_tree) in Hr. rewrite Hr. apply lookup_delete_eq.
Defined.

End Demo.
