(* ===== verification/FilePlaces.v ===== *)
(** * The file backend keeps [PlaceSpec]

    The backends of a program over one file system, each with its own root, when no system call
    fails: their places are those of the file system, so two backends whose roots overlap share
    them. *)

From S2P Require Import Prelude GoLib Errors GoPath GoFilepath ObjectTypes ObjectBackend PosixFs Places File.

Import FileB.

Section file.
Context `{H : Host}.
(** The instant of the run, and the backends. *)
Variable now : time.
Variable backends : nat -> Backend.

Definition file_streams : Streams fs nat := {|
  Rd := Reader;
  Wr := OsFile;
  ObjectBackend.NewWriter ctx f b p opts := NewWriter ctx now f (backends b) p opts;
  ObjectBackend.NewReader ctx f b p opts := (f, NewReader ctx f (backends b) p opts);
  ObjectBackend.Exists ctx f b p := (f, Exists ctx f (backends b) p);
  ObjectBackend.Delete ctx f b p := Delete ctx f (backends b) p;
  ObjectBackend.Read f r n := let '(r, d, e) := Read f r n in (f, r, d, e);
  CloseReader f r := (f, (Reader_Close r).2);
  Write f v p := File_Write now f v p;
  CloseWriter _ f v := (f, (File_Close v).2)
|}.

(** A reader without a limit, a writer, each at its place. *)
Definition file_reading (f : fs) (r : Reader) (k : list string) (d : bytes) : Prop :=
  exists h i, r = mkReader h None /\ reads_at f h i d /\ f.(tree) !! k = Some (FileNode i).
Definition file_writing (f : fs) (v : OsFile) (k : list string) (d : bytes) : Prop :=
  wf_host f /\ exists i, writes_at f v i d /\ f.(tree) !! k = Some (FileNode i).

Definition file_places : Places fs nat (ST:=file_streams) := {|
  Places.place := list string;
  alive _ := True;
  locates f b p k := serves (backends b) f /\ relative p /\ k = place (backends b) p;
  accepts f b p k := serves (backends b) f /\ (backends b).(config).(CreateDirs) = true /\ writable (backends b) p f /\
    k = place (backends b) p;
  holds f k d := file_at f k d;
  reading := file_reading : fs -> @Rd fs nat file_streams -> _;
  writing := file_writing : fs -> @Wr fs nat file_streams -> _
|}.

#[local] Existing Instance file_streams.
#[local] Existing Instance file_places.

(** ** Steps of the file system *)

(** Directories stay, and so do the files but those of some places. *)
Record fstep (qs : list (list string)) (f f' : fs) : Prop := mkFstep {
  step_wf : wf_host f';
  step_dirs l : f.(tree) !! l = Some DirNode -> f'.(tree) !! l = Some DirNode;
  step_files k i : k ∉ qs -> f'.(tree) !! k = Some (FileNode i) <-> f.(tree) !! k = Some (FileNode i);
  step_data k i : k ∉ qs -> f.(tree) !! k = Some (FileNode i) -> f'.(inodes) !! i = f.(inodes) !! i
}.

Lemma fstep_changes qs f f' : fstep qs f f' -> changes qs f f'.
Proof.
  intros [Hwf Hd Hf Hi]. split; cbn.
  - done.
  - intros b p k ((Hc & Hr & Hb) & Hp & Hk). split; [|done]. split; [done|split; [done|]]. eapply based_keep; [exact Hb|done|done].
  - intros k d Hk. unfold file_at, has_data. split; intros (i & Ht & Hdata); exists i.
    + apply (Hf k i Hk) in Ht. split; [done|]. by rewrite (Hi k i Hk Ht) in Hdata.
    + split; [by apply Hf|]. by rewrite (Hi k i Hk Ht).
  - intros r k d Hk (h & i & -> & (H1 & H2 & all & H3 & H4) & Ht). exists h, i. split_and!; [done| |by apply Hf].
    split_and!; [done|done|]. exists all. split; [|done]. unfold has_data. by rewrite (Hi k i Hk Ht).
  - intros v k d Hk (_ & i & (H1 & H2 & H3 & H4 & H5) & Ht). split; [done|]. exists i. split; [|by apply Hf].
    split_and!; [done..|]. unfold has_data. by rewrite (Hi k i Hk Ht).
Qed.

Lemma grows_fstep f f' : grows f f' -> wf_host f' -> fstep [] f f'.
Proof.
  intros (Hi & _ & Ht) Hwf. split; [done| | |by rewrite Hi].
  - intros l Hl. destruct (Ht l) as [->|[E _]]; [done|congruence].
  - intros k i _. destruct (Ht k) as [->|[-> ->]]; done.
Qed.

Lemma create_fstep f p f' h l :
  wf_host f -> os_Create now f p = Ok (f', h) -> resolve f p = Ok l -> fstep [l] f f'.
Proof.
  intros Hh Hc Hr. destruct (os_Create_ok now f p f' h Hh Hc) as (l' & i & Hr' & -> & Hi & Hh' & Ht & Hor).
  rewrite Hr in Hr'. injection Hr' as <-. split; [done|..].
  - intros k Hk. rewrite Ht, lookup_insert_ne; [done|]. intros <-. destruct Hor as [?|[? _]]; congruence.
  - intros k j Hk. rewrite Ht, lookup_insert_ne; [done|]. intros <-. apply Hk. by left.
  - intros k j Hk Hj. rewrite Hi, lookup_insert_ne; [done|]. intros <-. destruct Hor as [Hl|[_ ->]].
    + apply Hk, list_elem_of_singleton. by eapply wf_unique; [apply Hh|exact Hj|].
    + apply (wf_inode f (proj1 Hh)) in Hj as [_ ?]. lia.
Qed.

Lemma fstep_trans qs f g h : fstep [] f g -> fstep qs g h -> fstep qs f h.
Proof.
  intros [W1 D1 F1 I1] [W2 D2 F2 I2]. split; [done|auto| |].
  - intros k i Hk. rewrite F2 by done. apply F1, not_elem_of_nil.
  - intros k i Hk Hi. rewrite (I2 k i Hk); [apply (I1 k i); [apply not_elem_of_nil|done]|]. apply F1; [apply not_elem_of_nil|done].
Qed.

Lemma same_but_fstep f f' k i :
  wf_host f -> f.(tree) !! k = Some (FileNode i) -> same_but i f f' -> fstep [k] f f'.
Proof.
  intros Hh Hk Hs. pose proof Hs as (Ht & _ & Hi & _). split.
  - split; [eapply same_but_wf; [done|apply Hh]|rewrite Ht; apply Hh].
  - by rewrite Ht.
  - by rewrite Ht.
  - intros l j Hl Hj. apply Hi. intros ->. apply Hl, list_elem_of_singleton. by eapply wf_unique; [apply Hh|exact Hj|].
Qed.

(** ** The laws *)

Context (quiet : forall f c l, fault f c l = None).

Lemma NewWriter_fstep f b p opts f' h :
  serves b f -> writable b p f -> NewWriter None now f b p opts = (f', Ok h) -> fstep [place b p] f f'.
Proof.
  intros Hs (Hp & _) Hw. unfold NewWriter in Hw. erewrite relative_checks in Hw; [|exact Hs|by constructor].
  destruct (create_dirs b f (fullPath b p)) as [f1 err] eqn:Hd.
  apply create_dirs_grows in Hd as [Hg Hh1]; [|apply Hs]. destruct err; [done|].
  destruct (os_Create now f1 (fullPath b p)) as [[f2 h2]|] eqn:Hc; [|done]. injection Hw as <- _.
  assert (serves b f1) as Hs1.
  { destruct Hs as (Hcl & Hr & Hb). split; [done|split; [done|]]. by eapply based_grows. }
  destruct (os_Create_ok now f1 _ _ _ Hh1 Hc) as (l & i & Hr & _).
  pose proof (resolve_place_inv b p f1 l Hs1 Hp Hr) as ->.
  eapply fstep_trans; [by apply grows_fstep|]. by eapply create_fstep.
Qed.

Lemma delete_fstep f b p i :
  serves b f -> relative p -> f.(tree) !! place b p = Some (FileNode i) ->
  exists f', Delete None f b p = (f', None) /\ f'.(tree) !! place b p = None /\ fstep [place b p] f f'.
Proof.
  intros Hs Hp Hi. pose proof (resolve_place b p f _ Hs Hp Hi) as Hr.
  assert (os_Remove f (fullPath b p) = Ok (set_tree (delete (place b p) f.(tree)) f)) as Hrm.
  { unfold os_Remove. rewrite Hr. unfold unlink, sys. by rewrite quiet, Hi. }
  exists (set_tree (delete (place b p) f.(tree)) f). unfold Delete.
  erewrite relative_checks, Hrm; [|exact Hs|by constructor]. split_and!; [done|by cbn; rewrite lookup_delete_eq|].
  assert (wf_host f) as Hh by apply Hs.
  assert (forall l, f.(tree) !! l = Some DirNode -> (delete (place b p) f.(tree)) !! l = Some DirNode) as Hd.
  { intros l Hl. rewrite lookup_delete_ne; [done|]. intros <-. congruence. }
  split; cbn.
  - destruct (os_Remove_ok f _ _ (proj1 Hh) Hrm) as (_ & _ & _ & _ & _ & Hwf). split; [done|]. apply Hd, Hh.
  - exact Hd.
  - intros k j Hk. rewrite lookup_delete_ne; [done|]. intros <-. apply Hk. by left.
  - done.
Qed.

Lemma file_place_spec : PlaceSpec fs nat.
Proof.
  split; cbn.
  - intros f b p q (? & _ & (? & _) & ?). done.
  - intros f q d d' (i & Hi & t & Ht) (i' & Hi' & t' & Ht'). congruence.
  - intros f b p q d (Hs & Hp & ->) (i & Hi & Hd).
    destruct (NewReader_place quiet f (backends b) p i d [] Hs Hp Hi Hd) as (h & Hr & Hra). cbn in Hr, Hra. rewrite Hr.
    eexists f, _. split_and!; [done| |reflexivity|done]. exists h, i. by split_and!.
  - intros f b p q opts (Hs & Hcd & Hw & ->).
    destruct (NewWriter_place quiet now f (backends b) p opts Hs Hcd Hw) as (f' & h & i & Hnw & Hwa & Hl & _).
    pose proof (NewWriter_fstep f (backends b) p opts f' h Hs Hw Hnw) as Hst. exists f', h.
    split_and!; [done|split; [by apply Hst|by exists i]|by apply fstep_changes].
  - intros f r q d n Hn (h & i & -> & Hr & Hi). unfold Read. cbn [r_limit r_file].
    pose proof (File_Read_left quiet f h i d n Hn Hr) as Hread. destruct d as [|x d].
    + rewrite Hread. by eexists _, _.
    + destruct Hread as [-> Hr']. eexists f, _, _, (drop n (x :: d)), None. split; [reflexivity|]. split; [by destruct n; [lia|]|].
      split; [by rewrite take_drop|]. split; [by left|]. split; [|reflexivity]. eexists _, i. by split_and!.
  - intros f v q d p (Hh & i & Hw & Hi). destruct (File_Write_end quiet now f v i d p Hw) as (f' & v' & -> & Hw' & Hs).
    pose proof (same_but_fstep f f' q i Hh Hi Hs) as Hst. exists f', v'. split_and!; [done| |by apply fstep_changes].
    split; [by apply Hst|]. exists i. split; [done|]. destruct Hs as (-> & _). done.
  - intros _ f v q d (Hh & i & Hw & Hi). exists f. unfold File_Close. rewrite (proj1 Hw). split_and!; [done| |reflexivity].
    exists i. split; [done|apply Hw].
  - reflexivity.
  - intros f b p q d (Hs & Hp & ->) (i & Hi & _). destruct (delete_fstep f (backends b) p i Hs Hp Hi) as (f' & Hd & Hn & Hst).
    exists f'. split_and!; [done| |by apply fstep_changes]. intros e (j & Hj & _). congruence.
Qed.

End file.
