(* ===== verification/SftpPlaces.v ===== *)
(** * The sftp backend keeps [PlaceSpec]

    The backends of a program on one connection: their places are the absolute places of the
    server's files. *)

From S2P Require Import Prelude GoLib Errors GoPath ObjectTypes ObjectBackend Places Sftp.

Import SftpB.

Section sftp.
Context `{SP : SftpSpec}.
Variable client : Client.
Variable backends : nat -> Backend.

Definition sftp_streams : Streams Srv nat := {|
  Rd := Reader;
  Wr := SFile;
  ObjectBackend.NewWriter ctx s b p opts := NewWriter ctx s (backends b) p opts;
  ObjectBackend.NewReader ctx s b p opts := NewReader ctx s (backends b) p opts;
  ObjectBackend.Exists ctx s b p := Exists ctx s (backends b) p;
  ObjectBackend.Delete ctx s b p := Delete ctx s (backends b) p;
  ObjectBackend.Read s r n := Read s r n;
  CloseReader s r := Reader_Close s r;
  Write s v p := f_Write s v p;
  CloseWriter _ s v := f_Close s v
|}.

(** A reader without a limit, a writer, each at its place. *)
Definition sftp_reading (s : Srv) (r : Reader) (k : list string) (d : bytes) : Prop :=
  up s client /\ exists h off all, r = mkReader h None /\ handle h = (k, off) /\ remote s !! k = Some (RFile all) /\ drop off all = d.
Definition sftp_writing (s : Srv) (v : SFile) (k : list string) (d : bytes) : Prop :=
  up s client /\ handle v = (k, length d) /\ remote s !! k = Some (RFile d).

Definition sftp_places : Places Srv nat (ST:=sftp_streams) := {|
  Places.place := list string;
  alive s := up s client;
  locates s b p k := serves (backends b) s /\ k = place (backends b) p;
  accepts s b p k := serves (backends b) s /\ writable (backends b) p (remote s) /\ k = place (backends b) p;
  holds s k d := remote s !! k = Some (RFile d);
  reading := sftp_reading : Srv -> @Rd Srv nat sftp_streams -> _;
  writing := sftp_writing : Srv -> @Wr Srv nat sftp_streams -> _
|}.

#[local] Existing Instance sftp_streams.
#[local] Existing Instance sftp_places.

(** All backends are on the connection. *)
Context (Hclient : forall b, (backends b).(sftpClient) = client).

Lemma serves_client b s : serves (backends b) s -> up s client.
Proof. intros (_ & _ & Hu). by rewrite Hclient in Hu. Qed.

Lemma remote_changes qs s s' : up s' client -> kept_but qs (remote s) (remote s') -> changes qs s s'.
Proof.
  intros Hu Hk. split; cbn.
  - done.
  - intros b p k [(Hc & Hr & _) Hp]. split; [|done]. split_and!; [done|done|by rewrite Hclient].
  - intros k d Hin. by apply Hk.
  - intros r k d Hin (_ & h & off & all & Hr & Hh & Hf & Hd). split; [done|]. exists h, off, all. split_and!; [done|done|by apply Hk|done].
  - intros v k d Hin (_ & Hh & Hf). split_and!; [done|done|by apply Hk].
Qed.

Lemma same_changes s s' : up s' client -> remote s' = remote s -> changes [] s s'.
Proof. intros Hu Hr. apply remote_changes; [done|]. by rewrite Hr. Qed.

Lemma sftp_place_spec : PlaceSpec Srv nat.
Proof.
  split; cbn.
  - intros s b p q (? & _ & ?). done.
  - intros s q d d' H1 H2. congruence.
  - intros s b p q d (Hs & ->) Hd. destruct (NewReader_ok s (backends b) p d [] Hs Hd) as (s' & h & Hr & Hs' & Hre & Hh).
    cbn in Hr, Hh. rewrite Hr. pose proof (serves_client _ _ Hs') as Hu. eexists s', _. split; [reflexivity|]. split.
    + split; [done|]. exists h, 0, d. by rewrite Hre.
    + split; [by apply same_changes|]. intros b' p' k ((Hc & Hro & _) & Hw & Hk). rewrite Hre. split; [|done].
      split_and!; [done|done|by rewrite Hclient].
  - intros s b p q opts (Hs & Hw & ->). destruct (sftp_NewWriter_ok s (backends b) p opts Hs Hw) as (s' & h & Hn & Hs' & Hh & Hf & Hk).
    pose proof (serves_client _ _ Hs') as Hu. exists s', h. split_and!; [done|done|by apply remote_changes].
  - intros s r q d n Hn (Hu & h & off & all & -> & Hh & Hf & Hd). unfold Read. cbn [remaining r_file].
    pose proof (Read_spec s client h q off all n Hu Hh Hf Hn) as Hread. rewrite Hd in Hread. destruct d as [|x d].
    + destruct Hread as (s' & h' & -> & Hu' & Hr). eexists s', _. split; [reflexivity|by apply same_changes].
    + destruct Hread as (s' & h' & k & err & -> & Hk & Herr & Hu' & Hr & Hh'). eexists s', _, _, (drop k (x :: d)), err.
      split; [reflexivity|]. split; [by destruct k; [lia|]|]. split; [by rewrite take_drop|]. split; [done|]. split; [|by apply same_changes].
      split; [done|]. eexists h', _, all. split_and!; [done|exact Hh'|by rewrite Hr|]. rewrite <-Hd. apply drop_taken.
  - intros s v q d p (Hu & Hh & Hf). destruct (Write_spec s client v q d p Hu Hh Hf) as (s' & v' & -> & Hu' & Hr & Hh').
    exists s', v'. split; [done|]. split; [split_and!; [done|done|by rewrite Hr, lookup_insert_eq]|].
    apply remote_changes; [done|]. rewrite Hr. apply kept_insert; [done|by left].
  - intros _ s v q d (Hu & Hh & Hf). destruct (FClose_spec s client v Hu) as (s' & -> & Hu' & Hr). exists s'.
    split_and!; [done|by rewrite Hr|]. apply remote_changes; [done|by rewrite Hr].
  - intros s r Hu. unfold Reader_Close. destruct (FClose_spec s client r.(r_file) Hu) as (s' & -> & Hu' & Hr). by apply same_changes.
  - intros s b p q d (Hs & ->) Hd. destruct (Delete_file s (backends b) p d Hs Hd) as (s' & Hdel & Hs' & Hr).
    exists s'. split_and!; [done| |].
    + intros e. by rewrite Hr, lookup_delete_eq.
    + apply remote_changes; [by eapply serves_client|]. rewrite Hr. apply kept_delete; [done|by left].
Qed.

End sftp.
