(* ===== verification/Transfer.v ===== *)
(** * Copies and moves between the backends of the module

    A program with any number of memory, file and sftp backends: its world holds the stores, the
    file system and the server, and the copy helpers of object/copy.go and object/move.go take
    backends of any kind on either side. *)

From S2P Require Import Prelude GoLib Errors ObjectTypes ObjectBackend Places ObjectMemory PosixFs File Sftp FilePlaces SftpPlaces.

Section transfer.
Context `{H : Host} `{SP : SftpSpec} `{O : MapOrder} `{Dg : Digests}.
(** The instant of the run, the file backends, and the connection with the backends on it. *)
Variable now : time.
Variable fbackends : nat -> FileB.Backend.
Variable client : Client.
Variable sbackends : nat -> SftpB.Backend.

Definition all_world : Type := Mem.world * (fs * Srv).
Definition any_backend : Type := nat + (nat + nat).

Abbreviation in_memory b := (inl b : any_backend).
Abbreviation on_disk b := (inr (inl b) : any_backend).
Abbreviation on_server b := (inr (inr b) : any_backend).

Definition remote_streams : Streams (fs * Srv) (nat + nat) :=
  both (S1:=file_streams now fbackends) (S2:=sftp_streams sbackends).
Definition all_streams : Streams all_world any_backend :=
  both (S1:=@ob_streams _ _ Mem.memory_backend) (S2:=remote_streams).

Definition remote_places : Places (fs * Srv) (nat + nat) (ST:=remote_streams) :=
  both_places (P1:=file_places now fbackends) (P2:=sftp_places client sbackends).
Definition all_places : Places all_world any_backend (ST:=all_streams) :=
  both_places (P1:=published) (P2:=remote_places).

#[local] Existing Instance all_streams.
#[local] Existing Instance all_places.

Lemma all_spec :
  (forall f c l, fault f c l = None) -> (forall b, (sbackends b).(SftpB.sftpClient) = client) -> PlaceSpec all_world any_backend.
Proof.
  intros quiet Hclient. apply both_spec; [apply published_spec|].
  apply both_spec; [by apply file_place_spec|by apply sftp_place_spec].
Qed.

(** Claim C6. Copies and moves between any two backends of the module, of one kind or of two, when
    no system call fails, every sftp backend uses the one client of the run, and [transfers] holds:
    that client is connected, the source has the content, the destination may be written, and the
    two places differ (a place copied onto itself is emptied: [self_copy_empties]).  They end;
    the destination then holds exactly the source's content, the hash returned is its digest,
    and no other object of any backend has changed; after a copy the source is as it was, after
    a move it is gone. *)
Theorem any_to_any fuel cnow w sb sp db dp opts p q d h ht :
  (forall f c l, fault f c l = None) -> (forall b, (sbackends b).(SftpB.sftpClient) = client) ->
  transfers w sb sp db dp p q d -> length d < fuel -> NewHash ht = Some h ->
  (exists w', CopyPath fuel None cnow w sb sp db dp opts = Some (w', None) /\
     holds w' q d /\ holds w' p d /\ changes [q] w w') /\
  (exists w', CopyPathWithHash fuel None cnow w sb sp db dp ht opts = Some (w', Ok (HashBytesFromSum (h d))) /\
     holds w' q d /\ holds w' p d /\ changes [q] w w') /\
  (exists w', MovePath fuel None cnow w sb sp db dp opts = Some (w', None) /\
     holds w' q d /\ (forall e, ~ holds w' p e) /\ changes [p; q] w w').
Proof.
  intros quiet Hclient Ht Hf Hh. pose proof (all_spec quiet Hclient) as Hspec.
  destruct (transfer_copies fuel cnow w sb sp db dp opts p q d h ht Ht Hf Hh) as [Hc Hch].
  split; [exact Hc|]. split; [exact Hch|]. by apply transfer_moves.
Qed.

End transfer.

(** ** Two transfers

    The memory backend 0 holds a/b; the disk and the server have /srv/data with a.txt. *)
Module Demo.

#[local] Existing Instance tree_order.
#[local] Existing Instance File.Demo.demo_host.
#[local] Existing Instance demo_digests.
#[local] Existing Instance Sftp.Demo.demo_client.
#[local] Existing Instance Sftp.Demo.demo_spec.

Definition disks (_ : nat) : FileB.Backend := File.Demo.backend.
Definition servers (_ : nat) : SftpB.Backend := Sftp.Demo.backend.
Definition start : all_world := (demo_world, (File.Demo.demo_fs, Sftp.Demo.server)).

#[local] Existing Instance all_streams.
#[local] Existing Instance all_places.

Abbreviation demo_places := (all_places 7 disks (tt : @Client Sftp.Demo.demo_client) servers).

Lemma start_alive : alive (Places:=demo_places) start.
Proof. split; [done|split; [done|apply Sftp.Demo.sftp_demo_serves]]. Qed.

Lemma any_to_any_witness :
  (exists w', CopyPath (ST:=all_streams 7 disks servers) 9 None 7 start (inl 0) "a/b" (inr (inl 0)) "x/y" [] = Some (w', None) /\
    file_at w'.2.1 ["y"; "x"; "data"; "srv"] [x68; x69]) /\
  (exists w', MovePath (ST:=all_streams 7 disks servers) 9 None 7 start (inr (inl 0)) "a.txt" (inr (inr 0)) "in/box" [] = Some (w', None) /\
    remote w'.2.2 !! ["srv"; "data"; "in"; "box"] = Some (RFile [x61; x62; x63])).
Proof.
  split.
  - destruct (any_to_any 7 disks (tt : @Client Sftp.Demo.demo_client) servers 9 7 start (inl 0) "a/b" (inr (inl 0)) "x/y" []
      (inl (0, "a/b")) (inr (inl ["y"; "x"; "data"; "srv"])) [x68; x69] md5_sum HashMD5) as [(w' & Hc & Hh & _) _];
      [by intros|by intros| |by apply Nat.ltb_lt|reflexivity|exists w'; split; [exact Hc|exact Hh]].
    split; [apply start_alive| |by vm_compute| |done].
    + split; [apply (demo_world_open 0)|by split].
    + split; [apply File.Demo.demo_serves|]. split; [done|]. split; [|by vm_compute]. apply File.Demo.demo_writable; by vm_compute.
  - destruct (any_to_any 7 disks (tt : @Client Sftp.Demo.demo_client) servers 9 7 start (inr (inl 0)) "a.txt" (inr (inr 0)) "in/box" []
      (inr (inl ["a.txt"; "data"; "srv"])) (inr (inr ["srv"; "data"; "in"; "box"])) [x61; x62; x63] md5_sum HashMD5)
      as (_ & _ & (w' & Hm & Hh & _));
      [by intros|by intros| |by apply Nat.ltb_lt|reflexivity|exists w'; split; [exact Hm|exact Hh]].
    split; [apply start_alive| | | |done].
    + split; [apply File.Demo.demo_serves|]. split; by vm_compute.
    + exists 1. split; [by vm_compute|by exists 2%Z].
    + split; [apply Sftp.Demo.sftp_demo_serves|]. split; [|by vm_compute]. apply Sftp.Demo.sftp_demo_writable; by vm_compute.
Defined.

(** A copy of a file onto itself empties it: the writer truncates what is still to be read. *)
Example self_copy_empties :
  (fun '(w, err) => (err, inode_data w.2.1 1)) <$>
    CopyPath (ST:=all_streams 7 disks servers) 9 None 7 start (inr (inl 0)) "a.txt" (inr (inl 0)) "sub/../a.txt" []
  = Some (None, []).
Proof. by vm_compute. Qed.

End Demo.
