(* ===== verification/Omnistorage.v ===== *)
(** * omnistorage.go: the entry point of the module

    The package re-exports what object declares and imports the packages of the built-in backends
    for their [init] functions, which register a factory each. *)

From S2P Require Import Prelude GoLib Errors ObjectTypes ObjectMemory PosixFs File Channel Sftp.

(** ** Re-exports *)

Definition ObjectInfo : Type := ObjectTypes.ObjectInfo.
Definition Features : Type := ObjectTypes.Features.
Definition HashType : Type := ObjectTypes.HashType.
Definition WriterOption : Type := ObjectTypes.WriterOption.
Definition ReaderOption : Type := ObjectTypes.ReaderOption.

Definition WithContentType : string -> WriterOption := ObjectTypes.WithContentType.
Definition WithMetadata : option (gmap string string) -> WriterOption := ObjectTypes.WithMetadata.
Definition WithOffset : Z -> ReaderOption := ObjectTypes.WithOffset.
Definition WithLimit : Z -> ReaderOption := ObjectTypes.WithLimit.
Definition ApplyWriterOptions : list WriterOption -> WriterConfig := ObjectTypes.ApplyWriterOptions.
Definition ApplyReaderOptions : list ReaderOption -> ReaderConfig := ObjectTypes.ApplyReaderOptions.

Definition ErrNotFound : error := err_object ObjErrNotFound.
Definition ErrPermissionDenied : error := err_object ObjErrPermissionDenied.
Definition ErrBackendClosed : error := err_object ObjErrBackendClosed.
Definition ErrNotSupported : error := err_object ObjErrNotSupported.
Definition ErrInvalidPath : error := err_object ObjErrInvalidPath.
Definition ErrWriterClosed : error := err_object ObjErrWriterClosed.

Definition HashMD5 : HashType := ObjectTypes.HashMD5.
Definition HashSHA1 : HashType := ObjectTypes.HashSHA1.
Definition HashSHA256 : HashType := ObjectTypes.HashSHA256.
Definition HashCRC32C : HashType := ObjectTypes.HashCRC32C.

Section entry.
Context `{SC : SftpClient} `{O : MapOrder}.

(** A value of the interface [Backend]: a backend of one of the built-in packages. *)
Inductive Backend :=
  | MemoryBackend (s : Mem.Store)
  | FileBackend (b : FileB.Backend)
  | ChannelBackend (b : Chan.Backend)
  | SftpBackend (b : SftpB.Backend).

(** What a factory makes may depend on the outside world, and change it: a backend is opened in
    the state [Srv] of [SftpClient]. *)
Definition opening : Type := Srv -> Srv * result error Backend.
Abbreviation registry := (gmap string (Registry.BackendFactory (Bk := opening))).

Definition made {A} (f : A -> Backend) (r : result error A) : result error Backend :=
  match r with Ok b => Ok (f b) | Err e => Err e end.

(** *** The [init] functions *)

Definition init_channel (r : registry) : result string registry :=
  Registry.Register "channel" (Some (fun config => Ok (fun s => (s, Ok (ChannelBackend (Chan.NewFromConfig config)))))) r.
Definition init_file (r : registry) : result string registry :=
  Registry.Register "file" (Some (fun config => Ok (fun s => (s, made FileBackend (FileB.NewFromConfig config))))) r.
Definition init_memory (r : registry) : result string registry :=
  Registry.Register "memory" (Some (fun config => Ok (fun s => (s, made MemoryBackend (Mem.NewFromConfig config))))) r.
Definition init_sftp (r : registry) : result string registry :=
  Registry.Register "sftp" (Some (fun config => Ok (fun s =>
    let '(s, b) := SftpB.NewFromConfig s config in (s, made SftpBackend b)))) r.

(** The packages imported for their registration, in the order of their paths; dropbox has no
    [init]. *)
Definition imports : list (registry -> result string registry) := [init_channel; init_file; init_memory; init_sftp].

(** Package initialization: [Err] is the panic of a [Register]. *)
Fixpoint initialize (inits : list (registry -> result string registry)) (r : registry) : result string registry :=
  match inits with
  | [] => Ok r
  | init :: inits => match init r with Ok r => initialize inits r | Err msg => Err msg end
  end.

(** *** The re-exported functions of the registry *)

Definition Register (name : string) (factory : option (Registry.BackendFactory (Bk := opening))) (r : registry) : result string registry :=
  Registry.Register name factory r.
Definition Open (name : string) (config : gmap string string) (r : registry) (s : Srv) : Srv * result error Backend :=
  match Registry.Open name config r with
  | Err e => (s, Err e)
  | Ok run => run s
  end.
Definition Backends (r : registry) : list string := Registry.Backends r.

End entry.

(** ** Properties *)

Section properties.
Context `{SC : SftpClient} `{O : MapOrder}.
Abbreviation registry := (gmap string (Registry.BackendFactory (Bk := opening))).

(** The registry of some factories under different names. *)
Definition named (l : list (string * Registry.BackendFactory (Bk := opening))) : list (registry -> result string registry) :=
  map (fun '(name, f) => Registry.Register name (Some f)) l.

Lemma initialize_named l r :
  NoDup l.*1 -> (forall name, name ∈ l.*1 -> r !! name = None) ->
  initialize (named l) r = Ok (list_to_map (reverse l) ∪ r).
Proof.
  revert r. induction l as [|[name f] l IH]; intros r Hnd Hr; cbn [named map initialize fmap list_fmap].
  - change (list_to_map (reverse [])) with (∅ : registry). by rewrite (left_id_L ∅ union).
  - cbn [fst fmap list_fmap] in Hnd. apply NoDup_cons in Hnd as [Hn Hnd]. unfold Registry.Register. rewrite Hr by by left.
    fold (named l). rewrite IH; [|done|].
    + f_equal. rewrite reverse_cons, list_to_map_app. cbn [list_to_map foldr fst snd].
      rewrite <-(assoc_L union). f_equal. by rewrite insert_empty, insert_union_singleton_l.
    + intros n Hin. rewrite lookup_insert_ne by (intros <-; done). apply Hr. by right.
Qed.

(** The built-in factories. *)
Definition builtins : list (string * Registry.BackendFactory (Bk := opening)) := [
  ("channel", fun config => Ok (fun s => (s, Ok (ChannelBackend (Chan.NewFromConfig config)))));
  ("file", fun config => Ok (fun s => (s, made FileBackend (FileB.NewFromConfig config))));
  ("memory", fun config => Ok (fun s => (s, made MemoryBackend (Mem.NewFromConfig config))));
  ("sftp", fun config => Ok (fun s => let '(s, b) := SftpB.NewFromConfig s config in (s, made SftpBackend b)))].

Lemma builtins_permuted inits :
  inits ≡ₚ imports -> initialize inits ∅ = Ok (list_to_map builtins).
Proof.
  intros Hp. change imports with (named builtins) in Hp. unfold named in Hp.
  apply Permutation_map_inv in Hp as (l & -> & Hl).
  assert (NoDup l.*1) as Hnd. { rewrite <-Hl. by repeat (constructor; [set_solver|]); constructor. }
  fold (named l). rewrite initialize_named by (done || by intros; apply lookup_empty).
  rewrite (right_id_L ∅ union). f_equal. apply list_to_map_proper.
  - by rewrite fmap_reverse, reverse_Permutation.
  - by rewrite reverse_Permutation.
Qed.

(** Claim C30. Importing the package, in whatever order the [init] functions run, never panics and
    registers exactly the channel, file, memory and sftp backends: [Backends] names them sorted,
    [Open] makes a backend of the named package from its configuration (only sftp touches the
    outside world, and fails as it does), any other name, dropbox included, is unknown, and
    registering one of the four again panics. *)
Theorem builtin_backends inits config s :
  inits ≡ₚ imports ->
  exists r, initialize inits ∅ = Ok r /\ Backends r = ["channel"; "file"; "memory"; "sftp"] /\
    Open "channel" config r s = (s, Ok (ChannelBackend (Chan.NewFromConfig config))) /\
    Open "file" config r s = (s, made FileBackend (FileB.NewFromConfig config)) /\
    Open "memory" config r s = (s, Ok (MemoryBackend Mem.New)) /\
    (let '(s', b) := SftpB.NewFromConfig s config in Open "sftp" config r s = (s', made SftpBackend b)) /\
    (forall name, ~ name ∈ Backends r -> exists e, Open name config r s = (s, Err e) /\ errors_Is e (ObjectSentinel ObjErrUnknownBackend) = true) /\
    ~ "dropbox" ∈ Backends r /\
    (forall name f, name ∈ Backends r -> exists msg, Register name (Some f) r = Err msg).
Proof.
  intros Hp. rewrite (builtins_permuted inits Hp). exists (list_to_map builtins). split; [done|].
  assert (forall name, name ∈ Backends (list_to_map builtins) <-> is_Some ((list_to_map builtins : registry) !! name)) as Hin.
  { intros name. unfold Backends, Registry.Backends. by rewrite elem_of_sort_strings, elem_of_range_keys. }
  assert (Backends (list_to_map builtins) = ["channel"; "file"; "memory"; "sftp"]) as HB.
  { apply (StronglySorted_unique String.le).
    - apply sort_strings_sorted.
    - by repeat constructor.
    - apply NoDup_Permutation; [unfold Backends, Registry.Backends; rewrite sort_strings_perm; apply NoDup_range_keys
        |by repeat (constructor; [set_solver|]); constructor|].
      intros name. rewrite Hin, <-not_eq_None_Some, <-not_elem_of_list_to_map. change (builtins.*1) with ["channel"; "file"; "memory"; "sftp"].
      destruct (decide (name ∈ ["channel"; "file"; "memory"; "sftp"])); tauto. }
  split_and!; [exact HB|done|done|done| | | |].
  - destruct (SftpB.NewFromConfig s config) as [s' b] eqn:E.
    change (Open "sftp" config (list_to_map builtins) s) with (let '(s, b) := SftpB.NewFromConfig s config in (s, made SftpBackend b)).
    by rewrite E.
  - intros name Hn. rewrite Hin in Hn. unfold Open, Registry.Open. destruct ((list_to_map builtins : registry) !! name) eqn:E; [by destruct Hn|].
    eexists. split; [done|]. done.
  - rewrite HB. set_solver.
  - intros name f [g Hg]%Hin. unfold Register, Registry.Register. rewrite Hg. by eexists.
Qed.

End properties.

Module Demo.
#[local] Existing Instance tree_order.

(** The packages initialised in the reverse order. *)
Lemma builtin_backends_witness :
  exists r, initialize (reverse (@imports Sftp.Demo.demo_client)) ∅ = Ok r /\ Backends r = ["channel"; "file"; "memory"; "sftp"] /\
    Open "file" {["root" := "/srv"]} r Sftp.Demo.server
      = (Sftp.Demo.server, Ok (FileBackend (FileB.New (FileB.mkConfig "/srv" true 493 420)))) /\
    exists e, Open "dropbox" ∅ r Sftp.Demo.server = (Sftp.Demo.server, Err e).
Proof.
  destruct (builtin_backends (reverse imports) {["root" := "/srv"]} Sftp.Demo.server) as (r & Hi & HB & _ & Hf & _); [by rewrite reverse_Permutation|].
  destruct (builtin_backends (reverse imports) ∅ Sftp.Demo.server) as (r' & Hi' & _ & _ & _ & _ & _ & Hu & Hd & _); [by rewrite reverse_Permutation|].
  rewrite Hi in Hi'. injection Hi' as <-. exists r. split_and!; [done|done|by rewrite Hf|].
  destruct (Hu "dropbox" Hd) as (e & He & _). by exists e.
Defined.
End Demo.
