(* ===== verification/Dropbox.v ===== *)
(** * object/backend/dropbox/options.go: the configuration of the Dropbox backend

    The repository holds only the options of this backend. *)

From S2P Require Import Prelude GoLib GoConf Errors.

Module Dropbox.

Record Config := mkConfig {
  AccessToken : string; RefreshToken : string; AppKey : string; AppSecret : string; Root : string; ChunkSize : Z; Concurrency : Z
}.

Definition ErrTokenRequired : error := Errorf "dropbox: access token is required".

Definition DefaultConfig : Config := mkConfig "" "" "" "" "" (150 * 1024 * 1024) 4.

Definition set_AccessToken v c := mkConfig v c.(RefreshToken) c.(AppKey) c.(AppSecret) c.(Root) c.(ChunkSize) c.(Concurrency).
Definition set_RefreshToken v c := mkConfig c.(AccessToken) v c.(AppKey) c.(AppSecret) c.(Root) c.(ChunkSize) c.(Concurrency).
Definition set_AppKey v c := mkConfig c.(AccessToken) c.(RefreshToken) v c.(AppSecret) c.(Root) c.(ChunkSize) c.(Concurrency).
Definition set_AppSecret v c := mkConfig c.(AccessToken) c.(RefreshToken) c.(AppKey) v c.(Root) c.(ChunkSize) c.(Concurrency).
Definition set_Root v c := mkConfig c.(AccessToken) c.(RefreshToken) c.(AppKey) c.(AppSecret) v c.(ChunkSize) c.(Concurrency).

Definition ConfigFromEnv (Getenv : string -> string) : Config :=
  let env name := set_variable Getenv ("OMNISTORAGE_DROPBOX_" +:+ name) in
  let c := text_setting (env "ACCESS_TOKEN") set_AccessToken DefaultConfig in
  let c := text_setting (env "REFRESH_TOKEN") set_RefreshToken c in
  let c := text_setting (env "APP_KEY") set_AppKey c in
  let c := text_setting (env "APP_SECRET") set_AppSecret c in
  text_setting (env "ROOT") set_Root c.

Definition ConfigFromMap (m : gmap string string) : Config :=
  let c := text_setting (m !! "access_token") set_AccessToken DefaultConfig in
  let c := text_setting (m !! "refresh_token") set_RefreshToken c in
  let c := text_setting (m !! "app_key") set_AppKey c in
  let c := text_setting (m !! "app_secret") set_AppSecret c in
  text_setting (m !! "root") set_Root c.

Definition Validate (c : Config) : option error :=
  if decide (c.(AccessToken) = "") then Some ErrTokenRequired else None.

(** A configuration is valid exactly when it was given a token, from a map or the environment. *)
Theorem dropbox_valid m Getenv :
  (Validate (ConfigFromMap m) = None <-> default "" (m !! "access_token") <> "") /\
  (Validate (ConfigFromEnv Getenv) = None <-> Getenv "OMNISTORAGE_DROPBOX_ACCESS_TOKEN" <> "").
Proof.
  assert ((ConfigFromMap m).(AccessToken) = default "" (m !! "access_token")) as H1.
  { unfold ConfigFromMap. rewrite !(text_setting_keep AccessToken) by done. by destruct (m !! "access_token"). }
  assert ((ConfigFromEnv Getenv).(AccessToken) = Getenv "OMNISTORAGE_DROPBOX_ACCESS_TOKEN") as H2.
  { unfold ConfigFromEnv. rewrite !(text_setting_keep AccessToken) by done. unfold set_variable. by case_decide. }
  unfold Validate. rewrite H1, H2. split; case_decide; naive_solver.
Qed.

End Dropbox.
