(* ===== verification/Compress.v ===== *)
(** * What object/compress needs of its compressors

    [Codec] is a compressor over the writers and readers of any backend, [CodecSpec] what it
    documents; [wrapper_roundtrip] holds for a package that passes everything on to one, as
    [Gzip] and [Zstd] do. *)

From S2P Require Import Prelude GoLib Errors ObjectTypes ObjectBackend ObjectMemory.

(** A compressor over the writers and readers of a backend.  A Go compressor keeps the writer
    it was given, which the wrapper also keeps to close it: one object, here [below]. *)
Class Codec (W B Level : Type) `{OB : ObjectBackend W B} := {
  Enc : Type; Dec : Type; Hdr : Type;
  enc_new : Wr -> Level -> result error Enc;
  below : Enc -> Wr;
  enc_Write : W -> Enc -> bytes -> W * Enc * nat * option error;
  enc_Flush : W -> Enc -> W * Enc * option error;
  enc_Close : W -> Enc -> W * Enc * option error;
  dec_new : W -> Rd -> W * result error Dec;
  source : Dec -> Rd;
  dec_Read : W -> Dec -> nat -> W * Dec * bytes * option error;
  dec_Close : W -> Dec -> W * Dec * option error;
  dec_Header : Dec -> Hdr
}.

(** ** What the compressors document

    A compressor passes something on as it goes, and after its [Close] the writer below has a
    stream [out] that stands for the bytes [d] that were written: [encodes out d].  A
    decompressor of such a stream yields [d]. *)
Class CodecSpec (W B Level : Type) `{BS : BackendSpec W B} `{CC : !Codec W B Level} := {
  valid_level : Level -> Prop;
  encodes : bytes -> bytes -> Prop;
  (** what was written so far, and what the writer below had before *)
  taken : Enc -> bytes;
  before : Enc -> bytes;
  dec_open : Dec -> Prop;
  yields : Dec -> bytes;

  enc_new_spec v l : valid_level l -> exists g, enc_new v l = Ok g /\ below g = v /\ taken g = [] /\ before g = pending v;
  enc_Write_spec w g p : wr_open (below g) ->
    exists g', enc_Write w g p = (w, g', length p, None) /\ wr_open (below g') /\ target (below g') = target (below g) /\
      taken g' = taken g ++ p /\ before g' = before g;
  enc_Flush_spec w g : wr_open (below g) ->
    exists g', enc_Flush w g = (w, g', None) /\ wr_open (below g') /\ target (below g') = target (below g) /\
      taken g' = taken g /\ before g' = before g;
  enc_Close_spec w g : wr_open (below g) ->
    exists g' out, enc_Close w g = (w, g', None) /\ wr_open (below g') /\ target (below g') = target (below g) /\
      pending (below g') = before g ++ out /\ encodes out (taken g);
  dec_new_spec w r d : rd_open r -> encodes (unread r) d ->
    exists g, dec_new w r = (w, Ok g) /\ dec_open g /\ yields g = d;
  dec_Read_spec w g n : 0 < n -> dec_open g ->
    match yields g with
    | [] => exists g', dec_Read w g n = (w, g', [], Some (err_io EOF))
    | _ => exists g' chunk err, dec_Read w g n = (w, g', chunk, err) /\ dec_open g' /\ chunk <> [] /\
             length chunk <= n /\ yields g = chunk ++ yields g' /\ may_end (yields g') err
    end
}.

(** ** Writing in pieces with flushes, and reading to the end *)

Section runs.
Context {W V : Type}.
Context (write : W -> V -> bytes -> W * V * nat * option error) (flush : W -> V -> W * V * option error).

(** Each piece is written, and flushed when asked to; [None]: an error or a short write. *)
Fixpoint write_pieces (w : W) (v : V) (pieces : list (bytes * bool)) : option (W * V) :=
  match pieces with
  | [] => Some (w, v)
  | (p, fl) :: pieces =>
      match write w v p with
      | (w, v, n, None) =>
          if decide (n <> length p) then None
          else if fl then match flush w v with (w, v, None) => write_pieces w v pieces | _ => None end
          else write_pieces w v pieces
      | _ => None
      end
  end.
End runs.

Section reads.
Context {W R : Type} (read : W -> R -> nat -> W * R * bytes * option error).

(** Reads of [n] bytes up to the end; [None]: an error, or more reads than the fuel. *)
Fixpoint read_to_end (fuel : nat) (w : W) (r : R) (n : nat) : option (W * R * bytes) :=
  match fuel with
  | 0 => None
  | S fuel =>
      match read w r n with
      | (w, r, chunk, None) => (fun x => (x.1, chunk ++ x.2)) <$> read_to_end fuel w r n
      | (w, r, chunk, Some e) => if is_sentinel (IoSentinel EOF) e then Some (w, r, chunk) else None
      end
  end.
End reads.

(** ** Lemmas: compressors over a backend *)

Section codec.
Context `{CS : CodecSpec W B Level}.

(** A compressor at the start of the object that will be published at [q]. *)
Definition streams_to (b : B) (q : string) (g : Enc) : Prop := writes_to b q (below g) /\ before g = [].

Lemma enc_new_ok w b p q opts level :
  is_open w b -> path_of b p = Some q -> valid_level level ->
  exists v g, NewWriter None w b p opts = (w, Ok v) /\ enc_new v level = Ok g /\ streams_to b q g /\ taken g = [].
Proof.
  intros Ho Hp Hl. pose proof (NewWriter_spec w b p opts Ho) as Hv. rewrite Hp in Hv. destruct Hv as (v & Hv & Hwo & Ht & Hpend).
  destruct (enc_new_spec v level Hl) as (g & Hg & Hb & Htk & Hbf). exists v, g. split_and!; [done|done| |done].
  split; [by rewrite Hb|congruence].
Qed.

Lemma enc_Write_ok w b q g p :
  streams_to b q g -> exists g', enc_Write w g p = (w, g', length p, None) /\ streams_to b q g' /\ taken g' = taken g ++ p.
Proof.
  intros [[Ho Ht] Hb]. destruct (enc_Write_spec w g p Ho) as (g' & He & Ho' & Ht' & Htk & Hb'). exists g'.
  split_and!; [done| |done]. split; [split|]; congruence.
Qed.

Lemma enc_Flush_ok w b q g :
  streams_to b q g -> exists g', enc_Flush w g = (w, g', None) /\ streams_to b q g' /\ taken g' = taken g.
Proof.
  intros [[Ho Ht] Hb]. destruct (enc_Flush_spec w g Ho) as (g' & He & Ho' & Ht' & Htk & Hb'). exists g'.
  split_and!; [done| |done]. split; [split|]; congruence.
Qed.

Lemma enc_Close_ok now w b q g :
  is_open w b -> streams_to b q g ->
  exists g' out w', enc_Close w g = (w, g', None) /\ CloseWriter now w (below g') = (w', None) /\ stored_at w w' b q out /\ encodes out (taken g).
Proof.
  intros Hopen [[Ho Ht] Hb]. destruct (enc_Close_spec w g Ho) as (g' & out & He & Ho' & Ht' & Hp & Hout). rewrite Hb in Hp.
  destruct (publish now w (below g') b q out Hopen) as (w' & Hc & Hs); [split; congruence|done|]. by exists g', out, w'.
Qed.

Lemma dec_new_ok w b p q out d :
  is_open w b -> path_of b p = Some q -> files w b !! q = Some out -> encodes out d ->
  exists r g, NewReader None w b p [] = (w, Ok r) /\ dec_new w r = (w, Ok g) /\ dec_open g /\ yields g = d.
Proof.
  intros Ho Hp Hf He. destruct (NewReader_at w b p q out Ho Hp Hf) as (r & Hr & Hro & Hu).
  destruct (dec_new_spec w r d Hro) as (g & Hg & Hgo & Hy); [by rewrite Hu|]. by exists r, g.
Qed.

(** A wrapper that passes everything on to a compressor [g] in [mkw g], and to a decompressor
    [g] in [mkr g], as both packages do while they are open. *)
Section wrapper.
Context {V R : Type} (mkw : Enc -> V) (mkr : Dec -> R).
Context (write : W -> V -> bytes -> W * V * nat * option error) (flush : W -> V -> W * V * option error).
Context (read : W -> R -> nat -> W * R * bytes * option error).
Context (write_eq : forall w g p, write w (mkw g) p = let '(w, g, n, err) := enc_Write w g p in (w, mkw g, n, err)).
Context (flush_eq : forall w g, flush w (mkw g) = let '(w, g, err) := enc_Flush w g in (w, mkw g, err)).
Context (read_eq : forall w g n, read w (mkr g) n = let '(w, g, chunk, err) := dec_Read w g n in (w, mkr g, chunk, err)).

Lemma wrapper_writes w b q g pieces :
  streams_to b q g ->
  exists g', write_pieces write flush w (mkw g) pieces = Some (w, mkw g') /\ streams_to b q g' /\ taken g' = taken g ++ concat pieces.*1.
Proof.
  revert g. induction pieces as [|[p fl] pieces IH]; intros g Hs; cbn [write_pieces fmap list_fmap concat fst].
  - exists g. by rewrite app_nil_r.
  - rewrite write_eq. destruct (enc_Write_ok w b q g p Hs) as (g1 & -> & Hs1 & Ht1). rewrite decide_False by auto.
    destruct fl; [rewrite flush_eq; destruct (enc_Flush_ok w b q g1 Hs1) as (g2 & -> & Hs2 & Ht2); destruct (IH g2 Hs2) as (g3 & -> & Hs3 & Ht3)
                 |destruct (IH g1 Hs1) as (g3 & -> & Hs3 & Ht3)];
      exists g3; (split_and!; [done|done|]); rewrite app_assoc; congruence.
Qed.

Lemma wrapper_reads w g n fuel :
  0 < n -> dec_open g -> length (yields g) < fuel -> exists g', read_to_end read fuel w (mkr g) n = Some (w, mkr g', yields g).
Proof.
  intros Hn. revert g. induction fuel as [|fuel IH]; intros g Hg Hl; [lia|]. cbn [read_to_end]. rewrite read_eq.
  pose proof (dec_Read_spec w g n Hn Hg) as Hr. destruct (yields g) as [|x d] eqn:Hd; [destruct Hr as [g' ->]; by exists g'|].
  destruct Hr as (g' & chunk & err & -> & Hg' & Hne & _ & He & Herr).
  destruct Herr as [->|[-> Hend]]; [|rewrite Hend, app_nil_r in He; exists g'; by rewrite He].
  destruct (IH g' Hg') as [g2 ->].
  - apply (f_equal length) in He. rewrite length_app in He. destruct chunk; [done|]. cbn in *. lia.
  - exists g2. cbn. by rewrite He.
Qed.

(** From the opening of the object to the end of a reading of it. *)
Lemma wrapper_roundtrip now w b p q opts level pieces n fuel :
  is_open w b -> path_of b p = Some q -> valid_level level -> 0 < n -> length (concat pieces.*1) < fuel ->
  exists v g1 g2 g3 w' out r y1 y2,
    NewWriter None w b p opts = (w, Ok v) /\ enc_new v level = Ok g1 /\
    write_pieces write flush w (mkw g1) pieces = Some (w, mkw g2) /\
    enc_Close w g2 = (w, g3, None) /\ CloseWriter now w (below g3) = (w', None) /\
    stored_at w w' b q out /\ encodes out (concat pieces.*1) /\
    NewReader None w' b p [] = (w', Ok r) /\ dec_new w' r = (w', Ok y1) /\
    read_to_end read fuel w' (mkr y1) n = Some (w', mkr y2, concat pieces.*1).
Proof.
  intros Ho Hp Hl Hn Hf. destruct (enc_new_ok w b p q opts level Ho Hp Hl) as (v & g & Hv & Hg & Hs & Ht).
  destruct (wrapper_writes w b q g pieces Hs) as (g2 & Hw & Hs2 & Ht2). rewrite Ht in Ht2. cbn [app] in Ht2.
  destruct (enc_Close_ok now w b q g2 Ho Hs2) as (g3 & out & w' & He & Hcl & Hst & Hout). rewrite Ht2 in Hout.
  destruct (dec_new_ok w' b p q out (concat pieces.*1)) as (r & y & Hr & Hy & Hyo & Hyd); [by apply Hst|done| |done|].
  { rewrite (proj2 Hst), decide_True by done. apply lookup_insert_eq. }
  destruct (wrapper_reads w' y n fuel Hn Hyo) as [y2 Hread]; [by rewrite Hyd|]. rewrite Hyd in Hread.
  exists v, g, g2, g3, w', out, r, y, y2. by split_and!.
Qed.
End wrapper.

End codec.

(** ** A compressor that stores, after a byte of header, and the witnesses *)

#[local] Existing Instance tree_order.

Module Demo.
Section stored.
Context {Level : Type} `{BS : BackendSpec W B}.

Record enc := mkEnc { e_below : Wr; e_taken : bytes }.

Definition magic : byte := x1f.

#[export] Instance stored_codec : Codec W B Level := {
  Enc := enc; Dec := Rd; Hdr := unit;
  enc_new v _ := Ok (mkEnc v []);
  below := e_below;
  enc_Write w g p := (w, mkEnc g.(e_below) (g.(e_taken) ++ p), length p, None);
  enc_Flush w g := (w, g, None);
  enc_Close w g := let '(w, v, _, err) := Write w g.(e_below) (magic :: g.(e_taken)) in (w, mkEnc v g.(e_taken), err);
  dec_new w r :=
    match Read w r 1 with
    | (w, r, [c], None) => (w, if Byte.eqb c magic then Ok r else Err (Opaque "invalid header"))
    | (w, _, _, Some err) => (w, Err err)
    | (w, _, _, None) => (w, Err (Opaque "invalid header"))
    end;
  source r := r;
  dec_Read := Read;
  dec_Close w r := (w, r, None);
  dec_Header _ := tt
}.

#[export] Instance stored_spec : CodecSpec W B Level.
Proof.
  refine {| valid_level _ := True; encodes out d := out = magic :: d;
    taken := (e_taken : @Enc W B Level _ stored_codec -> bytes);
    before := (fun g => pending (e_below g)) : @Enc W B Level _ stored_codec -> bytes;
    dec_open := rd_open : @Dec W B Level _ stored_codec -> Prop; yields := unread : @Dec W B Level _ stored_codec -> bytes |}; cbn.
  - intros v _ _. by eexists.
  - intros w g p Ho. by eexists.
  - intros w g Ho. by eexists.
  - intros w g Ho. destruct (Write_spec w g.(e_below) (magic :: g.(e_taken)) Ho) as (v & -> & Hv & Ht & Hp). by eexists _, _.
  - intros w r d Ho Hu. pose proof (Read_spec w r 1 ltac:(lia) Ho) as Hr. rewrite Hu in Hr.
    destruct Hr as (r' & chunk & -> & Ho' & Hne & Hl & He). destruct chunk as [|c [|c' chunk]]; [done| |cbn in Hl; lia].
    injection He as <- Hd. by exists r'.
  - intros w g n Hn Ho. pose proof (Read_spec w g n Hn Ho) as Hr. destruct (unread g) as [|x d]; [done|].
    destruct Hr as (g' & chunk & -> & Hg & Hne & Hl & He). exists g', chunk, None. split_and!; (done || by left).
Defined.
End stored.

Definition opened : Mem.world := fun _ => Mem.New.

Lemma opened_ok : is_open opened 0.
Proof. split; [done|by eexists]. Qed.

End Demo.
