(* ===== verification/Gzip.v ===== *)
(** * object/compress/gzip: the writer and the reader *)

From S2P Require Import Prelude GoLib Errors ObjectTypes ObjectBackend ObjectMemory Compress.

(** The constants of compress/flate. *)
Definition CompressionLevel := Z.
Definition NoCompression : CompressionLevel := 0%Z.
Definition BestSpeed : CompressionLevel := 1%Z.
Definition BestCompression : CompressionLevel := 9%Z.
Definition DefaultCompression : CompressionLevel := (-1)%Z.
Definition HuffmanOnly : CompressionLevel := (-2)%Z.

Section gzip.
Context `{OB : ObjectBackend W B} `{CC : !Codec W B CompressionLevel}.

Record Writer := mkWriter { gw : Enc; w_closed : bool }.

Definition NewWriterLevel (w : Wr) (level : CompressionLevel) : result error Writer :=
  match enc_new w level with
  | Err err => Err err
  | Ok gw => Ok (mkWriter gw false)
  end.

Definition NewWriter (w : Wr) : result error Writer := NewWriterLevel w DefaultCompression.

Definition Writer_Write (s : W) (w : Writer) (p : bytes) : W * Writer * nat * option error :=
  if w.(w_closed) then (s, w, 0, Some (err_io ErrClosedPipe))
  else let '(s, gw, n, err) := enc_Write s w.(gw) p in (s, mkWriter gw false, n, err).

Definition Writer_Flush (s : W) (w : Writer) : W * Writer * option error :=
  if w.(w_closed) then (s, w, Some (err_io ErrClosedPipe))
  else let '(s, gw, err) := enc_Flush s w.(gw) in (s, mkWriter gw false, err).

Definition Writer_Close (now : time) (s : W) (w : Writer) : W * Writer * option error :=
  if w.(w_closed) then (s, w, None)
  else
    match enc_Close s w.(gw) with
    | (s, gw, Some err) => let '(s, _) := CloseWriter now s (below gw) in (s, mkWriter gw true, Some err)
    | (s, gw, None) => let '(s, err) := CloseWriter now s (below gw) in (s, mkWriter gw true, err)
    end.

Record Reader := mkReader { gr : Dec; r_closed : bool }.

Definition NewReader (s : W) (r : Rd) : W * result error Reader :=
  match dec_new s r with
  | (s, Err err) => (s, Err err)
  | (s, Ok gr) => (s, Ok (mkReader gr false))
  end.

Definition Reader_Read (s : W) (r : Reader) (n : nat) : W * Reader * bytes * option error :=
  if r.(r_closed) then (s, r, [], Some (err_io ErrClosedPipe))
  else let '(s, gr, chunk, err) := dec_Read s r.(gr) n in (s, mkReader gr false, chunk, err).

Definition Reader_Close (s : W) (r : Reader) : W * Reader * option error :=
  if r.(r_closed) then (s, r, None)
  else
    match dec_Close s r.(gr) with
    | (s, gr, Some err) => let '(s, _) := CloseReader s (source gr) in (s, mkReader gr true, Some err)
    | (s, gr, None) => let '(s, err) := CloseReader s (source gr) in (s, mkReader gr true, err)
    end.

Definition Header (r : Reader) : Hdr := dec_Header r.(gr).

End gzip.

(** ** Properties *)

(** What is written through a gzip writer, in any pieces with any flushes, is published
    when it is closed as one stream that stands for it, on that object of the backend alone,
    and a gzip reader of the object yields it; a second close does nothing. *)
Theorem gzip_roundtrip `{CS : CodecSpec W B CompressionLevel} now w b p q opts level pieces n fuel :
  is_open w b -> path_of b p = Some q -> valid_level level -> 0 < n -> length (concat pieces.*1) < fuel ->
  exists v z1 z2 w' z3 out r y1 y2,
    ObjectBackend.NewWriter None w b p opts = (w, Ok v) /\ NewWriterLevel v level = Ok z1 /\
    write_pieces Writer_Write Writer_Flush w z1 pieces = Some (w, z2) /\
    Writer_Close now w z2 = (w', z3, None) /\ Writer_Close now w' z3 = (w', z3, None) /\
    stored_at w w' b q out /\ encodes out (concat pieces.*1) /\
    ObjectBackend.NewReader None w' b p [] = (w', Ok r) /\ NewReader w' r = (w', Ok y1) /\
    read_to_end Reader_Read fuel w' y1 n = Some (w', y2, concat pieces.*1).
Proof.
  intros Ho Hp Hl Hn Hf.
  destruct (wrapper_roundtrip (fun g => mkWriter g false) (fun g => mkReader g false) Writer_Write Writer_Flush Reader_Read
    ltac:(done) ltac:(done) ltac:(done) now w b p q opts level pieces n fuel Ho Hp Hl Hn Hf)
    as (v & g1 & g2 & g3 & w' & out & r & y1 & y2 & Hv & Hg & Hw & He & Hcl & Hst & Hout & Hr & Hy & Hread).
  eexists v, _, _, w', (mkWriter g3 true), out, r, _, _.
  split_and!; [done|unfold NewWriterLevel; by rewrite Hg|exact Hw| |done|done|done|done|unfold NewReader; by rewrite Hy|exact Hread].
  unfold Writer_Close. cbn. by rewrite He, Hcl.
Qed.

(** ** A run, on the in-memory backend *)

Import Compress.Demo.
#[local] Existing Instance tree_order.

Lemma gzip_roundtrip_witness :
  exists v z1 z2 w' z3 r y1 y2,
    ObjectBackend.NewWriter None opened 0 "log.gz" [] = (opened, Ok v) /\ NewWriterLevel v BestSpeed = Ok z1 /\
    write_pieces Writer_Write Writer_Flush opened z1 [([x61; x62], true); ([x63], false)] = Some (opened, z2) /\
    Writer_Close 7 opened z2 = (w', z3, None) /\ files w' 0 !! "log.gz" = Some [x1f; x61; x62; x63] /\
    ObjectBackend.NewReader None w' 0 "log.gz" [] = (w', Ok r) /\ NewReader w' r = (w', Ok y1) /\
    read_to_end Reader_Read 9 w' y1 2 = Some (w', y2, [x61; x62; x63]).
Proof.
  destruct (gzip_roundtrip (W := Mem.world) (B := nat) 7 opened 0 "log.gz" "log.gz" [] BestSpeed [([x61; x62], true); ([x63], false)] 2 9)
    as (v & z1 & z2 & w' & z3 & out & r & y1 & y2 & H1 & H2 & H3 & H4 & _ & Hst & Ho & H5 & H6 & H7);
    [exact opened_ok|done|done|lia|cbn; lia|].
  exists v, z1, z2, w', z3, r, y1, y2. split_and!; [done..| |done|done|done].
  rewrite (proj2 Hst), decide_True by done. cbn in Ho. subst out. apply lookup_insert_eq.
Defined.
