(* ===== verification/Zstd.v ===== *)
(** * object/compress/zstd: the writer and the reader *)

From S2P Require Import Prelude GoLib Errors ObjectTypes ObjectBackend ObjectMemory Compress.

(** An int; the constants are 1 to 4. *)
Definition CompressionLevel := Z.
Definition SpeedFastest : CompressionLevel := 1%Z.
Definition SpeedDefault : CompressionLevel := 2%Z.
Definition SpeedBetterCompression : CompressionLevel := 3%Z.
Definition SpeedBestCompression : CompressionLevel := 4%Z.

(** [EncoderLevel] of the library, and its options: a level, or others. *)
Inductive EncoderLevel := EncFastest | EncDefault | EncBetterCompression | EncBestCompression.
Inductive EOption {O} := WithEncoderLevel (l : EncoderLevel) | OtherOption (o : O).
Arguments EOption : clear implicits.

Definition toZstdLevel (l : CompressionLevel) : EncoderLevel :=
  if decide (l = SpeedFastest) then EncFastest
  else if decide (l = SpeedDefault) then EncDefault
  else if decide (l = SpeedBetterCompression) then EncBetterCompression
  else if decide (l = SpeedBestCompression) then EncBestCompression
  else EncDefault.

Section zstd.
Context {O DO : Type} `{OB : ObjectBackend W B} `{CC : !Codec W B (list (EOption O))}.
(** [zstd.NewReader] with decoder options *)
Context (dec_new_options : W -> Rd -> list DO -> W * result error Dec).

Record Writer := mkWriter { zw : Enc; w_closed : bool }.

Definition NewWriterWithOptions (w : Wr) (opts : list (EOption O)) : result error Writer :=
  match enc_new w opts with
  | Err err => Err err
  | Ok zw => Ok (mkWriter zw false)
  end.

Definition NewWriterLevel (w : Wr) (level : CompressionLevel) : result error Writer :=
  match enc_new w [WithEncoderLevel (toZstdLevel level)] with
  | Err err => Err err
  | Ok zw => Ok (mkWriter zw false)
  end.

Definition NewWriter (w : Wr) : result error Writer := NewWriterLevel w SpeedDefault.

Definition Writer_Write (s : W) (w : Writer) (p : bytes) : W * Writer * nat * option error :=
  if w.(w_closed) then (s, w, 0, Some (err_io ErrClosedPipe))
  else let '(s, zw, n, err) := enc_Write s w.(zw) p in (s, mkWriter zw false, n, err).

Definition Writer_Flush (s : W) (w : Writer) : W * Writer * option error :=
  if w.(w_closed) then (s, w, Some (err_io ErrClosedPipe))
  else let '(s, zw, err) := enc_Flush s w.(zw) in (s, mkWriter zw false, err).

Definition Writer_Close (now : time) (s : W) (w : Writer) : W * Writer * option error :=
  if w.(w_closed) then (s, w, None)
  else
    match enc_Close s w.(zw) with
    | (s, zw, Some err) => let '(s, _) := CloseWriter now s (below zw) in (s, mkWriter zw true, Some err)
    | (s, zw, None) => let '(s, err) := CloseWriter now s (below zw) in (s, mkWriter zw true, err)
    end.

Record Reader := mkReader { zr : Dec; r_closed : bool }.

Definition NewReader (s : W) (r : Rd) : W * result error Reader :=
  match dec_new s r with
  | (s, Err err) => (s, Err err)
  | (s, Ok zr) => (s, Ok (mkReader zr false))
  end.

Definition NewReaderWithOptions (s : W) (r : Rd) (opts : list DO) : W * result error Reader :=
  match dec_new_options s r opts with
  | (s, Err err) => (s, Err err)
  | (s, Ok zr) => (s, Ok (mkReader zr false))
  end.

Definition Reader_Read (s : W) (r : Reader) (n : nat) : W * Reader * bytes * option error :=
  if r.(r_closed) then (s, r, [], Some (err_io ErrClosedPipe))
  else let '(s, zr, chunk, err) := dec_Read s r.(zr) n in (s, mkReader zr false, chunk, err).

(** The decoder's [Close] gives no error. *)
Definition Reader_Close (s : W) (r : Reader) : W * Reader * option error :=
  if r.(r_closed) then (s, r, None)
  else
    let '(s, zr, _) := dec_Close s r.(zr) in
    let '(s, err) := CloseReader s (source zr) in (s, mkReader zr true, err).

End zstd.

(** ** Properties *)

(** What is written through a zstd writer, in any pieces with any flushes, is published
    when it is closed as one stream that stands for it, on that object of the backend alone,
    and a zstd reader of the object yields it; a second close does nothing. *)
Theorem zstd_roundtrip {O} `{CS : CodecSpec W B (list (EOption O))} now w b p q opts level pieces n fuel :
  is_open w b -> path_of b p = Some q -> valid_level [WithEncoderLevel (toZstdLevel level)] -> 0 < n -> length (concat pieces.*1) < fuel ->
  exists v z1 z2 w' z3 out r y1 y2,
    ObjectBackend.NewWriter None w b p opts = (w, Ok v) /\ NewWriterLevel v level = Ok z1 /\
    write_pieces Writer_Write Writer_Flush w z1 pieces = Some (w, z2) /\
    Writer_Close now w z2 = (w', z3, None) /\ Writer_Close now w' z3 = (w', z3, None) /\
    stored_at w w' b q out /\ encodes out (concat pieces.*1) /\
    ObjectBackend.NewReader None w' b p [] = (w', Ok r) /\ NewReader w' r = (w', Ok y1) /\
    read_to_end Reader_Read fuel w' y1 n = Some (w', y2, concat pieces.*1).
Proof.
  intros Ho Hp Hl Hn Hf.
  destruct (wrapper_roundtrip (fun g => mkWriter g false) (fun g => mkReader g false) Writer_Write Writer_Flush Reader_Read
    ltac:(done) ltac:(done) ltac:(done) now w b p q opts [WithEncoderLevel (toZstdLevel level)] pieces n fuel Ho Hp Hl Hn Hf)
    as (v & g1 & g2 & g3 & w' & out & r & y1 & y2 & Hv & Hg & Hw & He & Hcl & Hst & Hout & Hr & Hy & Hread).
  eexists v, _, _, w', (mkWriter g3 true), out, r, _, _.
  split_and!; [done|unfold NewWriterLevel; by rewrite Hg|exact Hw| |done|done|done|done|unfold NewReader; by rewrite Hy|exact Hread].
  unfold Writer_Close. cbn. by rewrite He, Hcl.
Qed.

(** ** A run, on the in-memory backend *)

Import Compress.Demo.
#[local] Existing Instance tree_order.

Lemma zstd_roundtrip_witness :
  exists v z1 z2 w' z3 r y1 y2,
    ObjectBackend.NewWriter None opened 0 "log.zst" [] = (opened, Ok v) /\ NewWriterLevel (O := unit) v SpeedFastest = Ok z1 /\
    write_pieces Writer_Write Writer_Flush opened z1 [([x61], true); ([], false)] = Some (opened, z2) /\
    Writer_Close 7 opened z2 = (w', z3, None) /\
    ObjectBackend.NewReader None w' 0 "log.zst" [] = (w', Ok r) /\ NewReader (O := unit) w' r = (w', Ok y1) /\
    read_to_end Reader_Read 9 w' y1 2 = Some (w', y2, [x61]).
Proof.
  destruct (zstd_roundtrip (O := unit) (W := Mem.world) (B := nat) 7 opened 0 "log.zst" "log.zst" [] SpeedFastest [([x61], true); ([], false)] 2 9)
    as (v & z1 & z2 & w' & z3 & out & r & y1 & y2 & H1 & H2 & H3 & H4 & _ & _ & _ & H5 & H6 & H7);
    [exact opened_ok|done|done|lia|cbn; lia|].
  by exists v, z1, z2, w', z3, r, y1, y2.
Defined.
