(* ===== verification/SyncTypes.v ===== *)
(** * object/sync/options.go and object/sync/retry.go

    The options and results of the sync operations, the comparison [NeedsUpdate] and the
    retries, without the time they take ([Backoff] adds it).  Progress callbacks and loggers are
    told what happens and change nothing; they and the durations of results are left out. *)

From Stdlib Require Import Floats.SpecFloat.
From S2P Require Import Prelude GoLib Errors GoFloat ObjectTypes Filter.

(** [tsync.Equal] of github.com/grokify/oscompat: two times are equal up to the tolerance of the
    platform's file systems. *)
Class TSync := { tsync_Equal : time -> time -> bool }.

(** What its documentation promises of it: equal times are equal, whatever the tolerance. *)
Class TSyncLaws `{TSync} := {
  tsync_refl t : tsync_Equal t t = true;
  tsync_sym t u : tsync_Equal t u = tsync_Equal u t
}.

(** ** Options *)

Record MetadataOptions := mkMetadataOptions {
  MContentType : bool;
  MModTime : bool;
  MCustomMetadata : bool
}.

Definition DefaultMetadataOptions : MetadataOptions := mkMetadataOptions true false false.

(** [RetryableErrors] may be nil. *)
Record RetryConfig := mkRetryConfig {
  MaxRetries : Z;
  InitialDelay : duration;
  MaxDelay : duration;
  Multiplier : spec_float;
  Jitter : spec_float;
  RetryableErrors : option (error -> bool)
}.

(** The constant 0.1, as a float64. *)
Definition float_0_1 : spec_float := S754_finite false 7205759403792794 (-56).

Definition DefaultRetryConfig : RetryConfig :=
  mkRetryConfig 3 Second (30 * Second) (float64 2) float_0_1 None.

Record Options := mkOptions {
  DeleteExtra : bool;
  DryRun : bool;
  Checksum : bool;
  IgnoreExisting : bool;
  IgnoreSize : bool;
  IgnoreTime : bool;
  SizeOnly : bool;
  MaxErrors : Z;
  Concurrency : Z;
  FilterOpt : Filter.Filter;
  DeleteExcluded : bool;
  BandwidthLimit : Z;
  Retry : option RetryConfig;
  PreserveMetadata : option MetadataOptions
}.

Definition zeroOptions : Options :=
  mkOptions false false false false false false false 0 0 None false 0 None None.
Definition DefaultOptions : Options :=
  mkOptions false false false false false false false 0 4 None false 0 None None.

Definition set_DeleteExtra (v : bool) (o : Options) : Options :=
  mkOptions v o.(DryRun) o.(Checksum) o.(IgnoreExisting) o.(IgnoreSize) o.(IgnoreTime) o.(SizeOnly)
    o.(MaxErrors) o.(Concurrency) o.(FilterOpt) o.(DeleteExcluded) o.(BandwidthLimit) o.(Retry)
    o.(PreserveMetadata).
Definition set_Concurrency (v : Z) (o : Options) : Options :=
  mkOptions o.(DeleteExtra) o.(DryRun) o.(Checksum) o.(IgnoreExisting) o.(IgnoreSize) o.(IgnoreTime)
    o.(SizeOnly) o.(MaxErrors) v o.(FilterOpt) o.(DeleteExcluded) o.(BandwidthLimit) o.(Retry)
    o.(PreserveMetadata).

(** ** Results *)

Record FileError := mkFileError { ErrPath : string; Op : string; ErrOf : error }.

Definition FileError_Error (e : FileError) : string :=
  e.(Op) +:+ " " +:+ e.(ErrPath) +:+ ": " +:+ error_text e.(ErrOf).

Record Result := mkResult {
  Copied : Z;
  Updated : Z;
  Deleted : Z;
  Skipped : Z;
  Errors_ : list FileError;
  BytesTransferred : Z;
  WasDryRun : bool
}.

Definition Success (r : Result) : bool := bool_decide (length r.(Errors_) = 0).

(** [MaxErrors > 0 && len(result.Errors) >= MaxErrors] *)
Definition tooManyErrors (opts : Options) (r : Result) : bool :=
  (0 <? opts.(MaxErrors))%Z && (opts.(MaxErrors) <=? Z.of_nat (length r.(Errors_)))%Z.

Definition add_error (e : FileError) (r : Result) : Result :=
  mkResult r.(Copied) r.(Updated) r.(Deleted) r.(Skipped) (r.(Errors_) ++ [e]) r.(BytesTransferred) r.(WasDryRun).
Definition add_skipped (r : Result) : Result :=
  mkResult r.(Copied) r.(Updated) r.(Deleted) (r.(Skipped) + 1) r.(Errors_) r.(BytesTransferred) r.(WasDryRun).
Definition add_deleted (r : Result) : Result :=
  mkResult r.(Copied) r.(Updated) (r.(Deleted) + 1) r.(Skipped) r.(Errors_) r.(BytesTransferred) r.(WasDryRun).
Definition add_transferred (isUpdate : bool) (size : Z) (r : Result) : Result :=
  mkResult (if isUpdate then r.(Copied) else r.(Copied) + 1)%Z (if isUpdate then r.(Updated) + 1 else r.(Updated))%Z
    r.(Deleted) r.(Skipped) r.(Errors_) (r.(BytesTransferred) + size) r.(WasDryRun).

Record CheckResult := mkCheckResult {
  CMatch : list string;
  CDiffer : list string;
  CSrcOnly : list string;
  CDstOnly : list string;
  CErrors : list FileError
}.

Definition InSync (r : CheckResult) : bool :=
  bool_decide (length r.(CDiffer) = 0) && bool_decide (length r.(CSrcOnly) = 0)
  && bool_decide (length r.(CDstOnly) = 0).

Record FileInfo := mkFileInfo {
  FPath : string;
  FSize : Z;
  FModTime : time;
  FHash : string;
  FIsDir : bool
}.

(** ** NeedsUpdate *)

Definition NeedsUpdate `{TSync} (src dst : FileInfo) (opts : Options) : bool :=
  if opts.(SizeOnly) then negb (src.(FSize) =? dst.(FSize))%Z
  else if opts.(Checksum) && negb (bool_decide (src.(FHash) = "")) && negb (bool_decide (dst.(FHash) = ""))
  then negb (bool_decide (src.(FHash) = dst.(FHash)))
  else if negb opts.(IgnoreSize) && negb (src.(FSize) =? dst.(FSize))%Z then true
  else if negb opts.(IgnoreTime) && negb (tsync_Equal src.(FModTime) dst.(FModTime)) then true
  else false.

(** ** retryOperation

    The operation acts on a state; [None] is an operation that never returns.  The attempts are
    numbered from 0, [attempts] is how many are left.  The waits between the attempts, which take
    time and change nothing, are those of [Backoff.timed_loop]. *)
Section retry.
Context {W : Type}.
Variable op : W -> option (W * option error).

Fixpoint retry_loop (attempts : nat) (ctx : context) (config : RetryConfig) (w : W) : option (W * option error) :=
  match op w with
  | None => None
  | Some (w, None) => Some (w, None)
  | Some (w, Some err) =>
      let retryable := match config.(RetryableErrors) with Some f => f err | None => true end in
      if negb retryable then Some (w, Some err)
      else
        match ctx_err ctx with
        | Some e => Some (w, Some e)
        | None =>
            match attempts with
            | 0 => Some (w, Some (RetryError (config.(MaxRetries) + 1) err))
            | S attempts => retry_loop attempts ctx config w
            end
        end
  end.

Definition retryOperation (ctx : context) (config : RetryConfig) (w : W) : option (W * option error) :=
  if (config.(MaxRetries) <=? 0)%Z then op w
  else retry_loop (Z.to_nat config.(MaxRetries)) ctx config w.
End retry.

(** ** Lemmas and properties *)

(** [n] failed attempts lead from [w] to [w'], the last error being [e]. *)
Inductive failures {W} (op : W -> option (W * option error)) : nat -> W -> W -> error -> Prop :=
  | fail_one w w' e : op w = Some (w', Some e) -> failures op 1 w w' e
  | fail_more n w w1 w' e1 e : op w = Some (w1, Some e1) -> failures op n w1 w' e -> failures op (S n) w w' e.

Lemma retry_loop_failures {W} (op : W -> option (W * option error)) n config w w' e :
  config.(RetryableErrors) = None ->
  failures op (S n) w w' e ->
  retry_loop op n None config w = Some (w', Some (RetryError (config.(MaxRetries) + 1) e)).
Proof.
  intros Hr. revert w. induction n as [|n IH]; intros w Hf; inversion Hf; subst; cbn [retry_loop].
  - match goal with H : op w = _ |- _ => rewrite H end. by rewrite Hr.
  - match goal with H : failures _ 0 _ _ _ |- _ => inversion H end.
  - match goal with H : op w = _ |- _ => rewrite H end. rewrite Hr. by apply IH.
Qed.

Lemma retry_loop_success {W} (op : W -> option (W * option error)) n k config w w1 w' e :
  config.(RetryableErrors) = None -> k <= n ->
  failures op k w w1 e -> op w1 = Some (w', None) ->
  retry_loop op n None config w = Some (w', None).
Proof.
  intros Hr Hk Hf. revert n Hk. induction Hf as [w w1 e H|k w w2 w1 e1 e H Hf IH]; intros n Hk Hop.
  - destruct n as [|n]; [lia|]. cbn [retry_loop]. rewrite H, Hr. cbn.
    destruct n; cbn [retry_loop]; by rewrite Hop.
  - destruct n as [|n]; [lia|]. cbn [retry_loop]. rewrite H, Hr. cbn. apply IH; [lia|done].
Qed.

(** Claim C27. Retries: with [MaxRetries] = n and every error retryable, an operation that fails
    at most n times in a row and then succeeds succeeds; one that fails n + 1 times is given up
    after exactly those attempts, with a [RetryError] that counts them and wraps the last
    error; an error that is not retryable, or a context that is done, ends it at once. *)
Theorem retryOperation_spec {W} (op : W -> option (W * option error)) config w w1 w' e :
  (0 < config.(MaxRetries))%Z ->
  let n := Z.to_nat config.(MaxRetries) in
  (config.(RetryableErrors) = None -> forall k, k <= n -> failures op k w w1 e -> op w1 = Some (w', None) ->
     retryOperation op None config w = Some (w', None)) /\
  (config.(RetryableErrors) = None -> failures op (S n) w w' e ->
     exists err, retryOperation op None config w = Some (w', Some err) /\ IsRetryError err = true /\
       Unwrap err = Some e /\ err = RetryError (config.(MaxRetries) + 1) e) /\
  (op w = Some (w', Some e) -> (exists f, config.(RetryableErrors) = Some f /\ f e = false) ->
     forall ctx, retryOperation op ctx config w = Some (w', Some e)) /\
  (op w = Some (w', Some e) -> config.(RetryableErrors) = None ->
     forall c, retryOperation op (Some c) config w = Some (w', Some (err_ctx c))).
Proof.
  intros Hn n. unfold retryOperation. rewrite (proj2 (Z.leb_gt _ _)) by done. fold n. split_and!.
  - intros. by eapply retry_loop_success.
  - intros Hr Hf. eexists. split; [by apply retry_loop_failures|done].
  - intros Hop (f & Hf & He) ctx. destruct n; cbn [retry_loop]; by rewrite Hop, Hf, He.
  - intros Hop Hr c. destruct n; cbn [retry_loop]; by rewrite Hop, Hr.
Qed.

(** An operation on a counter that fails as long as it is positive. *)
Definition demo_op (n : nat) : option (nat * option error) :=
  match n with 0 => Some (0, None) | S n => Some (n, Some (Opaque "busy")) end.

Definition demo_config (n : Z) : RetryConfig :=
  mkRetryConfig n Second (30 * Second) (float64 2) float_0_1 None.

Lemma retryOperation_spec_witness :
  retryOperation demo_op None (demo_config 3) 3 = Some (0, None) /\
  retryOperation demo_op None (demo_config 2) 3 = Some (0, Some (RetryError 3 (Opaque "busy"))).
Proof.
  assert (failures demo_op 3 3 0 (Opaque "busy")) as Hf
    by (eapply fail_more; [done|]; eapply fail_more; [done|]; by apply fail_one).
  split.
  - apply (proj1 (retryOperation_spec demo_op (demo_config 3) 3 0 0 (Opaque "busy") eq_refl) eq_refl 3);
      [cbn; lia|exact Hf|done].
  - destruct (proj1 (proj2 (retryOperation_spec demo_op (demo_config 2) 3 0 0 (Opaque "busy") eq_refl)) eq_refl)
      as (err & H & _ & _ & ->); [exact Hf|exact H].
Defined.

(** The times are compared up to [tsync_Equal]: a file never needs an update against itself, and
    with sizes compared two files that need none have the same size. *)
Lemma NeedsUpdate_self `{TSyncLaws} f opts : NeedsUpdate f f opts = false.
Proof.
  unfold NeedsUpdate. rewrite Z.eqb_refl, tsync_refl, (bool_decide_eq_true_2 (FHash f = FHash f)) by done.
  cbn. rewrite !andb_false_r. by repeat case_match.
Qed.

(** What keeps a file: files that need no update agree in everything the options have
    compared: in size unless the comparison was by checksum or ignored sizes, in the hash when
    checksums decided, in the time when neither sizes alone nor a checksum decided. *)
Theorem NeedsUpdate_spec `{TSyncLaws} src dst opts :
  let hashed := opts.(Checksum) && negb (bool_decide (src.(FHash) = "")) && negb (bool_decide (dst.(FHash) = "")) in
  (NeedsUpdate src dst opts = false <->
     if opts.(SizeOnly) then src.(FSize) = dst.(FSize)
     else if hashed then src.(FHash) = dst.(FHash)
     else (opts.(IgnoreSize) = false -> src.(FSize) = dst.(FSize)) /\
          (opts.(IgnoreTime) = false -> tsync_Equal src.(FModTime) dst.(FModTime) = true)) /\
  NeedsUpdate src dst opts = NeedsUpdate dst src opts /\ NeedsUpdate src src opts = false.
Proof.
  split_and!; [| |apply NeedsUpdate_self].
  - unfold NeedsUpdate. destruct (SizeOnly opts); [rewrite negb_false_iff, Z.eqb_eq; done|].
    destruct (Checksum opts && _ && _); [rewrite negb_false_iff, bool_decide_eq_true; done|].
    destruct (IgnoreSize opts), (IgnoreTime opts), (Z.eqb_spec src.(FSize) dst.(FSize)),
      (tsync_Equal src.(FModTime) dst.(FModTime)); cbn; naive_solver.
  - unfold NeedsUpdate. rewrite (tsync_sym src.(FModTime)), (Z.eqb_sym src.(FSize)).
    rewrite <- !andb_assoc, (andb_comm (negb (bool_decide (src.(FHash) = "")))).
    by rewrite (bool_decide_ext (src.(FHash) = dst.(FHash)) (dst.(FHash) = src.(FHash))) by done.
Qed.
