(* ===== verification/Backoff.v ===== *)
(** * object/sync/retry.go: the waits between attempts

    [retryOperation] with its time: the delays it asks [time.After] for, the jitter drawn for
    each, and a context that may end while it waits.  Without the waits it is
    [SyncTypes.retryOperation]; the waits stay within bounds as long as the delays are below
    2^53 nanoseconds (104 days) and do not overflow.  Also the predicate [IsTemporaryError]. *)

From Stdlib Require Import Floats.SpecFloat.
From S2P Require Import Prelude GoLib Errors GoFloat SyncTypes.

(** What an attempt that failed sees: what [ctx.Err()] says after it, what [rand.Float64()]
    draws for its jitter, and whether the context ends before the timer fires. *)
Record observation := mkObservation {
  err_after : context;
  draw : spec_float;
  err_waiting : context
}.

(** The defaults [retryOperation] applies. *)
Definition with_defaults (config : RetryConfig) : RetryConfig :=
  mkRetryConfig config.(MaxRetries)
    (if (config.(InitialDelay) <=? 0)%Z then Second else config.(InitialDelay))
    (if (config.(MaxDelay) <=? 0)%Z then 30 * Second else config.(MaxDelay))
    (if float_le0 config.(Multiplier) then float64 2 else config.(Multiplier))
    config.(Jitter) config.(RetryableErrors).

Definition jittered (config : RetryConfig) (u : spec_float) (delay : duration) : duration :=
  if float_gt0 config.(Jitter) then
    let jitter := fmul (float64 delay) config.(Jitter) in
    wrap64 (delay + int64_of (fmul (fsub (fmul u (float64 2)) (float64 1)) jitter))
  else delay.

Definition next_delay (config : RetryConfig) (delay : duration) : duration :=
  let delay := int64_of (fmul (float64 delay) config.(Multiplier)) in
  if (config.(MaxDelay) <? delay)%Z then config.(MaxDelay) else delay.

Section retry.
Context {W : Type}.
Variable op : W -> option (W * option error).

(** The loop, with the delays it asked for. *)
Fixpoint timed_loop (attempts : nat) (obs : nat -> observation) (config : RetryConfig) (delay : duration) (w : W)
    : option (W * list duration * option error) :=
  match op w with
  | None => None
  | Some (w, None) => Some (w, [], None)
  | Some (w, Some err) =>
      let retryable := match config.(RetryableErrors) with Some f => f err | None => true end in
      if negb retryable then Some (w, [], Some err)
      else
        match ctx_err (obs 0).(err_after) with
        | Some e => Some (w, [], Some e)
        | None =>
            match attempts with
            | 0 => Some (w, [], Some (RetryError (config.(MaxRetries) + 1) err))
            | S attempts =>
                let actualDelay := jittered config (obs 0).(draw) delay in
                match ctx_err (obs 0).(err_waiting) with
                | Some e => Some (w, [actualDelay], Some e)
                | None =>
                    '(w, waits, e) ← timed_loop attempts (fun i => obs (S i)) config (next_delay config delay) w;
                    Some (w, actualDelay :: waits, e)
                end
            end
        end
  end.

Definition timed_retryOperation (obs : nat -> observation) (config : RetryConfig) (w : W)
    : option (W * list duration * option error) :=
  if (config.(MaxRetries) <=? 0)%Z then '(w, e) ← op w; Some (w, [], e)
  else
    let config := with_defaults config in
    timed_loop (Z.to_nat config.(MaxRetries)) obs config config.(InitialDelay) w.
End retry.

(** ** IsTemporaryError

    Which foreign errors have the methods [Temporary] and [Timeout], and what they answer. *)
Class ForeignErrors := {
  foreign_Temporary : string -> option bool;
  foreign_Timeout : string -> option bool
}.

Section temporary.
Context `{ForeignErrors}.

(** [errors.As] for an interface of one method: the first error of the chain that has it. *)
Fixpoint errors_As_method (method : error -> option bool) (e : error) : option bool :=
  match method e with
  | Some b => Some b
  | None =>
      match e with
      | Wrapf _ c _ | SessionError _ _ _ (Some c) | MultiError (c :: _) | RetryError _ c => errors_As_method method c
      | _ => None
      end
  end.

(** The error of a context whose deadline has passed has both methods, and answers yes. *)
Definition method_of (foreign : string -> option bool) (e : error) : option bool :=
  match e with
  | Sentinel (ContextSentinel DeadlineExceeded) => Some true
  | Opaque text => foreign text
  | _ => None
  end.

Definition IsTemporaryError (e : option error) : bool :=
  match e with
  | None => false
  | Some e =>
      match errors_As_method (method_of foreign_Temporary) e with
      | Some b => b
      | None => match errors_As_method (method_of foreign_Timeout) e with Some b => b | None => false end
      end
  end.
End temporary.

(** ** Lemmas and properties *)

(** The result without the waits. *)
Definition untimed {W} (r : option (W * list duration * option error)) : option (W * option error) :=
  '(w, _, e) ← r; Some (w, e).

Lemma untimed_loop {W} (op : W -> option (W * option error)) n obs ctx config delay w :
  (forall i, (obs i).(err_after) = ctx /\ (ctx = None -> (obs i).(err_waiting) = None)) ->
  untimed (timed_loop op n obs config delay w) = retry_loop op n ctx config w.
Proof.
  revert obs delay w. induction n as [|n IH]; intros obs delay w Hobs; cbn [timed_loop retry_loop];
    destruct (op w) as [[w' [err|]]|]; try done; rewrite (proj1 (Hobs 0));
    match goal with |- context [negb ?b] => destruct b end; cbn [negb]; try done;
    destruct ctx as [e|]; try done; cbn [ctx_err fmap option_fmap option_map].
  rewrite (proj2 (Hobs 0)) by done. cbn [ctx_err fmap option_fmap option_map].
  rewrite <-(IH (fun i => obs (S i)) (next_delay config delay)) by (intros i; apply (Hobs (S i))).
  by destruct (timed_loop _ _ _ _ _ _) as [[[??]?]|].
Qed.

Lemma retry_loop_ext {W} (op : W -> option (W * option error)) n ctx c c' w :
  c.(MaxRetries) = c'.(MaxRetries) -> c.(RetryableErrors) = c'.(RetryableErrors) ->
  retry_loop op n ctx c w = retry_loop op n ctx c' w.
Proof.
  intros H1 H2. revert w. induction n as [|n IH]; intros w; cbn [retry_loop]; rewrite ?H1, ?H2;
    destruct (op w) as [[w' [err|]]|]; try done; by rewrite ?IH, ?H1.
Qed.

(** The waits change nothing but the time: under a context that does not end while the
    operation runs (or has ended before), the outcome and the attempts made are those of the
    retries without waits, whatever delays are configured or drawn. *)
Theorem timed_retry_refines {W} (op : W -> option (W * option error)) obs ctx config w :
  (forall i, (obs i).(err_after) = ctx /\ (ctx = None -> (obs i).(err_waiting) = None)) ->
  untimed (timed_retryOperation op obs config w) = retryOperation op ctx config w.
Proof.
  intros Hobs. unfold timed_retryOperation, retryOperation. case_match.
  - by destruct (op w) as [[??]|].
  - rewrite (untimed_loop _ _ _ ctx) by done. by apply retry_loop_ext.
Qed.

Local Open Scope Z_scope.

(** Delays that do not overflow, a multiplier of at least one, a jitter of at most one. *)
Record delays_ok (c : RetryConfig) : Prop := mkDelaysOk {
  initial_ok : 0 < c.(InitialDelay) <= c.(MaxDelay);
  max_ok : c.(MaxDelay) < 2 ^ 53;
  multiplier_ok : finite c.(Multiplier) /\ unit_ <= sval c.(Multiplier) <= 512 * unit_;
  jitter_ok : finite c.(Jitter) /\ 0 <= sval c.(Jitter) <= unit_
}.

(** What [rand.Float64] promises, and a little more: between zero and one. *)
Definition draw_ok (o : observation) : Prop := finite o.(draw) /\ 0 <= sval o.(draw) <= unit_.

(** The delay before the k-th retry, without jitter. *)
Definition base_delay (c : RetryConfig) (k : nat) : duration := Nat.iter k (next_delay c) c.(InitialDelay).

Lemma float64_value z s m e : float64 z = S754_finite s m e -> finite (float64 z) -> mag (Zpos m) e = z * unit_ ->
  s = false -> sval (float64 z) = z * unit_.
Proof. intros -> _ Hm ->. exact Hm. Qed.

Lemma float64_2_62 : finite (float64 (2 ^ 62)) /\ sval (float64 (2 ^ 62)) = 2 ^ 62 * unit_.
Proof. split; [|by vm_compute]. vm_compute. repeat split; try done. by right. Qed.

Lemma next_delay_bounds c d :
  delays_ok c -> 0 < d <= c.(MaxDelay) -> d <= next_delay c d <= c.(MaxDelay).
Proof.
  intros [Hi Hmax [Hmf Hm] Hj] Hd. pose proof unit_pos. destruct (float64_exact d) as [Hf Hs]; [lia|].
  destruct float64_2_62 as [Hf62 Hs62].
  assert (sval (float64 d) * sval c.(Multiplier) <= 2 ^ 62 * unit_ * unit_) as Hub.
  { rewrite Hs. transitivity (2 ^ 53 * unit_ * (512 * unit_)); [|lia]. apply Z.mul_le_mono_nonneg; nia. }
  destruct (fmul_le (float64 d) c.(Multiplier) (float64 (2 ^ 62))) as [Hpf Hple]; [done..|rewrite Hs62, !Z.abs_eq by lia; exact Hub|].
  assert (d * unit_ <= sval (fmul (float64 d) c.(Multiplier))) as Hge.
  { rewrite <-Hs. apply fmul_ge; try done; nia. }
  unfold next_delay.
  destruct (int64_of_ge (fmul (float64 d) c.(Multiplier)) d (2 ^ 62)) as [? ?];
    [done|lia|unfold two63; lia|rewrite Hs62 in Hple; lia|].
  case_match eqn:E; [apply Z.ltb_lt in E|apply Z.ltb_ge in E]; lia.
Qed.

Lemma base_delay_bounds c k :
  delays_ok c -> c.(InitialDelay) <= base_delay c k <= c.(MaxDelay) /\ base_delay c k <= base_delay c (S k) <= c.(MaxDelay).
Proof.
  intros Hok. pose proof (initial_ok c Hok). assert (forall k, base_delay c (S k) = next_delay c (base_delay c k)) as HS by done.
  assert (c.(InitialDelay) <= base_delay c k <= c.(MaxDelay)) as Hk.
  { induction k as [|k IH]; [cbn; lia|]. rewrite HS. destruct (next_delay_bounds c (base_delay c k)); [done|lia|lia]. }
  split; [done|]. rewrite HS. apply next_delay_bounds; [done|lia].
Qed.

(** The jitter moves a delay by no more than its share of it. *)
Lemma jittered_bounds c u d :
  delays_ok c -> finite u -> 0 <= sval u <= unit_ -> 0 < d < 2 ^ 53 ->
  Z.abs (jittered c u d - d) <= int64_of (fmul (float64 d) c.(Jitter)) <= d.
Proof.
  intros Hok Huf Hu Hd. destruct (jitter_ok c Hok) as [Hjf Hj]. pose proof unit_pos.
  destruct (float64_exact d) as [Hf Hs]; [lia|]. destruct (float64_exact 2) as [Hf2 Hs2]; [lia|].
  destruct (float64_exact 1) as [Hf1 Hs1]; [lia|].
  destruct (fmul_le u (float64 2) (float64 2)) as [Htf Ht]; [done..|rewrite Hs2; nia|].
  pose proof (fmul_nonneg u (float64 2) Huf Hf2 ltac:(lia) ltac:(lia)) as Ht0.
  destruct (fsub_le (fmul u (float64 2)) (float64 1) (float64 1)) as [Hxf Hx]; [done..|lia|].
  set (x := fsub _ _) in *.
  destruct (fmul_le (float64 d) c.(Jitter) (float64 d)) as [Hmf Hm]; [done..|nia|].
  pose proof (fmul_nonneg (float64 d) c.(Jitter) Hf Hjf ltac:(nia) ltac:(lia)) as Hm0.
  set (jitter := fmul (float64 d) _) in *.
  destruct (fmul_le x jitter jitter) as [Hpf Hp]; [done..|nia|].
  destruct (int64_of_mono (fmul x jitter) jitter d) as [Hlo Hhi]; [done|done|unfold two63; lia|nia|lia|].
  split; [|done]. unfold jittered. fold jitter. case_match; [|rewrite Z.sub_diag; cbn; lia].
  fold x. rewrite wrap64_id by (unfold in_int64, two63; lia). lia.
Qed.

(** The waits the loop asked for: at most one per retry, each a jittered base delay. *)
Lemma timed_loop_waits {W} (op : W -> option (W * option error)) n obs c d w w' waits e :
  timed_loop op n obs c d w = Some (w', waits, e) ->
  (length waits <= n)%nat /\
  forall k a, waits !! k = Some a -> a = jittered c (obs k).(draw) (Nat.iter k (next_delay c) d).
Proof.
  revert obs d w waits. induction n as [|n IH]; intros obs d w waits; cbn [timed_loop];
    destruct (op w) as [[w1 [err|]]|]; intros Hl; try (repeat case_match; simplify_eq/=; (split; [lia|done])).
  match type of Hl with (if negb ?b then _ else _) = _ => destruct b end; cbn [negb] in Hl;
    [|simplify_eq; split; [cbn; lia|done]].
  destruct (ctx_err (err_after _)); [simplify_eq; split; [cbn; lia|done]|].
  destruct (ctx_err (err_waiting _)).
  { simplify_eq. split; [cbn; lia|]. intros [|k] a Ha; [by simplify_eq/=|done]. }
  destruct (timed_loop op n _ c _ w1) as [[[w2 waits'] e2]|] eqn:Hrec; simplify_eq/=.
  apply IH in Hrec as [Hlen Hwaits]. split; [lia|]. intros [|k] a Ha; [by simplify_eq/=|].
  cbn [lookup list_lookup] in Ha. rewrite (Hwaits k a Ha), Nat.iter_succ_r. done.
Qed.

(** Claim C15. Exponential backoff stays within its bounds: at most [MaxRetries] waits; the delays
    they are drawn around start at the initial delay, never shrink and never exceed the maximum;
    the jitter moves a wait by no more than [Jitter] times its delay, so no wait is negative. *)
Theorem backoff_bounds {W} (op : W -> option (W * option error)) obs config w w' waits e :
  let c := with_defaults config in
  delays_ok c -> (forall i, draw_ok (obs i)) ->
  timed_retryOperation op obs config w = Some (w', waits, e) ->
  Z.of_nat (length waits) <= Z.max 0 config.(MaxRetries) /\
  forall k a, waits !! k = Some a ->
    let d := base_delay c k in
    c.(InitialDelay) <= d <= base_delay c (S k) /\ base_delay c (S k) <= c.(MaxDelay) /\
    Z.abs (a - d) <= int64_of (fmul (float64 d) c.(Jitter)) <= d.
Proof.
  intros c Hok Hdraw. unfold timed_retryOperation. fold c. destruct (Z.leb_spec config.(MaxRetries) 0).
  - destruct (op w) as [[??]|]; intros; simplify_eq/=. split; [lia|done].
  - intros [Hlen Hwaits]%timed_loop_waits. split; [cbn [with_defaults MaxRetries] in Hlen; unfold c in Hlen; cbn in Hlen; lia|].
    intros k a ->%Hwaits. fold (base_delay c k). destruct (base_delay_bounds c k Hok), (Hdraw k).
    pose proof (max_ok c Hok). pose proof (initial_ok c Hok).
    split_and!; [lia..| |]; apply (jittered_bounds c (obs k).(draw)); auto; lia.
Qed.

(** An observation with nothing cancelled and a quarter drawn. *)
Definition quarter : observation := mkObservation None (S754_finite false 4503599627370496 (-54)) None.

Lemma quarter_ok : draw_ok quarter.
Proof. split; [vm_compute; intuition (try congruence; by right)|by vm_compute]. Qed.

Lemma default_delays_ok n f : delays_ok (with_defaults (mkRetryConfig n Second (30 * Second) (float64 2) float_0_1 f)).
Proof. split; [by vm_compute|by vm_compute|..]; (split; [vm_compute; intuition (try congruence; by right)|by vm_compute]). Qed.

Lemma backoff_bounds_witness :
  timed_retryOperation demo_op (fun _ => quarter) (demo_config 3) 3%nat
    = Some (0%nat, [950000000; 1900000000; 3800000000], None) /\
  Z.of_nat (length [950000000; 1900000000; 3800000000]) <= 3.
Proof.
  split; [by vm_compute|].
  apply (backoff_bounds demo_op (fun _ => quarter) (demo_config 3) 3%nat 0%nat [950000000; 1900000000; 3800000000] None);
    [apply default_delays_ok|intros _; apply quarter_ok|by vm_compute].
Defined.

Lemma timed_retry_refines_witness :
  untimed (timed_retryOperation demo_op (fun _ => quarter) (demo_config 2) 3%nat)
    = Some (0%nat, Some (RetryError 3 (Opaque "busy"))).
Proof. rewrite (timed_retry_refines demo_op (fun _ => quarter) None (demo_config 2) 3%nat); [done|by intros i]. Defined.

(** By default the delays double from one second up to thirty, and the jitter moves each by a
    tenth at most. *)
Lemma default_base_delay n f k :
  base_delay (with_defaults (mkRetryConfig n Second (30 * Second) (float64 2) float_0_1 f)) k
    = Z.min (2 ^ Z.of_nat k) 30 * Second.
Proof.
  set (c := with_defaults _). destruct (decide (k < 5)%nat) as [Hlt|Hge].
  - do 5 (destruct k as [|k]; [by vm_compute|]). lia.
  - rewrite Z.min_r.
    + replace k with ((k - 5) + 5)%nat by lia. induction (k - 5)%nat as [|j IH]; [by vm_compute|].
      change (base_delay c (S j + 5)) with (next_delay c (base_delay c (j + 5))). rewrite IH. by vm_compute.
    + transitivity (2 ^ 5); [lia|]. apply Z.pow_le_mono_r; lia.
Qed.

Theorem default_backoff {W} (op : W -> option (W * option error)) obs n f w w' waits e :
  (forall i, draw_ok (obs i)) ->
  timed_retryOperation op obs (mkRetryConfig n Second (30 * Second) (float64 2) float_0_1 f) w = Some (w', waits, e) ->
  forall k a, waits !! k = Some a ->
    let d := Z.min (2 ^ Z.of_nat k) 30 * Second in 10 * Z.abs (a - d) <= d.
Proof.
  intros Hdraw. unfold timed_retryOperation. case_match.
  - destruct (op w) as [[??]|]; intros; by simplify_eq/=.
  - intros [_ Hwaits]%timed_loop_waits k a ->%Hwaits. pose proof (default_base_delay n f k) as Hk.
    set (c := with_defaults _) in *. change (Nat.iter k (next_delay c) (InitialDelay c)) with (base_delay c k). rewrite Hk.
    assert (1 <= 2 ^ Z.of_nat k) by (pose proof (pow2_pos (Z.of_nat k)); lia). cbv zeta.
    destruct (jittered_bounds c (obs k).(draw) (Z.min (2 ^ Z.of_nat k) 30 * Second)) as [Hj _];
      [apply default_delays_ok|apply Hdraw|apply Hdraw|unfold Second; lia|].
    enough (10 * int64_of (fmul (float64 (Z.min (2 ^ Z.of_nat k) 30 * Second)) c.(Jitter)) <= Z.min (2 ^ Z.of_nat k) 30 * Second) by lia.
    destruct (decide (k < 5)%nat); [|rewrite Z.min_r; [by vm_compute|transitivity (2 ^ 5); [lia|apply Z.pow_le_mono_r; lia]]].
    do 5 (destruct k as [|k]; [by vm_compute|]). lia.
Qed.

(** Only the delays after the first are capped by [MaxDelay]. *)
Example first_delay_uncapped :
  timed_retryOperation demo_op (fun _ => quarter)
    (mkRetryConfig 2 (60 * Second) (10 * Second) (float64 2) (float64 0) None) 2%nat
  = Some (0%nat, [60 * Second; 10 * Second], None).
Proof. by vm_compute. Qed.

(** A multiplier that overflows int64 makes the delay negative: [MaxDelay] does not cap it, and
    from then on the retries do not wait at all. *)
Example overflow_never_waits :
  timed_retryOperation demo_op (fun _ => quarter)
    (mkRetryConfig 3 Second (10 * Second) (float64 10000000000) (float64 0) None) 3%nat
  = Some (0%nat, [Second; - two63; - two63], None).
Proof. by vm_compute. Qed.

(** Of the module's own errors only those of a passed deadline are temporary, however they are
    wrapped; an error of other code is what its methods say. *)
Lemma IsTemporaryError_spec `{ForeignErrors} before after n code message details e :
  IsTemporaryError (Some (err_ctx DeadlineExceeded)) = true /\
  IsTemporaryError (Some (err_ctx Canceled)) = false /\
  IsTemporaryError (Some (Wrapf before e after)) = IsTemporaryError (Some e) /\
  IsTemporaryError (Some (SessionError code message details (Some e))) = IsTemporaryError (Some e) /\
  IsTemporaryError (Some (RetryError n e)) = IsTemporaryError (Some e).
Proof. split_and!; done. Qed.
