(* ===== verification/RateLimit.v ===== *)
(** * object/sync/ratelimit.go: the token bucket

    A bucket is shared by the readers of a sync.  [wait] sleeps until it holds enough tokens;
    the readings of the clock at its refills are an argument, and fuel bounds the refills.
    The float64 arithmetic of [refill] is that of [GoFloat]. *)

From Stdlib Require Import Floats.SpecFloat.
From S2P Require Import Prelude GoLib Errors GoFloat.

(** [Duration.Seconds] *)
Definition Seconds (d : duration) : spec_float :=
  fadd (float64 (Z.quot d Second)) (fdiv (float64 (Z.rem d Second)) (float64 Second)).

(** ** The bucket *)

Record tokenBucket := mkBucket {
  rate : Z;
  tokens : Z;
  maxTokens : Z;
  lastRefill : time
}.

Definition newTokenBucket (now : time) (bytesPerSecond : Z) : option tokenBucket :=
  if (bytesPerSecond <=? 0)%Z then None
  else Some (mkBucket bytesPerSecond bytesPerSecond bytesPerSecond now).

(** The tokens of the time since the last refill. *)
Definition newTokens (rate : Z) (lastRefill now : time) : Z :=
  int64_of (fmul (Seconds (Sub now lastRefill)) (float64 rate)).

Definition cap (tb : tokenBucket) (t : Z) : Z := if (tb.(maxTokens) <? t)%Z then tb.(maxTokens) else t.

Definition refill (now : time) (tb : tokenBucket) : tokenBucket :=
  mkBucket tb.(rate) (cap tb (wrap64 (tb.(tokens) + newTokens tb.(rate) tb.(lastRefill) now))) tb.(maxTokens) now.

Definition waitDuration (needed : Z) (tb : tokenBucket) : duration :=
  Z.quot (wrap64 ((needed - tb.(tokens)) * Second)) tb.(rate).

(** The loop of [wait]: the clock's readings, and what it slept; [None] when the fuel runs out. *)
Fixpoint wait_loop (fuel : nat) (clock : nat -> time) (needed : Z) (tb : tokenBucket)
    : option (tokenBucket * list duration) :=
  match fuel with
  | 0 => None
  | S fuel =>
      if (tb.(tokens) <? needed)%Z then
        '(tb', slept) ← wait_loop fuel (fun i => clock (S i)) needed (refill (clock 0) tb);
        Some (tb', waitDuration needed tb :: slept)
      else Some (mkBucket tb.(rate) (tb.(tokens) - needed) tb.(maxTokens) tb.(lastRefill), [])
  end.

(** [tb] may be nil. *)
Definition wait (fuel : nat) (clock : nat -> time) (n : Z) (tb : option tokenBucket)
    : option (option tokenBucket * list duration) :=
  match tb with
  | None => Some (None, [])
  | Some tb =>
      if (tb.(rate) =? 0)%Z then Some (Some tb, [])
      else
        '(tb', slept) ← wait_loop fuel (fun i => clock (S i)) n (refill (clock 0) tb);
        Some (Some tb', slept)
  end.

Definition returnTokens (n : Z) (tb : option tokenBucket) : option tokenBucket :=
  match tb with
  | None => None
  | Some tb =>
      if (n <=? 0)%Z then Some tb
      else Some (mkBucket tb.(rate) (cap tb (wrap64 (tb.(tokens) + n))) tb.(maxTokens) tb.(lastRefill))
  end.

(** ** The limited reader

    [rateLimitedReader] around a reader whose [Read] takes the length of the buffer. *)
Section reader.
Context {W R : Type}.
Context (read : W -> R -> nat -> W * R * bytes * option error).

Definition chunkSize : nat := 64 * 1024.

Definition limited_Read (fuel : nat) (clock : nat -> time) (w : W) (r : R) (bucket : option tokenBucket) (len_p : nat)
    : option (W * R * option tokenBucket * bytes * option error) :=
  match bucket with
  | None => let '(w, r, d, e) := read w r len_p in Some (w, r, bucket, d, e)
  | Some tb =>
      if (tb.(rate) =? 0)%Z then let '(w, r, d, e) := read w r len_p in Some (w, r, bucket, d, e)
      else
        let toRead := Nat.min len_p chunkSize in
        '(bucket, _) ← wait fuel clock (Z.of_nat toRead) bucket;
        let '(w, r, d, e) := read w r toRead in
        let bucket :=
          if decide (length d < toRead) then returnTokens (Z.of_nat (toRead - length d)) bucket else bucket in
        Some (w, r, bucket, d, e)
  end.
End reader.

(** Whether [wait(n)] blocks for ever: the bucket never holds more than its burst. *)
Definition blocks (n : Z) (tb : option tokenBucket) : bool :=
  match tb with
  | None => false
  | Some tb => negb (tb.(rate) =? 0)%Z && (tb.(maxTokens) <? n)%Z
  end.

(** ** Lemmas and properties *)

(** Between zero and the burst, with room for a refill before int64 overflows. *)
Definition bucket_ok (tb : tokenBucket) : Prop :=
  (0 < tb.(rate) /\ 0 <= tb.(tokens) <= tb.(maxTokens) /\ tb.(maxTokens) < two63)%Z.

(** What [refill] adds between two readings of the clock: at least [least], and no overflow. *)
Definition grants (least : Z) (tb : tokenBucket) (t u : time) : Prop :=
  (least <= newTokens tb.(rate) t u < two63 - tb.(maxTokens))%Z.

Lemma cap_le tb t : (cap tb t <= tb.(maxTokens))%Z.
Proof. unfold cap. destruct (Z.ltb_spec tb.(maxTokens) t); lia. Qed.

Lemma refill_ok least now tb :
  (0 <= least)%Z -> bucket_ok tb -> grants least tb tb.(lastRefill) now ->
  bucket_ok (refill now tb) /\
  ((refill now tb).(tokens) = Z.min tb.(maxTokens) (tb.(tokens) + newTokens tb.(rate) tb.(lastRefill) now))%Z.
Proof.
  unfold bucket_ok, grants, refill, cap. cbn. intros Hl (? & ? & ?) ?.
  rewrite wrap64_id by (unfold in_int64, two63 in *; lia). match goal with |- context [(?a <? ?b)%Z] => destruct (Z.ltb_spec a b) end; lia.
Qed.

Lemma wait_loop_blocks fuel clock needed tb :
  (tb.(tokens) <= tb.(maxTokens) < needed)%Z -> wait_loop fuel clock needed tb = None.
Proof.
  revert clock tb. induction fuel as [|fuel IH]; intros clock tb Hn; [done|]. cbn [wait_loop].
  rewrite (proj2 (Z.ltb_lt _ _)) by lia. rewrite IH; [done|].
  pose proof (cap_le tb (wrap64 (tb.(tokens) + newTokens tb.(rate) tb.(lastRefill) (clock 0)))). cbn. lia.
Qed.

(** What the clock has granted over its first [k] steps after [t]. *)
Fixpoint granted (k : nat) (tb : tokenBucket) (t : time) (clock : nat -> time) : Z :=
  match k with
  | 0 => 0
  | S k => newTokens tb.(rate) t (clock 0) + granted k tb (clock 0) (fun i => clock (S i))
  end.

Lemma wait_loop_step fuel clock needed tb :
  wait_loop (S fuel) clock needed tb =
    if (tb.(tokens) <? needed)%Z then
      '(tb', slept) ← wait_loop fuel (fun i => clock (S i)) needed (refill (clock 0) tb);
      Some (tb', waitDuration needed tb :: slept)
    else Some (mkBucket tb.(rate) (tb.(tokens) - needed) tb.(maxTokens) tb.(lastRefill), []).
Proof. done. Qed.

Lemma granted_refill k u tb t clock : granted k (refill u tb) t clock = granted k tb t clock.
Proof. revert t clock. induction k as [|k IH]; intros t clock; [done|]. cbn [granted]. by rewrite IH. Qed.

(** What [wait needed] leaves after [k] refills of a bucket that [clock] last refilled at [t]. *)
Definition served (needed : Z) (k : nat) (t : time) (clock : nat -> time) (tb tb' : tokenBucket) : Prop :=
  bucket_ok tb' /\ (tb'.(tokens) + needed <= tb'.(maxTokens))%Z /\ tb'.(maxTokens) = tb.(maxTokens) /\
  (tb'.(tokens) + needed <= tb.(tokens) + granted k tb t clock)%Z.

Lemma served_now needed t clock tb :
  bucket_ok tb -> (0 <= needed <= tb.(tokens))%Z ->
  served needed 0 t clock tb (mkBucket tb.(rate) (tb.(tokens) - needed) tb.(maxTokens) tb.(lastRefill)).
Proof. unfold served, bucket_ok. cbn. lia. Qed.

(** Each refill of at least a token brings the loop closer, whatever the rounding. *)
Lemma wait_loop_returns n clock needed tb :
  bucket_ok tb -> (0 <= needed <= tb.(maxTokens))%Z -> (needed - tb.(tokens) <= Z.of_nat n)%Z ->
  grants 1 tb tb.(lastRefill) (clock 0) -> (forall i, grants 1 tb (clock i) (clock (S i))) ->
  exists tb' slept, wait_loop (S n) clock needed tb = Some (tb', slept) /\
    served needed (length slept) tb.(lastRefill) clock tb tb'.
Proof.
  revert clock tb. induction n as [|n IH]; intros clock tb Hok Hn Hd Hg0 Hg; rewrite wait_loop_step.
  { rewrite (proj2 (Z.ltb_ge _ _)) by lia. eexists _, _. split; [done|]. apply served_now; [done|lia]. }
  destruct (Z.ltb_spec tb.(tokens) needed); [|eexists _, _; split; [done|]; apply served_now; [done|lia]].
  destruct (refill_ok 1 (clock 0) tb ltac:(lia) Hok Hg0) as [Hok' Ht].
  destruct (IH (fun i => clock (S i)) (refill (clock 0) tb)) as (tb' & slept & Hw & Hok2 & ? & ? & Hb);
    [done|done|unfold grants in Hg0; lia|apply (Hg 0)|intros i; apply (Hg (S i))|].
  rewrite Hw. eexists _, _. split; [done|]. split_and!; [done..|]. rewrite Ht in Hb. cbn [length granted] in *.
  rewrite granted_refill in Hb.
  change (lastRefill (refill (clock 0) tb)) with (clock 0) in Hb. lia.
Qed.

Lemma wait_returns n clock tb :
  bucket_ok tb -> (0 <= n <= tb.(maxTokens))%Z ->
  grants 0 tb tb.(lastRefill) (clock 0) -> (forall i, grants 1 tb (clock i) (clock (S i))) ->
  exists tb' slept, wait (S (Z.to_nat n)) clock n (Some tb) = Some (Some tb', slept) /\
    served n (S (length slept)) tb.(lastRefill) clock tb tb'.
Proof.
  intros Hok Hn Hg0 Hg. destruct (refill_ok 0 (clock 0) tb ltac:(lia) Hok Hg0) as [Hok' Ht].
  destruct (wait_loop_returns (Z.to_nat n) (fun i => clock (S i)) n (refill (clock 0) tb))
    as (tb' & slept & Hw & Hok2 & ? & ? & Hb);
    [done|done|unfold bucket_ok in Hok'; lia|apply (Hg 0)|intros i; apply (Hg (S i))|].
  exists tb', slept. unfold wait. rewrite (proj2 (Z.eqb_neq _ _)) by (unfold bucket_ok in Hok; lia). rewrite Hw.
  split; [done|]. split_and!; [done..|]. rewrite Ht in Hb. cbn [granted].
  rewrite granted_refill in Hb.
  change (lastRefill (refill (clock 0) tb)) with (clock 0) in Hb. lia.
Qed.

Lemma wait_blocks fuel clock n tb : blocks n (Some tb) = true -> wait fuel clock n (Some tb) = None.
Proof.
  unfold blocks, wait. intros [H1%negb_true_iff H2%Z.ltb_lt]%andb_true_iff. rewrite H1, wait_loop_blocks; [done|].
  split; [apply (cap_le tb)|done].
Qed.

(** Claim C31. The token bucket: with a clock that grants at least a token per refill, [wait n]
    returns when n is within the burst, whatever the bucket holds; it leaves the bucket between
    zero and the burst, and it has taken no more than the bucket held and the clock granted
    since.  With n above the burst it never returns, whatever the clock does. *)
Theorem wait_spec n clock tb :
  bucket_ok tb -> (0 <= n)%Z ->
  grants 0 tb tb.(lastRefill) (clock 0) -> (forall i, grants 1 tb (clock i) (clock (S i))) ->
  if (n <=? tb.(maxTokens))%Z then
    exists tb' slept, wait (S (Z.to_nat n)) clock n (Some tb) = Some (Some tb', slept) /\ bucket_ok tb' /\
      (tb'.(tokens) + n <= tb.(tokens) + granted (S (length slept)) tb tb.(lastRefill) clock)%Z
  else forall fuel clock', wait fuel clock' n (Some tb) = None.
Proof.
  intros Hok Hn Hg0 Hg. destruct (Z.leb_spec n tb.(maxTokens)).
  - destruct (wait_returns n clock tb) as (tb' & slept & ? & ? & ? & ? & ?); [done..|]. by exists tb', slept.
  - intros fuel clock'. apply wait_blocks. unfold blocks.
    by rewrite (proj2 (Z.eqb_neq _ _)), (proj2 (Z.ltb_lt _ _)) by (unfold bucket_ok in Hok; lia).
Qed.

(** A limited reader yields what the reader it wraps yields for a buffer cut to a
    chunk, and keeps the bucket well formed; or it never returns: exactly when that buffer is
    larger than the burst, one second's worth of bytes. *)
Theorem limited_Read_spec {W R} (read : W -> R -> nat -> W * R * bytes * option error) clock w r tb len_p w' r' d e :
  bucket_ok tb -> grants 0 tb tb.(lastRefill) (clock 0) -> (forall i, grants 1 tb (clock i) (clock (S i))) ->
  let toRead := Nat.min len_p chunkSize in
  read w r toRead = (w', r', d, e) -> length d <= toRead ->
  if blocks (Z.of_nat toRead) (Some tb) then forall fuel clock', limited_Read read fuel clock' w r (Some tb) len_p = None
  else exists tb', limited_Read read (S toRead) clock w r (Some tb) len_p = Some (w', r', Some tb', d, e) /\ bucket_ok tb'.
Proof.
  intros Hok Hg0 Hg toRead Hr Hd. assert ((tb.(rate) =? 0)%Z = false) as Hrate
    by (apply Z.eqb_neq; unfold bucket_ok in Hok; lia).
  unfold limited_Read. rewrite Hrate. fold toRead. destruct (blocks _ _) eqn:Hb.
  - intros fuel clock'. by rewrite wait_blocks.
  - unfold blocks in Hb. rewrite Hrate in Hb. apply Z.ltb_ge in Hb.
    destruct (wait_returns (Z.of_nat toRead) clock tb) as (tb' & slept & Hw & Hok' & Hle & _); [done|lia|done..|].
    rewrite Nat2Z.id in Hw. rewrite Hw. cbn [mbind option_bind]. rewrite Hr.
    destruct (decide (length d < toRead)); [|by exists tb'].
    unfold returnTokens. rewrite (proj2 (Z.leb_gt _ _)) by lia. eexists. split; [done|].
    unfold bucket_ok, cap in *. cbn. rewrite wrap64_id by (unfold in_int64, two63 in *; lia).
    match goal with |- context [(?a <? ?b)%Z] => destruct (Z.ltb_spec a b) end; lia.
Qed.

(** A clock that ticks every second, for ten bytes per second. *)
Definition demo_bucket : tokenBucket := mkBucket 10 0 10 0.
Definition demo_clock (i : nat) : time := (Z.of_nat i + 1) * Second.

Lemma demo_grants i : grants 1 demo_bucket (demo_clock i) (demo_clock (S i)).
Proof.
  unfold grants, newTokens. replace (Sub (demo_clock (S i)) (demo_clock i)) with Second; [by vm_compute|].
  unfold demo_clock. rewrite Sub_exact; unfold in_int64, two63, Second; lia.
Qed.

Lemma wait_spec_witness :
  (exists tb slept, wait 8 demo_clock 7 (Some demo_bucket) = Some (Some tb, slept) /\ bucket_ok tb) /\
  wait 100 demo_clock 11 (Some demo_bucket) = None.
Proof.
  assert (bucket_ok demo_bucket) by by vm_compute.
  assert (grants 0 demo_bucket 0 (demo_clock 0)) by by vm_compute. split.
  - destruct (wait_spec 7 demo_clock demo_bucket) as (tb & slept & ? & ? & _); [done|done|done|apply demo_grants|].
    by exists tb, slept.
  - apply (wait_spec 11 demo_clock demo_bucket); [done|done|done|apply demo_grants].
Defined.

(** A reader of the empty stream, behind a limit of ten bytes per second: with a buffer of eleven
    its first read never returns. *)
Lemma limited_Read_spec_witness :
  (exists tb, limited_Read (fun (w : unit) r n => (w, r, [] : bytes, Some (err_io EOF))) 6 demo_clock tt tt (Some demo_bucket) 5
    = Some (tt, tt, Some tb, [], Some (err_io EOF)) /\ bucket_ok tb) /\
  limited_Read (fun (w : unit) r n => (w, r, [] : bytes, Some (err_io EOF))) 40 demo_clock tt tt (Some demo_bucket) 11 = None.
Proof.
  assert (bucket_ok demo_bucket) by by vm_compute.
  assert (grants 0 demo_bucket 0 (demo_clock 0)) by by vm_compute. split.
  - apply (limited_Read_spec (fun (w : unit) r n => (w, r, [] : bytes, Some (err_io EOF))) demo_clock tt tt demo_bucket 5 tt tt []);
      [done|done|apply demo_grants|done|apply Nat.le_0_l].
  - apply (limited_Read_spec (fun (w : unit) r n => (w, r, [] : bytes, Some (err_io EOF))) demo_clock tt tt demo_bucket
      11 tt tt [] (Some (err_io EOF))); [done|done|apply demo_grants|done|apply Nat.le_0_l].
Defined.
