(* ===== verification/RateBound.v ===== *)
(** * object/sync/ratelimit.go: the bandwidth it lets through

    The readers of a sync share one bucket, and each takes its lock for a refill and a test at
    a time.  Whatever their order, what they have been granted and not returned stays within one
    second's worth and the rate times the time that has passed, up to the rounding of float64:
    a share of 2^-50. *)

From Stdlib Require Import Floats.SpecFloat.
From S2P Require Import Prelude GoLib Errors GoFloat RateLimit.

Local Open Scope Z_scope.

(** ** What a refill adds *)

Lemma float64_Second : exists m e, float64 Second = S754_finite false m e /\ finite (float64 Second) /\ -100 <= e <= 100 /\
  mag (Zpos m) e = Second * unit_.
Proof.
  destruct (float64_exact Second) as [Hf Hv]; [by vm_compute|].
  exists 8388608000000000%positive, (-23). split; [by vm_compute|]. split; [exact Hf|]. split; [lia|]. by vm_compute.
Qed.

(** [float64] of a positive integer below 2^53, with its exponent. *)
Lemma float64_finite z : 0 < z < 2 ^ 53 -> exists m e, float64 z = S754_finite false m e /\ -100 <= e.
Proof.
  intros Hz. destruct (float64_exact z Hz) as [Hf Hv]. pose proof unit_pos.
  destruct (float64 z) as [s|s| |[|] m e]; try done; [cbn in Hv; nia| |].
  - pose proof (finite_exp _ _ _ Hf). cbn [sval cond_Zopp] in Hv. unfold mag in Hv. pose proof (pow2_pos (e + 2200)). nia.
  - exists m, e. split; [done|]. destruct Hf as [(Hm & He & Hc) _]. destruct (decide (-100 <= e)) as [|Hlow]; [done|].
    enough (mag (Zpos m) e < 1 * unit_) by (cbn [sval cond_Zopp] in Hv; nia).
    eapply Z.lt_trans; [apply (mag_lt _ (2 ^ 53)); lia|]. rewrite mag_pow_eq by lia. unfold mag, unit_. rewrite !Z.mul_1_l.
    apply Z.pow_lt_mono_r; lia.
Qed.

(** The fraction of a second. *)
Lemma fraction_le r : 0 <= r < Second ->
  let f := fdiv (float64 r) (float64 Second) in finite f /\ 0 <= sval f /\ sval f * Second * 2 ^ 52 <= r * unit_ * (2 ^ 52 + 1).
Proof.
  intros Hr. pose proof unit_pos. destruct float64_Second as (m2 & e2 & Hs2 & Hf2 & He2 & Hv2). rewrite Hs2 in *. cbv zeta.
  destruct (decide (r = 0)) as [->|Hne]; [split; [done|]; cbn; lia|].
  assert (0 < r < 2 ^ 53) as Hr' by (unfold Second in *; lia). destruct (float64_exact r Hr') as [Hf1 Hv1].
  destruct (float64_finite r Hr') as (m1 & e1 & Hs1 & He1). rewrite Hs1 in *. cbn [sval cond_Zopp] in Hv1.
  destruct (float_above (r * unit_) Second) as (b & Hb & Hge & Hle); [done|..].
  { transitivity (1 * unit_); [|apply Z.mul_le_mono_nonneg_r; lia]. by vm_compute. }
  { transitivity (2 ^ 53 * unit_); [apply Z.mul_le_mono_nonneg_r; lia|by vm_compute]. }
  destruct (fdiv_le m1 e1 m2 e2 b) as [Hf [H0 H1]]; [done..| |].
  { rewrite Hv1, Hv2. nia. }
  split; [done|]. split; [done|]. etrans; [|exact Hle]. unfold Second in *. lia.
Qed.

Lemma float64_nonneg z : 0 <= z < 2 ^ 53 -> finite (float64 z) /\ sval (float64 z) = z * unit_.
Proof. intros Hz. destruct (decide (z = 0)) as [->|]; [done|]. apply float64_exact. lia. Qed.

(** The sums of [Seconds_le], over an opaque power [P] of two, unit [U] and second [S]. *)
Lemma seconds_sum P U S q r d f :
  0 < P -> 0 < U -> 0 < S -> 0 <= q -> 0 <= r -> d = S * q + r -> f * S * P <= r * U * (P + 1) ->
  let num := q * U * S * P + r * U * (P + 1) in
  d * U * P <= num <= d * U * (P + 1) /\ (forall b, num <= b * (S * P) -> q * U + f <= b).
Proof.
  intros HP HU HS Hq Hr -> Hf num. assert (0 <= S * q * U) by nia. assert (0 <= r * U) by nia.
  split; [unfold num; lia|]. intros b Hb. apply (Z.mul_le_mono_pos_r _ _ (S * P)); [nia|]. unfold num in Hb. lia.
Qed.

(** The seconds of a duration: at most a share of 2^-51 too many. *)
Lemma Seconds_le d : 0 < d < 2 ^ 62 ->
  exists b, finite (Seconds d) /\ 0 <= sval (Seconds d) <= b /\ unit_ <= b * Second /\ b <= 2 ^ 53 * unit_ /\
    b * Second * 2 ^ 104 <= d * unit_ * (2 ^ 52 + 1) ^ 2.
Proof.
  intros Hd. unfold Seconds. rewrite Z.quot_div_nonneg, Z.rem_mod_nonneg by (unfold Second; lia).
  pose proof (Z.div_mod d Second ltac:(done)) as Hdm. pose proof (Z.mod_pos_bound d Second ltac:(done)) as Hr.
  set (q := d / Second) in *. set (r := d mod Second) in *. clearbody q r.
  assert (0 <= q < 2 ^ 33) as Hq by (unfold Second in *; lia).
  destruct (float64_nonneg q) as [Hfq Hvq]; [lia|]. destruct (fraction_le r Hr) as (Hff & Hf0 & Hf1).
  set (f := fdiv _ _) in *. clearbody f. pose proof unit_pos as Hu.
  destruct (seconds_sum (2 ^ 52) unit_ Second q r d (sval f)) as [[Hn1 Hn2] Hsum]; [done|done|done|lia..|].
  set (num := q * unit_ * Second * 2 ^ 52 + r * unit_ * (2 ^ 52 + 1)) in *. clearbody num.
  assert (num <= 2 ^ 62 * (2 ^ 52 + 1) * unit_) as Hn3.
  { etrans; [exact Hn2|]. replace (2 ^ 62 * (2 ^ 52 + 1) * unit_) with (2 ^ 62 * unit_ * (2 ^ 52 + 1)) by lia.
    apply Z.mul_le_mono_nonneg_r; [done|]. apply Z.mul_le_mono_nonneg_r; lia. }
  assert (unit_ * 2 ^ 52 <= num) as Hn4.
  { etrans; [|exact Hn1]. apply Z.mul_le_mono_nonneg_r; [done|].
    apply (Z.le_trans _ (1 * unit_)); [by rewrite Z.mul_1_l|]. apply Z.mul_le_mono_nonneg_r; lia. }
  destruct (float_above num (Second * 2 ^ 52)) as (b & Hb & Hge & Hle); [done| | |].
  { etrans; [|exact Hn4]. by vm_compute. }
  { etrans; [exact Hn3|]. by vm_compute. }
  exists (sval b). specialize (Hsum _ Hge).
  destruct (fadd_le (float64 q) f b) as [Hfs Hs]; [done..|rewrite Hvq; lia|done|by rewrite Hvq|].
  split_and!; [done|apply Hs|apply Hs| | |].
  - apply (Z.mul_le_mono_pos_r _ _ (2 ^ 52)); [done|]. lia.
  - apply (Z.mul_le_mono_pos_r _ _ (Second * 2 ^ 52 * 2 ^ 52)); [done|].
    transitivity (num * (2 ^ 52 + 1)); [lia|]. transitivity (2 ^ 62 * (2 ^ 52 + 1) * unit_ * (2 ^ 52 + 1)).
    { by apply Z.mul_le_mono_nonneg_r. }
    by vm_compute.
  - replace (2 ^ 104) with (2 ^ 52 * 2 ^ 52) by done. change ((2 ^ 52 + 1) ^ 2) with ((2 ^ 52 + 1) * (2 ^ 52 + 1)).
    transitivity (num * (2 ^ 52 + 1)); [lia|]. rewrite Z.mul_assoc. by apply Z.mul_le_mono_nonneg_r.
Qed.

(** The tokens of an interval: none is lost below zero, and at most a share of 2^-50 too many. *)
Lemma newTokens_le rate t u :
  0 < rate < 2 ^ 53 -> t <= u < t + 2 ^ 62 -> rate * (u - t) <= 2 ^ 60 * Second ->
  0 <= newTokens rate t u < 2 ^ 62 /\ newTokens rate t u * Second * 2 ^ 50 <= rate * (u - t) * (2 ^ 50 + 1).
Proof.
  intros Hr Ht Hlong. unfold newTokens, Sub. repeat case_match; try (unfold two63 in *; lia). set (d := u - t) in *.
  destruct (decide (d = 0)) as [->|Hd].
  { destruct (float64_finite rate Hr) as (m & e & -> & _).
    change (int64_of (fmul (Seconds 0) (S754_finite false m e))) with 0. lia. }
  destruct (Seconds_le d ltac:(lia)) as (b2 & Hfs & Hs & Hb1 & Hb2 & Hb3). destruct (float64_exact rate Hr) as [Hfr Hvr].
  set (f := Seconds d) in *. clearbody f. pose proof unit_pos as Hu. assert (0 < b2) by (unfold Second in *; nia).
  destruct (float_above (b2 * rate) 1) as (b & Hb & Hge & Hle); [done| | |].
  { apply (Z.mul_le_mono_pos_r _ _ Second); [done|]. transitivity unit_; [by vm_compute|]. unfold Second in *. nia. }
  { transitivity (2 ^ 53 * unit_ * 2 ^ 53); [nia|by vm_compute]. }
  rewrite !Z.mul_1_r in *.
  assert (sval b * Second * 2 ^ 156 <= rate * d * unit_ * (2 ^ 52 + 1) ^ 3) as Hbv.
  { replace (2 ^ 156) with (2 ^ 52 * 2 ^ 104) by done. change ((2 ^ 52 + 1) ^ 3) with ((2 ^ 52 + 1) * (2 ^ 52 + 1) ^ 2).
    transitivity (b2 * rate * (2 ^ 52 + 1) * Second * 2 ^ 104); [unfold Second; nia|].
    transitivity (d * unit_ * (2 ^ 52 + 1) ^ 2 * rate * (2 ^ 52 + 1)); [|lia].
    replace (b2 * rate * (2 ^ 52 + 1) * Second * 2 ^ 104) with (b2 * Second * 2 ^ 104 * rate * (2 ^ 52 + 1)) by lia.
    apply Z.mul_le_mono_nonneg_r; [lia|]. apply Z.mul_le_mono_nonneg_r; [lia|]. exact Hb3. }
  assert (sval b <= 2 ^ 61 * unit_) as Hbu.
  { apply (Z.mul_le_mono_pos_r _ _ (Second * 2 ^ 156)); [done|]. rewrite Z.mul_assoc. etrans; [exact Hbv|].
    transitivity (2 ^ 60 * Second * unit_ * (2 ^ 52 + 1) ^ 3); [apply Z.mul_le_mono_nonneg_r; [by vm_compute|]; nia|].
    replace (2 ^ 60 * Second * unit_ * (2 ^ 52 + 1) ^ 3) with (2 ^ 60 * (2 ^ 52 + 1) ^ 3 * (Second * unit_)) by lia.
    replace (2 ^ 61 * unit_ * (Second * 2 ^ 156)) with (2 ^ 61 * 2 ^ 156 * (Second * unit_)) by lia.
    apply Z.mul_le_mono_nonneg_r; [unfold Second; lia|by vm_compute]. }
  destruct (fmul_le f (float64 rate) b) as [Hff Hfb]; [done..|rewrite Hvr, !Z.abs_eq by nia; nia|].
  pose proof (fmul_nonneg f (float64 rate) Hfs Hfr ltac:(lia) ltac:(nia)) as Hf0. set (p := fmul f _) in *. clearbody p.
  assert (0 <= sval b) as Hb0 by nia. rewrite !Z.abs_eq in Hfb by lia.
  destruct (int64_of_le p (2 ^ 61) Hff) as (Hi1 & Hi2 & Hi3); [unfold two63; lia|rewrite Z.abs_eq by done; lia|].
  specialize (Hi3 Hf0). rewrite !Z.abs_eq in Hi1, Hi2 by lia. split; [lia|].
  set (n := int64_of p) in *. clearbody n. apply (Z.mul_le_mono_pos_r _ _ (unit_ * 2 ^ 106)); [unfold unit_ in *; nia|].
  transitivity (sval b * Second * 2 ^ 156).
  - replace (2 ^ 156) with (2 ^ 50 * 2 ^ 106) by done.
    replace (n * Second * 2 ^ 50 * (unit_ * 2 ^ 106)) with (n * unit_ * (Second * (2 ^ 50 * 2 ^ 106))) by lia.
    rewrite <-(Z.mul_assoc (sval b)). apply Z.mul_le_mono_nonneg_r; [done|lia].
  - etrans; [exact Hbv|]. rewrite <-!Z.mul_assoc. apply Z.mul_le_mono_nonneg_l; [lia|]. apply Z.mul_le_mono_nonneg_l; [lia|].
    replace ((2 ^ 50 + 1) * (unit_ * 2 ^ 106)) with (unit_ * ((2 ^ 50 + 1) * 2 ^ 106)) by lia.
    apply Z.mul_le_mono_nonneg_l; [lia|by vm_compute].
Qed.
(** ** The readers of a sync

    A reader is idle, in [wait] for its tokens, or in the [Read] it wraps with the tokens it
    holds.  The lock of the bucket makes each test of [wait], with the refill before it, one step;
    between two tests of a reader (its sleep) any other may take the lock. *)

Inductive phase := Idle | Waiting (n : nat) | Reading (n : nat).

Record system := mkSystem { bucket : tokenBucket; readers : list phase; delivered : nat }.

Inductive action :=
| call (i len_p : nat)
| test (i : nat) (now : time)
| deliver (i k : nat).

Definition act (s : system) (a : action) : option system :=
  match a with
  | call i len_p =>
      match s.(readers) !! i with
      | Some Idle => Some (mkSystem s.(bucket) (<[i := Waiting (Nat.min len_p chunkSize)]> s.(readers)) s.(delivered))
      | _ => None
      end
  | test i now =>
      match s.(readers) !! i with
      | Some (Waiting n) =>
          let tb := refill now s.(bucket) in
          if (tb.(tokens) <? Z.of_nat n)%Z then Some (mkSystem tb s.(readers) s.(delivered))
          else Some (mkSystem (mkBucket tb.(rate) (tb.(tokens) - Z.of_nat n) tb.(maxTokens) tb.(lastRefill))
                       (<[i := Reading n]> s.(readers)) s.(delivered))
      | _ => None
      end
  | deliver i k =>
      match s.(readers) !! i with
      | Some (Reading n) =>
          if decide (k <= n)%nat then
            let tb := if decide (k < n)%nat then returnTokens (Z.of_nat (n - k)) (Some s.(bucket)) else Some s.(bucket) in
            Some (mkSystem (default s.(bucket) tb) (<[i := Idle]> s.(readers)) (s.(delivered) + k))
          else None
      | _ => None
      end
  end.

Fixpoint acts (s : system) (l : list action) : option system :=
  match l with
  | [] => Some s
  | a :: l => s ← act s a; acts s l
  end.

(** The tests read a clock that does not go back, and are not centuries apart. *)
Definition timely1 (r : Z) (t : time) (a : action) : Prop :=
  match a with
  | test _ now => t <= now < t + 2 ^ 62 /\ r * (now - t) <= 2 ^ 60 * Second
  | _ => True
  end.

Fixpoint timely (r : Z) (t : time) (l : list action) : Prop :=
  match l with
  | [] => True
  | a :: l => timely1 r t a /\ timely r (match a with test _ now => now | _ => t end) l
  end.

(** The tokens that readers hold. *)
Definition held (p : phase) : nat := match p with Reading n => n | _ => 0 end.
Definition outstanding (l : list phase) : nat := sum_list_with held l.

Lemma outstanding_insert i p q l :
  l !! i = Some p -> (outstanding (<[i := q]> l) + held p = outstanding l + held q)%nat.
Proof.
  intros Hi. unfold outstanding. rewrite <-(take_drop_middle l i p Hi) at 2.
  rewrite insert_take_drop by (by eapply lookup_lt_Some). rewrite !sum_list_with_app. cbn. lia.
Qed.

(** ** The bound *)

(** No reader is asked for more than a chunk. *)
Definition small (p : phase) : Prop :=
  match p with Idle => True | Waiting n | Reading n => (n <= chunkSize)%nat end.

(** What is in the bucket, held by readers and delivered, against the time since [t0]. *)
Definition within (r : Z) (t0 : time) (s : system) : Prop :=
  let tb := s.(bucket) in
  tb.(rate) = r /\ tb.(maxTokens) = r /\ Forall small s.(readers) /\ 0 <= tb.(tokens) <= r /\ t0 <= tb.(lastRefill) /\
  (tb.(tokens) + Z.of_nat (outstanding s.(readers)) + Z.of_nat s.(delivered) - r) * (Second * 2 ^ 50) <=
    r * (tb.(lastRefill) - t0) * (2 ^ 50 + 1).

Lemma within_le r t0 tb rs dl tb' rs' dl' :
  within r t0 (mkSystem tb rs dl) -> tb'.(rate) = tb.(rate) -> tb'.(maxTokens) = tb.(maxTokens) ->
  tb'.(lastRefill) = tb.(lastRefill) -> Forall small rs' -> 0 <= tb'.(tokens) <= r ->
  tb'.(tokens) + Z.of_nat (outstanding rs') + Z.of_nat dl' <= tb.(tokens) + Z.of_nat (outstanding rs) + Z.of_nat dl ->
  within r t0 (mkSystem tb' rs' dl').
Proof.
  unfold within. cbn [bucket readers delivered]. intros (Hrate & Hmax & Hs & Ht & H0 & Hw) -> -> -> ? ? Hle. split_and!; [done|done|done|lia|lia|done|].
  etrans; [|exact Hw]. apply Z.mul_le_mono_nonneg_r; [done|lia].
Qed.

Lemma refill_within r t0 now s :
  0 < r < 2 ^ 53 -> within r t0 s -> s.(bucket).(lastRefill) <= now < s.(bucket).(lastRefill) + 2 ^ 62 ->
  r * (now - s.(bucket).(lastRefill)) <= 2 ^ 60 * Second ->
  within r t0 (mkSystem (refill now s.(bucket)) s.(readers) s.(delivered)).
Proof.
  destruct s as [tb rs dl]. unfold within, refill. cbn. intros Hr (-> & Hmax & Hs & Ht & H0 & Hw) Hnow Hlong.
  destruct (newTokens_le r tb.(lastRefill) now) as [Hn Hle]; [done..|]. set (n := newTokens _ _ _) in *. clearbody n.
  rewrite wrap64_id by (unfold in_int64, two63; lia). unfold cap. rewrite Hmax.
  match goal with |- context [(?a <? ?b)%Z] => destruct (Z.ltb_spec a b) as [Hc|Hc] end;
    (split_and!; [done|done|done|lia|lia|lia|unfold Second in *; lia]).
Qed.

Lemma chunkSize_lt : (Z.of_nat chunkSize < 2 ^ 17).
Proof. by vm_compute. Qed.

#[local] Opaque chunkSize.

Lemma act_within r t0 s a s' :
  0 < r < 2 ^ 53 -> within r t0 s -> timely1 r s.(bucket).(lastRefill) a -> act s a = Some s' -> within r t0 s'.
Proof.
  intros Hr Hw Ht Ha. pose proof Hw as (_ & Hmax & Hs & Htok & _).
  destruct a as [i len_p|i now|i k]; cbn [act] in Ha; destruct (s.(readers) !! i) as [[|n|n]|] eqn:Hi; try discriminate Ha;
    pose proof (Forall_lookup_1 _ _ _ _ Hs Hi) as Hn; cbn [small] in Hn.
  - injection Ha as <-. destruct s as [tb rs dl]. cbn [bucket readers delivered] in *.
    pose proof (outstanding_insert i _ (Waiting (Nat.min len_p chunkSize)) _ Hi) as Hout. cbn [held] in Hout.
    eapply within_le; [exact Hw|done..|apply Forall_insert; [done|cbn; lia]|done|lia].
  - destruct Ht as [Hnow Hlong]. apply (refill_within r t0 now) in Hw; [|done..]. destruct s as [tb rs dl]. cbn [bucket readers delivered] in *.
    set (tb' := refill now tb) in *. pose proof Hw as (_ & _ & _ & Htok' & _). cbn [bucket] in Htok'. cbv zeta in Ha. clearbody tb'.
    destruct (Z.ltb_spec tb'.(tokens) (Z.of_nat n)); injection Ha as <-; [done|].
    pose proof (outstanding_insert i _ (Reading n) _ Hi) as Hout. cbn [held] in Hout.
    eapply within_le; [exact Hw|done..|by apply Forall_insert|cbn [tokens]; lia|cbn [tokens]; lia].
  - case_decide as Hk; [|done]. injection Ha as <-. destruct s as [tb rs dl]. cbn [bucket readers delivered] in *.
    pose proof (outstanding_insert i _ Idle _ Hi) as Hout. cbn [held] in Hout.
    case_decide as Hkn; cbn [from_option returnTokens]; [|eapply within_le; [exact Hw|done..|by apply Forall_insert|done|unfold id; lia]].
    destruct (Z.leb_spec (Z.of_nat (n - k)) 0); [lia|]. cbn [from_option].
    rewrite wrap64_id by (pose proof chunkSize_lt; unfold in_int64, two63; lia).
    unfold cap. rewrite Hmax. destruct (Z.ltb_spec r (tb.(tokens) + Z.of_nat (n - k)));
      (eapply within_le; [exact Hw|done..|by apply Forall_insert|cbn [tokens id]; lia|cbn [tokens id]; lia]).
Qed.

Lemma act_lastRefill s a s' :
  act s a = Some s' -> s'.(bucket).(lastRefill) = match a with test _ now => now | _ => s.(bucket).(lastRefill) end.
Proof.
  destruct s as [tb rs dl], a as [i len_p|i now|i k]; cbn [act bucket readers delivered]; destruct (rs !! i) as [[|n|n]|]; try discriminate.
  - by intros [= <-].
  - cbv zeta. destruct (_ <? _); by intros [= <-].
  - case_decide; [|discriminate]. intros [= <-]. case_decide; [|done]. cbn [returnTokens]. by destruct (_ <=? _).
Qed.

Lemma acts_within r t0 l s s' :
  0 < r < 2 ^ 53 -> within r t0 s -> timely r s.(bucket).(lastRefill) l -> acts s l = Some s' -> within r t0 s'.
Proof.
  intros Hr. revert s. induction l as [|a l IH]; intros s Hw Ht Ha; [by injection Ha as <-|]. cbn [acts] in Ha.
  destruct (act s a) as [s1|] eqn:Ha1; [|done]. destruct Ht as [Ht Hl]. apply (IH s1); [by eapply act_within| |done].
  by rewrite (act_lastRefill _ _ _ Ha1).
Qed.

(** ** A limited reader is one of them *)

(** The tests of one [wait], at the first readings of its clock. *)
Fixpoint tests (i : nat) (clock : nat -> time) (k : nat) : list action :=
  match k with 0%nat => [] | S k => test i (clock 0%nat) :: tests i (fun j => clock (S j)) k end.

Lemma acts_app s l1 l2 : acts s (l1 ++ l2) = s' ← acts s l1; acts s' l2.
Proof. revert s. induction l1 as [|a l1 IH]; intros s; [done|]. cbn. destruct (act s a); [apply IH|done]. Qed.

Lemma wait_loop_tests fuel clock (n : nat) i rs dl u tb tb' slept :
  rs !! i = Some (Waiting n) -> wait_loop fuel clock (Z.of_nat n) (refill u tb) = Some (tb', slept) ->
  acts (mkSystem tb rs dl) (test i u :: tests i clock (length slept)) = Some (mkSystem tb' (<[i := Reading n]> rs) dl).
Proof.
  intros Hi. revert clock u tb slept. induction fuel as [|fuel IH]; intros clock u tb slept; [done|].
  rewrite wait_loop_step. cbn [acts act bucket readers delivered]. rewrite Hi. cbv zeta.
  set (tb1 := refill u tb). destruct (Z.ltb_spec tb1.(tokens) (Z.of_nat n)); [|by intros [= <- <-]].
  destruct (wait_loop fuel _ _ _) as [[tb2 slept2]|] eqn:Hw; [|done]. intros [= <- <-].
  by apply (IH (fun j => clock (S j)) (clock 0%nat) tb1).
Qed.

(** A [Read] of a limited reader that returns is a call, the tests of its [wait] and a delivery of
    what it read, of the reader [i] of a system. *)
Lemma limited_Read_acts {W R} (read : W -> R -> nat -> W * R * bytes * option error) fuel clock w r tb len_p w' r' tb' d e i rs dl :
  (forall w r n w' r' d e, read w r n = (w', r', d, e) -> (length d <= n)%nat) ->
  rs !! i = Some Idle -> tb.(rate) <> 0 ->
  limited_Read read fuel clock w r (Some tb) len_p = Some (w', r', tb', d, e) ->
  exists k tb2, tb' = Some tb2 /\
    acts (mkSystem tb rs dl) (call i len_p :: tests i clock (S k) ++ [deliver i (length d)]) = Some (mkSystem tb2 rs (dl + length d)).
Proof.
  intros Hread Hi Hrate Hl. unfold limited_Read, wait in Hl. rewrite (proj2 (Z.eqb_neq _ _) Hrate) in Hl.
  set (n := Nat.min len_p chunkSize) in *. destruct (wait_loop fuel _ _ _) as [[tb1 slept]|] eqn:Hw; [|done]. cbn [mbind option_bind] in Hl.
  destruct (read w r n) as [[[w1 r1] d1] e1] eqn:Hr. apply Hread in Hr. injection Hl as <- <- <- <- <-.
  pose proof (lookup_lt_Some _ _ _ Hi) as Hlt. exists (length slept).
  eapply (wait_loop_tests fuel _ n i (<[i := Waiting n]> rs) dl) in Hw; [|by apply list_lookup_insert_eq].
  rewrite list_insert_insert_eq in Hw. cbn [acts act bucket readers delivered]. rewrite Hi. cbn [mbind option_bind]. fold n. rewrite acts_app.
  change (tests i clock (S (length slept))) with (test i (clock 0%nat) :: tests i (fun j => clock (S j)) (length slept)).
  rewrite Hw. cbn [mbind option_bind acts act bucket readers delivered]. rewrite list_lookup_insert_eq by done.
  clear Hw. clearbody n. rewrite (decide_True _ _ Hr), list_insert_insert_eq, list_insert_id by done.
  destruct (decide (length d1 < n)%nat); cbn [returnTokens]; [|by eexists].
  destruct (Z.of_nat (n - length d1) <=? 0); by eexists.
Qed.

Lemma outstanding_idle k : outstanding (replicate k Idle) = 0%nat.
Proof. induction k; [done|]. exact IHk. Qed.

(** The system of [k] readers around a fresh bucket. *)
Definition fresh (tb : tokenBucket) (k : nat) : system := mkSystem tb (replicate k Idle) 0.

(** Claim C28. The bandwidth a limited sync uses: however the calls, the tests of the bucket and the
    deliveries of its readers interleave, the bytes delivered up to a test at the instant t are no
    more than one second's worth (the burst) and the rate times the time since the bucket was
    made; the rounding of float64 adds a share of 2^-50 at most.  The bucket stays between zero
    and the burst. *)
Theorem bandwidth_bound r t0 tb k l s :
  0 < r < 2 ^ 53 -> newTokenBucket t0 r = Some tb -> timely r t0 l -> acts (fresh tb k) l = Some s ->
  (Z.of_nat s.(delivered) - r) * Second * 2 ^ 50 <= r * (s.(bucket).(lastRefill) - t0) * (2 ^ 50 + 1) /\ bucket_ok s.(bucket).
Proof.
  intros Hr Hnew Ht Ha. unfold newTokenBucket in Hnew. destruct (Z.leb_spec r 0); [lia|]. injection Hnew as <-.
  assert (within r t0 s) as (? & ? & _ & ? & ? & Hw).
  { refine (acts_within r t0 l (fresh (mkBucket r r r t0) k) s Hr _ Ht Ha). unfold within. cbn. rewrite outstanding_idle.
    split_and!; [done|done|by apply Forall_replicate|lia|lia|done|lia]. }
  split; [|unfold bucket_ok, two63; lia]. etrans; [|exact Hw]. rewrite <-Z.mul_assoc. apply Z.mul_le_mono_nonneg_r; [done|lia].
Qed.

(** Two readers of a bucket of ten bytes per second: the second waits for what the first took. *)
Definition demo_run : list action :=
  [call 0 8; call 1 7; test 0 5; test 1 6; test 1 (Second / 5); deliver 0 3; test 1 (Second / 2); deliver 1 7].

Lemma bandwidth_bound_witness :
  exists s, acts (fresh (mkBucket 10 10 10 0) 2) demo_run = Some s /\ delivered s = 10%nat /\ bucket_ok s.(bucket).
Proof.
  destruct (acts _ demo_run) as [s|] eqn:Ha; [|by vm_compute in Ha]. exists s. split; [done|]. split; [vm_compute in Ha; by injection Ha as <-|].
  apply (bandwidth_bound 10 0 (mkBucket 10 10 10 0) 2 demo_run); [lia|done| |exact Ha].
  repeat split; by vm_compute.
Defined.
