(* ===== verification/Sync.v ===== *)
(** * object/sync/sync.go

    [Sync], [CopyDir], [Move] and [MoveFile] over two backends of a world.  The worker pool is
    a machine that a [Schedule] drives: workers take actions from the channel and finish them
    in any order and in any number up to [Concurrency] at a time.  One transfer is one step: it
    reads the source when it is opened and publishes when the writer is closed. *)

From S2P Require Import Prelude GoLib Errors GoPath ObjectTypes ObjectBackend Filter SyncTypes RateLimit.

(** [tokens] and clock of the limiter only delay a transfer, unless its first read, of the
    buffer of [io.Copy], waits for ever ([RateLimit.limited_Read_spec]). *)
Record syncContext := mkSyncContext { s_opts : Options; rateLimiter : option tokenBucket }.

Record copyAction := mkAction { afile : FileInfo; isUpdate : bool }.

(** What the scheduler does next: let a worker take an action, or let the [i]-th running
    transfer finish; [early] tells whether it looked at the context before it was cancelled. *)
Inductive choice := Take | Finish (i : nat) (early : bool).

Class Schedule := { choose : nat -> choice }.

Definition emptyResult (opts : Options) : Result := mkResult 0 0 0 0 [] 0 opts.(DryRun).

(** ** Comparing *)

(** The path of a listed name relative to the base. *)
Definition relative (basePath p : string) : string :=
  if negb (bool_decide (basePath = "")) && bool_decide (String.length basePath < String.length p)
  then TrimPrefix (drop_string (String.length basePath) p) "/" else p.

(** The loop over the source files: the actions, the destination files left, the result. *)
Definition compare_step `{TSync} (opts : Options)
    (acc : list copyAction * gmap string FileInfo * Result) (srcFile : FileInfo)
    : list copyAction * gmap string FileInfo * Result :=
  let '(toCopy, dstMap, result) := acc in
  if srcFile.(FIsDir) then acc
  else
    let '(toCopy, result) :=
      match dstMap !! srcFile.(FPath) with
      | None => (toCopy ++ [mkAction srcFile false], result)
      | Some dstFile =>
          if negb dstFile.(FIsDir) && NeedsUpdate srcFile dstFile opts then
            if negb opts.(IgnoreExisting) then (toCopy ++ [mkAction srcFile true], result)
            else (toCopy, add_skipped result)
          else (toCopy, add_skipped result)
      end in
    (toCopy, delete srcFile.(FPath) dstMap, result).

Section sync.
Context `{OB : ObjectBackend W B} `{T : TSync} `{O : MapOrder} `{Sch : Schedule}.

(** ** listFiles *)

Definition stat_info (ctx : context) (w : W) (backend : B) (relPath p : string) (opts : Options) : W * FileInfo :=
  let unknown := mkFileInfo relPath 0 zero_time "" false in
  if AsExtended backend then
    match Stat ctx w backend p with
    | (w, Ok info) =>
        (w, mkFileInfo relPath info.(ObjectSize) info.(ObjectModTime)
              (if opts.(Checksum) then Info_Hash info HashMD5 else "") info.(ObjectIsDir))
    | (w, Err _) => (w, unknown)
    end
  else (w, unknown).

Definition filtered (now : time) (opts : Options) (fi : FileInfo) : bool :=
  match opts.(FilterOpt) with
  | None => true
  | Some _ =>
      fi.(FIsDir) ||
      Filter.Match now opts.(FilterOpt) (Filter.mkFileInfo fi.(FPath) fi.(FSize) fi.(FModTime) fi.(FIsDir))
  end.

Fixpoint list_infos (ctx : context) (now : time) (w : W) (backend : B) (basePath : string) (opts : Options)
    (paths : list string) : W * list FileInfo :=
  match paths with
  | [] => (w, [])
  | p :: paths =>
      let '(w, fi) := stat_info ctx w backend (relative basePath p) p opts in
      let '(w, files) := list_infos ctx now w backend basePath opts paths in
      (w, if filtered now opts fi then fi :: files else files)
  end.

Definition listFiles (ctx : context) (now : time) (w : W) (backend : B) (basePath : string) (opts : Options)
    : W * result error (list FileInfo) :=
  match List ctx w backend basePath with
  | (w, Err err) => (w, Err err)
  | (w, Ok paths) => let '(w, files) := list_infos ctx now w backend basePath opts paths in (w, Ok files)
  end.

(** ** Copying a file *)

Definition buildWriterOptions (ctx : context) (w : W) (src : B) (srcPath : string)
    (metaOpts : option MetadataOptions) : W * list WriterOption :=
  if negb (AsExtended src) then (w, [])
  else
    match Stat ctx w src srcPath with
    | (w, Err _) => (w, [])
    | (w, Ok info) =>
        let preserveContentType := match metaOpts with Some m => m.(MContentType) | None => true end in
        let preserveCustomMetadata := match metaOpts with Some m => m.(MCustomMetadata) | None => false end in
        let opts :=
          if preserveContentType && negb (bool_decide (info.(ObjectContentType) = ""))
          then [WithContentType info.(ObjectContentType)] else [] in
        let meta := info.(ObjectMetadata) in
        (w, opts ++
          (if preserveCustomMetadata && bool_decide (0 < size (default ∅ meta)) then [WithMetadata meta] else []))
    end.

Definition copyFileSingle (fuel : nat) (ctx : context) (now : time) (sctx : syncContext) (src dst : B)
    (srcPath dstPath : string) (w : W) : option (W * option error) :=
  if bool_decide (src = dst) && AsExtended src && (Features_of w src).(FCopy)
  then Some (Copy ctx now w src srcPath dstPath)
  else
    match NewReader ctx w src srcPath [] with
    | (w, Err err) => Some (w, Some err)
    | (w, Ok reader) =>
        let '(w, writerOpts) := buildWriterOptions ctx w src srcPath sctx.(s_opts).(PreserveMetadata) in
        match NewWriter ctx w dst dstPath writerOpts with
        | (w, Err err) => Some ((CloseReader w reader).1, Some err)
        | (w, Ok writer) =>
            if blocks (Z.of_nat copy_buffer) sctx.(rateLimiter) then None
            else
              match io_Copy Read Write fuel w reader writer 0 with
              | None => None
              | Some (w, reader, writer, _, Some err) =>
                  let '(w, _) := CloseWriter now w writer in Some ((CloseReader w reader).1, Some err)
              | Some (w, reader, writer, _, None) =>
                  let '(w, e) := CloseWriter now w writer in Some ((CloseReader w reader).1, e)
              end
        end
    end.

Definition copyFileWithContext (fuel : nat) (ctx : context) (now : time) (sctx : syncContext) (src dst : B)
    (srcPath dstPath : string) (w : W) : option (W * option error) :=
  match sctx.(s_opts).(Retry) with
  | Some config =>
      if (0 <? config.(MaxRetries))%Z
      then retryOperation (copyFileSingle fuel ctx now sctx src dst srcPath dstPath) ctx config w
      else copyFileSingle fuel ctx now sctx src dst srcPath dstPath w
  | None => copyFileSingle fuel ctx now sctx src dst srcPath dstPath w
  end.

Definition copyFile (fuel : nat) (ctx : context) (now : time) (src dst : B) (srcPath dstPath : string) (w : W)
    : option (W * option error) :=
  copyFileSingle fuel ctx now (mkSyncContext zeroOptions None) src dst srcPath dstPath w.

(** ** The worker pool *)

Record pool := mkPool {
  workCh : list copyAction;
  running : list copyAction;
  copyCtx : context;
  p_result : Result;
  p_world : W
}.

Definition cancel (ctx : context) : context := match ctx with None => Some Canceled | _ => ctx end.

Section workers.
Context (fuel : nat) (ctx : context) (now : time) (sctx : syncContext) (src dst : B) (srcPath dstPath : string).

(** A worker receives an action; [None] when none can. *)
Definition take_action (p : pool) : option pool :=
  match p.(workCh), p.(copyCtx) with
  | a :: rest, None =>
      if (Z.of_nat (length p.(running)) <? sctx.(s_opts).(Concurrency))%Z
      then Some (mkPool rest (p.(running) ++ [a]) None p.(p_result) p.(p_world)) else None
  | _, _ => None
  end.

(** The rest of the loop of a worker, for one of the actions that have been received. *)
Definition finish_action (a : copyAction) (running : list copyAction) (early : bool) (p : pool) : option pool :=
  let opts := sctx.(s_opts) in
  let transferred w :=
    Some (mkPool p.(workCh) running p.(copyCtx) (add_transferred a.(isUpdate) a.(afile).(FSize) p.(p_result)) w) in
  if negb opts.(DryRun) then
    match copyFileWithContext fuel (if early then ctx else p.(copyCtx)) now sctx src dst
            (Join srcPath a.(afile).(FPath)) (Join dstPath a.(afile).(FPath)) p.(p_world) with
    | None => None
    | Some (w, Some err) =>
        let result := add_error (mkFileError a.(afile).(FPath) "copy" err) p.(p_result) in
        Some (mkPool p.(workCh) running (if tooManyErrors opts result then cancel p.(copyCtx) else p.(copyCtx)) result w)
    | Some (w, None) => transferred w
    end
  else transferred p.(p_world).

Definition finish (i : nat) (early : bool) (p : pool) : option pool :=
  let i := Nat.modulo i (length p.(running)) in
  match p.(running) !! i with
  | None => Some p
  | Some a => finish_action a (take i p.(running) ++ drop (S i) p.(running)) early p
  end.

(** Until no worker has anything left to do; every step shortens what is left. *)
Fixpoint run_pool (steps : nat) (p : pool) : option pool :=
  match steps with
  | 0 => None
  | S steps =>
      match p.(running), take_action p with
      | [], None => Some p
      | [], Some p' => run_pool steps p'
      | _, Some p' =>
          match choose steps with
          | Take => run_pool steps p'
          | Finish i early => p ← finish i early p; run_pool steps p
          end
      | _, None =>
          match choose steps with
          | Take => p ← finish 0 true p; run_pool steps p
          | Finish i early => p ← finish i early p; run_pool steps p
          end
      end
  end.
End workers.

(** ** Sync *)

Fixpoint delete_loop (ctx : context) (w : W) (dst : B) (dstPath : string) (opts : Options) (toDelete : list string)
    (result : Result) : W * Result * option error :=
  match toDelete with
  | [] => (w, result, None)
  | p :: toDelete =>
      onerr err <- ctx_err ctx return (w, result, Some err) else
      if negb opts.(DryRun) then
        match Delete ctx w dst (Join dstPath p) with
        | (w, Some err) =>
            let result := add_error (mkFileError p "delete" err) result in
            if tooManyErrors opts result then (w, result, None)
            else delete_loop ctx w dst dstPath opts toDelete result
        | (w, None) => delete_loop ctx w dst dstPath opts toDelete (add_deleted result)
        end
      else delete_loop ctx w dst dstPath opts toDelete (add_deleted result)
  end.

(** What follows the transfers: the deletions, unless the context has ended. *)
Definition complete (ctx : context) (dst : B) (dstPath : string) (opts : Options) (toDelete : list string) (p : pool)
    : W * option Result * option error :=
  onerr err <- ctx_err ctx return (p.(p_world), Some p.(p_result), Some err) else
  if opts.(DeleteExtra) && bool_decide (0 < length toDelete) then
    let '(w, result, err) := delete_loop ctx p.(p_world) dst dstPath opts toDelete p.(p_result) in
    (w, Some result, err)
  else (p.(p_world), Some p.(p_result), None).

Definition Sync (fuel : nat) (ctx : context) (now : time) (src dst : B) (srcPath dstPath : string) (opts : Options)
    (w : W) : option (W * option Result * option error) :=
  let result := emptyResult opts in
  let opts := if (opts.(Concurrency) <=? 0)%Z then set_Concurrency 4 opts else opts in
  let sctx := mkSyncContext opts (newTokenBucket now opts.(BandwidthLimit)) in
  match listFiles ctx now w src srcPath opts with
  | (w, Err err) => Some (w, None, Some err)
  | (w, Ok srcFiles) =>
      match listFiles ctx now w dst dstPath opts with
      | (w, Err err) => Some (w, None, Some err)
      | (w, Ok dstFiles) =>
          let dstMap := fold_left (fun m f => <[f.(FPath) := f]> m) dstFiles ∅ in
          let '(toCopy, dstMap, result) := fold_left (compare_step opts) srcFiles ([], dstMap, result) in
          let toDelete :=
            if opts.(DeleteExtra)
            then (filter (fun kf => kf.2.(FIsDir) = false) (range dstMap)).*1 else [] in
          p ← run_pool fuel ctx now sctx src dst srcPath dstPath (S (2 * length toCopy))
                (mkPool toCopy [] ctx result w);
          Some (complete ctx dst dstPath opts toDelete p)
      end
  end.

Definition CopyDir (fuel : nat) (ctx : context) (now : time) (src dst : B) (srcPath dstPath : string) (w : W)
    : option (W * option Result * option error) :=
  Sync fuel ctx now src dst srcPath dstPath zeroOptions w.

(** ** Move and MoveFile *)

Fixpoint move_loop (ctx : context) (w : W) (src dst : B) (srcPath dstPath : string) (opts : Options)
    (srcFiles : list FileInfo) (result : Result) : W * Result * option error :=
  match srcFiles with
  | [] => (w, result, None)
  | f :: srcFiles =>
      if f.(FIsDir) then move_loop ctx w src dst srcPath dstPath opts srcFiles result
      else
        onerr err <- ctx_err ctx return (w, result, Some err) else
        match Exists ctx w dst (Join dstPath f.(FPath)) with
        | (w, Err err) =>
            move_loop ctx w src dst srcPath dstPath opts srcFiles (add_error (mkFileError f.(FPath) "verify" err) result)
        | (w, Ok false) => move_loop ctx w src dst srcPath dstPath opts srcFiles result
        | (w, Ok true) =>
            match Delete ctx w src (Join srcPath f.(FPath)) with
            | (w, None) => move_loop ctx w src dst srcPath dstPath opts srcFiles result
            | (w, Some err) =>
                let result := add_error (mkFileError f.(FPath) "delete-source" err) result in
                if tooManyErrors opts result then (w, result, None)
                else move_loop ctx w src dst srcPath dstPath opts srcFiles result
            end
        end
  end.

Definition Move (fuel : nat) (ctx : context) (now : time) (src dst : B) (srcPath dstPath : string) (opts : Options)
    (w : W) : option (W * option Result * option error) :=
  let opts := set_DeleteExtra false opts in
  match Sync fuel ctx now src dst srcPath dstPath opts w with
  | None => None
  | Some (w, result, Some err) => Some (w, result, Some err)
  | Some (w, None, None) => Some (w, None, None)
  | Some (w, Some result, None) =>
      if opts.(DryRun) then Some (w, Some result, None)
      else
        match listFiles ctx now w src srcPath opts with
        | (w, Err err) => Some (w, Some result, Some err)
        | (w, Ok srcFiles) =>
            let '(w, result, err) := move_loop ctx w src dst srcPath dstPath opts srcFiles result in
            Some (w, Some result, err)
        end
  end.

Definition MoveFile (fuel : nat) (ctx : context) (now : time) (src dst : B) (srcPath dstPath : string) (w : W)
    : option (W * option error) :=
  if bool_decide (src = dst) && AsExtended src && (Features_of w src).(FMove)
  then Some (ObjectBackend.Move ctx now w src srcPath dstPath)
  else
    match copyFile fuel ctx now src dst srcPath dstPath w with
    | None => None
    | Some (w, Some err) => Some (w, Some err)
    | Some (w, None) => Some (Delete ctx w src srcPath)
    end.

End sync.

(** ** What a sync asks of a backend

    Besides [BackendSpec]: listing and statting change nothing, a listing names existing files
    once, and [Stat] and [Exists] know them. *)
Class ListingSpec (W B : Type) `{BS : BackendSpec W B} := {
  List_spec w b base : is_open w b ->
    exists ps, List None w b base = (w, Ok ps) /\ NoDup ps /\ Forall (fun p => is_Some (files w b !! p)) ps;
  Stat_spec w b p q d : is_open w b -> AsExtended b = true -> path_of b p = Some q -> files w b !! q = Some d ->
    exists info, Stat None w b p = (w, Ok info) /\ info.(ObjectIsDir) = false /\
      info.(ObjectSize) = Z.of_nat (length d);
  Exists_spec w b p q : is_open w b -> path_of b p = Some q -> is_Some (files w b !! q) ->
    Exists None w b p = (w, Ok true)
}.

(** ** Lemmas *)

Section lemmas.
Context `{LS : ListingSpec W B} `{T : TSync} `{O : MapOrder} `{Sch : Schedule}.

(** *** Scanning *)

(** The files a scan of [base] finds, from the names a listing gave it. *)
Definition scan (w : W) (b : B) (base : string) (now : time) (opts : Options) (ps : list string) : list FileInfo :=
  filter (fun fi => filtered now opts fi = true)
    ((fun p => (stat_info None w b (relative base p) p opts).2) <$> ps).

(** [ps] is what [base] lists, and a name relative to [base] leads back to the file. *)
Definition listed (w : W) (b : B) (base : string) (ps : list string) : Prop :=
  List None w b base = (w, Ok ps) /\
  Forall (fun p => path_of b p = Some p /\ path_of b (Join base (relative base p)) = Some p) ps.

(** The content a relative path of [base] stands for. *)
Definition content (w : W) (b : B) (base rel : string) : option bytes := path_of b (Join base rel) ≫= (files w b !!.).

Lemma listed_files w b base ps p :
  is_open w b -> listed w b base ps -> p ∈ ps ->
  NoDup ps /\ path_of b p = Some p /\ path_of b (Join base (relative base p)) = Some p /\ is_Some (files w b !! p).
Proof.
  intros Ho [Hl Hp] Hin. destruct (List_spec w b base Ho) as (ps' & Hl' & Hnd & Hf).
  rewrite Hl in Hl'. injection Hl' as <-. rewrite Forall_forall in Hp, Hf. destruct (Hp p Hin). split_and!; auto.
Qed.

Lemma stat_info_ok w b base opts p :
  is_open w b -> path_of b p = Some p -> is_Some (files w b !! p) ->
  exists fi, stat_info None w b (relative base p) p opts = (w, fi) /\ fi.(FPath) = relative base p /\ fi.(FIsDir) = false.
Proof.
  intros Ho Hp [d Hd]. unfold stat_info. destruct (AsExtended b) eqn:He; [|by eexists].
  destruct (Stat_spec w b p p d Ho He Hp Hd) as (info & -> & Hdir & _). by eexists.
Qed.

Lemma listFiles_ok now w b base opts ps :
  is_open w b -> listed w b base ps -> listFiles None now w b base opts = (w, Ok (scan w b base now opts ps)).
Proof.
  intros Ho Hlisted. unfold listFiles. rewrite (proj1 Hlisted).
  enough (list_infos None now w b base opts ps = (w, scan w b base now opts ps)) as -> by done.
  assert (forall p, p ∈ ps -> path_of b p = Some p /\ is_Some (files w b !! p)) as Hps
    by (intros p Hin; destruct (listed_files _ _ _ _ _ Ho Hlisted Hin); tauto).
  clear Hlisted. induction ps as [|p ps IH]; [done|]. cbn [list_infos].
  destruct (Hps p (list_elem_of_here _ _)) as [H1 H2].
  destruct (stat_info_ok w b base opts p Ho H1 H2) as (fi & Hst & _). rewrite Hst, IH by (intros; apply Hps; by right).
  unfold scan. rewrite fmap_cons, filter_cons, Hst. cbn [snd]. destruct (filtered now opts fi); [by rewrite decide_True|].
  by rewrite decide_False.
Qed.

(** A scan: files with distinct paths, each leading to its file. *)
Definition scanned (w : W) (b : B) (base : string) (fs : list FileInfo) : Prop :=
  NoDup (FPath <$> fs) /\
  forall f, f ∈ fs -> f.(FIsDir) = false /\ exists p, path_of b (Join base f.(FPath)) = Some p /\ is_Some (files w b !! p).

Lemma scan_scanned w b base now opts ps :
  is_open w b -> listed w b base ps -> scanned w b base (scan w b base now opts ps).
Proof.
  intros Ho Hl. split.
  - eapply sublist_NoDup; [|apply fmap_sublist, sublist_filter]. rewrite <- list_fmap_compose.
    destruct ps as [|p0 ps0] eqn:Eps; [constructor|]. rewrite <- Eps in *.
    destruct (listed_files w b base ps p0 Ho Hl) as [Hnd _]; [subst; left|].
    apply NoDup_fmap_2_strong; [|done]. intros p1 p2 H1 H2 Heq. cbn in Heq.
    destruct (listed_files _ _ _ _ _ Ho Hl H1) as (_ & Ha & Hb & Hc), (listed_files _ _ _ _ _ Ho Hl H2) as (_ & Ha2 & Hb2 & Hc2).
    destruct (stat_info_ok w b base opts p1 Ho Ha Hc) as (f1 & E1 & P1 & _), (stat_info_ok w b base opts p2 Ho Ha2 Hc2) as (f2 & E2 & P2 & _).
    rewrite E1, E2 in Heq. cbn in Heq. rewrite P1, P2 in Heq. congruence.
  - intros f [_ (p & -> & Hin)%list_elem_of_fmap]%list_elem_of_filter.
    destruct (listed_files _ _ _ _ _ Ho Hl Hin) as (_ & Ha & Hb & Hc).
    destruct (stat_info_ok w b base opts p Ho Ha Hc) as (fi & -> & Hp & Hdir). cbn. split; [done|].
    exists p. by rewrite Hp.
Qed.

(** *** Comparing *)

(** What the loop decides for a source file, given what the destination has at its path. *)
Definition action_for (opts : Options) (d : option FileInfo) (f : FileInfo) : option copyAction :=
  match d with
  | None => Some (mkAction f false)
  | Some g =>
      if negb g.(FIsDir) && NeedsUpdate f g opts && negb opts.(IgnoreExisting) then Some (mkAction f true) else None
  end.

Definition actions (opts : Options) (D : gmap string FileInfo) (fs : list FileInfo) : list copyAction :=
  omap (fun f => action_for opts (D !! f.(FPath)) f) fs.

Definition skip (n : nat) (r : Result) : Result :=
  mkResult r.(Copied) r.(Updated) r.(Deleted) (r.(Skipped) + Z.of_nat n) r.(Errors_) r.(BytesTransferred) r.(WasDryRun).

Lemma skip_skip n m r : skip n (skip m r) = skip (m + n) r.
Proof. unfold skip. cbn. f_equal. lia. Qed.

Lemma skip_0 r : skip 0 r = r.
Proof. unfold skip. destruct r. by rewrite Z.add_0_r. Qed.

Lemma actions_delete opts D f fs : f.(FPath) ∉ FPath <$> fs -> actions opts (delete f.(FPath) D) fs = actions opts D fs.
Proof.
  intros Hn. unfold actions. induction fs as [|g fs IH]; [done|]. rewrite fmap_cons, not_elem_of_cons in Hn. destruct Hn as [Hne Hn].
  cbn. rewrite lookup_delete_ne by done. by rewrite IH.
Qed.

Lemma length_actions opts D fs : length (actions opts D fs) <= length fs.
Proof. unfold actions. induction fs as [|f fs IH]; cbn; [lia|]. destruct (action_for _ _ _); cbn; lia. Qed.

Lemma compare_fold opts fs acts D r :
  NoDup (FPath <$> fs) -> (forall f, f ∈ fs -> f.(FIsDir) = false) ->
  exists D', fold_left (compare_step opts) fs (acts, D, r) =
      (acts ++ actions opts D fs, D', skip (length fs - length (actions opts D fs)) r) /\
    forall k, D' !! k = if decide (k ∈ FPath <$> fs) then None else D !! k.
Proof.
  revert acts D r. induction fs as [|f fs IH]; intros acts D r Hnd Hdir.
  { exists D. cbn. rewrite app_nil_r, skip_0. by split. }
  rewrite fmap_cons, NoDup_cons in Hnd. destruct Hnd as [Hnf Hnd]. cbn [fold_left]. unfold compare_step at 2.
  rewrite (Hdir f) by left. pose proof (length_actions opts D fs) as Hlen.
  assert (forall acts r a, action_for opts (D !! f.(FPath)) f = a ->
    exists D', fold_left (compare_step opts) fs (acts ++ option_list a, delete f.(FPath) D, skip (1 - length (option_list a)) r) =
      (acts ++ actions opts D (f :: fs), D', skip (length (f :: fs) - length (actions opts D (f :: fs))) r) /\
    forall k, D' !! k = if decide (k ∈ FPath <$> f :: fs) then None else D !! k) as Hstep.
  { intros acts0 r0 a Ha. destruct (IH (acts0 ++ option_list a) (delete f.(FPath) D) (skip (1 - length (option_list a)) r0)) as (D' & Hf & HD');
      [done|intros; apply Hdir; by right|]. rewrite actions_delete in Hf by done. exists D'. rewrite Hf. split.
    - unfold actions at 3 4. cbn [omap list_omap]. rewrite Ha. fold (actions opts D fs). rewrite skip_skip.
      destruct a; simpl; rewrite <- ?app_assoc; simpl; do 2 f_equal; lia.
    - intros k. rewrite HD', fmap_cons. destruct (decide (k = f.(FPath))) as [->|Hne].
      + rewrite lookup_delete_eq, (decide_True _ _ (list_elem_of_here _ _)). by case_decide.
      + rewrite lookup_delete_ne by done. apply decide_ext. rewrite elem_of_cons. naive_solver. }
  unfold action_for in Hstep. destruct (D !! f.(FPath)) as [g|] eqn:Hg.
  - destruct (negb g.(FIsDir) && NeedsUpdate f g opts); [destruct (negb opts.(IgnoreExisting))|].
    + destruct (Hstep acts r _ eq_refl) as (D' & HD & ?). exists D'. split; [|done]. rewrite <- HD. cbn. by rewrite skip_0.
    + destruct (Hstep acts r _ eq_refl) as (D' & HD & ?). exists D'. split; [|done]. rewrite <- HD. cbn. by rewrite app_nil_r.
    + destruct (Hstep acts r _ eq_refl) as (D' & HD & ?). exists D'. split; [|done]. rewrite <- HD. cbn. by rewrite app_nil_r.
  - destruct (Hstep acts r _ eq_refl) as (D' & HD & ?). exists D'. split; [|done]. rewrite <- HD. cbn. by rewrite skip_0.
Qed.

(** *** Transfers *)

Lemma buildWriterOptions_ok w b sp p d meta :
  is_open w b -> path_of b sp = Some p -> files w b !! p = Some d ->
  (buildWriterOptions None w b sp meta).1 = w.
Proof.
  intros Ho Hp Hd. unfold buildWriterOptions. destruct (AsExtended b) eqn:He; [|done]. cbn [negb].
  by destruct (Stat_spec w b sp p d Ho He Hp Hd) as (info & -> & _).
Qed.

Lemma copyFileSingle_ok fuel now sctx w sb db sp dp p q d :
  is_open w sb -> is_open w db -> path_of sb sp = Some p -> path_of db dp = Some q ->
  files w sb !! p = Some d -> length d < fuel -> blocks (Z.of_nat copy_buffer) sctx.(rateLimiter) = false ->
  exists w', copyFileSingle fuel None now sctx sb db sp dp w = Some (w', None) /\ stored_at w w' db q d.
Proof.
  intros Hs Hd Hp Hq Hf Hfuel Hlim. unfold copyFileSingle.
  destruct (bool_decide (sb = db) && AsExtended sb && _) eqn:Hserver.
  - apply andb_true_iff in Hserver as [[Heq%bool_decide_eq_true He]%andb_true_iff HC]. subst db.
    destruct (Copy_spec now w sb sp dp p q d) as (w' & Hcp & ? & ?); [done|by rewrite He|done..|].
    exists w'. rewrite Hcp. done.
  - destruct (NewReader_at w sb sp p d Hs Hp Hf) as (r & -> & Hro & Hr).
    destruct (buildWriterOptions _ _ _ _ _) as [w1 wopts] eqn:Hb.
    pose proof (buildWriterOptions_ok w sb sp p d sctx.(s_opts).(PreserveMetadata) Hs Hp Hf) as Hb1.
    rewrite Hb in Hb1. cbn in Hb1. subst w1.
    pose proof (NewWriter_spec w db dp wopts Hd) as Hw. rewrite Hq in Hw. destruct Hw as (v & -> & Hwo & Ht & Hv). rewrite Hlim.
    destruct (io_Copy_spec Write pending (writes_to db q) fuel w r v 0) as (r' & v' & -> & Hg & Ht');
      [intros; by apply write_pending|done|done|by rewrite Hr|].
    rewrite Hv, Hr in Hg. destruct (publish now w v' db q d Hd Ht' Hg) as (w' & -> & Hst).
    exists w'. rewrite CloseReader_spec. done.
Qed.

Lemma copyFileSingle_missing fuel now sctx w sb db sp dp :
  sb <> db -> is_open w sb -> path_of sb sp ≫= (files w sb !!.) = None ->
  exists e, copyFileSingle fuel None now sctx sb db sp dp w = Some (w, Some e).
Proof.
  intros Hne Hs Hm. unfold copyFileSingle. rewrite bool_decide_eq_false_2 by done. cbn [andb].
  pose proof (NewReader_spec w sb sp Hs) as Hr. rewrite Hm in Hr. destruct Hr as (e & ->). by exists e.
Qed.

(** A first attempt that succeeds is not retried. *)
Lemma copyFileWithContext_ok fuel now sctx w sb db sp dp p q d :
  is_open w sb -> is_open w db -> path_of sb sp = Some p -> path_of db dp = Some q ->
  files w sb !! p = Some d -> length d < fuel -> blocks (Z.of_nat copy_buffer) sctx.(rateLimiter) = false ->
  exists w', copyFileWithContext fuel None now sctx sb db sp dp w = Some (w', None) /\ stored_at w w' db q d.
Proof.
  intros. destruct (copyFileSingle_ok fuel now sctx w sb db sp dp p q d) as (w' & Hc & Hst); [done..|].
  exists w'. split; [|done]. unfold copyFileWithContext. destruct (Retry _) as [config|]; [|done]. case_match; [|done].
  unfold retryOperation. case_match; [done|]. destruct (Z.to_nat _); cbn [retry_loop]; by rewrite Hc.
Qed.

(** *** The pool *)

Definition tally (a : copyAction) (r : Result) : Result := add_transferred a.(isUpdate) a.(afile).(FSize) r.

#[local] Instance tally_perm r : Proper ((≡ₚ) ==> (=)) (foldr tally r).
Proof.
  intros l1 l2 Hp. induction Hp as [|a l1 l2 Hp IH|a b l|l1 l2 l3 H1 IH1 H2 IH2]; cbn; [done|by rewrite IH| |congruence].
  unfold tally, add_transferred. destruct (isUpdate a), (isUpdate b); cbn; f_equal; lia.
Qed.

Section pool.
Context (fuel : nat) (now : time) (sctx : syncContext) (src dst : B) (srcPath dstPath : string).
Hypothesis Hapart : src <> dst.
Hypothesis Hlim : blocks (Z.of_nat copy_buffer) sctx.(rateLimiter) = false.
Hypothesis Hworkers : (0 < sctx.(s_opts).(Concurrency))%Z.

Definition target_of (rel : string) : option string := path_of dst (Join dstPath rel).

(** The source file of a path can be read within the fuel, and has a place to go to. *)
Definition ready (w : W) (rel : string) : Prop :=
  is_Some (target_of rel) /\
  exists p d, path_of src (Join srcPath rel) = Some p /\ files w src !! p = Some d /\ length d < fuel.

(** The destination holds the source's content at each of the paths, and is else unchanged. *)
Definition transferred (w w' : W) (rels : list string) : Prop :=
  (forall c, is_open w c -> is_open w' c) /\ (forall c, c <> dst -> files w' c = files w c) /\
  (forall rel q, rel ∈ rels -> target_of rel = Some q -> files w' dst !! q = content w src srcPath rel) /\
  (forall q, (forall rel, rel ∈ rels -> target_of rel <> Some q) -> files w' dst !! q = files w dst !! q).

Definition advanced (w w' : W) (acts : list copyAction) : Prop :=
  if sctx.(s_opts).(DryRun) then w' = w else transferred w w' ((fun a => a.(afile).(FPath)) <$> acts).

Lemma transferred_nil w : transferred w w [].
Proof. repeat split; [done|]. intros rel q Hin. by apply elem_of_nil in Hin. Qed.

Lemma transferred_cons w w1 w' rel rels :
  transferred w w1 [rel] -> transferred w1 w' rels -> NoDup (target_of <$> rel :: rels) ->
  transferred w w' (rel :: rels).
Proof.
  intros (Ho1 & Hf1 & Hin1 & Hout1) (Ho & Hf & Hin & Hout) Hnd. rewrite fmap_cons, NoDup_cons in Hnd. destruct Hnd as [Hn _].
  split_and!; [auto|intros; by rewrite Hf, Hf1| |].
  - intros r q [->|Hr]%elem_of_cons Hq.
    + rewrite Hout; [apply (Hin1 rel q); [by left|done]|]. intros r' Hr' Hq'. apply Hn. apply list_elem_of_fmap. exists r'. by rewrite Hq.
    + rewrite (Hin r q Hr Hq). unfold content. by rewrite Hf1 by done.
  - intros q Hq. rewrite Hout by (intros; apply Hq; by right). apply Hout1.
    intros r ->%list_elem_of_singleton. apply Hq. by left.
Qed.

Lemma advanced_cons w w1 w' a acts :
  advanced w w1 [a] -> advanced w1 w' acts ->
  NoDup (target_of <$> ((fun a => a.(afile).(FPath)) <$> a :: acts)) -> advanced w w' (a :: acts).
Proof. unfold advanced. destruct (DryRun _); [congruence|]. rewrite !fmap_cons. apply transferred_cons. Qed.

Lemma advanced_perm w w' acts acts' : acts ≡ₚ acts' -> advanced w w' acts -> advanced w w' acts'.
Proof.
  unfold advanced. destruct (DryRun _); [done|]. intros Hp (? & ? & Hin & Hout). split_and!; [done..| |].
  - intros rel q Hr. apply Hin. by rewrite Hp.
  - intros q Hq. apply Hout. intros rel. rewrite Hp. apply Hq.
Qed.

Lemma advanced_open w w' acts c : advanced w w' acts -> is_open w c -> is_open w' c.
Proof. unfold advanced. destruct (DryRun _); [by intros ->|]. intros (? & _); auto. Qed.

Lemma advanced_ready w w' acts rel : advanced w w' acts -> ready w rel -> ready w' rel.
Proof. unfold advanced. destruct (DryRun _); [by intros ->|]. intros (_ & Hf & _). unfold ready. by rewrite Hf. Qed.

(** A transfer that finishes: it takes one action off the running ones and has its effect. *)
Lemma finish_ok i early p :
  p.(running) <> [] -> p.(copyCtx) = None -> is_open p.(p_world) src -> is_open p.(p_world) dst ->
  (forall a, a ∈ p.(running) -> ready p.(p_world) a.(afile).(FPath)) ->
  exists a rest w, finish fuel None now sctx src dst srcPath dstPath i early p =
      Some (mkPool p.(workCh) rest None (tally a p.(p_result)) w) /\
    p.(running) ≡ₚ a :: rest /\ advanced p.(p_world) w [a].
Proof.
  intros Hne Hctx Hos Hod Hready. unfold finish. set (j := Nat.modulo i (length p.(running))).
  assert (j < length p.(running)) as Hj by (apply Nat.mod_upper_bound; by destruct p.(running)).
  destruct (lookup_lt_is_Some_2 _ _ Hj) as [a Ha]. rewrite Ha. exists a, (take j p.(running) ++ drop (S j) p.(running)).
  assert (p.(running) ≡ₚ a :: take j p.(running) ++ drop (S j) p.(running)) as Hperm.
  { rewrite <- (take_drop_middle p.(running) j a Ha) at 1. symmetry. apply Permutation_middle. }
  unfold finish_action, advanced. destruct (DryRun _) eqn:Hdry; cbn [negb].
  { exists p.(p_world). by rewrite Hctx. }
  destruct (Hready a) as ((q & Hq) & ps & d & Hps & Hd & Hfuel); [by eapply list_elem_of_lookup_2|].
  rewrite Hctx. match goal with |- context [copyFileWithContext _ ?c] => assert (c = None) as -> by by destruct early end.
  destruct (copyFileWithContext_ok fuel now sctx p.(p_world) src dst (Join srcPath a.(afile).(FPath))
    (Join dstPath a.(afile).(FPath)) ps q d) as (w & -> & Hopen & Hfiles); [done..|].
  exists w. split_and!; [done..|]. rewrite list_fmap_singleton. split_and!; [done| | |].
  - intros c Hc. by rewrite Hfiles, decide_False.
  - intros rel q' ->%list_elem_of_singleton Hq'. rewrite Hfiles, decide_True by done. unfold target_of in *.
    rewrite Hq in Hq'. injection Hq' as <-. rewrite lookup_insert_eq. unfold content. by rewrite Hps.
  - intros q' Hq'. rewrite Hfiles, decide_True by done. rewrite lookup_insert_ne; [done|]. intros <-.
    by apply (Hq' a.(afile).(FPath)); [left|].
Qed.

(** Whatever the schedule, the pool empties the channel and every action has been done. *)
Lemma run_pool_ok steps p :
  2 * length p.(workCh) + length p.(running) < steps -> p.(copyCtx) = None ->
  is_open p.(p_world) src -> is_open p.(p_world) dst ->
  (forall a, a ∈ p.(running) ++ p.(workCh) -> ready p.(p_world) a.(afile).(FPath)) ->
  NoDup (target_of <$> ((fun a => a.(afile).(FPath)) <$> p.(running) ++ p.(workCh))) ->
  exists p', run_pool fuel None now sctx src dst srcPath dstPath steps p = Some p' /\
    p'.(p_result) = foldr tally p.(p_result) (p.(running) ++ p.(workCh)) /\
    advanced p.(p_world) p'.(p_world) (p.(running) ++ p.(workCh)).
Proof.
  revert p. induction steps as [|steps IH]; intros p Hsteps Hctx Hos Hod Hready Hnd; [lia|]. cbn [run_pool].
  assert (forall p' a rest w i early, finish fuel None now sctx src dst srcPath dstPath i early p = Some p' ->
    p' = mkPool p.(workCh) rest None (tally a p.(p_result)) w -> p.(running) ≡ₚ a :: rest -> advanced p.(p_world) w [a] ->
    exists p2, run_pool fuel None now sctx src dst srcPath dstPath steps p' = Some p2 /\
      p2.(p_result) = foldr tally p.(p_result) (p.(running) ++ p.(workCh)) /\
      advanced p.(p_world) p2.(p_world) (p.(running) ++ p.(workCh))) as Hdone.
  { intros p' a rest w i early _ -> Hperm Hadv. pose proof (Permutation_length Hperm) as Hlen. cbn in Hlen.
    destruct (IH (mkPool p.(workCh) rest None (tally a p.(p_result)) w)) as (p2 & Hrun & Hres & Hadv2); cbn in *.
    - lia.
    - done.
    - by eapply advanced_open.
    - by eapply advanced_open.
    - intros b Hb. eapply advanced_ready; [done|]. apply Hready. rewrite Hperm. by right.
    - rewrite Hperm in Hnd. cbn in Hnd. by apply NoDup_cons in Hnd as [_ ?].
    - exists p2. rewrite Hrun. split; [done|]. rewrite Hres. split.
      + rewrite Hperm. cbn. clear. induction (rest ++ p.(workCh)) as [|b l IHl]; [done|]. cbn. rewrite IHl.
        symmetry. apply (tally_perm (foldr tally p.(p_result) l) [a; b] [b; a]). constructor.
      + eapply advanced_perm; [by rewrite Hperm|]. cbn. eapply advanced_cons; [done..|]. by rewrite Hperm in Hnd. }
  assert (p.(running) <> [] -> forall i early, exists p2,
    (p ← finish fuel None now sctx src dst srcPath dstPath i early p; run_pool fuel None now sctx src dst srcPath dstPath steps p) = Some p2 /\
      p2.(p_result) = foldr tally p.(p_result) (p.(running) ++ p.(workCh)) /\
      advanced p.(p_world) p2.(p_world) (p.(running) ++ p.(workCh))) as Hfinish.
  { intros Hne i early. destruct (finish_ok i early p Hne Hctx Hos Hod) as (a & rest & w & Hfin & Hperm & Hadv).
    - intros a Ha. apply Hready. apply elem_of_app. by left.
    - rewrite Hfin. cbn [mbind option_bind]. by eapply Hdone. }
  assert (forall p', take_action sctx p = Some p' -> exists p2,
    run_pool fuel None now sctx src dst srcPath dstPath steps p' = Some p2 /\
      p2.(p_result) = foldr tally p.(p_result) (p.(running) ++ p.(workCh)) /\
      advanced p.(p_world) p2.(p_world) (p.(running) ++ p.(workCh))) as Htake.
  { unfold take_action. rewrite Hctx. destruct p.(workCh) as [|a q] eqn:Hq; [done|]. intros p'. case_match; [|done]. intros [= <-].
    destruct (IH (mkPool q (p.(running) ++ [a]) None p.(p_result) p.(p_world))) as (p2 & Hrun & Hres & Hadv);
      cbn; rewrite <- ?app_assoc, ?length_app; cbn in *; [lia|done..|]. cbn in *. rewrite <- app_assoc in *. by exists p2. }
  destruct p.(running) as [|a l] eqn:Hrun.
  - destruct (take_action sctx p) as [p'|] eqn:Ht; [by apply Htake|]. exists p. split; [done|].
    unfold take_action in Ht. rewrite Hctx, Hrun in Ht. destruct p.(workCh) as [|a q]; [|by rewrite (proj2 (Z.ltb_lt _ _)) in Ht by done].
    split; [done|]. unfold advanced. destruct (DryRun _); [done|apply transferred_nil].
  - destruct (take_action sctx p) as [p'|], (choose steps); eauto.
Qed.

End pool.

(** *** Deletions *)

Definition removed (n : nat) (r : Result) : Result :=
  mkResult r.(Copied) r.(Updated) (r.(Deleted) + Z.of_nat n) r.(Skipped) r.(Errors_) r.(BytesTransferred) r.(WasDryRun).

Lemma delete_loop_ok w dst dstPath opts ps r :
  is_open w dst -> (forall p, p ∈ ps -> is_Some (path_of dst (Join dstPath p))) ->
  exists w', delete_loop None w dst dstPath opts ps r = (w', removed (length ps) r, None) /\
    if opts.(DryRun) then w' = w
    else (forall c, is_open w c -> is_open w' c) /\ (forall c, c <> dst -> files w' c = files w c) /\
      (forall p q, p ∈ ps -> path_of dst (Join dstPath p) = Some q -> files w' dst !! q = None) /\
      forall q, (forall p, p ∈ ps -> path_of dst (Join dstPath p) <> Some q) -> files w' dst !! q = files w dst !! q.
Proof.
  revert w r. induction ps as [|p ps IH]; intros w r Ho Hps.
  { exists w. split; [unfold removed; destruct r; cbn; by rewrite Z.add_0_r|]. destruct (DryRun opts); [done|].
    split_and!; [done..| |done]. intros p q Hin. by apply elem_of_nil in Hin. }
  assert (forall r, removed (length ps) (add_deleted r) = removed (length (p :: ps)) r) as Hr
    by (intros r0; unfold removed, add_deleted; cbn [length Copied Updated Deleted Skipped Errors_ BytesTransferred WasDryRun]; f_equal; lia).
  cbn [delete_loop ctx_err fmap option_fmap option_map]. destruct (DryRun opts) eqn:Hdry; cbn [negb].
  - destruct (IH w (add_deleted r) Ho) as (w' & -> & ->); [intros; apply Hps; by right|]. rewrite Hr. by exists w.
  - destruct (Hps p (list_elem_of_here _ _)) as [q Hq]. pose proof (Delete_spec w dst (Join dstPath p) Ho) as Hd.
    rewrite Hq in Hd. destruct Hd as (w1 & -> & Ho1 & Hf1).
    destruct (IH w1 (add_deleted r) (Ho1 _ Ho)) as (w' & -> & Ho' & Hf & Hin & Hout); [intros; apply Hps; by right|].
    rewrite Hr. exists w'. split; [done|]. split_and!; [auto|intros; by rewrite Hf, Hf1, decide_False| |].
    + intros p0 q0 Hp0 Hq0. destruct (decide (Some q0 ∈ (fun p => path_of dst (Join dstPath p)) <$> ps)) as [(p1 & ? & ?)%list_elem_of_fmap|Hno].
      * by apply (Hin p1).
      * rewrite Hout by (intros p1 ? ?; apply Hno, list_elem_of_fmap; by exists p1).
        apply elem_of_cons in Hp0 as [->|Hp0]; [|destruct Hno; apply list_elem_of_fmap; by exists p0].
        rewrite Hf1, decide_True by done. rewrite Hq in Hq0. injection Hq0 as <-. apply lookup_delete_eq.
    + intros q0 Hq0. rewrite Hout by (intros; apply Hq0; by right). rewrite Hf1, decide_True by done.
      apply lookup_delete_ne. intros <-. by apply (Hq0 p); [left|].
Qed.

(** *** The indexes of a scan *)

Definition index (fs : list FileInfo) : gmap string FileInfo := fold_left (fun m f => <[f.(FPath) := f]> m) fs ∅.

Lemma lookup_index fs k f : NoDup (FPath <$> fs) -> index fs !! k = Some f <-> f ∈ fs /\ f.(FPath) = k.
Proof.
  intros Hnd. unfold index.
  enough (forall m : gmap string FileInfo, (fold_left (fun m f => <[f.(FPath) := f]> m) fs m !! k) = Some f <->
    (f ∈ fs /\ f.(FPath) = k) \/ ((k ∉ FPath <$> fs) /\ m !! k = Some f)) as H.
  { rewrite H, lookup_empty. naive_solver. }
  induction fs as [|g fs IH]; intros m.
  { cbn. split; [right; split; [apply not_elem_of_nil|done]|]. intros [[H _]|[_ H]]; [by apply elem_of_nil in H|done]. }
  rewrite fmap_cons, NoDup_cons in Hnd. destruct Hnd as [Hng Hnd]. cbn [fold_left]. rewrite IH by done.
  rewrite fmap_cons, not_elem_of_cons, elem_of_cons. destruct (decide (g.(FPath) = k)) as [<-|Hne].
  - rewrite lookup_insert_eq. split.
    + intros [[? ?]|[_ [= <-]]]; [left; tauto|by left; split; [left|]].
    + intros [[[->|Hin] Hp]|[[? _] _]]; [by right|by left|done].
  - rewrite lookup_insert_ne by done. split.
    + intros [[? ?]|[? ?]]; [left; tauto|right; split; [split|]; congruence].
    + intros [[[->|Hin] Hp]|[[_ ?] ?]]; [done|by left|by right].
Qed.

(** The same map built from the files that are not directories. *)
Lemma index_no_dirs dfs :
  (forall f, f ∈ dfs -> f.(FIsDir) = false) ->
  fold_left (fun m f => if f.(FIsDir) then m else <[f.(FPath) := f]> m) dfs ∅ = index dfs.
Proof.
  unfold index. generalize (∅ : gmap string FileInfo). induction dfs as [|f dfs IH]; intros m Hdir; [done|].
  cbn [fold_left]. rewrite (Hdir f) by left. apply IH. intros; apply Hdir; by right.
Qed.

Lemma index_None fs k : NoDup (FPath <$> fs) -> index fs !! k = None <-> k ∉ FPath <$> fs.
Proof.
  intros Hnd. rewrite eq_None_not_Some. apply not_iff_compat. split.
  - intros [f [Hf <-]%lookup_index]; [|done]. by apply list_elem_of_fmap_2.
  - intros (f & -> & Hf)%list_elem_of_fmap. exists f. by apply lookup_index.
Qed.

(** *** What a sync plans *)

Inductive verdict := Keep | Transfer | Remove.

(** What becomes of a path that the source has as [s] and the destination as [d]. *)
Definition decision (opts : Options) (s d : option FileInfo) : verdict :=
  match s, d with
  | Some _, None => Transfer
  | Some f, Some g => if NeedsUpdate f g opts && negb opts.(IgnoreExisting) then Transfer else Keep
  | None, Some _ => if opts.(DeleteExtra) then Remove else Keep
  | None, None => Keep
  end.

Definition extras (sfs dfs : list FileInfo) : list FileInfo := filter (fun g => g.(FPath) ∉ FPath <$> sfs) dfs.

(** The result a sync without errors reports. *)
Definition plan (opts : Options) (sfs dfs : list FileInfo) : Result :=
  let acts := actions opts (index dfs) sfs in
  removed (if opts.(DeleteExtra) then length (extras sfs dfs) else 0)
    (foldr tally (skip (length sfs - length acts) (emptyResult opts)) acts).

Lemma elem_of_actions opts D fs a :
  (forall k g, D !! k = Some g -> g.(FIsDir) = false) ->
  a ∈ actions opts D fs ->
  a.(afile) ∈ fs /\ decision opts (Some a.(afile)) (D !! a.(afile).(FPath)) = Transfer.
Proof.
  intros HD (f & Hf & Ha)%list_elem_of_omap. unfold action_for in Ha. destruct (D !! f.(FPath)) as [g|] eqn:Hg.
  - rewrite (HD _ _ Hg) in Ha. cbn in Ha. destruct (NeedsUpdate f g opts && _) eqn:Hn; [|done]. injection Ha as <-. cbn. by rewrite Hg, Hn.
  - injection Ha as <-. cbn. by rewrite Hg.
Qed.

Lemma actions_complete opts D fs f :
  (forall k g, D !! k = Some g -> g.(FIsDir) = false) ->
  f ∈ fs -> decision opts (Some f) (D !! f.(FPath)) = Transfer ->
  f.(FPath) ∈ ((fun a => a.(afile).(FPath)) <$> actions opts D fs).
Proof.
  intros HD Hf Hd. apply list_elem_of_fmap. unfold actions, decision in *.
  assert (exists a, action_for opts (D !! f.(FPath)) f = Some a /\ a.(afile) = f) as (a & Ha & Haf).
  { unfold action_for. destruct (D !! f.(FPath)) as [g|] eqn:Hg; [|by eexists].
    rewrite (HD _ _ Hg). cbn. destruct (NeedsUpdate f g opts && _); [by eexists|done]. }
  exists a. rewrite Haf. split; [done|]. apply list_elem_of_omap. by exists f.
Qed.

Lemma NoDup_actions opts D fs : NoDup (FPath <$> fs) -> NoDup ((fun a => a.(afile).(FPath)) <$> actions opts D fs).
Proof.
  unfold actions. induction fs as [|f fs IH]; [constructor|]. rewrite fmap_cons, NoDup_cons. intros [Hn Hnd]. cbn [omap list_omap].
  destruct (action_for opts (D !! f.(FPath)) f) as [a|] eqn:Ha; [|by apply IH].
  rewrite fmap_cons, NoDup_cons. split; [|by apply IH]. intros (b & Hb & (g & Hg & Hbg)%list_elem_of_omap)%list_elem_of_fmap.
  assert (forall d f a, action_for opts d f = Some a -> a.(afile) = f) as Haf
    by (unfold action_for; intros [?|] ? ?; [case_match|]; naive_solver).
  rewrite (Haf _ _ _ Ha), (Haf _ _ _ Hbg) in Hb. apply Hn. rewrite Hb. by apply list_elem_of_fmap_2.
Qed.

(** What is left of the index once the source's paths are gone. *)
Lemma extras_left sfs dfs D' :
  NoDup (FPath <$> dfs) -> (forall g, g ∈ dfs -> g.(FIsDir) = false) ->
  (forall k, D' !! k = if decide (k ∈ FPath <$> sfs) then None else index dfs !! k) ->
  (filter (fun kf => kf.2.(FIsDir) = false) (range D')).*1 ≡ₚ FPath <$> extras sfs dfs.
Proof.
  intros Hnd Hdir HD'. apply NoDup_Permutation.
  - eapply sublist_NoDup; [apply (NoDup_range_keys D')|apply fmap_sublist, sublist_filter].
  - eapply sublist_NoDup; [exact Hnd|apply fmap_sublist, sublist_filter].
  - intros k. unfold extras. rewrite !list_elem_of_fmap. split.
    + intros ([k0 g] & -> & [_ Hin%elem_of_range]%list_elem_of_filter). cbn in *. rewrite HD' in Hin.
      destruct (decide (k0 ∈ FPath <$> sfs)); [done|]. apply lookup_index in Hin as [Hin <-]; [|done].
      exists g. split; [done|]. by apply list_elem_of_filter.
    + intros (g & -> & [Hno Hg]%list_elem_of_filter). exists (g.(FPath), g). split; [done|]. apply list_elem_of_filter. cbn.
      split; [by apply Hdir|]. apply elem_of_range. rewrite HD', decide_False by done. by apply lookup_index.
Qed.

Definition count {A} (p : A -> bool) (l : list A) : Z := Z.of_nat (length (List.filter p l)).

Lemma count_cons {A} (p : A -> bool) x l : (count p (x :: l) = (if p x then 1 else 0) + count p l)%Z.
Proof. unfold count. cbn. destruct (p x); cbn [length]; lia. Qed.

(** A source file is new, stale or kept. *)
Definition is_new (dfs : list FileInfo) (f : FileInfo) : bool :=
  match index dfs !! f.(FPath) with None => true | Some _ => false end.
Definition is_stale (opts : Options) (dfs : list FileInfo) (f : FileInfo) : bool :=
  match index dfs !! f.(FPath) with Some g => NeedsUpdate f g opts && negb opts.(IgnoreExisting) | None => false end.
Definition is_kept (opts : Options) (dfs : list FileInfo) (f : FileInfo) : bool :=
  negb (is_new dfs f) && negb (is_stale opts dfs f).

Lemma tally_counts acts r :
  let r' := foldr tally r acts in
  r'.(Copied) = (r.(Copied) + count (fun a => negb a.(isUpdate)) acts)%Z /\
  r'.(Updated) = (r.(Updated) + count isUpdate acts)%Z /\
  r'.(Deleted) = r.(Deleted) /\ r'.(Skipped) = r.(Skipped) /\ r'.(Errors_) = r.(Errors_) /\
  r'.(WasDryRun) = r.(WasDryRun).
Proof.
  cbv zeta. induction acts as [|a acts (H1 & H2 & H3 & H4 & H5 & H6)]; [unfold count; cbn; split_and!; (done || lia)|].
  rewrite !count_cons. cbn [foldr]. set (R := foldr tally r acts) in *. clearbody R. unfold tally, add_transferred.
  destruct (isUpdate a); cbn [negb Copied Updated Deleted Skipped Errors_ WasDryRun]; split_and!; try done; lia.
Qed.

Lemma action_for_kind opts dfs f :
  (forall k g, index dfs !! k = Some g -> g.(FIsDir) = false) ->
  match action_for opts (index dfs !! f.(FPath)) f with
  | Some a => is_new dfs f = negb a.(isUpdate) /\ is_stale opts dfs f = a.(isUpdate)
  | None => is_new dfs f = false /\ is_stale opts dfs f = false
  end.
Proof.
  intros HD. unfold action_for, is_new, is_stale. destruct (index dfs !! f.(FPath)) as [g|] eqn:Hg; [|done].
  rewrite (HD _ _ Hg). cbn [negb andb]. by destruct (NeedsUpdate f g opts && negb opts.(IgnoreExisting)).
Qed.

Lemma actions_cons opts D f fs :
  actions opts D (f :: fs) =
    match action_for opts (D !! f.(FPath)) f with Some a => a :: actions opts D fs | None => actions opts D fs end.
Proof. done. Qed.

Lemma actions_counts opts dfs sfs :
  (forall k g, index dfs !! k = Some g -> g.(FIsDir) = false) ->
  let acts := actions opts (index dfs) sfs in
  count (fun a => negb a.(isUpdate)) acts = count (is_new dfs) sfs /\
  count isUpdate acts = count (is_stale opts dfs) sfs /\
  (Z.of_nat (length sfs - length acts) = count (is_kept opts dfs) sfs)%Z.
Proof.
  intros HD. cbv zeta. induction sfs as [|f sfs (IH1 & IH2 & IH3)]; [done|]. rewrite actions_cons, !(count_cons _ f).
  pose proof (length_actions opts (index dfs) sfs) as Hlen. pose proof (action_for_kind opts dfs f HD) as Hk.
  unfold is_kept at 1. destruct (action_for _ _ _) as [a|]; destruct Hk as [-> ->];
    rewrite ?count_cons; [destruct (isUpdate a)|]; cbn [isUpdate negb andb length]; lia.
Qed.

Lemma plan_counts opts sfs dfs :
  (forall k g, index dfs !! k = Some g -> g.(FIsDir) = false) ->
  let r := plan opts sfs dfs in
  r.(Copied) = count (is_new dfs) sfs /\ r.(Updated) = count (is_stale opts dfs) sfs /\
  r.(Skipped) = count (is_kept opts dfs) sfs /\
  r.(Deleted) = (if opts.(DeleteExtra) then Z.of_nat (length (extras sfs dfs)) else 0%Z) /\
  r.(Errors_) = [] /\ r.(WasDryRun) = opts.(DryRun).
Proof.
  intros HD. cbv zeta. unfold plan. cbn [removed Copied Updated Deleted Skipped Errors_ WasDryRun].
  destruct (actions_counts opts dfs sfs HD) as (<- & <- & <-).
  destruct (tally_counts (actions opts (index dfs) sfs)
    (skip (length sfs - length (actions opts (index dfs) sfs)) (emptyResult opts))) as (-> & -> & -> & -> & -> & ->).
  cbn. split_and!; try done. by destruct (DeleteExtra opts).
Qed.

(** *** The whole of a sync *)

Section run.
Context (fuel : nat) (now : time) (src dst : B) (srcPath dstPath : string) (opts : Options) (w : W).
Context (sps dps : list string).
Hypothesis Hapart : src <> dst.
Hypothesis Hos : is_open w src.
Hypothesis Hod : is_open w dst.
Hypothesis Hsrc : listed w src srcPath sps.
Hypothesis Hdst : listed w dst dstPath dps.
Hypothesis Hlimit : (opts.(BandwidthLimit) <= 0 \/ Z.of_nat copy_buffer <= opts.(BandwidthLimit))%Z.

Let sfs := scan w src srcPath now opts sps.
Let dfs := scan w dst dstPath now opts dps.

(** Every source file is shorter than the fuel and has a place of its own at the destination. *)
Definition placed : Prop :=
  (forall f p d, f ∈ sfs -> path_of src (Join srcPath f.(FPath)) = Some p -> files w src !! p = Some d -> length d < fuel) /\
  (forall f, f ∈ sfs -> is_Some (target_of dst dstPath f.(FPath))) /\
  (forall f g, f ∈ sfs -> g ∈ sfs ++ dfs -> target_of dst dstPath f.(FPath) = target_of dst dstPath g.(FPath) ->
     f.(FPath) = g.(FPath)).

(** The effect of the plan on the destination. *)
Definition mirrored (w' : W) : Prop :=
  (forall c, is_open w c -> is_open w' c) /\ (forall c, c <> dst -> files w' c = files w c) /\
  (forall f q, f ∈ sfs ++ dfs -> target_of dst dstPath f.(FPath) = Some q ->
     files w' dst !! q =
       match decision opts (index sfs !! f.(FPath)) (index dfs !! f.(FPath)) with
       | Transfer => content w src srcPath f.(FPath)
       | Remove => None
       | Keep => files w dst !! q
       end) /\
  (forall q, (forall f, f ∈ sfs ++ dfs -> target_of dst dstPath f.(FPath) <> Some q) ->
     files w' dst !! q = files w dst !! q).

(** [opts] with its concurrency defaulted plans the same. *)
Lemma defaulted :
  exists opts', (if (opts.(Concurrency) <=? 0)%Z then set_Concurrency 4 opts else opts) = opts' /\
    (0 < opts'.(Concurrency))%Z /\ scan w src srcPath now opts' sps = sfs /\ scan w dst dstPath now opts' dps = dfs /\
    (forall D, actions opts' D sfs = actions opts D sfs) /\ opts'.(DeleteExtra) = opts.(DeleteExtra) /\
    opts'.(DryRun) = opts.(DryRun) /\ opts'.(BandwidthLimit) = opts.(BandwidthLimit).
Proof.
  destruct (Z.leb_spec opts.(Concurrency) 0); [exists (set_Concurrency 4 opts)|exists opts]; split_and!; try done.
Qed.

Lemma limit_passes : blocks (Z.of_nat copy_buffer) (newTokenBucket now opts.(BandwidthLimit)) = false.
Proof.
  unfold newTokenBucket. destruct (Z.leb_spec opts.(BandwidthLimit) 0); [done|]. unfold blocks. cbn [rate maxTokens].
  rewrite (proj2 (Z.ltb_ge _ _)) by lia. apply andb_false_r.
Qed.

Lemma scans : scanned w src srcPath sfs /\ scanned w dst dstPath dfs.
Proof. split; by apply scan_scanned. Qed.

Lemma index_files k g : index dfs !! k = Some g -> g.(FIsDir) = false.
Proof. destruct scans as [_ [Hnd Hf]]. intros [Hg _]%lookup_index; [|done]. by apply Hf. Qed.

(** The files the pool transfers can be transferred. *)
Lemma actions_ready :
  placed ->
  (forall a, a ∈ actions opts (index dfs) sfs -> ready fuel src dst srcPath dstPath w a.(afile).(FPath)) /\
  NoDup (target_of dst dstPath <$> ((fun a => a.(afile).(FPath)) <$> actions opts (index dfs) sfs)).
Proof.
  intros (Hfuel & Htarget & Hinj). destruct scans as [[Hnds Hfs] _].
  pose proof (fun a => elem_of_actions opts (index dfs) sfs a index_files) as Hin. split.
  - intros a [Ha _]%Hin. destruct (Hfs _ Ha) as (_ & p & Hp & d & Hd). split; [by apply Htarget|]. exists p, d. eauto.
  - apply NoDup_fmap_2_strong; [|by apply NoDup_actions]. intros r1 r2 (a & -> & [Ha _]%Hin)%list_elem_of_fmap
      (b & -> & [Hb _]%Hin)%list_elem_of_fmap Heq. apply Hinj; [done|by apply elem_of_app; left|done].
Qed.

(** Two files of the destination's scan do not share a place. *)
Lemma dst_paths_inj f g :
  f ∈ dfs -> g ∈ dfs -> target_of dst dstPath f.(FPath) = target_of dst dstPath g.(FPath) -> f.(FPath) = g.(FPath).
Proof.
  unfold dfs, scan, target_of. intros [_ (p1 & -> & H1)%list_elem_of_fmap]%list_elem_of_filter [_ (p2 & -> & H2)%list_elem_of_fmap]%list_elem_of_filter.
  destruct (listed_files _ _ _ _ _ Hod Hdst H1) as (_ & Ha & Hb & Hc), (listed_files _ _ _ _ _ Hod Hdst H2) as (_ & Ha2 & Hb2 & Hc2).
  destruct (stat_info_ok w dst dstPath opts p1 Hod Ha Hc) as (f1 & -> & P1 & _),
    (stat_info_ok w dst dstPath opts p2 Hod Ha2 Hc2) as (f2 & -> & P2 & _).
  cbn. rewrite P1, P2, Hb, Hb2. by intros [= ->].
Qed.

(** A path is transferred when its decision says so, and removed when it is an extra one. *)
Lemma decision_spec f :
  f ∈ sfs ++ dfs ->
  match decision opts (index sfs !! f.(FPath)) (index dfs !! f.(FPath)) with
  | Transfer => f.(FPath) ∈ ((fun a => a.(afile).(FPath)) <$> actions opts (index dfs) sfs)
  | Remove => (f.(FPath) ∉ FPath <$> sfs) /\ f.(FPath) ∈ (FPath <$> extras sfs dfs) /\ opts.(DeleteExtra) = true
  | Keep => (f.(FPath) ∉ ((fun a => a.(afile).(FPath)) <$> actions opts (index dfs) sfs)) /\
      (f.(FPath) ∈ (FPath <$> extras sfs dfs) -> opts.(DeleteExtra) = false)
  end.
Proof.
  destruct scans as [[Hnds _] [Hndd _]]. intros Hf. destruct (index sfs !! f.(FPath)) as [s|] eqn:Hs.
  - pose proof Hs as [Hsin Hsp]%lookup_index; [|done]. rewrite <- Hsp.
    destruct (decision opts (Some s) (index dfs !! s.(FPath))) eqn:Hd.
    + split.
      * intros (a & Ha & Hin)%list_elem_of_fmap. apply elem_of_actions in Hin as [Hin Hda]; [|apply index_files].
        assert (a.(afile) = s) as Heq.
        { assert (index sfs !! s.(FPath) = Some a.(afile)) as Hi by by apply lookup_index.
          rewrite Hsp, Hs in Hi. congruence. }
        rewrite Heq in Hda. congruence.
      * intros (g & Hg & [Hno _]%list_elem_of_filter)%list_elem_of_fmap. destruct Hno. rewrite <- Hg. by apply list_elem_of_fmap_2.
    + apply actions_complete; [apply index_files|done|done].
    + unfold decision in Hd. destruct (index dfs !! _); [case_match|]; done.
  - assert (f.(FPath) ∉ FPath <$> sfs) as Hno by by apply index_None.
    unfold decision. destruct (index dfs !! f.(FPath)) as [g|] eqn:Hg.
    + destruct (DeleteExtra opts) eqn:Hde.
      * split_and!; [done| |done]. apply lookup_index in Hg as [Hg Hgp]; [|done]. apply list_elem_of_fmap. exists g.
        split; [done|]. apply list_elem_of_filter. by rewrite Hgp.
      * split; [|done]. intros (a & Ha & [Hin _]%(elem_of_actions _ _ _ _ index_files))%list_elem_of_fmap.
        apply Hno. rewrite Ha. by apply list_elem_of_fmap_2.
    + apply index_None in Hg; [|done]. exfalso. apply elem_of_app in Hf as [Hf|Hf]; [apply Hno|apply Hg]; by apply list_elem_of_fmap_2.
Qed.

(** The deletions touch nothing the pool has written. *)
Lemma mirrored_spec w1 w' gone :
  placed ->
  transferred src dst srcPath dstPath w w1 ((fun a => a.(afile).(FPath)) <$> actions opts (index dfs) sfs) ->
  gone ≡ₚ (if opts.(DeleteExtra) then FPath <$> extras sfs dfs else []) ->
  (forall c, is_open w1 c -> is_open w' c) -> (forall c, c <> dst -> files w' c = files w1 c) ->
  (forall p q, p ∈ gone -> target_of dst dstPath p = Some q -> files w' dst !! q = None) ->
  (forall q, (forall p, p ∈ gone -> target_of dst dstPath p <> Some q) -> files w' dst !! q = files w1 dst !! q) ->
  mirrored w'.
Proof.
  intros (_ & _ & Hinj) (Ho1 & Hf1 & Hin1 & Hout1) Hgone Ho Hf Hin Hout.
  assert (forall p, p ∈ gone -> exists g, g ∈ dfs /\ p = g.(FPath) /\ g.(FPath) ∉ FPath <$> sfs) as Hgone_in.
  { intros p. rewrite Hgone. destruct (DeleteExtra opts); [|intros H; by apply elem_of_nil in H].
    intros (g & -> & [? ?]%list_elem_of_filter)%list_elem_of_fmap. eauto. }
  assert (forall rel, rel ∈ ((fun a => a.(afile).(FPath)) <$> actions opts (index dfs) sfs) -> exists f, f ∈ sfs /\ rel = f.(FPath)) as Hact_in.
  { intros rel (a & -> & [Ha _]%(elem_of_actions _ _ _ _ index_files))%list_elem_of_fmap. eauto. }
  split_and!; [auto|intros; by rewrite Hf, Hf1| |].
  - intros f q Hf_in Hq. pose proof (decision_spec f Hf_in) as Hd. destruct (decision _ _ _).
    + destruct Hd as [Hna Hne]. rewrite Hout, Hout1; [done| |].
      * intros rel Hrel Hrq. destruct (Hact_in rel Hrel) as (s & Hs & ->). apply Hna.
        rewrite (Hinj s f Hs Hf_in) in Hrel by congruence. done.
      * intros p Hp Hpq. destruct (Hgone_in p Hp) as (g & Hg & -> & Hgs). rewrite Hgone in Hp.
        destruct (DeleteExtra opts); [|by apply elem_of_nil in Hp].
        assert (f.(FPath) = g.(FPath)) as Heq; [|by rewrite Heq in Hne; discriminate (Hne Hp)].
        apply elem_of_app in Hf_in as [Hfs|Hfd].
        -- apply Hinj; [done|by apply elem_of_app; right|congruence].
        -- apply (dst_paths_inj f g); [done..|congruence].
    + rewrite Hout; [by apply Hin1|]. intros p Hp Hpq. destruct (Hgone_in p Hp) as (g & Hg & -> & Hgs).
      destruct (Hact_in _ Hd) as (s & Hs & Hfp). apply Hgs. rewrite Hfp in Hq.
      rewrite <- (Hinj s g Hs) by (congruence || (apply elem_of_app; by right)). by apply list_elem_of_fmap_2.
    + destruct Hd as (_ & Hex & Hde). apply (Hin f.(FPath)); [|done]. by rewrite Hgone, Hde.
  - intros q Hq. rewrite Hout, Hout1; [done| |].
    + intros rel Hrel. destruct (Hact_in rel Hrel) as (s & Hs & ->). apply Hq. apply elem_of_app. by left.
    + intros p Hp. destruct (Hgone_in p Hp) as (g & Hg & -> & _). apply Hq. apply elem_of_app. by right.
Qed.

Lemma Sync_run :
  placed ->
  exists w', Sync fuel None now src dst srcPath dstPath opts w = Some (w', Some (plan opts sfs dfs), None) /\
    if opts.(DryRun) then w' = w else mirrored w'.
Proof.
  intros Hplaced. destruct scans as [[Hnds Hdirs] [Hndd Hdird]]. destruct (actions_ready Hplaced) as [Hready Hndt].
  destruct defaulted as (opts' & Hopts & Hworkers & Hss & Hsd & Hact & Hde & Hdry & Hbw). unfold Sync. rewrite Hopts. cbv zeta.
  rewrite (listFiles_ok _ _ _ _ _ _ Hos Hsrc), (listFiles_ok _ _ _ _ _ _ Hod Hdst), Hss, Hsd.
  destruct (compare_fold opts' sfs [] (index dfs) (emptyResult opts) Hnds) as (D' & Hfold & HD'); [intros f Hf; by apply Hdirs|].
  fold (index dfs). rewrite Hfold, Hact, Hde. cbn [app].
  set (acts := actions opts (index dfs) sfs) in *.
  set (sctx := mkSyncContext opts' (newTokenBucket now (BandwidthLimit opts'))).
  destruct (run_pool_ok fuel now sctx src dst srcPath dstPath Hapart) with
    (steps := S (2 * length acts)) (p := mkPool acts [] None (skip (length sfs - length acts) (emptyResult opts)) w)
    as (p' & Hrun & Hres & Hadv); [unfold sctx; cbn [rateLimiter]; rewrite Hbw; exact limit_passes|done|cbn [workCh running length]; lia|done..|].
  rewrite Hrun. unfold complete. rewrite Hde. cbn [mbind option_bind ctx_err fmap option_fmap option_map]. cbn [running workCh p_result p_world app] in Hres, Hadv.
  assert (is_open p'.(p_world) dst) as Hod' by by eapply advanced_open.
  set (gone := if opts.(DeleteExtra) then (filter (fun kf => kf.2.(FIsDir) = false) (range D')).*1 else []).
  assert (gone ≡ₚ (if opts.(DeleteExtra) then FPath <$> extras sfs dfs else [])) as Hgone
    by (unfold gone; destruct (DeleteExtra opts); [apply extras_left; [done|intros; by apply Hdird|done]|done]).
  destruct (delete_loop_ok p'.(p_world) dst dstPath opts' gone p'.(p_result) Hod') as (w2 & Hdel & Hw2).
  { intros p. rewrite Hgone. destruct (DeleteExtra opts); [|intros H; by apply elem_of_nil in H].
    intros (g & -> & [_ Hg]%list_elem_of_filter)%list_elem_of_fmap. destruct (Hdird g Hg) as (_ & q & Hq & _). by eexists. }
  exists w2. split.
  - assert (removed (length gone) p'.(p_result) = plan opts sfs dfs) as Hplan.
    { unfold plan. fold acts. rewrite Hres, Hgone. destruct (DeleteExtra opts); [by rewrite length_fmap|done]. }
    destruct (DeleteExtra opts && bool_decide (0 < length gone)) eqn:Hgo; [by rewrite Hdel, Hplan|].
    assert (gone = []) as Hg0.
    { destruct gone; [done|]. apply andb_false_iff in Hgo as [Hno|Hno%bool_decide_eq_false].
      - rewrite Hno in Hgone. by apply Permutation_nil_r in Hgone.
      - cbn in Hno. lia. }
    rewrite Hg0 in Hdel. cbn in Hdel. injection Hdel as Hw Hr. rewrite Hg0 in Hplan. cbn in Hplan.
    rewrite <- Hw, <- Hplan. by rewrite <- Hr.
  - rewrite Hdry in Hw2. unfold advanced in Hadv. cbn in Hadv. rewrite Hdry in Hadv. destruct (DryRun opts); [congruence|].
    destruct Hw2 as (Ho2 & Hf2 & Hin2 & Hout2). by apply (mirrored_spec p'.(p_world) w2 gone).
Qed.

End run.

End lemmas.

(** ** Properties *)

Definition set_DryRun (v : bool) (o : Options) : Options :=
  mkOptions o.(DeleteExtra) v o.(Checksum) o.(IgnoreExisting) o.(IgnoreSize) o.(IgnoreTime) o.(SizeOnly)
    o.(MaxErrors) o.(Concurrency) o.(FilterOpt) o.(DeleteExcluded) o.(BandwidthLimit) o.(Retry) o.(PreserveMetadata).

Section properties.
Context `{LS : ListingSpec W B} `{T : TSync} `{O : MapOrder} `{Sch : Schedule}.

(** Two different open backends whose listings can be read back, no limit below the buffer of
    [io.Copy], and a place of its own for every source file. *)
Record can_sync (fuel : nat) (now : time) (src dst : B) (srcPath dstPath : string) (opts : Options) (w : W)
    (sps dps : list string) : Prop := {
  cs_apart : src <> dst;
  cs_src : is_open w src;
  cs_dst : is_open w dst;
  cs_src_listed : listed w src srcPath sps;
  cs_dst_listed : listed w dst dstPath dps;
  cs_limit : (opts.(BandwidthLimit) <= 0 \/ Z.of_nat copy_buffer <= opts.(BandwidthLimit))%Z;
  cs_placed : placed fuel now src dst srcPath dstPath opts w sps dps
}.

(** What a sync without errors reports of the files it found. *)
Definition counts (opts : Options) (sfs dfs : list FileInfo) (r : Result) : Prop :=
  r.(Errors_) = [] /\ r.(Copied) = count (is_new dfs) sfs /\ r.(Updated) = count (is_stale opts dfs) sfs /\
  r.(Skipped) = count (is_kept opts dfs) sfs /\
  r.(Deleted) = if opts.(DeleteExtra) then Z.of_nat (length (extras sfs dfs)) else 0%Z.

Lemma can_sync_run fuel now src dst srcPath dstPath opts w sps dps :
  can_sync fuel now src dst srcPath dstPath opts w sps dps ->
  let sfs := scan w src srcPath now opts sps in
  let dfs := scan w dst dstPath now opts dps in
  exists w', Sync fuel None now src dst srcPath dstPath opts w = Some (w', Some (plan opts sfs dfs), None) /\
    (if opts.(DryRun) then w' = w else mirrored now src dst srcPath dstPath opts w sps dps w') /\
    counts opts sfs dfs (plan opts sfs dfs).
Proof.
  intros [Hapart Hs Hd Hls Hld Hlim Hp] sfs dfs.
  destruct (Sync_run fuel now src dst srcPath dstPath opts w sps dps) as (w' & Hrun & Hw'); [done..|].
  exists w'. split; [exact Hrun|]. split; [exact Hw'|].
  destruct (plan_counts opts sfs dfs) as (? & ? & ? & ? & ? & _); [|done].
  intros k g Hk. by eapply index_files.
Qed.

(** Claim C2. Sync makes the destination what the options ask for, whatever the workers'
    schedule: a source file that is new, or that needs an update and is not to be ignored, is
    at the destination with the source's content; with DeleteExtra the files only the
    destination has are gone; every other file there, every file a filter hides and every
    other backend, the source included, is as it was.  No error is reported, and the counts
    are those of the new, updated, skipped and removed files. *)
Theorem Sync_correct fuel now src dst srcPath dstPath opts w sps dps :
  can_sync fuel now src dst srcPath dstPath opts w sps dps -> opts.(DryRun) = false ->
  exists w' r, Sync fuel None now src dst srcPath dstPath opts w = Some (w', Some r, None) /\
    mirrored now src dst srcPath dstPath opts w sps dps w' /\
    counts opts (scan w src srcPath now opts sps) (scan w dst dstPath now opts dps) r.
Proof.
  intros Hcan Hdry. destruct (can_sync_run _ _ _ _ _ _ _ _ _ _ Hcan) as (w' & Hrun & Hw' & Hc).
  rewrite Hdry in Hw'. eauto.
Qed.

(** Claim C38. A dry run changes nothing, and reports what the real run goes on to report. *)
Theorem Sync_dry_run fuel now src dst srcPath dstPath opts w sps dps :
  can_sync fuel now src dst srcPath dstPath opts w sps dps -> opts.(DryRun) = false ->
  exists w' r r', Sync fuel None now src dst srcPath dstPath opts w = Some (w', Some r', None) /\
    Sync fuel None now src dst srcPath dstPath (set_DryRun true opts) w = Some (w, Some r, None) /\
    r.(WasDryRun) = true /\ r'.(WasDryRun) = false /\ counts opts (scan w src srcPath now opts sps) (scan w dst dstPath now opts dps) r /\
    (r.(Copied), r.(Updated), r.(Deleted), r.(Skipped), r.(Errors_)) =
    (r'.(Copied), r'.(Updated), r'.(Deleted), r'.(Skipped), r'.(Errors_)).
Proof.
  intros Hcan Hdry. pose proof (can_sync_run _ _ _ _ _ _ _ _ _ _ Hcan) as (w' & Hrun & _ & Hc).
  assert (can_sync fuel now src dst srcPath dstPath (set_DryRun true opts) w sps dps) as Hcan2 by by destruct Hcan; split.
  destruct (can_sync_run _ _ _ _ _ _ _ _ _ _ Hcan2) as (w2 & Hrun2 & -> & Hc2).
  eexists w', _, _. split; [exact Hrun|]. split; [exact Hrun2|].
  assert (forall o, (plan o (scan w src srcPath now opts sps) (scan w dst dstPath now opts dps)).(WasDryRun) = o.(DryRun)) as Hflag.
  { intros o. apply plan_counts. intros k g Hk. destruct Hcan. by eapply (index_files now src dst). }
  split; [apply (Hflag (set_DryRun true opts))|]. split; [by rewrite Hflag|]. split; [exact Hc2|].
  destruct Hc as (E1 & E2 & E3 & E4 & E5), Hc2 as (F1 & F2 & F3 & F4 & F5). by rewrite E1, E2, E3, E4, E5, F1, F2, F3, F4, F5.
Qed.

(** Copying one file between backends: a source that does not exist is an error and
    changes nothing; one that does is copied, whatever is preserved with it, with a fuel of its
    size; unless a bandwidth limit below the 32 KiB buffer of [io.Copy] is set, with which the
    copy never returns. *)
Theorem copyFileSingle_correct fuel now opts src dst srcPath dstPath w p q :
  src <> dst -> is_open w src -> is_open w dst -> path_of src srcPath = Some p -> path_of dst dstPath = Some q ->
  let run := copyFileSingle fuel None now (mkSyncContext opts (newTokenBucket now opts.(BandwidthLimit))) src dst srcPath dstPath w in
  match files w src !! p with
  | None => exists err, run = Some (w, Some err)
  | Some d =>
      if decide (0 < opts.(BandwidthLimit) < Z.of_nat copy_buffer)%Z then run = None
      else length d < fuel -> exists w', run = Some (w', None) /\ stored_at w w' dst q d
  end.
Proof.
  intros Hapart Hs Hd Hp Hq run. destruct (files w src !! p) as [d|] eqn:Hf.
  - destruct (decide _) as [Hlim|Hlim].
    + subst run. unfold copyFileSingle. rewrite bool_decide_eq_false_2 by done. cbn [andb].
      destruct (NewReader_at w src srcPath p d Hs Hp Hf) as (r & -> & _).
      destruct (buildWriterOptions _ _ _ _ _) as [w1 wopts] eqn:Hb.
      pose proof (buildWriterOptions_ok w src srcPath p d (PreserveMetadata opts) Hs Hp Hf) as Hb1.
      cbn [s_opts] in Hb. rewrite Hb in Hb1. cbn [fst] in Hb1. subst w1.
      pose proof (NewWriter_spec w dst dstPath wopts Hd) as Hw. rewrite Hq in Hw. destruct Hw as (v & -> & _).
      cbn [rateLimiter]. unfold newTokenBucket. rewrite (proj2 (Z.leb_gt _ _)) by lia. unfold blocks. cbn [rate maxTokens].
      by rewrite (proj2 (Z.eqb_neq _ _)), (proj2 (Z.ltb_lt _ _)) by lia.
    + intros Hfuel. apply (copyFileSingle_ok fuel now _ w src dst srcPath dstPath p q d); [done..|]. apply limit_passes. lia.
  - apply copyFileSingle_missing; [done..|]. by rewrite Hp.
Qed.

(** What Move deletes once its sync is over: every source file under whose path the
    destination holds a file, whatever that file is and whether or not it was just copied; the
    destination is left alone.  So an old version that [IgnoreExisting] kept, or that a failed
    copy left, costs the source its new one. *)
Theorem move_loop_deletes w src dst srcPath dstPath opts srcFiles r :
  src <> dst -> is_open w src -> is_open w dst ->
  (forall f, f ∈ srcFiles -> f.(FIsDir) = false /\ is_Some (path_of src (Join srcPath f.(FPath))) /\
     exists q, target_of dst dstPath f.(FPath) = Some q /\ is_Some (files w dst !! q)) ->
  exists w', move_loop None w src dst srcPath dstPath opts srcFiles r = (w', r, None) /\
    (forall f p, f ∈ srcFiles -> path_of src (Join srcPath f.(FPath)) = Some p -> files w' src !! p = None) /\
    (forall p, (forall f, f ∈ srcFiles -> path_of src (Join srcPath f.(FPath)) <> Some p) -> files w' src !! p = files w src !! p) /\
    forall c, c <> src -> files w' c = files w c.
Proof.
  intros Hapart. revert w. induction srcFiles as [|f fs IH]; intros w Hs Hd Hall.
  { exists w. split_and!; [done| |done..]. intros f p Hin. by apply elem_of_nil in Hin. }
  destruct (Hall f (list_elem_of_here _ _)) as (Hdir & [p Hp] & q & Hq & Hex). cbn [move_loop]. rewrite Hdir. cbn [ctx_err fmap option_fmap option_map].
  unfold target_of in Hq. rewrite (Exists_spec w dst _ q Hd Hq Hex).
  pose proof (Delete_spec w src (Join srcPath f.(FPath)) Hs) as Hdel. rewrite Hp in Hdel. destruct Hdel as (w1 & -> & Ho1 & Hf1).
  destruct (IH w1 (Ho1 _ Hs) (Ho1 _ Hd)) as (w' & -> & Hin & Hout & Hoth).
  { intros g Hg. destruct (Hall g) as (? & ? & q' & ? & ?); [by right|]. split_and!; [done..|]. exists q'. split; [done|].
    by rewrite Hf1, decide_False by done. }
  exists w'. split; [done|]. split_and!; [| |intros c Hc; by rewrite Hoth, Hf1, decide_False].
  - intros g p' Hg Hp'. destruct (decide (Some p' ∈ (fun f => path_of src (Join srcPath f.(FPath))) <$> fs)) as [(h & ? & ?)%list_elem_of_fmap|Hno].
    + by apply (Hin h).
    + rewrite Hout by (intros h ? ?; apply Hno, list_elem_of_fmap; by exists h).
      apply elem_of_cons in Hg as [->|Hg]; [|destruct Hno; apply list_elem_of_fmap; by exists g].
      rewrite Hp in Hp'. injection Hp' as <-. rewrite Hf1, decide_True by done. apply lookup_delete_eq.
  - intros p' Hp'. rewrite Hout by (intros; apply Hp'; by right). rewrite Hf1, decide_True by done.
    apply lookup_delete_ne. intros <-. by apply (Hp' f); [left|].
Qed.

End properties.
