(* ===== verification/SyncProgress.v ===== *)
(** * object/sync/sync.go: the counters and the progress reports of the transfers

    [Sync] takes a whole transfer as one step.  Here the workers of its pool run one atomic
    operation at a time: the receive, the test of the context, the two loads of a report, the
    callback, the transfer, the lock of the errors, the additions to the counters.  The reports
    come from all the workers at once, in the order in which the callback is entered.  What a
    transfer returns is part of the event that ends it.  The counters are Z: the int32 ones are
    bounded by the number of files. *)

From S2P Require Import Prelude GoLib Errors ObjectTypes ObjectBackend ObjectMemory SyncTypes Sync.

Local Open Scope Z_scope.

(** ** Reports *)

Inductive Phase := PhaseScanning | PhaseComparing | PhaseTransferring | PhaseDeleting | PhaseComplete.

Record Progress := mkProgress {
  PPhase : Phase;
  CurrentFile : string;
  PBytesTransferred : Z;
  TotalBytes : Z;
  FilesTransferred : Z;
  TotalFiles : Z;
  FilesDeleted : Z;
  PErrors : Z
}.

(** [for _, action := range toCopy { totalBytes += action.file.Size }] *)
Definition asize (a : copyAction) : Z := a.(afile).(FSize).
Definition apath (a : copyAction) : string := a.(afile).(FPath).
Definition sum {A} (f : A -> Z) (l : list A) : Z := foldr (fun x n => f x + n) 0 l.
Definition total_bytes (toCopy : list copyAction) : Z := sum asize toCopy.

(** The report before the transfers, that of a worker, and the last one. *)
Definition transfer_report (toCopy : list copyAction) : Progress :=
  mkProgress PhaseTransferring "" 0 (total_bytes toCopy) 0 (Z.of_nat (length toCopy)) 0 0.
Definition worker_report (toCopy : list copyAction) (a : copyAction) (files bytes : Z) : Progress :=
  mkProgress PhaseTransferring (apath a) bytes (total_bytes toCopy) files (Z.of_nat (length toCopy)) 0 0.
Definition complete_report (r : Result) : Progress :=
  mkProgress PhaseComplete "" r.(BytesTransferred) 0 (r.(Copied) + r.(Updated)) 0 r.(Deleted) (Z.of_nat (length r.(Errors_))).

(** ** The workers *)

Inductive worker :=
| Receiving
| Received (a : copyAction)
| Loading (a : copyAction)
| Loaded (a : copyAction) (files : Z)
| Calling (a : copyAction) (files bytes : Z)
| Transferring (a : copyAction)
| Failing (a : copyAction) (err : error)
| Stopping
| Counting (a : copyAction)
| AddingBytes (a : copyAction)
| AddingFiles (a : copyAction)
| Returned.

(** What the workers share: what the sender has left, the channel, the context, the counters,
    the errors and the reports made. *)
Record shared := mkShared {
  unsent : list copyAction;
  channel : list copyAction;
  stopped : bool;
  bytesTransferred : Z;
  filesTransferred : Z;
  copied : Z;
  updated : Z;
  errors : list FileError;
  reports : list Progress
}.

Record transfers := mkTransfers { pool_shared : shared; workers : list worker }.

Definition set_unsent (l : list copyAction) (s : shared) : shared :=
  mkShared l s.(channel) s.(stopped) s.(bytesTransferred) s.(filesTransferred) s.(copied) s.(updated) s.(errors) s.(reports).
Definition set_channel (l : list copyAction) (s : shared) : shared :=
  mkShared s.(unsent) l s.(stopped) s.(bytesTransferred) s.(filesTransferred) s.(copied) s.(updated) s.(errors) s.(reports).
Definition stop (s : shared) : shared :=
  mkShared s.(unsent) s.(channel) true s.(bytesTransferred) s.(filesTransferred) s.(copied) s.(updated) s.(errors) s.(reports).
Definition add_bytes (n : Z) (s : shared) : shared :=
  mkShared s.(unsent) s.(channel) s.(stopped) (s.(bytesTransferred) + n) s.(filesTransferred) s.(copied) s.(updated)
    s.(errors) s.(reports).
Definition add_file (s : shared) : shared :=
  mkShared s.(unsent) s.(channel) s.(stopped) s.(bytesTransferred) (s.(filesTransferred) + 1) s.(copied) s.(updated)
    s.(errors) s.(reports).
Definition add_count (isUpdate : bool) (s : shared) : shared :=
  mkShared s.(unsent) s.(channel) s.(stopped) s.(bytesTransferred) s.(filesTransferred)
    (if isUpdate then s.(copied) else s.(copied) + 1) (if isUpdate then s.(updated) + 1 else s.(updated)) s.(errors) s.(reports).
Definition fail_with (e : FileError) (s : shared) : shared :=
  mkShared s.(unsent) s.(channel) s.(stopped) s.(bytesTransferred) s.(filesTransferred) s.(copied) s.(updated) (s.(errors) ++ [e]) s.(reports).
Definition report (p : Progress) (s : shared) : shared :=
  mkShared s.(unsent) s.(channel) s.(stopped) s.(bytesTransferred) s.(filesTransferred) s.(copied) s.(updated) s.(errors) (s.(reports) ++ [p]).

Section workers.
Context (opts : Options) (toCopy : list copyAction).

(** One atomic operation of a worker; [outcome] is what its transfer returns, if that is the
    operation.  A worker at the receive waits ([None]) while the channel is open and empty. *)
Definition worker_step (outcome : option error) (p : worker) (s : shared) : option (worker * shared) :=
  match p with
  | Receiving =>
      match s.(channel), s.(unsent) with
      | a :: rest, _ => Some (Received a, set_channel rest s)
      | [], [] => Some (Returned, s)
      | [], _ => None
      end
  | Received a => Some (if s.(stopped) then Returned else Loading a, s)
  | Loading a => Some (Loaded a s.(filesTransferred), s)
  | Loaded a files => Some (Calling a files s.(bytesTransferred), s)
  | Calling a files bytes => Some (Transferring a, report (worker_report toCopy a files bytes) s)
  | Transferring a =>
      match (if opts.(DryRun) then None else outcome) with
      | Some err => Some (Failing a err, s)
      | None => Some (Counting a, s)
      end
  | Failing a err =>
      let s := fail_with (mkFileError (apath a) "copy" err) s in
      let shouldStop := (0 <? opts.(MaxErrors)) && (opts.(MaxErrors) <=? Z.of_nat (length s.(errors))) in
      Some (if shouldStop then Stopping else Receiving, s)
  | Stopping => Some (Returned, stop s)
  | Counting a => Some (AddingBytes a, add_count a.(isUpdate) s)
  | AddingBytes a => Some (AddingFiles a, add_bytes (asize a) s)
  | AddingFiles a => Some (Receiving, add_file s)
  | Returned => None
  end.

(** The sender sends, or leaves its loop when the context is done; the caller's context may end at
    any time. *)
Inductive event := Send | Break | Cancel | Step (i : nat) (outcome : option error).

Definition happens (e : event) (t : transfers) : option transfers :=
  let s := t.(pool_shared) in
  match e with
  | Send =>
      match s.(unsent) with
      | a :: rest => Some (mkTransfers (set_channel (s.(channel) ++ [a]) (set_unsent rest s)) t.(workers))
      | [] => None
      end
  | Break => if s.(stopped) then Some (mkTransfers (set_unsent [] s) t.(workers)) else None
  | Cancel => Some (mkTransfers (stop s) t.(workers))
  | Step i outcome =>
      p ← t.(workers) !! i;
      '(p, s) ← worker_step outcome p s;
      Some (mkTransfers s (<[i := p]> t.(workers)))
  end.

Fixpoint run (l : list event) (t : transfers) : option transfers :=
  match l with
  | [] => Some t
  | e :: l => t ← happens e t; run l t
  end.

Definition start : transfers :=
  mkTransfers (mkShared toCopy [] false 0 0 0 0 [] []) (replicate (Z.to_nat opts.(Concurrency)) Receiving).
End workers.

(** [wg.Wait] has returned. *)
Definition all_returned (t : transfers) : Prop := Forall (fun p => p = Returned) t.(workers).

(** What [Sync] puts in its result. *)
Definition result_of (r : Result) (s : shared) : Result :=
  mkResult s.(copied) s.(updated) r.(Deleted) r.(Skipped) s.(errors) s.(bytesTransferred) r.(WasDryRun).

(** ** Ledgers

    An action is unsent, in the channel, or with a worker, until an operation of the worker books
    it: a report, the bytes, the file or the error.  For every weight of actions, what is
    booked and what is still owed add up to no more than the weight of all the actions, and to
    exactly that as long as nothing has stopped the transfers. *)

Lemma sum_app {A} (f : A -> Z) l1 l2 : sum f (l1 ++ l2) = sum f l1 + sum f l2.
Proof. induction l1 as [|x l1 IH]; [done|]. change (f x + sum f (l1 ++ l2) = f x + sum f l1 + sum f l2). lia. Qed.

Lemma sum_cons {A} (f : A -> Z) x l : sum f (x :: l) = f x + sum f l.
Proof. done. Qed.

Lemma sum_insert {A} (f : A -> Z) l i x y : l !! i = Some x -> sum f (<[i := y]> l) = sum f l - f x + f y.
Proof.
  intros Hi. rewrite insert_take_drop by (by eapply lookup_lt_Some). rewrite <-(take_drop_middle l i x Hi) at 3.
  rewrite !sum_app. cbn [sum foldr]. fold (sum f (drop (S i) l)). lia.
Qed.

Lemma sum_nonneg {A} (f : A -> Z) l : (forall x, x ∈ l -> 0 <= f x) -> 0 <= sum f l.
Proof.
  induction l as [|x l IH]; intros Hf; [done|]. cbn [sum foldr]. fold (sum f l).
  pose proof (Hf x ltac:(left)). pose proof (IH (fun y Hy => Hf y ltac:(by right))). lia.
Qed.

Lemma sum_elem {A} (f : A -> Z) l i x : (forall y, y ∈ l -> 0 <= f y) -> l !! i = Some x -> f x <= sum f l.
Proof.
  intros Hf Hi. rewrite <-(take_drop_middle l i x Hi) in Hf |- *. rewrite sum_app, sum_cons.
  assert (forall k, (forall y, y ∈ k -> y ∈ take i l ++ x :: drop (S i) l) -> 0 <= sum f k) as Hk
    by (intros k Hk; apply sum_nonneg; auto).
  pose proof (Hk (take i l) ltac:(set_solver)). pose proof (Hk (drop (S i) l) ltac:(set_solver)). lia.
Qed.

Lemma sum_1 {A} (l : list A) : sum (fun _ => 1) l = Z.of_nat (length l).
Proof. induction l as [|x l IH]; [done|]. rewrite sum_cons, IH. cbn [length]. lia. Qed.

(** The action a worker has not yet reported, added to the bytes, or to the files or errors. *)
Definition unreported (p : worker) : option copyAction :=
  match p with Received a | Loading a | Loaded a _ | Calling a _ _ => Some a | _ => None end.
Definition uncounted (p : worker) : option copyAction :=
  match p with
  | Transferring a | Failing a _ | Counting a | AddingBytes a => Some a
  | _ => unreported p
  end.
Definition unfinished (p : worker) : option copyAction :=
  match p with AddingFiles a => Some a | _ => uncounted p end.

Definition weigh (f : copyAction -> Z) (stage : worker -> option copyAction) (p : worker) : Z := from_option f 0 (stage p).

Section ledgers.
Context (opts : Options) (toCopy : list copyAction).

Definition owed (f : copyAction -> Z) (stage : worker -> option copyAction) (t : transfers) : Z :=
  sum (weigh f stage) t.(workers) + sum f t.(pool_shared).(channel) + sum f t.(pool_shared).(unsent).

Section ledger.
Context (f : copyAction -> Z) (stage : worker -> option copyAction) (booked : shared -> Z) (exact : Prop).

(** What is booked does not depend on the channel, and an operation of a worker never books more
    than it stops to owe; when nothing has stopped it books that [exact]ly. *)
Class Books := {
  books_channel s l : booked (set_channel l s) = booked s;
  books_unsent s l : booked (set_unsent l s) = booked s;
  books_stop s : booked (stop s) = booked s;
  books_step outcome p q s s' : worker_step opts toCopy outcome p s = Some (q, s') ->
    from_option (.∈ toCopy) True (unfinished p) ->
    booked s' + weigh f stage q + sum f s'.(channel) <= booked s + weigh f stage p + sum f s.(channel) /\
    (exact -> s'.(stopped) = false ->
      booked s' + weigh f stage q + sum f s'.(channel) = booked s + weigh f stage p + sum f s.(channel))
}.

Definition balance (t : transfers) : Z := booked t.(pool_shared) + owed f stage t.
Definition balanced (t : transfers) : Prop :=
  balance t <= sum f toCopy /\ (exact -> t.(pool_shared).(stopped) = false -> balance t = sum f toCopy).
End ledger.

(** Every action in play is one of the sync's. *)
Definition mine (t : transfers) : Prop :=
  Forall (.∈ toCopy) t.(pool_shared).(unsent) /\ Forall (.∈ toCopy) t.(pool_shared).(channel) /\
  Forall (fun p => from_option (.∈ toCopy) True (unfinished p)) t.(workers).

Lemma worker_step_mine outcome p q s s' :
  worker_step opts toCopy outcome p s = Some (q, s') -> from_option (.∈ toCopy) True (unfinished p) ->
  Forall (.∈ toCopy) s.(channel) ->
  from_option (.∈ toCopy) True (unfinished q) /\ Forall (.∈ toCopy) s'.(channel) /\ s'.(unsent) = s.(unsent) /\
  (s.(stopped) = true -> s'.(stopped) = true).
Proof.
  intros Hs Hp Hc. destruct p; cbn [worker_step] in Hs; repeat case_match; simplify_eq; cbn in *;
    repeat match goal with H : Forall _ (_ :: _) |- _ => inversion H; subst; clear H end;
    try by split_and!.
  rewrite H. by split_and!.
Qed.

Lemma happens_mine e t t' : happens opts toCopy e t = Some t' -> mine t -> mine t'.
Proof.
  destruct t as [s ws]. intros He (Hu & Hc & Hw). destruct e as [| | |i outcome]; cbn [happens pool_shared workers] in *.
  - destruct (unsent s) as [|a rest] eqn:Hun; [done|]. injection He as <-. inversion Hu; subst.
    split_and!; [done| |done]. apply Forall_app. by split; [|apply Forall_singleton].
  - destruct (stopped s); [|done]. injection He as <-. by split_and!.
  - injection He as <-. by split_and!.
  - destruct (ws !! i) as [p|] eqn:Hi; [|done]. cbn in He. destruct (worker_step _ _ _ _ _) as [[q s']|] eqn:Hs; [|done].
    injection He as <-. pose proof (Forall_lookup_1 _ _ _ _ Hw Hi) as Hp.
    apply worker_step_mine in Hs as (? & ? & Hus & _); [|done..]. split_and!; cbn; [by rewrite Hus|done|by apply Forall_insert].
Qed.

Lemma happens_balanced f stage booked exact `{!Books f stage booked exact} e t t' :
  (forall a, a ∈ toCopy -> 0 <= f a) -> mine t ->
  happens opts toCopy e t = Some t' -> balanced f stage booked exact t -> balanced f stage booked exact t'.
Proof.
  intros Hf Hmine He [Hle Heq]. destruct t as [s ws]. unfold balanced, balance, owed in *.
  destruct e as [| | |i outcome]; cbn [happens pool_shared workers] in *.
  - destruct (unsent s) as [|a rest] eqn:Hun; [done|]. injection He as <-.
    cbn [pool_shared workers channel unsent stopped set_channel set_unsent] in *.
    rewrite (books_channel f stage booked exact), (books_unsent f stage booked exact), sum_app. cbn [sum foldr] in *. fold (sum f rest) in *. split; [lia|].
    intros He Hs. specialize (Heq He Hs). lia.
  - destruct (stopped s) eqn:Hst; [|done]. injection He as <-. cbn [pool_shared workers channel unsent stopped set_unsent] in *.
    rewrite (books_unsent f stage booked exact), Hst. split; [|done]. cbn [sum foldr].
    enough (0 <= sum f (unsent s)) by lia. destruct Hmine as [Hu _]. apply sum_nonneg. intros a Ha.
    rewrite Forall_forall in Hu. by apply Hf, Hu.
  - injection He as <-. cbn [pool_shared workers channel unsent stopped stop] in *. by rewrite (books_stop f stage booked exact).
  - destruct (ws !! i) as [p|] eqn:Hi; [|done]. cbn in He. destruct (worker_step _ _ _ _ _) as [[q s']|] eqn:Hs; [|done].
    injection He as <-. cbn [pool_shared workers] in *. destruct Hmine as (_ & Hc & Hw). pose proof (Forall_lookup_1 _ _ _ _ Hw Hi) as Hp.
    pose proof (books_step f stage booked exact _ _ _ _ _ Hs Hp) as [Hb1 Hb2].
    pose proof (worker_step_mine _ _ _ _ _ Hs Hp Hc) as (_ & _ & Hus & Hst). rewrite (sum_insert _ _ _ _ _ Hi), Hus.
    split; [lia|]. intros He Hst'. specialize (Hb2 He Hst'). rewrite <-Heq; [lia|done|]. by destruct (stopped s); [rewrite Hst in Hst'|].
Qed.
End ledgers.

(** The files and the errors, the bytes, and the reports of the path [x]. *)
Definition finished (s : shared) : Z := s.(filesTransferred) + Z.of_nat (length s.(errors)).
Definition times (x : string) (y : string) : Z := if decide (y = x) then 1 else 0.

Ltac books_cases Hs :=
  match type of Hs with worker_step _ _ _ ?p _ = _ => destruct p end;
  cbn [worker_step] in Hs; repeat case_match; simplify_eq;
  unfold weigh; cbn [unfinished uncounted unreported from_option channel stopped errors filesTransferred bytesTransferred
    reports set_channel stop fail_with add_file add_bytes add_count report];
  try match goal with H : channel _ = _ |- _ => rewrite H end;
  rewrite ?length_app, ?sum_app, ?sum_cons; cbn [length];
  try (split; [lia|intros _ ?; first [lia|congruence]]).

#[export] Instance finished_books opts toCopy : Books opts toCopy (fun _ => 1) unfinished finished True.
Proof. split; [done..|]. intros outcome p q s s' Hs _. unfold finished. books_cases Hs. Qed.

Lemma reported_books opts toCopy x :
  Books opts toCopy (fun a => times x (apath a)) unreported (fun s => sum (fun r => times x r.(CurrentFile)) s.(reports)) True.
Proof.
  split; [done..|]. intros outcome p q s s' Hs _.
  books_cases Hs.
  - assert (0 <= times x (apath a)) by (unfold times; case_decide; lia). split; [lia|congruence].
  - cbn [CurrentFile worker_report sum foldr]. split; [|intros _ _]; lia.
Qed.

Lemma counted_books opts toCopy :
  (forall a, a ∈ toCopy -> 0 <= asize a) -> Books opts toCopy asize uncounted bytesTransferred False.
Proof.
  intros Hsize. split; [done..|]. intros outcome p q s s' Hs Hp.
  books_cases Hs; (split; [|done]); pose proof (Hsize _ Hp); lia.
Qed.

(** ** What every report says *)

Section reports.
Context (opts : Options) (toCopy : list copyAction) (Hsize : forall a, a ∈ toCopy -> 0 <= asize a).

Definition early (a : copyAction) (files bytes : Z) : Prop :=
  0 <= files < Z.of_nat (length toCopy) /\ 0 <= bytes <= total_bytes toCopy - asize a.

(** A report on one of the actions, which its counters do not include. *)
Definition true_report (r : Progress) : Prop :=
  exists a files bytes, a ∈ toCopy /\ r = worker_report toCopy a files bytes /\ early a files bytes.

Definition loaded (p : worker) : Prop :=
  match p with
  | Loaded a files => 0 <= files < Z.of_nat (length toCopy)
  | Calling a files bytes => early a files bytes
  | _ => True
  end.

(** The files counted as copied or updated and not yet in the counter of files. *)
Definition half_counted (p : worker) : Z := match p with AddingBytes _ | AddingFiles _ => 1 | _ => 0 end.

Definition sound (t : transfers) : Prop :=
  let s := t.(pool_shared) in
  mine toCopy t /\
  balanced toCopy (fun _ => 1) unfinished finished True t /\
  balanced toCopy asize uncounted bytesTransferred False t /\
  (forall x, balanced toCopy (fun a => times x (apath a)) unreported (fun s => sum (fun r => times x r.(CurrentFile)) s.(reports)) True t) /\
  0 <= s.(filesTransferred) /\ 0 <= s.(bytesTransferred) /\ s.(copied) + s.(updated) = s.(filesTransferred) + sum half_counted t.(workers) /\
  Forall loaded t.(workers) /\ Forall true_report s.(reports) /\
  (s.(stopped) = false -> Returned ∈ t.(workers) -> s.(channel) = [] /\ s.(unsent) = []).

(** What a worker still owes is part of what is owed. *)
Lemma owed_at f stage i p t :
  (forall a, a ∈ toCopy -> 0 <= f a) -> (forall p a, stage p = Some a -> unfinished p = Some a) ->
  mine toCopy t -> t.(workers) !! i = Some p -> weigh f stage p <= owed f stage t.
Proof.
  intros Hf Hst (Hu & Hc & Hw) Hi. rewrite Forall_forall in Hu, Hc. rewrite Forall_forall in Hw. unfold owed.
  pose proof (sum_nonneg f (channel (pool_shared t)) ltac:(auto)). pose proof (sum_nonneg f (unsent (pool_shared t)) ltac:(auto)).
  enough (weigh f stage p <= sum (weigh f stage) (workers t)) by lia. apply (sum_elem _ _ i); [|done].
  intros q Hq. unfold weigh. destruct (stage q) as [a|] eqn:Ha; [|done]. cbn. apply Hf. specialize (Hw _ Hq). by rewrite (Hst _ _ Ha) in Hw.
Qed.

Lemma uncounted_unfinished p a : uncounted p = Some a -> unfinished p = Some a.
Proof. by destruct p. Qed.

(** The counters a worker loads leave out the file it holds. *)
Lemma load_early i p a t :
  sound t -> t.(workers) !! i = Some p -> uncounted p = Some a ->
  early a t.(pool_shared).(filesTransferred) t.(pool_shared).(bytesTransferred).
Proof.
  intros (Hm & [Hfiles _] & [Hbytes _] & _ & Hf0 & Hb0 & _) Hi Ha. unfold balance, finished in *.
  pose proof (owed_at (fun _ => 1) unfinished i p t ltac:(done) ltac:(done) Hm Hi) as H1.
  pose proof (owed_at asize uncounted i p t Hsize uncounted_unfinished Hm Hi) as H2.
  unfold weigh in H1, H2. rewrite (uncounted_unfinished _ _ Ha) in H1. rewrite Ha in H2. cbn in H1, H2.
  rewrite sum_1 in Hfiles. unfold early, total_bytes. lia.
Qed.
(** What an operation does to the counters, and what the worker then holds. *)
Lemma worker_step_counters outcome i p q s s' ws :
  sound (mkTransfers s ws) -> ws !! i = Some p -> worker_step opts toCopy outcome p s = Some (q, s') ->
  s.(filesTransferred) <= s'.(filesTransferred) /\ s.(bytesTransferred) <= s'.(bytesTransferred) /\
  s'.(copied) + s'.(updated) - s'.(filesTransferred) - half_counted q = s.(copied) + s.(updated) - s.(filesTransferred) - half_counted p /\
  loaded q /\ Forall true_report s'.(reports) /\
  (s'.(stopped) = false -> s.(stopped) = false /\ (q = Returned -> s'.(channel) = [] /\ s'.(unsent) = []) /\
    (s.(channel) = [] -> s'.(channel) = [])).
Proof.
  intros Hsound Hi Hs. pose proof (fun a => load_early i p a _ Hsound Hi) as Hload. cbn [pool_shared] in Hload.
  destruct Hsound as (Hm & _ & _ & _ & _ & _ & _ & Hl & Hr & _). cbn [pool_shared workers] in *.
  pose proof (Forall_lookup_1 _ _ _ _ Hl Hi) as Hlp. destruct Hm as (_ & _ & Hw). pose proof (Forall_lookup_1 _ _ _ _ Hw Hi) as Hp.
  destruct p; cbn [worker_step] in Hs; repeat case_match; simplify_eq; cbn in *; try destruct (Hload _ eq_refl);
    repeat match goal with |- _ /\ _ => split | |- _ -> _ => intros ? end; try done; try congruence; try (unfold early, asize in *; lia).
  - apply Forall_app. split; [done|]. apply Forall_singleton. by exists a, files, bytes.
  - destruct (isUpdate a); lia.
  - pose proof (Hsize _ Hp). lia.
Qed.
Lemma returned_insert i q (ws : list worker) : Returned ∈ <[i := q]> ws -> q = Returned \/ Returned ∈ ws.
Proof.
  intros (j & Hj)%list_elem_of_lookup. apply list_lookup_insert_Some in Hj as [(_ & <- & _)|[_ Hj]]; [by left|right].
  by eapply list_elem_of_lookup_2.
Qed.

Lemma happens_sound e t t' : happens opts toCopy e t = Some t' -> sound t -> sound t'.
Proof.
  intros He Hs. pose proof Hs as (Hm & Hfiles & Hbytes & Hrep & Hf0 & Hb0 & Hcnt & Hl & Hr & Hend).
  split; [by eapply happens_mine|]. split; [by eapply (happens_balanced opts); [apply finished_books|..]|].
  split; [by eapply (happens_balanced opts); [by apply counted_books|..]|].
  split.
  { intros x. eapply (happens_balanced opts); [apply reported_books|intros a _; unfold times; case_decide; lia|done..|apply Hrep]. }
  destruct t as [s ws], e as [| | |i outcome]; cbn [happens pool_shared workers] in *.
  - destruct (unsent s) as [|a rest] eqn:Hun; [done|]. injection He as <-. split_and!; [done..|].
    intros Hst Hret. by destruct (Hend Hst Hret).
  - destruct (stopped s) eqn:Hst; [|done]. injection He as <-. split_and!; [done..|]. cbn. by rewrite Hst.
  - injection He as <-. by split_and!.
  - destruct (ws !! i) as [p|] eqn:Hi; [|done]. cbn in He. destruct (worker_step _ _ _ _ _) as [[q s']|] eqn:Hstep; [|done].
    injection He as <-. cbn [pool_shared workers]. destruct Hm as (_ & Hmc & Hmw).
    pose proof (worker_step_mine _ _ _ _ _ _ _ Hstep (Forall_lookup_1 _ _ _ _ Hmw Hi) Hmc) as (_ & _ & Hus & _).
    destruct (worker_step_counters _ _ _ _ _ _ _ Hs Hi Hstep) as (? & ? & ? & ? & ? & Hst). rewrite (sum_insert _ _ _ _ _ Hi).
    split_and!; [lia|lia|lia|by apply Forall_insert|done|]. intros Hst' [->|Hret]%returned_insert; destruct (Hst Hst') as (Hs0 & Hq & Hch).
    + by apply Hq.
    + destruct (Hend Hs0 Hret) as [Hc Hu]. by rewrite Hus, Hu, (Hch Hc).
Qed.

Lemma run_sound l t t' : run opts toCopy l t = Some t' -> sound t -> sound t'.
Proof.
  revert t. induction l as [|e l IH]; intros t Hrun Hs; [by injection Hrun as <-|]. cbn [run] in Hrun.
  destruct (happens opts toCopy e t) as [t1|] eqn:He; [|done]. apply (IH t1); [done|]. by eapply happens_sound.
Qed.

Lemma happens_workers e t t' : happens opts toCopy e t = Some t' -> length t'.(workers) = length t.(workers).
Proof.
  destruct t as [s ws], e as [| | |i outcome]; cbn [happens pool_shared workers].
  - destruct (unsent s); [done|]. by intros [= <-].
  - destruct (stopped s); [|done]. by intros [= <-].
  - by intros [= <-].
  - destruct (ws !! i) as [p|]; [|done]. cbn. destruct (worker_step _ _ _ _ _) as [[q s']|]; [|done]. intros [= <-]. apply length_insert.
Qed.

Lemma run_workers l t t' : run opts toCopy l t = Some t' -> length t'.(workers) = length t.(workers).
Proof.
  revert t. induction l as [|e l IH]; intros t Hrun; [by injection Hrun as <-|]. cbn [run] in Hrun.
  destruct (happens opts toCopy e t) as [t1|] eqn:He; [|done]. by rewrite (IH t1 Hrun), (happens_workers _ _ _ He).
Qed.

Lemma sum_const0 {A} (f : A -> Z) x n : f x = 0 -> sum f (replicate n x) = 0.
Proof. intros Hx. induction n as [|n IH]; [done|]. cbn [replicate]. rewrite sum_cons. lia. Qed.

Lemma start_sound : sound (start opts toCopy).
Proof.
  assert (forall f stage booked exact, stage Receiving = None -> booked (pool_shared (start opts toCopy)) = 0 ->
    balanced toCopy f stage booked exact (start opts toCopy)) as Hb.
  { intros f stage booked exact Hst Hbk. unfold balanced, balance, owed. rewrite Hbk. cbn [start pool_shared workers channel unsent].
    rewrite sum_const0 by (unfold weigh; by rewrite Hst). cbn [sum foldr]. fold (sum f toCopy). split; [|intros _ _]; lia. }
  split_and!; [split_and!|by apply Hb|by apply Hb|intros x; by apply Hb|done|done|..]; cbn [start pool_shared workers unsent channel].
  - by apply Forall_forall.
  - by apply Forall_nil.
  - by apply Forall_replicate.
  - by rewrite sum_const0.
  - by apply Forall_replicate.
  - by apply Forall_nil.
  - intros _ Hret. apply elem_of_replicate in Hret as [? _]. done.
Qed.

(** Nothing is owed when every worker has returned. *)
Lemma returned_sum f ws : f Returned = 0 -> Forall (fun p => p = Returned) ws -> sum f ws = 0.
Proof. intros Hf. induction 1 as [|p ws -> _ IH]; [done|]. rewrite sum_cons. lia. Qed.
Lemma owed_nonneg f stage t :
  (forall a, a ∈ toCopy -> 0 <= f a) -> (forall p a, stage p = Some a -> unfinished p = Some a) -> mine toCopy t -> 0 <= owed f stage t.
Proof.
  intros Hf Hst (Hu & Hc & Hw). rewrite Forall_forall in Hu, Hc. rewrite Forall_forall in Hw. unfold owed.
  pose proof (sum_nonneg f (channel (pool_shared t)) ltac:(auto)). pose proof (sum_nonneg f (unsent (pool_shared t)) ltac:(auto)).
  enough (0 <= sum (weigh f stage) (workers t)) by lia. apply sum_nonneg.
  intros q Hq. unfold weigh. destruct (stage q) as [a|] eqn:Ha; [|done]. cbn. apply Hf. specialize (Hw _ Hq). by rewrite (Hst _ _ Ha) in Hw.
Qed.

Lemma unreported_unfinished p a : unreported p = Some a -> unfinished p = Some a.
Proof. by destruct p. Qed.

(** When the workers have returned and nothing has stopped, nothing is owed. *)
Lemma returned_owed t :
  sound t -> t.(workers) <> [] -> all_returned t -> t.(pool_shared).(stopped) = false ->
  (forall f stage, stage Returned = None -> owed f stage t = 0) /\ sum half_counted t.(workers) = 0.
Proof.
  intros (_ & _ & _ & _ & _ & _ & _ & _ & _ & Hend) Hne Hall Hst. split; [|by apply returned_sum].
  assert (Returned ∈ t.(workers)) as Hret.
  { destruct t as [s [|p ws]]; [done|]. inversion Hall as [|? ? Hp]; subst. left. }
  destruct (Hend Hst Hret) as [Hc Hu]. intros f stage Hs. unfold owed. rewrite Hc, Hu, returned_sum; [done|unfold weigh; by rewrite Hs|exact Hall].
Qed.
End reports.

(** ** The reports of a sync *)

Lemma sum_times {A} (g : A -> string) x l : sum (fun a => times x (g a)) l = Z.of_nat (count_occ String.string_dec (g <$> l) x).
Proof.
  induction l as [|a l IH]; [done|]. rewrite sum_cons, IH. cbn [fmap list_fmap count_occ]. unfold times.
  destruct (String.string_dec (g a) x), (decide (g a = x)); try done; lia.
Qed.

(** What the deletions, which come after the transfers, add to the result. *)
Lemma delete_loop_counts `{OB : ObjectBackend W B} ctx w dst dstPath opts toDelete r w' r' :
  delete_loop ctx w dst dstPath opts toDelete r = (w', r', None) -> tooManyErrors opts r' = false ->
  r'.(Copied) = r.(Copied) /\ r'.(Updated) = r.(Updated) /\ r'.(BytesTransferred) = r.(BytesTransferred) /\
  (r'.(Deleted) - r.(Deleted)) + (Z.of_nat (length r'.(Errors_)) - Z.of_nat (length r.(Errors_))) = Z.of_nat (length toDelete).
Proof.
  revert w r. induction toDelete as [|p toDelete IH]; intros w r Hd Hmax; cbn [delete_loop] in Hd.
  - injection Hd as <- <-. cbn [length]. lia.
  - destruct (ctx_err ctx); [done|]. cbn [length]. destruct (negb (DryRun opts)).
    + destruct (Delete ctx w dst _) as [w1 [err|]].
      * destruct (tooManyErrors opts (add_error _ r)) eqn:Hm; [injection Hd as _ <-; congruence|].
        destruct (IH _ _ Hd Hmax) as (Hc & Hu & Hb & Hn). cbn in Hc, Hu, Hb, Hn. rewrite length_app in Hn. cbn [length] in Hn. lia.
      * destruct (IH _ _ Hd Hmax) as (Hc & Hu & Hb & Hn). cbn in Hc, Hu, Hb, Hn. lia.
    + destruct (IH _ _ Hd Hmax) as (Hc & Hu & Hb & Hn). cbn in Hc, Hu, Hb, Hn. lia.
Qed.

(** Claim C40. Progress reports tell the truth, however the workers of a sync interleave: each is on a
    file of the sync, counts that file neither among the files nor in the bytes it reports as
    transferred, and stays within totals that are those of all the files; no file is
    reported more often than it is transferred.  When the workers have returned and nothing has
    stopped them, every file has been reported once, and the final report's files, with
    the errors of the transfers, are all of them.  The deletions change nothing of that and,
    when they come to their end, add to the final report all the files to delete, each as
    deleted or as an error. *)
Theorem progress_reports `{OB : ObjectBackend W B} opts toCopy l t r :
  (forall a, a ∈ toCopy -> 0 <= asize a) -> run opts toCopy l (start opts toCopy) = Some t ->
  Forall (true_report toCopy) t.(pool_shared).(reports) /\
  (forall x, count_occ String.string_dec (CurrentFile <$> t.(pool_shared).(reports)) x <= count_occ String.string_dec (apath <$> toCopy) x)%nat /\
  (0 < opts.(Concurrency) -> all_returned t -> t.(pool_shared).(stopped) = false ->
    CurrentFile <$> t.(pool_shared).(reports) ≡ₚ apath <$> toCopy /\
    let result := result_of r t.(pool_shared) in
    let final := complete_report result in
    FilesTransferred final + PErrors final = Z.of_nat (length toCopy) /\ PBytesTransferred final <= total_bytes toCopy /\
    forall ctx (w : W) (dst : B) dstPath toDelete w' result',
      delete_loop ctx w dst dstPath opts toDelete result = (w', result', None) -> tooManyErrors opts result' = false ->
      let last := complete_report result' in
      FilesTransferred last = FilesTransferred final /\ PBytesTransferred last = PBytesTransferred final /\
      (FilesDeleted last - FilesDeleted final) + (PErrors last - PErrors final) = Z.of_nat (length toDelete)).
Proof.
  intros Hsize Hrun. assert (length t.(workers) = Z.to_nat opts.(Concurrency)) as Hlen.
  { rewrite (run_workers _ _ _ _ _ Hrun). apply length_replicate. }
  pose proof (run_sound opts toCopy Hsize _ _ _ Hrun (start_sound opts toCopy)) as Hsound.
  pose proof Hsound as (Hm & [_ Hfiles] & [Hbytes _] & Hrep & _ & _ & Hcnt & _ & Hr & _). unfold balance, finished in *.
  split; [done|]. split.
  - intros x. destruct (Hrep x) as [Hle _]. unfold balance in Hle. rewrite !sum_times in Hle.
    assert (0 <= owed (fun a => times x (apath a)) unreported t); [|lia].
    apply (owed_nonneg toCopy); [intros a _; unfold times; case_decide; lia|apply unreported_unfinished|done].
  - intros Hpos Hall Hst. destruct (returned_owed toCopy t Hsound) as [Howed Hhalf]; [|done..|].
    { intros Hnil. rewrite Hnil in Hlen. cbn in Hlen. lia. }
    split; [|split; [|split]; cbn [complete_report result_of FilesTransferred PErrors PBytesTransferred FilesDeleted Copied Updated Deleted Errors_ BytesTransferred]].
    + apply (Permutation_count_occ String.string_dec). intros x. destruct (Hrep x) as [_ Heq]. specialize (Heq I Hst). unfold balance in Heq.
      rewrite Howed, !sum_times in Heq by done. lia.
    + specialize (Hfiles I Hst). rewrite Howed, sum_1 in Hfiles by done. lia.
    + rewrite Howed in Hbytes by done. unfold total_bytes. lia.
    + intros ctx w dst dstPath toDelete w' result' Hd Hmax. apply delete_loop_counts in Hd as (Hc & Hu & Hb & Hn); [|exact Hmax].
      cbn [result_of Copied Updated Deleted Errors_ BytesTransferred] in Hc, Hu, Hb, Hn. rewrite Hc, Hu. by split_and!.
Qed.

(** Two workers, of which the second loads its counters while the first is still transferring, and
    reports after the first has taken and reported the third file. *)
Definition demo_action (name : string) (n : Z) : copyAction := mkAction (mkFileInfo name n 0 "" false) false.
Definition demo_files : list copyAction := [demo_action "a" 5; demo_action "b" 2; demo_action "c" 1].
Definition demo_opts : Options := set_Concurrency 2 zeroOptions.
Definition steps (i n : nat) : list event := replicate n (Step i None).
Definition demo_events : list event :=
  [Send; Send; Send] ++ steps 0 6 ++ steps 1 4 ++ steps 0 8 ++ steps 1 1 ++ [Step 1 (Some (err_io ErrClosedPipe))] ++ steps 1 2 ++ steps 0 5.

(** The reports may go back: that on "c" counts one file, the later one on "b" none. *)
Example reports_go_back :
  option_map (fun t => (fun r => (CurrentFile r, FilesTransferred r, PBytesTransferred r)) <$> t.(pool_shared).(reports))
    (run demo_opts demo_files demo_events (start demo_opts demo_files)) = Some [("a", 0, 0); ("c", 1, 5); ("b", 0, 0)].
Proof. by vm_compute. Qed.

(** The same with one deletion after it, in a memory backend. *)
#[local] Existing Instance tree_order.

Lemma progress_reports_witness :
  exists t w' r', run demo_opts demo_files demo_events (start demo_opts demo_files) = Some t /\
    FilesTransferred (complete_report (result_of (emptyResult demo_opts) t.(pool_shared))) = 2 /\
    CurrentFile <$> t.(pool_shared).(reports) ≡ₚ ["a"; "b"; "c"] /\
    delete_loop None demo_world 0%nat "a" demo_opts ["b"] (result_of (emptyResult demo_opts) t.(pool_shared)) = (w', r', None) /\
    FilesTransferred (complete_report r') = 2 /\ FilesDeleted (complete_report r') + (PErrors (complete_report r') - 1) = 1.
Proof.
  destruct (run demo_opts demo_files demo_events _) as [t|] eqn:Hrun; [|by vm_compute in Hrun].
  pose proof Hrun as Ht. vm_compute in Ht. injection Ht as Ht.
  destruct (progress_reports demo_opts demo_files demo_events t (emptyResult demo_opts)) as (_ & _ & [Hperm (_ & _ & Hdel)]); [|exact Hrun|done| | |].
  - apply Forall_forall. by repeat (apply Forall_cons; split; [by vm_compute|]).
  - subst t. repeat constructor.
  - by subst t.
  - destruct (delete_loop None demo_world 0%nat "a" demo_opts ["b"] (result_of (emptyResult demo_opts) t.(pool_shared))) as [[w' r'] e] eqn:Hd.
    assert (e = None) as -> by (apply (f_equal snd) in Hd; vm_compute in Hd; congruence).
    destruct (Hdel _ _ _ _ _ _ _ Hd eq_refl) as (Hf & _ & Hn). clear Hdel.
    exists t, w', r'. rewrite Hf. subst t. split_and!; [done|done|exact Hperm|exact Hd|done|].
    cbn in Hn |- *. lia.
Defined.
