(* ===== verification/Bisync.v ===== *)
(** * object/sync/bisync.go: bidirectional sync

    [Bisync] over two backends of a world, with the transfers of [Sync].  The actions are made
    in the order of two iterations over maps and processed one after the other. *)

From S2P Require Import Prelude GoLib Errors GoPath ObjectTypes ObjectBackend Filter SyncTypes RateLimit Sync.

(** [fmt]'s [%v] of a time. *)
Class TimeText := { time_text : time -> string }.

(** An int; the constants name the strategies. *)
Inductive ConflictStrategy :=
  | ConflictNewerWins
  | ConflictLargerWins
  | ConflictSourceWins
  | ConflictDestWins
  | ConflictKeepBoth
  | ConflictSkip
  | ConflictError
  | ConflictUnknown (n : Z).

Record BisyncOptions := mkBisyncOptions {
  BStrategy : ConflictStrategy;
  ConflictSuffix : string;
  BDryRun : bool;
  BChecksum : bool;
  DeleteMissing : bool;
  BMaxErrors : Z;
  BConcurrency : Z;
  BFilter : Filter.Filter;
  BBandwidthLimit : Z;
  BRetry : option RetryConfig;
  BPreserveMetadata : option MetadataOptions
}.

Definition DefaultBisyncOptions : BisyncOptions :=
  mkBisyncOptions ConflictNewerWins ".conflict" false false false 0 4 None 0 None None.

(** [Error] of a conflict is nil when it could be resolved. *)
Record Conflict := mkConflict {
  ConflictPath : string;
  Path1Info : FileInfo;
  Path2Info : FileInfo;
  Resolution : string;
  ConflictErr : option error
}.

Record BisyncResult := mkBisyncResult {
  CopiedToPath2 : Z;
  CopiedToPath1 : Z;
  UpdatedInPath2 : Z;
  UpdatedInPath1 : Z;
  DeletedFromPath1 : Z;
  DeletedFromPath2 : Z;
  Conflicts : list Conflict;
  BSkipped : Z;
  BErrors : list FileError;
  BBytesTransferred : Z;
  BWasDryRun : bool
}.

Definition BSuccess (r : BisyncResult) : bool := bool_decide (length r.(BErrors) = 0).
Definition TotalCopied (r : BisyncResult) : Z := r.(CopiedToPath1) + r.(CopiedToPath2).
Definition TotalUpdated (r : BisyncResult) : Z := r.(UpdatedInPath1) + r.(UpdatedInPath2).
Definition TotalDeleted (r : BisyncResult) : Z := r.(DeletedFromPath1) + r.(DeletedFromPath2).

Definition emptyBisyncResult (dry : bool) : BisyncResult := mkBisyncResult 0 0 0 0 0 0 [] 0 [] 0 dry.

Definition b_skipped (r : BisyncResult) : BisyncResult :=
  mkBisyncResult r.(CopiedToPath2) r.(CopiedToPath1) r.(UpdatedInPath2) r.(UpdatedInPath1) r.(DeletedFromPath1)
    r.(DeletedFromPath2) r.(Conflicts) (r.(BSkipped) + 1) r.(BErrors) r.(BBytesTransferred) r.(BWasDryRun).
Definition b_error (e : FileError) (r : BisyncResult) : BisyncResult :=
  mkBisyncResult r.(CopiedToPath2) r.(CopiedToPath1) r.(UpdatedInPath2) r.(UpdatedInPath1) r.(DeletedFromPath1)
    r.(DeletedFromPath2) r.(Conflicts) r.(BSkipped) (r.(BErrors) ++ [e]) r.(BBytesTransferred) r.(BWasDryRun).
Definition b_conflict (c : Conflict) (r : BisyncResult) : BisyncResult :=
  mkBisyncResult r.(CopiedToPath2) r.(CopiedToPath1) r.(UpdatedInPath2) r.(UpdatedInPath1) r.(DeletedFromPath1)
    r.(DeletedFromPath2) (r.(Conflicts) ++ [c]) r.(BSkipped) r.(BErrors) r.(BBytesTransferred) r.(BWasDryRun).
Definition b_copied (toPath2 : bool) (size : Z) (r : BisyncResult) : BisyncResult :=
  mkBisyncResult (if toPath2 then r.(CopiedToPath2) + 1 else r.(CopiedToPath2))%Z
    (if toPath2 then r.(CopiedToPath1) else r.(CopiedToPath1) + 1)%Z r.(UpdatedInPath2) r.(UpdatedInPath1)
    r.(DeletedFromPath1) r.(DeletedFromPath2) r.(Conflicts) r.(BSkipped) r.(BErrors) (r.(BBytesTransferred) + size)
    r.(BWasDryRun).
Definition b_updated (in1 in2 size : Z) (r : BisyncResult) : BisyncResult :=
  mkBisyncResult r.(CopiedToPath2) r.(CopiedToPath1) (r.(UpdatedInPath2) + in2) (r.(UpdatedInPath1) + in1)
    r.(DeletedFromPath1) r.(DeletedFromPath2) r.(Conflicts) r.(BSkipped) r.(BErrors) (r.(BBytesTransferred) + size)
    r.(BWasDryRun).

(** [maxErrorsReached] *)
Definition maxErrorsReached (opts : BisyncOptions) (r : BisyncResult) : bool :=
  (0 <? opts.(BMaxErrors))%Z && (opts.(BMaxErrors) <=? Z.of_nat (length r.(BErrors)))%Z.

(** ** Actions *)

Inductive action :=
  | To2 (file : FileInfo)
  | To1 (file : FileInfo)
  | InConflict (file otherFile : FileInfo).

Definition action_path (a : action) : string :=
  match a with To2 f | To1 f | InConflict f _ => f.(FPath) end.

(** The map of the files that are not directories. *)
Definition file_map (files : list FileInfo) : gmap string FileInfo :=
  fold_left (fun m f => if f.(FIsDir) then m else <[f.(FPath) := f]> m) files ∅.

(** The body of the first loop, over [map1]; the second one is over [map2]. *)
Definition classify1 `{TSync} (syncOpts : Options) (map2 : gmap string FileInfo)
    (acc : list action * BisyncResult) (kf : string * FileInfo) : list action * BisyncResult :=
  let '(actions, result) := acc in
  let '(p, f1) := kf in
  match map2 !! p with
  | None => (actions ++ [To2 f1], result)
  | Some f2 =>
      if NeedsUpdate f1 f2 syncOpts || NeedsUpdate f2 f1 syncOpts
      then (actions ++ [InConflict f1 f2], result) else (actions, b_skipped result)
  end.

Definition classify2 (processed : gset string) (actions : list action) (kf : string * FileInfo) : list action :=
  let '(p, f2) := kf in
  if bool_decide (p ∈ processed) then actions else actions ++ [To1 f2].

Section bisync.
Context `{OB : ObjectBackend W B} `{T : TSync} `{O : MapOrder} `{TT : TimeText}.
Context (fuel : nat) (ctx : context) (now : time) (backend1 backend2 : B) (path1 path2 : string).

(** ** Conflicts *)

(** [copyFileWithContext], skipped in a dry run. *)
Definition transfer (sctx : syncContext) (dry : bool) (src dst : B) (srcPath dstPath : string) (w : W)
    : option (W * option error) :=
  if dry then Some (w, None) else copyFileWithContext fuel ctx now sctx src dst srcPath dstPath w.

(** One transfer of a resolution: its description, and the direction when it succeeds. *)
Definition resolve_copy (sctx : syncContext) (dry : bool) (src dst : B) (srcPath dstPath resolution direction : string)
    (w : W) : option (W * string * string * option error) :=
  '(w, err) ← transfer sctx dry src dst srcPath dstPath w;
  Some (match err with
        | Some e => (w, resolution, "", Some e)
        | None => (w, resolution, direction, None)
        end).

(** [ConflictKeepBoth]: the older version moves to the conflict name on its side, the newer
    one replaces it, and the conflict copy goes to the other side. *)
Definition keep_both (sctx : syncContext) (older newer : B) (srcOlder srcNewer dstConflict dstConflict2 : string) (w : W)
    : option (W * option error) :=
  match copyFileWithContext fuel ctx now sctx older older srcOlder dstConflict w with
  | None => None
  | Some (w, Some e) => Some (w, Some e)
  | Some (w, None) =>
      match copyFileWithContext fuel ctx now sctx newer older srcNewer srcOlder w with
      | None => None
      | Some (w, Some e) => Some (w, Some e)
      | Some (w, None) => copyFileWithContext fuel ctx now sctx older newer dstConflict dstConflict2 w
      end
  end.

Definition resolveConflict (sctx : syncContext) (file1 file2 : FileInfo) (opts : BisyncOptions) (w : W)
    : option (W * string * string * option error) :=
  let srcPath1 := Join path1 file1.(FPath) in
  let srcPath2 := Join path2 file2.(FPath) in
  let dry := opts.(BDryRun) in
  let toPath2 resolution := resolve_copy sctx dry backend1 backend2 srcPath1 srcPath2 resolution "to2" w in
  let toPath1 resolution := resolve_copy sctx dry backend2 backend1 srcPath2 srcPath1 resolution "to1" w in
  match opts.(BStrategy) with
  | ConflictNewerWins =>
      if After file1.(FModTime) file2.(FModTime) then toPath2 "newer-wins:path1" else toPath1 "newer-wins:path2"
  | ConflictLargerWins =>
      if (file2.(FSize) <? file1.(FSize))%Z then toPath2 "larger-wins:path1" else toPath1 "larger-wins:path2"
  | ConflictSourceWins => toPath2 "source-wins"
  | ConflictDestWins => toPath1 "dest-wins"
  | ConflictKeepBoth =>
      let conflictPath := file1.(FPath) +:+ opts.(ConflictSuffix) in
      '(w, err) ←
        (if dry then Some (w, None)
         else if Before file1.(FModTime) file2.(FModTime)
         then keep_both sctx backend1 backend2 srcPath1 srcPath2 (Join path1 conflictPath) (Join path2 conflictPath) w
         else keep_both sctx backend2 backend1 srcPath2 srcPath1 (Join path2 conflictPath) (Join path1 conflictPath) w);
      Some (match err with Some e => (w, "keep-both", "", Some e) | None => (w, "keep-both", "both", None) end)
  | ConflictSkip => Some (w, "skipped", "", None)
  | ConflictError =>
      Some (w, "error", "", Some (Errorf ("conflict detected for " +:+ file1.(FPath) +:+ ": path1 mod=" +:+
        time_text file1.(FModTime) +:+ " size=" +:+ pretty file1.(FSize) +:+ ", path2 mod=" +:+
        time_text file2.(FModTime) +:+ " size=" +:+ pretty file2.(FSize))))
  | ConflictUnknown n => Some (w, "unknown-strategy", "", Some (Errorf ("unknown conflict strategy: " +:+ pretty n)))
  end.

(** ** The loop over the actions *)

Definition copyDirection (sctx : syncContext) (opts : BisyncOptions) (file : FileInfo) (toPath2 : bool) (w : W)
    (result : BisyncResult) : option (W * BisyncResult * option error) :=
  let '(srcBase, dstBase, srcBackend, dstBackend, destName) :=
    if toPath2 then (path1, path2, backend1, backend2, "path2") else (path2, path1, backend2, backend1, "path1") in
  '(w, err) ← transfer sctx opts.(BDryRun) srcBackend dstBackend (Join srcBase file.(FPath)) (Join dstBase file.(FPath)) w;
  Some (match err with
        | Some e => (w, b_error (mkFileError file.(FPath) ("copy-to-" +:+ destName) e) result, Some e)
        | None => (w, b_copied toPath2 file.(FSize) result, None)
        end).

(** The case of a conflict. *)
Definition handle_conflict (sctx : syncContext) (opts : BisyncOptions) (file otherFile : FileInfo) (w : W)
    (result : BisyncResult) : option (W * BisyncResult) :=
  '(w, resolution, copyDir, err) ← resolveConflict sctx file otherFile opts w;
  let result :=
    match err with
    | Some e => b_error (mkFileError file.(FPath) "conflict" e) result
    | None =>
        if opts.(BDryRun) then result
        else if String.eqb copyDir "to1" then b_updated 1 0 otherFile.(FSize) result
        else if String.eqb copyDir "to2" then b_updated 0 1 file.(FSize) result
        else if String.eqb copyDir "both" then b_updated 1 1 (file.(FSize) + otherFile.(FSize)) result
        else result
    end in
  Some (w, b_conflict (mkConflict file.(FPath) file otherFile resolution err) result).

Fixpoint action_loop (sctx : syncContext) (opts : BisyncOptions) (actions : list action) (w : W) (result : BisyncResult)
    : option (W * BisyncResult * option error) :=
  match actions with
  | [] => Some (w, result, None)
  | act :: actions =>
      onerr err <- ctx_err ctx return Some (w, result, Some err) else
      let after_copy (o : option (W * BisyncResult * option error)) :=
        match o with
        | None => None
        | Some (w, result, Some _) =>
            if maxErrorsReached opts result then Some (w, result, None) else action_loop sctx opts actions w result
        | Some (w, result, None) => action_loop sctx opts actions w result
        end in
      match act with
      | To2 file => after_copy (copyDirection sctx opts file true w result)
      | To1 file => after_copy (copyDirection sctx opts file false w result)
      | InConflict file otherFile =>
          match handle_conflict sctx opts file otherFile w result with
          | None => None
          | Some (w, result) => action_loop sctx opts actions w result
          end
      end
  end.

(** ** Bisync *)

Definition default_suffix (opts : BisyncOptions) : BisyncOptions :=
  mkBisyncOptions opts.(BStrategy) (if decide (opts.(ConflictSuffix) = "") then ".conflict" else opts.(ConflictSuffix))
    opts.(BDryRun) opts.(BChecksum) opts.(DeleteMissing) opts.(BMaxErrors)
    (if (opts.(BConcurrency) <=? 0)%Z then 4%Z else opts.(BConcurrency))
    opts.(BFilter) opts.(BBandwidthLimit) opts.(BRetry) opts.(BPreserveMetadata).

(** The options of the scans, and those of the transfers. *)
Definition scan_options (opts : BisyncOptions) : Options :=
  mkOptions false false opts.(BChecksum) false false false false 0 opts.(BConcurrency) opts.(BFilter) false 0 None None.
Definition transfer_options (opts : BisyncOptions) : Options :=
  mkOptions false opts.(BDryRun) false false false false false 0 0 None false opts.(BBandwidthLimit) opts.(BRetry)
    opts.(BPreserveMetadata).

Definition Bisync (opts : BisyncOptions) (w : W) : option (W * option BisyncResult * option error) :=
  let result := emptyBisyncResult opts.(BDryRun) in
  let opts := default_suffix opts in
  let syncOpts := scan_options opts in
  match listFiles ctx now w backend1 path1 syncOpts with
  | (w, Err err) => Some (w, None, Some (Wrapf "scanning path1: " err ""))
  | (w, Ok files1) =>
      match listFiles ctx now w backend2 path2 syncOpts with
      | (w, Err err) => Some (w, None, Some (Wrapf "scanning path2: " err ""))
      | (w, Ok files2) =>
          let map1 := file_map files1 in
          let map2 := file_map files2 in
          let '(actions, result) := fold_left (classify1 syncOpts map2) (range map1) ([], result) in
          let processed := list_to_set (range_keys map1) in
          let actions := fold_left (classify2 processed) (range map2) actions in
          let sctx := mkSyncContext (transfer_options opts) (newTokenBucket now opts.(BBandwidthLimit)) in
          '(w, result, err) ← action_loop sctx opts actions w result;
          Some (w, Some result, err)
      end
  end.
End bisync.

(** ** Lemmas *)

(** [Some true] is the flow of a file to [path2], [Some false] to [path1]. *)
Definition conflict_flow (strategy : ConflictStrategy) (f g : FileInfo) : option bool :=
  match strategy with
  | ConflictNewerWins => Some (After f.(FModTime) g.(FModTime))
  | ConflictLargerWins => Some (g.(FSize) <? f.(FSize))%Z
  | ConflictSourceWins => Some true
  | ConflictDestWins => Some false
  | _ => None
  end.

(** The strategies that make the two sides agree, or leave them alone. *)
Definition resolving (strategy : ConflictStrategy) : Prop :=
  match strategy with ConflictKeepBoth | ConflictError | ConflictUnknown _ => False | _ => True end.

Definition differ `{TSync} (opts : BisyncOptions) (f g : FileInfo) : bool :=
  NeedsUpdate f g (scan_options opts) || NeedsUpdate g f (scan_options opts).

(** Which way a path flows that the two sides have as [s] and [d]. *)
Definition flow `{TSync} (opts : BisyncOptions) (s d : option FileInfo) : option bool :=
  match s, d with
  | Some _, None => Some true
  | None, Some _ => Some false
  | Some f, Some g => if differ opts f g then conflict_flow opts.(BStrategy) f g else None
  | None, None => None
  end.

Definition action_flow (opts : BisyncOptions) (a : action) : option bool :=
  match a with
  | To2 _ => Some true
  | To1 _ => Some false
  | InConflict f g => conflict_flow opts.(BStrategy) f g
  end.

(** *** The actions *)

Definition action1 `{TSync} (opts : BisyncOptions) (map2 : gmap string FileInfo) (kf : string * FileInfo) : option action :=
  match map2 !! kf.1 with
  | None => Some (To2 kf.2)
  | Some f2 => if differ opts kf.2 f2 then Some (InConflict kf.2 f2) else None
  end.

Definition action2 (map1 : gmap string FileInfo) (kf : string * FileInfo) : option action :=
  match map1 !! kf.1 with None => Some (To1 kf.2) | Some _ => None end.

Definition b_skips (n : nat) (r : BisyncResult) : BisyncResult :=
  mkBisyncResult r.(CopiedToPath2) r.(CopiedToPath1) r.(UpdatedInPath2) r.(UpdatedInPath1) r.(DeletedFromPath1)
    r.(DeletedFromPath2) r.(Conflicts) (r.(BSkipped) + Z.of_nat n) r.(BErrors) r.(BBytesTransferred) r.(BWasDryRun).

Lemma omap_shorter {A B} (f : A -> option B) l : length (omap f l) <= length l.
Proof. induction l as [|x l IH]; cbn; [lia|]. destruct (f x); cbn; lia. Qed.

Lemma classify1_fold `{TSync} opts map2 l acts r :
  fold_left (classify1 (scan_options opts) map2) l (acts, r) =
    (acts ++ omap (action1 opts map2) l, b_skips (length l - length (omap (action1 opts map2) l)) r).
Proof.
  revert acts r. induction l as [|[k f] l IH]; intros acts r.
  { cbn. rewrite app_nil_r. f_equal. unfold b_skips. destruct r; cbn. f_equal. lia. }
  pose proof (omap_shorter (action1 opts map2) l) as Hlen. cbn [omap list_omap fold_left].
  assert (classify1 (scan_options opts) map2 (acts, r) (k, f) =
    match action1 opts map2 (k, f) with Some a => (acts ++ [a], r) | None => (acts, b_skipped r) end) as ->.
  { unfold classify1, action1, differ. cbn [fst snd]. destruct (map2 !! k) as [g|]; [|done]. by destruct (_ || _). }
  destruct (action1 opts map2 (k, f)) as [a|]; rewrite IH.
  - by rewrite <- app_assoc.
  - f_equal. unfold b_skips, b_skipped. cbn [BSkipped CopiedToPath1 CopiedToPath2 UpdatedInPath1 UpdatedInPath2
      DeletedFromPath1 DeletedFromPath2 Conflicts BErrors BBytesTransferred BWasDryRun length omap list_omap] in *. f_equal. lia.
Qed.

Lemma classify2_fold (map1 : gmap string FileInfo) (l : list (string * FileInfo)) `{MapOrder} acts :
  fold_left (classify2 (list_to_set (range_keys map1))) l acts = acts ++ omap (action2 map1) l.
Proof.
  revert acts. induction l as [|[k f] l IH]; intros acts; [by rewrite app_nil_r|]. cbn [fold_left omap list_omap]. rewrite IH.
  assert (classify2 (list_to_set (range_keys map1)) acts (k, f) =
    match action2 map1 (k, f) with Some a => acts ++ [a] | None => acts end) as ->.
  { unfold classify2, action2. cbn [fst snd].
    assert (bool_decide (k ∈ (list_to_set (range_keys map1) : gset string)) = bool_decide (is_Some (map1 !! k))) as ->
      by (apply bool_decide_ext; by rewrite elem_of_list_to_set, elem_of_range_keys).
    by destruct (map1 !! k). }
  destruct (action2 map1 (k, f)); [by rewrite <- app_assoc|done].
Qed.

(** The actions of a bisync, from the indexes of the two scans. *)
Definition bisync_actions `{TSync, MapOrder} (opts : BisyncOptions) (map1 map2 : gmap string FileInfo) : list action :=
  omap (action1 opts map2) (range map1) ++ omap (action2 map1) (range map2).

Lemma elem_of_bisync_actions `{TSync, MapOrder} opts map1 map2 a :
  (forall k f, map1 !! k = Some f -> f.(FPath) = k) -> (forall k f, map2 !! k = Some f -> f.(FPath) = k) ->
  a ∈ bisync_actions opts map1 map2 <->
    match a with
    | To2 f => map1 !! f.(FPath) = Some f /\ map2 !! f.(FPath) = None
    | To1 f => map1 !! f.(FPath) = None /\ map2 !! f.(FPath) = Some f
    | InConflict f g => map1 !! f.(FPath) = Some f /\ map2 !! f.(FPath) = Some g /\ differ opts f g = true
    end.
Proof.
  intros H1 H2. unfold bisync_actions. rewrite elem_of_app, !list_elem_of_omap. split.
  - intros [([k f] & Hin%elem_of_range & Ha)|([k f] & Hin%elem_of_range & Ha)].
    + unfold action1 in Ha. cbn in Ha. pose proof (H1 _ _ Hin) as <-. destruct (map2 !! f.(FPath)) as [g|] eqn:Hg.
      * destruct (differ opts f g) eqn:Hd; [|done]. by injection Ha as <-.
      * by injection Ha as <-.
    + unfold action2 in Ha. cbn in Ha. pose proof (H2 _ _ Hin) as <-. destruct (map1 !! f.(FPath)) eqn:Hg; [done|].
      by injection Ha as <-.
  - destruct a as [f|f|f g].
    + intros [Hf Hg]. left. exists (f.(FPath), f). rewrite elem_of_range. unfold action1. cbn. by rewrite Hg.
    + intros [Hf Hg]. right. exists (f.(FPath), f). rewrite elem_of_range. unfold action2. cbn. by rewrite Hf.
    + intros (Hf & Hg & Hd). left. exists (f.(FPath), f). rewrite elem_of_range. unfold action1. cbn. by rewrite Hg, Hd.
Qed.

Lemma NoDup_omap_paths (g : string * FileInfo -> option action) l :
  (forall kf a, kf ∈ l -> g kf = Some a -> action_path a = kf.1) -> NoDup l.*1 -> NoDup (action_path <$> omap g l).
Proof.
  induction l as [|kf l IH]; intros Hg Hnd; [constructor|]. rewrite fmap_cons, NoDup_cons in Hnd. destruct Hnd as [Hn Hnd].
  cbn [omap list_omap]. assert (NoDup (action_path <$> omap g l)) as IH' by (apply IH; [intros; apply Hg; [by right|done]|done]).
  destruct (g kf) as [a|] eqn:Ha; [|done]. rewrite fmap_cons. apply NoDup_cons. split; [|done].
  rewrite (Hg kf a (list_elem_of_here _ _) Ha). intros (b & Hb & (kf' & Hin & Hkb)%list_elem_of_omap)%list_elem_of_fmap. apply Hn.
  rewrite Hb, (Hg kf' b (list_elem_of_further _ _ _ Hin) Hkb). by apply list_elem_of_fmap_2.
Qed.

Lemma NoDup_bisync_actions `{TSync, MapOrder} opts map1 map2 :
  (forall k f, map1 !! k = Some f -> f.(FPath) = k) -> (forall k f, map2 !! k = Some f -> f.(FPath) = k) ->
  NoDup (action_path <$> bisync_actions opts map1 map2).
Proof.
  intros H1 H2. unfold bisync_actions. rewrite fmap_app. apply NoDup_app. split_and!.
  - apply NoDup_omap_paths; [|apply (NoDup_range_keys map1)]. intros [k f] a Hin%elem_of_range Ha. cbn.
    unfold action1 in Ha. cbn in Ha. rewrite <- (H1 _ _ Hin). destruct (map2 !! k); [case_match|]; by simplify_eq.
  - intros k (a & -> & Ha)%list_elem_of_fmap (b & Hab & Hb)%list_elem_of_fmap.
    apply list_elem_of_omap in Ha as ([k1 f1] & Hin1%elem_of_range & Ha), Hb as ([k2 f2] & Hin2%elem_of_range & Hb).
    assert (action_path a = k1) as E1.
    { unfold action1 in Ha. cbn in Ha. rewrite <- (H1 _ _ Hin1). destruct (map2 !! k1); [case_match|]; by simplify_eq. }
    unfold action2 in Hb. cbn in Hb. destruct (map1 !! k2) eqn:E2; [done|]. injection Hb as <-. cbn in Hab.
    pose proof (H2 _ _ Hin2). congruence.
  - apply NoDup_omap_paths; [|apply (NoDup_range_keys map2)]. intros [k f] a Hin%elem_of_range Ha. cbn.
    unfold action2 in Ha. cbn in Ha. rewrite <- (H2 _ _ Hin). destruct (map1 !! k); by simplify_eq.
Qed.

(** *** Effects *)

(** What the loop adds to the result for an action without an error. *)
Definition resolution (strategy : ConflictStrategy) (f g : FileInfo) : string :=
  match strategy with
  | ConflictNewerWins => if After f.(FModTime) g.(FModTime) then "newer-wins:path1" else "newer-wins:path2"
  | ConflictLargerWins => if (g.(FSize) <? f.(FSize))%Z then "larger-wins:path1" else "larger-wins:path2"
  | ConflictSourceWins => "source-wins"
  | ConflictDestWins => "dest-wins"
  | ConflictKeepBoth => "keep-both"
  | ConflictSkip => "skipped"
  | ConflictError => "error"
  | ConflictUnknown _ => "unknown-strategy"
  end.

Definition account (opts : BisyncOptions) (r : BisyncResult) (a : action) : BisyncResult :=
  match a with
  | To2 f => b_copied true f.(FSize) r
  | To1 f => b_copied false f.(FSize) r
  | InConflict f g =>
      b_conflict (mkConflict f.(FPath) f g (resolution opts.(BStrategy) f g) None)
        (match conflict_flow opts.(BStrategy) f g with
         | Some toPath2 =>
             if opts.(BDryRun) then r
             else if toPath2 then b_updated 0 1 f.(FSize) r else b_updated 1 0 g.(FSize) r
         | None => r
         end)
  end.

(** The paths that flow, with their side: [true] is [path2]. *)
Definition flows (opts : BisyncOptions) (acts : list action) : list (string * bool) :=
  omap (fun a => s ← action_flow opts a; Some (action_path a, s)) acts.

Lemma flows_cons opts a acts :
  flows opts (a :: acts) =
    match action_flow opts a with Some s => (action_path a, s) :: flows opts acts | None => flows opts acts end.
Proof. unfold flows. cbn [omap list_omap]. by destruct (action_flow opts a). Qed.

Lemma flows_paths opts acts rel s : (rel, s) ∈ flows opts acts -> rel ∈ action_path <$> acts.
Proof.
  intros (a & Ha & Hf)%list_elem_of_omap. destruct (action_flow opts a); [|done]. injection Hf as <- _.
  by apply list_elem_of_fmap_2.
Qed.

Section effects.
Context `{LS : ListingSpec W B} `{T : TSync} `{O : MapOrder} `{TT : TimeText}.
Context (fuel : nat) (now : time) (backend1 backend2 : B) (path1 path2 : string).

Definition bk (s : bool) : B := if s then backend2 else backend1.
Definition base (s : bool) : string := if s then path2 else path1.
Definition place (s : bool) (rel : string) : option string := path_of (bk s) (Join (base s) rel).

(** Each path that flows has the other side's content; nothing else changes. *)
Definition effected (w w' : W) (fl : list (string * bool)) : Prop :=
  (forall c, is_open w c -> is_open w' c) /\
  (forall c, c <> backend1 -> c <> backend2 -> files w' c = files w c) /\
  (forall rel s q, (rel, s) ∈ fl -> place s rel = Some q -> files w' (bk s) !! q = content w (bk (negb s)) (base (negb s)) rel) /\
  (forall s q, (forall rel, (rel, s) ∈ fl -> place s rel <> Some q) -> files w' (bk s) !! q = files w (bk s) !! q).

Definition can_flow (w : W) (rel : string) (s : bool) : Prop :=
  is_Some (place s rel) /\ exists p d, place (negb s) rel = Some p /\ files w (bk (negb s)) !! p = Some d /\ length d < fuel.

Hypothesis Hapart : backend1 <> backend2.

Lemma bk_negb s : bk s <> bk (negb s).
Proof. destruct s; cbn; auto. Qed.

Lemma bk_inj s t : bk s = bk t -> s = t.
Proof. destruct s, t; cbn; congruence. Qed.

Lemma effected_nil w : effected w w [].
Proof. split_and!; try done. intros rel s q Hin. by apply elem_of_nil in Hin. Qed.

Lemma stored_effected w w' s rel q d :
  place s rel = Some q -> content w (bk (negb s)) (base (negb s)) rel = Some d -> stored_at w w' (bk s) q d ->
  effected w w' [(rel, s)].
Proof.
  intros Hq Hd [Ho Hf]. split_and!; [done| | |].
  - intros c H1 H2. rewrite Hf, decide_False; [done|]. destruct s; cbn; auto.
  - intros r t q' [= -> ->]%list_elem_of_singleton Hq'. rewrite Hd, Hf, decide_True by done.
    rewrite Hq in Hq'. injection Hq' as <-. apply lookup_insert_eq.
  - intros t q' Hno. rewrite Hf. case_decide as Heq; [|done]. apply bk_inj in Heq as ->.
    rewrite lookup_insert_ne; [done|]. intros <-. by apply (Hno rel); [left|].
Qed.

Lemma effected_content w w1 rel s t r :
  effected w w1 [(rel, s)] -> place t rel <> place t r -> content w1 (bk t) (base t) r = content w (bk t) (base t) r.
Proof.
  intros (_ & _ & _ & Hout) Hne. unfold content. fold (place t r). destruct (place t r) as [q|] eqn:Hq; [|done]. cbn.
  apply Hout. intros r' [= -> ->]%list_elem_of_singleton. congruence.
Qed.

Lemma effected_cons w w1 w' rel s fl :
  effected w w1 [(rel, s)] -> effected w1 w' fl ->
  (forall r t u, (r, t) ∈ fl -> place u rel <> place u r) -> effected w w' ((rel, s) :: fl).
Proof.
  intros H1 (Ho & Hf & Hin & Hout) Hne. pose proof H1 as (Ho1 & Hf1 & Hin1 & Hout1). split_and!; [auto|intros; by rewrite Hf, Hf1| |].
  - intros r t q [[= -> ->]|Hr]%elem_of_cons Hq.
    + rewrite Hout; [by apply (Hin1 rel s q); [left|]|]. intros r Hr. rewrite <- Hq. intros Heq. by apply (Hne _ _ s Hr).
    + rewrite (Hin r t q Hr Hq). eapply effected_content; [done|]. by eapply Hne.
  - intros t q Hq. rewrite Hout by (intros; apply Hq; by right). apply Hout1.
    intros r Hr. apply Hq. apply list_elem_of_singleton in Hr as ->. by left.
Qed.

Lemma effected_can_flow w w1 rel s r t :
  effected w w1 [(rel, s)] -> (forall u, place u rel <> place u r) -> can_flow w r t -> can_flow w1 r t.
Proof.
  intros H1 Hne [Ht (p & d & Hp & Hd & Hl)]. split; [done|]. exists p, d. split_and!; [done| |done].
  pose proof (effected_content w w1 rel s (negb t) r H1 (Hne _)) as Hc. unfold content in Hc. fold (place (negb t) r) in Hc.
  rewrite Hp in Hc. by rewrite <- Hd.
Qed.
(** *** The loop *)

Section loop.
Context (sctx : syncContext) (opts : BisyncOptions).
Hypothesis Hlim : blocks (Z.of_nat copy_buffer) sctx.(rateLimiter) = false.
Hypothesis Hresolving : resolving opts.(BStrategy).

Lemma transfer_flow w rel s :
  is_open w backend1 -> is_open w backend2 -> can_flow w rel s ->
  exists w', transfer fuel None now sctx opts.(BDryRun) (bk (negb s)) (bk s) (Join (base (negb s)) rel) (Join (base s) rel) w
      = Some (w', None) /\
    if opts.(BDryRun) then w' = w else effected w w' [(rel, s)].
Proof.
  intros Ho1 Ho2 [[q Hq] (p & d & Hp & Hd & Hl)]. unfold transfer. destruct (BDryRun opts); [by exists w|].
  destruct (copyFileWithContext_ok fuel now sctx w (bk (negb s)) (bk s) (Join (base (negb s)) rel) (Join (base s) rel) p q d)
    as (w' & Hc & Hst); [by destruct s|by destruct s|done..|].
  exists w'. split; [exact Hc|]. eapply stored_effected; [done| |done]. unfold content. fold (place (negb s) rel). by rewrite Hp.
Qed.

Definition well_paired (a : action) : Prop :=
  match a with InConflict f g => g.(FPath) = f.(FPath) | _ => True end.

Lemma step_ok w acts a r :
  is_open w backend1 -> is_open w backend2 -> well_paired a ->
  (forall s, action_flow opts a = Some s -> can_flow w (action_path a) s) ->
  exists w1, action_loop fuel None now backend1 backend2 path1 path2 sctx opts (a :: acts) w r =
      action_loop fuel None now backend1 backend2 path1 path2 sctx opts acts w1 (account opts r a) /\
    if opts.(BDryRun) then w1 = w else effected w w1 (flows opts [a]).
Proof.
  intros Ho1 Ho2 Hpair Hflow. rewrite flows_cons. cbn [action_loop ctx_err fmap option_fmap option_map]. destruct a as [f|f|f g]; cbn in Hflow |- *.
  - destruct (transfer_flow w f.(FPath) true) as (w1 & Ht & Hw1); [auto..|]. exists w1. cbn in Ht |- *. by rewrite Ht.
  - destruct (transfer_flow w f.(FPath) false) as (w1 & Ht & Hw1); [auto..|]. exists w1. cbn in Ht |- *. by rewrite Ht.
  - assert (forall s, conflict_flow opts.(BStrategy) f g = Some s -> exists w1,
      transfer fuel None now sctx opts.(BDryRun) (bk (negb s)) (bk s) (Join (base (negb s)) f.(FPath)) (Join (base s) f.(FPath)) w
        = Some (w1, None) /\ if opts.(BDryRun) then w1 = w else effected w w1 [(f.(FPath), s)]) as Hgo by (intros; apply transfer_flow; auto).
    cbn in Hpair. unfold handle_conflict, resolveConflict, resolve_copy, account, resolution. rewrite Hpair.
    destruct (BStrategy opts); cbn in Hgo, Hresolving |- *; try done.
    + destruct (After _ _), (Hgo _ eq_refl) as (w1 & Ht & Hw1); cbn in Ht; rewrite Ht; exists w1; cbn; by destruct (BDryRun opts).
    + destruct (_ <? _)%Z, (Hgo _ eq_refl) as (w1 & Ht & Hw1); cbn in Ht; rewrite Ht; exists w1; cbn; by destruct (BDryRun opts).
    + destruct (Hgo _ eq_refl) as (w1 & Ht & Hw1). cbn in Ht. rewrite Ht. exists w1. cbn. by destruct (BDryRun opts).
    + destruct (Hgo _ eq_refl) as (w1 & Ht & Hw1). cbn in Ht. rewrite Ht. exists w1. cbn. by destruct (BDryRun opts).
    + exists w. cbn. destruct (BDryRun opts); [done|]. split; [done|]. apply effected_nil.
Qed.

Lemma action_loop_ok acts w r :
  is_open w backend1 -> is_open w backend2 -> Forall well_paired acts ->
  (forall rel s, (rel, s) ∈ flows opts acts -> can_flow w rel s) ->
  NoDup (action_path <$> acts) ->
  (forall r1 r2 s, r1 ∈ action_path <$> acts -> r2 ∈ action_path <$> acts -> place s r1 = place s r2 -> r1 = r2) ->
  exists w', action_loop fuel None now backend1 backend2 path1 path2 sctx opts acts w r =
      Some (w', fold_left (account opts) acts r, None) /\
    if opts.(BDryRun) then w' = w else effected w w' (flows opts acts).
Proof.
  revert w r. induction acts as [|a acts IH]; intros w r Ho1 Ho2 Hpair Hflow Hnd Hinj.
  { exists w. split; [done|]. destruct (BDryRun opts); [done|apply effected_nil]. }
  rewrite Forall_cons in Hpair. rewrite fmap_cons, NoDup_cons in Hnd. destruct Hpair as [Hp Hpair], Hnd as [Hn Hnd].
  destruct (step_ok w acts a r Ho1 Ho2 Hp) as (w1 & -> & Hw1).
  { intros s Hs. apply Hflow. rewrite flows_cons, Hs. by left. }
  assert (forall rel s, (rel, s) ∈ flows opts acts -> forall u, place u (action_path a) <> place u rel) as Hne.
  { intros rel s Hin%flows_paths u Heq%Hinj; [by rewrite Heq in Hn|by left|by right]. }
  destruct (IH w1 (account opts r a)) as (w' & -> & Hw'); [| |done| |done| |].
  1, 2: destruct (BDryRun opts); [by rewrite Hw1|by apply (proj1 Hw1)].
  - intros rel s Hin. assert (can_flow w rel s) as Hc.
    { apply Hflow. rewrite flows_cons. destruct (action_flow opts a); [by right|done]. }
    destruct (BDryRun opts); [by rewrite Hw1|]. rewrite flows_cons in Hw1.
    destruct (action_flow opts a) as [t|]; [eapply effected_can_flow; [done|by eapply Hne|done]|].
    destruct Hc as [Hq (p & d & H1 & H2 & H3)]. split; [done|]. exists p, d. split_and!; [done| |done].
    destruct Hw1 as (_ & _ & _ & Hout). rewrite Hout; [done|]. intros r' Hin'. by apply elem_of_nil in Hin'.
  - intros r1 r2 s H1 H2. apply Hinj; by right.
  - exists w'. split; [done|]. destruct (BDryRun opts); [congruence|]. rewrite flows_cons in Hw1 |- *.
    destruct (action_flow opts a) as [t|]; [apply (effected_cons w w1); [done..|]; intros; by eapply Hne|].
    destruct Hw1 as (Ho & Hf & _ & Hout), Hw' as (Ho' & Hf' & Hin' & Hout').
    assert (forall s, files w1 (bk s) = files w (bk s)) as Hsame.
    { intros s. apply map_eq. intros q. apply Hout. intros r' Hr'. by apply elem_of_nil in Hr'. }
    split_and!; [auto|intros; by rewrite Hf', Hf| |].
    + intros rel s q Hin Hq. rewrite (Hin' rel s q Hin Hq). unfold content. by rewrite Hsame.
    + intros s q Hq. by rewrite Hout', Hsame.
Qed.
End loop.
End effects.

(** *** The result *)

Lemma count_perm {A} (p : A -> bool) l l' : l ≡ₚ l' -> count p l = count p l'.
Proof. induction 1; rewrite ?count_cons; (done || lia || congruence). Qed.

Lemma count_app {A} (p : A -> bool) l l' : count p (l ++ l') = (count p l + count p l')%Z.
Proof. induction l as [|x l IH]; [done|]. cbn [app]. rewrite !count_cons, IH. lia. Qed.

Lemma count_omap {A B} (p : B -> bool) (g : A -> option B) l :
  count p (omap g l) = count (fun x => match g x with Some b => p b | None => false end) l.
Proof.
  induction l as [|x l IH]; [done|]. rewrite count_cons, <- IH. cbn [omap list_omap].
  destruct (g x); [by rewrite count_cons|done].
Qed.

Lemma count_ext {A} (p q : A -> bool) l : (forall x, x ∈ l -> p x = q x) -> count p l = count q l.
Proof.
  induction l as [|x l IH]; intros H; [done|]. rewrite !count_cons, (H x) by left. rewrite IH; [done|]. intros; apply H; by right.
Qed.

Definition is_to2 (a : action) : bool := match a with To2 _ => true | _ => false end.
Definition is_to1 (a : action) : bool := match a with To1 _ => true | _ => false end.
Definition is_conflict (a : action) : bool := match a with InConflict _ _ => true | _ => false end.
Definition updates (opts : BisyncOptions) (s : bool) (a : action) : bool :=
  match a with InConflict f g => bool_decide (conflict_flow opts.(BStrategy) f g = Some s) | _ => false end.

Lemma account_counts opts acts r :
  let r' := fold_left (account opts) acts r in
  r'.(CopiedToPath2) = (r.(CopiedToPath2) + count is_to2 acts)%Z /\
  r'.(CopiedToPath1) = (r.(CopiedToPath1) + count is_to1 acts)%Z /\
  r'.(UpdatedInPath2) = (r.(UpdatedInPath2) + if opts.(BDryRun) then 0 else count (updates opts true) acts)%Z /\
  r'.(UpdatedInPath1) = (r.(UpdatedInPath1) + if opts.(BDryRun) then 0 else count (updates opts false) acts)%Z /\
  r'.(DeletedFromPath1) = r.(DeletedFromPath1) /\ r'.(DeletedFromPath2) = r.(DeletedFromPath2) /\
  (ConflictPath <$> r'.(Conflicts)) = (ConflictPath <$> r.(Conflicts)) ++ (action_path <$> List.filter is_conflict acts) /\
  r'.(BSkipped) = r.(BSkipped) /\ r'.(BErrors) = r.(BErrors) /\ r'.(BWasDryRun) = r.(BWasDryRun).
Proof.
  cbv zeta. revert r. induction acts as [|a acts IH]; intros r.
  { unfold count. cbn. rewrite app_nil_r. destruct (BDryRun opts); split_and!; (done || lia). }
  destruct (IH (account opts r a)) as (E1 & E2 & E3 & E4 & E5 & E6 & E7 & E8 & E9 & E10). cbn [fold_left].
  rewrite E1, E2, E3, E4, E5, E6, E7, E8, E9, E10, !count_cons. clear.
  destruct a as [f|f|f g]; cbn [account is_to2 is_to1 is_conflict updates List.filter].
  1, 2: cbn; destruct (BDryRun opts); split_and!; (done || lia).
  rewrite fmap_cons. destruct (conflict_flow _ f g) as [[|]|]; [rewrite bool_decide_eq_true_2, bool_decide_eq_false_2 by done
    |rewrite bool_decide_eq_false_2, bool_decide_eq_true_2 by done|rewrite !bool_decide_eq_false_2 by done];
    destruct (BDryRun opts); cbn [b_conflict b_updated CopiedToPath2 CopiedToPath1 UpdatedInPath2 UpdatedInPath1 DeletedFromPath1
      DeletedFromPath2 Conflicts BSkipped BErrors BWasDryRun action_path]; rewrite fmap_app, <- app_assoc; cbn; split_and!; (done || lia).
Qed.

Lemma range_index `{MapOrder} fs : NoDup (FPath <$> fs) -> range (index fs) ≡ₚ (fun f => (f.(FPath), f)) <$> fs.
Proof.
  intros Hnd. apply NoDup_Permutation.
  - apply (NoDup_fmap_1 fst). apply NoDup_range_keys.
  - apply NoDup_fmap_2; [by intros ? ? [= _ ?]|by eapply NoDup_fmap_1].
  - intros [k f]. rewrite elem_of_range, lookup_index, list_elem_of_fmap by done. split.
    + intros [Hf <-]. by exists f.
    + by intros (f' & [= -> ->] & Hf).
Qed.

(** A file both sides have in different versions. *)
Definition conflicting `{TSync} (opts : BisyncOptions) (fs2 : list FileInfo) (f : FileInfo) : bool :=
  match index fs2 !! f.(FPath) with Some g => differ opts f g | None => false end.

(** A conflict that flows to the side [s]. *)
Definition conflict_to `{TSync} (opts : BisyncOptions) (fs2 : list FileInfo) (s : bool) (f : FileInfo) : bool :=
  match index fs2 !! f.(FPath) with
  | Some g => differ opts f g && bool_decide (conflict_flow opts.(BStrategy) f g = Some s)
  | None => false
  end.

Definition settled `{TSync} (opts : BisyncOptions) (fs2 : list FileInfo) (f : FileInfo) : bool :=
  negb (is_new fs2 f) && negb (conflicting opts fs2 f).

(** The report of a bisync without errors, of the files the two scans found. *)
Definition bisync_counts `{TSync} (opts : BisyncOptions) (fs1 fs2 : list FileInfo) (r : BisyncResult) : Prop :=
  r.(BErrors) = [] /\
  r.(CopiedToPath2) = count (is_new fs2) fs1 /\ r.(CopiedToPath1) = count (is_new fs1) fs2 /\
  r.(UpdatedInPath2) = (if opts.(BDryRun) then 0%Z else count (conflict_to opts fs2 true) fs1) /\
  r.(UpdatedInPath1) = (if opts.(BDryRun) then 0%Z else count (conflict_to opts fs2 false) fs1) /\
  r.(DeletedFromPath1) = 0%Z /\ r.(DeletedFromPath2) = 0%Z /\
  r.(BSkipped) = count (settled opts fs2) fs1 /\
  (ConflictPath <$> r.(Conflicts)) ≡ₚ FPath <$> List.filter (conflicting opts fs2) fs1 /\
  r.(BWasDryRun) = opts.(BDryRun).

Lemma filter_perm {A} (p : A -> bool) l l' : l ≡ₚ l' -> List.filter p l ≡ₚ List.filter p l'.
Proof.
  induction 1 as [|x l l' _ IH|x y l|]; cbn; [done| | |by etrans].
  - destruct (p x); by rewrite IH.
  - destruct (p x), (p y); try done. apply perm_swap.
Qed.

Definition of1 `{TSync} (opts : BisyncOptions) (fs2 : list FileInfo) (f : FileInfo) : option action :=
  action1 opts (index fs2) (f.(FPath), f).
Definition of2 (fs1 : list FileInfo) (f : FileInfo) : option action := action2 (index fs1) (f.(FPath), f).

Lemma omap_paths {A} (g : string * FileInfo -> option A) (fs : list FileInfo) :
  omap g ((fun f => (f.(FPath), f)) <$> fs) = omap (fun f => g (f.(FPath), f)) fs.
Proof. induction fs as [|f fs IH]; [done|]. cbn. by rewrite <- IH. Qed.

Lemma omap_range `{MapOrder} {A} (g : string * FileInfo -> option A) fs :
  NoDup (FPath <$> fs) -> omap g (range (index fs)) ≡ₚ omap (fun f => g (f.(FPath), f)) fs.
Proof. intros Hnd. rewrite <- omap_paths. by rewrite range_index. Qed.

Lemma of1_kind `{TSync} opts fs2 f :
  match of1 opts fs2 f with
  | Some (To2 f') => f' = f /\ is_new fs2 f = true /\ conflicting opts fs2 f = false
  | Some (To1 _) => False
  | Some (InConflict f' g) => f' = f /\ index fs2 !! f.(FPath) = Some g /\ is_new fs2 f = false /\ conflicting opts fs2 f = true
  | None => is_new fs2 f = false /\ conflicting opts fs2 f = false
  end.
Proof.
  unfold of1, action1, is_new, conflicting. cbn. destruct (index fs2 !! f.(FPath)) as [g|]; [|done].
  by destruct (differ opts f g) eqn:E.
Qed.

Lemma count_of1 `{TSync} opts fs2 fs1 :
  let acts := omap (of1 opts fs2) fs1 in
  count is_to2 acts = count (is_new fs2) fs1 /\ count is_to1 acts = 0%Z /\
  (forall s, count (updates opts s) acts = count (conflict_to opts fs2 s) fs1) /\
  (action_path <$> List.filter is_conflict acts) = FPath <$> List.filter (conflicting opts fs2) fs1 /\
  Z.of_nat (length fs1 - length acts) = count (settled opts fs2) fs1.
Proof.
  cbv zeta. split_and!; rewrite ?count_omap.
  - apply count_ext. intros f _. pose proof (of1_kind opts fs2 f) as Hk. destruct (of1 opts fs2 f) as [[]|]; cbn; intuition congruence.
  - induction fs1 as [|f fs1 IH]; [done|]. rewrite count_cons, IH. pose proof (of1_kind opts fs2 f) as Hk.
    by destruct (of1 opts fs2 f) as [[]|].
  - intros s. rewrite count_omap. apply count_ext. intros f _. unfold of1, action1, conflict_to. cbn.
    destruct (index fs2 !! f.(FPath)) as [g|]; [|done]. by destruct (differ opts f g).
  - induction fs1 as [|f fs1 IH]; [done|]. cbn [omap list_omap List.filter]. pose proof (of1_kind opts fs2 f) as Hk.
    destruct (of1 opts fs2 f) as [[f'|f'|f' g]|]; cbn [List.filter is_conflict]; [| |rewrite fmap_cons|].
    + by rewrite IH, (proj2 (proj2 Hk)).
    + done.
    + destruct Hk as (-> & _ & _ & ->). by rewrite IH.
    + by rewrite IH, (proj2 Hk).
  - induction fs1 as [|f fs1 IH]; [done|]. rewrite count_cons, <- IH. pose proof (omap_shorter (of1 opts fs2) fs1).
    pose proof (of1_kind opts fs2 f) as Hk. unfold settled at 1. cbn [omap list_omap length].
    destruct (of1 opts fs2 f) as [[f'|f'|f' g]|]; [destruct Hk as (_ & -> & ->)|done|destruct Hk as (_ & _ & -> & ->)
      |destruct Hk as [-> ->]]; cbn [negb andb length]; lia.
Qed.

Lemma count_of2 fs1 fs2 opts :
  let acts := omap (of2 fs1) fs2 in
  count is_to2 acts = 0%Z /\ count is_to1 acts = count (is_new fs1) fs2 /\
  (forall s, count (updates opts s) acts = 0%Z) /\ List.filter is_conflict acts = [].
Proof.
  cbv zeta. induction fs2 as [|f fs2 (IH1 & IH2 & IH3 & IH4)]; [done|]. cbn [omap list_omap]. rewrite count_cons.
  assert (of2 fs1 f = if is_new fs1 f then Some (To1 f) else None) as ->
    by (unfold of2, action2, is_new; cbn; by destruct (index fs1 !! f.(FPath))).
  destruct (is_new fs1 f); [|done]. rewrite !count_cons. cbn. split_and!; [done|lia| |done]. intros s. rewrite count_cons, IH3. done.
Qed.

Lemma bisync_counts_ok `{TSync, MapOrder} opts fs1 fs2 :
  NoDup (FPath <$> fs1) -> NoDup (FPath <$> fs2) ->
  let F1 := index fs1 in
  let F2 := index fs2 in
  bisync_counts opts fs1 fs2 (fold_left (account opts) (bisync_actions opts F1 F2)
    (b_skips (length (range F1) - length (omap (action1 opts F2) (range F1))) (emptyBisyncResult opts.(BDryRun)))).
Proof.
  intros H1 H2 F1 F2. set (acts := bisync_actions opts F1 F2).
  assert (acts ≡ₚ omap (of1 opts fs2) fs1 ++ omap (of2 fs1) fs2) as Hacts
    by (apply Permutation_app; by apply omap_range).
  assert (forall p, count p acts = count p (omap (of1 opts fs2) fs1) + count p (omap (of2 fs1) fs2))%Z as Hcount
    by (intros p; by rewrite (count_perm p _ _ Hacts), count_app).
  destruct (account_counts opts acts (b_skips (length (range F1) - length (omap (action1 opts F2) (range F1)))
    (emptyBisyncResult opts.(BDryRun)))) as (E1 & E2 & E3 & E4 & E5 & E6 & E7 & E8 & E9 & E10).
  destruct (count_of1 opts fs2 fs1) as (C1 & C2 & C3 & C4 & C5), (count_of2 fs1 fs2 opts) as (D1 & D2 & D3 & D4).
  unfold bisync_counts. rewrite E1, E2, E3, E4, E5, E6, E7, E8, E9, E10, !Hcount, C1, C2, !C3, D1, D2, !D3.
  cbn [b_skips emptyBisyncResult CopiedToPath2 CopiedToPath1 UpdatedInPath2 UpdatedInPath1 DeletedFromPath1 DeletedFromPath2
    Conflicts BSkipped BErrors BWasDryRun]. rewrite fmap_nil. cbn [app].
  split_and!; try done; try lia; try (destruct (BDryRun opts); lia).
  - unfold F1. rewrite (omap_range (action1 opts F2) fs1), (range_index fs1), length_fmap by done. exact C5.
  - rewrite (filter_perm is_conflict _ _ Hacts), List.filter_app, D4, app_nil_r. by rewrite C4.
Qed.

(** ** Properties *)

Section properties.
Context `{LS : ListingSpec W B} `{T : TSync} `{O : MapOrder} `{TT : TimeText}.
Context (fuel : nat) (now : time) (backend1 backend2 : B) (path1 path2 : string).

Local Abbreviation bk := (bk backend1 backend2).
Local Abbreviation base := (base path1 path2).
Local Abbreviation place := (place backend1 backend2 path1 path2).

Section one.
Context (opts : BisyncOptions) (w : W) (ps1 ps2 : list string).

Let fs1 := scan w backend1 path1 now (scan_options opts) ps1.
Let fs2 := scan w backend2 path2 now (scan_options opts) ps2.

(** Two different open backends whose listings can be read back, a strategy that picks a
    winner or skips, no limit below the buffer of [io.Copy], and for every path either side
    has a place of its own on both. *)
Record can_bisync : Prop := {
  cb_apart : backend1 <> backend2;
  cb_open1 : is_open w backend1;
  cb_open2 : is_open w backend2;
  cb_listed1 : listed w backend1 path1 ps1;
  cb_listed2 : listed w backend2 path2 ps2;
  cb_resolving : resolving opts.(BStrategy);
  cb_limit : (opts.(BBandwidthLimit) <= 0 \/ Z.of_nat copy_buffer <= opts.(BBandwidthLimit))%Z;
  cb_places : forall rel s, rel ∈ FPath <$> fs1 ++ fs2 -> is_Some (place s rel);
  cb_injective : forall r1 r2 s, r1 ∈ FPath <$> fs1 ++ fs2 -> r2 ∈ FPath <$> fs1 ++ fs2 ->
    place s r1 = place s r2 -> r1 = r2;
  cb_fuel : forall rel s d, rel ∈ FPath <$> fs1 ++ fs2 -> content w (bk s) (base s) rel = Some d -> length d < fuel
}.

(** Which way a path flows. *)
Definition flow_of (rel : string) : option bool := flow opts (index fs1 !! rel) (index fs2 !! rel).

(** Each path holds the content that flows to it, or its own when none does; nothing else
    changes, on any backend. *)
Definition bisynced (w' : W) : Prop :=
  (forall c, is_open w c -> is_open w' c) /\
  (forall c, c <> backend1 -> c <> backend2 -> files w' c = files w c) /\
  (forall rel s, rel ∈ FPath <$> fs1 ++ fs2 ->
     content w' (bk s) (base s) rel =
       if decide (flow_of rel = Some s) then content w (bk (negb s)) (base (negb s)) rel else content w (bk s) (base s) rel) /\
  (forall s q, (forall rel, rel ∈ FPath <$> fs1 ++ fs2 -> place s rel <> Some q) -> files w' (bk s) !! q = files w (bk s) !! q).

Hypothesis Hcan : can_bisync.

Lemma scans_ok : scanned w backend1 path1 fs1 /\ scanned w backend2 path2 fs2.
Proof. destruct Hcan. split; by apply scan_scanned. Qed.

Lemma file_map_index s : file_map (if s : bool then fs2 else fs1) = index (if s then fs2 else fs1).
Proof. apply index_no_dirs. intros f Hf. destruct scans_ok as [[_ H1] [_ H2]]. destruct s; [by apply H2|by apply H1]. Qed.

Lemma index_path fs k f : NoDup (FPath <$> fs) -> index fs !! k = Some f -> f.(FPath) = k.
Proof. by intros ? [_ ?]%lookup_index. Qed.

Lemma elem_of_acts a :
  a ∈ bisync_actions opts (index fs1) (index fs2) <->
    match a with
    | To2 f => index fs1 !! f.(FPath) = Some f /\ index fs2 !! f.(FPath) = None
    | To1 f => index fs1 !! f.(FPath) = None /\ index fs2 !! f.(FPath) = Some f
    | InConflict f g => index fs1 !! f.(FPath) = Some f /\ index fs2 !! f.(FPath) = Some g /\ differ opts f g = true
    end.
Proof. destruct scans_ok as [[N1 _] [N2 _]]. apply elem_of_bisync_actions; intros k f Hk; [by apply (index_path fs1)|by apply (index_path fs2)]. Qed.

Lemma elem_of_flows rel s :
  (rel, s) ∈ flows opts (bisync_actions opts (index fs1) (index fs2)) <-> flow_of rel = Some s.
Proof.
  destruct scans_ok as [[N1 _] [N2 _]]. unfold flows, flow_of. rewrite list_elem_of_omap. split.
  - intros (a & Ha%elem_of_acts & Hs). destruct (action_flow opts a) as [s'|] eqn:Hf; [|done]. injection Hs as <- <-.
    destruct a as [f|f|f g]; cbn in Hf |- *.
    + by destruct Ha as [-> ->].
    + by destruct Ha as [-> ->].
    + destruct Ha as (-> & -> & Hd). cbn. by rewrite Hd.
  - intros Hflow. destruct (index fs1 !! rel) as [f|] eqn:Hf, (index fs2 !! rel) as [g|] eqn:Hg; cbn in Hflow; [|..|done];
      [pose proof (index_path _ _ _ N1 Hf) as <-|pose proof (index_path _ _ _ N1 Hf) as <-|pose proof (index_path _ _ _ N2 Hg) as <-].
    + destruct (differ opts f g) eqn:Hd; [|done]. exists (InConflict f g). rewrite elem_of_acts. cbn. by rewrite Hflow.
    + exists (To2 f). rewrite elem_of_acts. cbn. by injection Hflow as <-.
    + exists (To1 g). rewrite elem_of_acts. cbn. by injection Hflow as <-.
Qed.

Lemma acts_paths a : a ∈ bisync_actions opts (index fs1) (index fs2) -> action_path a ∈ FPath <$> fs1 ++ fs2.
Proof.
  destruct scans_ok as [[N1 _] [N2 _]]. intros Ha%elem_of_acts. rewrite fmap_app, elem_of_app.
  destruct a as [f|f|f g]; cbn; [left|right|left]; apply list_elem_of_fmap_2.
  - by destruct Ha as [[? _]%lookup_index _].
  - by destruct Ha as [_ [? _]%lookup_index].
  - by destruct Ha as [[? _]%lookup_index _].
Qed.

Lemma flow_can_flow rel s : flow_of rel = Some s -> can_flow fuel backend1 backend2 path1 path2 w rel s.
Proof.
  intros Hflow. assert (rel ∈ FPath <$> fs1 ++ fs2) as Hrel.
  { apply elem_of_flows in Hflow as (a & -> & Ha%acts_paths)%flows_paths%list_elem_of_fmap. done. }
  destruct Hcan as [Hap Ho1 Ho2 _ _ _ _ Hplaces _ Hfuel], scans_ok as [[N1 H1] [N2 H2]].
  split; [by apply Hplaces|].
  assert (exists f, index (if s then fs1 else fs2) !! rel = Some f) as [f Hf].
  { unfold flow_of, flow in Hflow. destruct s, (index fs1 !! rel), (index fs2 !! rel); try done; by eexists. }
  assert (exists p d, place (negb s) rel = Some p /\ files w (bk (negb s)) !! p = Some d) as (p & d & Hp & Hd).
  { destruct s; apply lookup_index in Hf as [Hf <-]; try done; [destruct (H1 f Hf) as (_ & p & Hp & d & Hd)
      |destruct (H2 f Hf) as (_ & p & Hp & d & Hd)]; by exists p, d. }
  exists p, d. split_and!; [done..|]. apply (Hfuel rel (negb s)); [done|]. unfold content. fold (place (negb s) rel). by rewrite Hp.
Qed.

Lemma effected_bisynced w' :
  effected backend1 backend2 path1 path2 w w' (flows opts (bisync_actions opts (index fs1) (index fs2))) -> bisynced w'.
Proof.
  intros (Ho & Hf & Hin & Hout). split_and!; [done..| |].
  - intros rel s Hrel. destruct (cb_places Hcan rel s Hrel) as [q Hq]. unfold content at 1 3. fold (place s rel). rewrite Hq. cbn.
    case_decide as Hflow; [apply (Hin rel s q); [by apply elem_of_flows|done]|].
    apply Hout. intros r Hr Hrq. assert (r ∈ FPath <$> fs1 ++ fs2) as Hrp.
    { apply flows_paths, list_elem_of_fmap in Hr as (a & -> & Ha%acts_paths). done. }
    rewrite (cb_injective Hcan r rel s Hrp Hrel) in Hr by congruence. by apply elem_of_flows in Hr.
  - intros s q Hq. apply Hout. intros r (a & -> & Ha%acts_paths)%flows_paths%list_elem_of_fmap. by apply Hq.
Qed.

Lemma acts_well_paired : Forall well_paired (bisync_actions opts (index fs1) (index fs2)).
Proof.
  destruct scans_ok as [[N1 _] [N2 _]]. apply Forall_forall. intros [f|f|f g] Ha%elem_of_acts; [done..|]. cbn.
  destruct Ha as (_ & Hg & _). by apply (index_path fs2).
Qed.

Lemma Bisync_run :
  exists w' r, Bisync fuel None now backend1 backend2 path1 path2 opts w = Some (w', Some r, None) /\
    (if opts.(BDryRun) then w' = w else bisynced w') /\ bisync_counts opts fs1 fs2 r.
Proof.
  pose proof scans_ok as [[N1 H1] [N2 H2]]. pose proof (file_map_index false : file_map fs1 = index fs1) as M1.
  pose proof (file_map_index true : file_map fs2 = index fs2) as M2.
  pose proof Hcan as [Hap Ho1 Ho2 Hl1 Hl2 Hres Hlim _ Hinj _]. unfold Bisync.
  rewrite (listFiles_ok _ _ _ _ _ _ Ho1 Hl1), (listFiles_ok _ _ _ _ _ _ Ho2 Hl2).
  change (scan w backend1 path1 now _ ps1) with fs1. change (scan w backend2 path2 now _ ps2) with fs2. rewrite M1, M2.
  rewrite classify1_fold, classify2_fold. cbn [app]. set (sctx := mkSyncContext _ _).
  change (omap (action1 (default_suffix opts) (index fs2)) (range (index fs1))) with (omap (action1 opts (index fs2)) (range (index fs1))).
  fold (bisync_actions opts (index fs1) (index fs2)).
  destruct (action_loop_ok fuel now backend1 backend2 path1 path2 Hap sctx (default_suffix opts)) with
    (acts := bisync_actions opts (index fs1) (index fs2)) (w := w)
    (r := b_skips (length (range (index fs1)) - length (omap (action1 opts (index fs2)) (range (index fs1)))) (emptyBisyncResult opts.(BDryRun)))
    as (w' & Hrun & Hw'); try done.
  - by apply (limit_passes now (transfer_options opts)).
  - apply acts_well_paired.
  - intros rel s Hin. apply flow_can_flow. by apply elem_of_flows.
  - apply NoDup_bisync_actions; intros k f Hk; [by apply (index_path fs1)|by apply (index_path fs2)].
  - intros r1 r2 s (a1 & -> & Ha1%acts_paths)%list_elem_of_fmap (a2 & -> & Ha2%acts_paths)%list_elem_of_fmap. by apply Hinj.
  - rewrite Hrun. eexists w', _. split; [done|]. split.
    + change (BDryRun (default_suffix opts)) with (BDryRun opts) in Hw'. destruct (BDryRun opts); [done|]. by apply effected_bisynced.
    + change (account (default_suffix opts)) with (account opts). by apply bisync_counts_ok.
Qed.

(** A path that flows is the same on both sides afterwards. *)
Lemma bisynced_agree w' rel s :
  bisynced w' -> flow_of rel = Some s -> content w' backend1 path1 rel = content w' backend2 path2 rel.
Proof.
  intros (_ & _ & Hin & _) Hflow. assert (rel ∈ FPath <$> fs1 ++ fs2) as Hrel.
  { apply elem_of_flows in Hflow as (a & -> & Ha%acts_paths)%flows_paths%list_elem_of_fmap. done. }
  pose proof (Hin rel false Hrel) as H1. pose proof (Hin rel true Hrel) as H2. rewrite Hflow in H1, H2. cbn in H1, H2.
  destruct s; [rewrite decide_False in H1 by done; rewrite decide_True in H2 by done
    |rewrite decide_True in H1 by done; rewrite decide_False in H2 by done]; congruence.
Qed.
End one.

(** Claim C3. A bisync with a strategy that picks a winner, or skips, makes the two sides agree
    on every path that only one of them has, and on every conflict it resolves: the path holds
    the content that the strategy lets flow, the content of the other side, and every other file
    on both sides, and every other backend, is as it was.  No error is reported, nothing is
    deleted, and the counts and the list of conflicts are those of the files found. *)
Theorem Bisync_correct opts w ps1 ps2 :
  can_bisync opts w ps1 ps2 -> opts.(BDryRun) = false ->
  exists w' r, Bisync fuel None now backend1 backend2 path1 path2 opts w = Some (w', Some r, None) /\
    bisynced opts w ps1 ps2 w' /\
    (forall rel s, flow_of opts w ps1 ps2 rel = Some s -> content w' backend1 path1 rel = content w' backend2 path2 rel) /\
    bisync_counts opts (scan w backend1 path1 now (scan_options opts) ps1) (scan w backend2 path2 now (scan_options opts) ps2) r.
Proof.
  intros Hcan Hdry. destruct (Bisync_run opts w ps1 ps2 Hcan) as (w' & r & Hrun & Hw' & Hc). rewrite Hdry in Hw'.
  exists w', r. split_and!; [done..| |done]. intros rel s. by apply bisynced_agree.
Qed.

(** A dry run of a bisync changes nothing.  It reports the copies, the skips and the
    conflicts of the real run, but no update. *)
Theorem Bisync_dry_run opts w ps1 ps2 :
  can_bisync opts w ps1 ps2 -> opts.(BDryRun) = true ->
  exists r, Bisync fuel None now backend1 backend2 path1 path2 opts w = Some (w, Some r, None) /\
    r.(UpdatedInPath1) = 0%Z /\ r.(UpdatedInPath2) = 0%Z /\
    bisync_counts opts (scan w backend1 path1 now (scan_options opts) ps1) (scan w backend2 path2 now (scan_options opts) ps2) r.
Proof.
  intros Hcan Hdry. destruct (Bisync_run opts w ps1 ps2 Hcan) as (w' & r & Hrun & Hw' & Hc). rewrite Hdry in Hw'. subst w'.
  exists r. pose proof Hc as (_ & _ & _ & U2 & U1 & _). by rewrite Hdry in U1, U2.
Qed.

Lemma keep_both_ok sctx w older newer po pn co cn qo qn ro rn d_old d_new :
  older <> newer -> blocks (Z.of_nat copy_buffer) sctx.(rateLimiter) = false -> is_open w older -> is_open w newer ->
  path_of older po = Some qo -> path_of newer pn = Some qn -> path_of older co = Some ro -> path_of newer cn = Some rn ->
  ro <> qo -> rn <> qn -> files w older !! qo = Some d_old -> files w newer !! qn = Some d_new ->
  length d_old < fuel -> length d_new < fuel ->
  exists w', keep_both fuel None now sctx older newer po pn co cn w = Some (w', None) /\
    (forall c, is_open w c -> is_open w' c) /\ (forall c, c <> older -> c <> newer -> files w' c = files w c) /\
    files w' older = <[qo := d_new]> (<[ro := d_old]> (files w older)) /\
    files w' newer = <[qn := d_new]> (<[rn := d_old]> (files w newer)).
Proof.
  intros Hap Hlim Ho Hn Ho1 Hn1 Ho2 Hn2 No Nn Fo Fn Lo Ln. unfold keep_both.
  destruct (copyFileWithContext_ok fuel now sctx w older older po co qo ro d_old) as (w1 & -> & O1 & F1); [done..|].
  destruct (copyFileWithContext_ok fuel now sctx w1 newer older pn po qn qo d_new) as (w2 & -> & O2 & F2);
    [by auto|by auto|done|done|by rewrite F1, decide_False|done|done|].
  destruct (copyFileWithContext_ok fuel now sctx w2 older newer co cn ro rn d_old) as (w3 & -> & O3 & F3);
    [by auto|by auto|done|done| |done|done|].
  { rewrite F2, decide_True, lookup_insert_ne, F1, decide_True by done. apply lookup_insert_eq. }
  exists w3. split_and!; [done|auto| | |].
  - intros c ? ?. by rewrite F3, decide_False, F2, decide_False, F1, decide_False by done.
  - by rewrite F3, decide_False, F2, decide_True, F1, decide_True by done.
  - rewrite F3, decide_True, F2, decide_False, F1, decide_False by done. rewrite (insert_id _ qn); [done|].
    by rewrite lookup_insert_ne.
Qed.

(** [ConflictKeepBoth] keeps both versions of a conflict on both sides: the path holds
    the newer one, and its conflict name the older one; whatever that name held before is
    overwritten, and nothing else changes. *)
Theorem keep_both_correct sctx file1 file2 opts w p1 p2 c1 c2 d1 d2 :
  backend1 <> backend2 -> is_open w backend1 -> is_open w backend2 ->
  blocks (Z.of_nat copy_buffer) sctx.(rateLimiter) = false ->
  opts.(BStrategy) = ConflictKeepBoth -> opts.(BDryRun) = false -> file2.(FPath) = file1.(FPath) ->
  place false file1.(FPath) = Some p1 -> place true file1.(FPath) = Some p2 ->
  place false (file1.(FPath) +:+ opts.(ConflictSuffix)) = Some c1 ->
  place true (file1.(FPath) +:+ opts.(ConflictSuffix)) = Some c2 -> c1 <> p1 -> c2 <> p2 ->
  files w backend1 !! p1 = Some d1 -> files w backend2 !! p2 = Some d2 -> length d1 < fuel -> length d2 < fuel ->
  let '(older, newer) := if Before file1.(FModTime) file2.(FModTime) then (d1, d2) else (d2, d1) in
  exists w', resolveConflict fuel None now backend1 backend2 path1 path2 sctx file1 file2 opts w =
      Some (w', "keep-both", "both", None) /\
    (forall c, is_open w c -> is_open w' c) /\ (forall c, c <> backend1 -> c <> backend2 -> files w' c = files w c) /\
    files w' backend1 = <[p1 := newer]> (<[c1 := older]> (files w backend1)) /\
    files w' backend2 = <[p2 := newer]> (<[c2 := older]> (files w backend2)).
Proof.
  intros Hap Ho1 Ho2 Hlim Hst Hdry Heq Hp1 Hp2 Hc1 Hc2 N1 N2 F1 F2 L1 L2. unfold resolveConflict. rewrite Hst, Hdry, Heq. cbn [negb].
  destruct (Before _ _).
  - destruct (keep_both_ok sctx w backend1 backend2 (Join path1 file1.(FPath)) (Join path2 file1.(FPath))
      (Join path1 (file1.(FPath) +:+ opts.(ConflictSuffix))) (Join path2 (file1.(FPath) +:+ opts.(ConflictSuffix))) p1 p2 c1 c2 d1 d2 Hap Hlim Ho1 Ho2 Hp1 Hp2 Hc1 Hc2)
      as (w' & -> & Ho & Hf & E1 & E2); [done..|]. exists w'. by split_and!.
  - destruct (keep_both_ok sctx w backend2 backend1 (Join path2 file1.(FPath)) (Join path1 file1.(FPath))
      (Join path2 (file1.(FPath) +:+ opts.(ConflictSuffix))) (Join path1 (file1.(FPath) +:+ opts.(ConflictSuffix))) p2 p1 c2 c1 d2 d1 (not_eq_sym Hap) Hlim Ho2 Ho1 Hp2 Hp1 Hc2 Hc1)
      as (w' & -> & Ho & Hf & E1 & E2); [done..|]. exists w'. split_and!; try done. intros c ? ?. by apply Hf.
Qed.

(** With [ConflictError] every conflict of the list is reported and nothing is copied,
    whatever [BMaxErrors] says: only a failed copy looks at the limit. *)
Theorem conflict_errors_unlimited sctx opts acts w r :
  opts.(BStrategy) = ConflictError -> Forall (fun a => is_conflict a = true) acts ->
  exists r', action_loop fuel None now backend1 backend2 path1 path2 sctx opts acts w r = Some (w, r', None) /\
    ErrPath <$> r'.(BErrors) = (ErrPath <$> r.(BErrors)) ++ (action_path <$> acts) /\
    ConflictPath <$> r'.(Conflicts) = (ConflictPath <$> r.(Conflicts)) ++ (action_path <$> acts).
Proof.
  intros Hst. revert r. induction acts as [|a acts IH]; intros r Hall; [exists r; by rewrite fmap_nil, !app_nil_r|].
  apply Forall_cons in Hall as [Ha Hall]. destruct a as [?|?|f g]; [done..|].
  cbn [action_loop ctx_err fmap option_fmap option_map]. unfold handle_conflict, resolveConflict. rewrite Hst. cbn [mbind option_bind].
  match goal with |- context [action_loop _ _ _ _ _ _ _ _ _ acts w ?r1] => destruct (IH r1 Hall) as (r' & Hrun & He & Hc) end.
  exists r'. split; [exact Hrun|]. rewrite He, Hc. cbn [b_conflict b_error BErrors Conflicts]. by rewrite !fmap_app, <- !app_assoc.
Qed.
End properties.
