(* ===== verification/SyncCheck.v ===== *)
(** * object/sync/check.go and object/sync/verify.go

    [Check] compares two trees, [compareContent] two files; the [Verify] functions are built on
    them.  Fuel bounds the reads of one file. *)

From S2P Require Import Prelude GoLib Errors GoPath ObjectTypes ObjectBackend Filter SyncTypes Sync.

Section check.
Context `{OB : ObjectBackend W B} `{O : MapOrder}.

(** ** io.ReadFull *)

(** [io.ReadAtLeast] until [need] bytes have been read. *)
Fixpoint read_until (fuel : nat) (w : W) (r : Rd) (need : nat) : option (W * Rd * bytes * option error) :=
  match fuel with
  | 0 => None
  | S fuel =>
      match need with
      | 0 => Some (w, r, [], None)
      | _ =>
          let '(w, r, chunk, err) := Read w r need in
          match err with
          | Some e => Some (w, r, chunk, Some e)
          | None =>
              '(w, r, rest, err) ← read_until fuel w r (need - length chunk);
              Some (w, r, chunk ++ rest, err)
          end
      end
  end.

Definition ReadFull (fuel : nat) (w : W) (r : Rd) (n : nat) : option (W * Rd * bytes * option error) :=
  '(w, r, got, err) ← read_until fuel w r n;
  let err :=
    if bool_decide (n <= length got) then None
    else
      match got, err with
      | _ :: _, Some (Sentinel (IoSentinel EOF)) => Some (err_io ErrUnexpectedEOF)
      | _, _ => err
      end in
  Some (w, r, got, err).

(** ** compareContent *)

Definition compare_buffer : nat := 64 * 1024.

(** The byte-wise comparison of two slices of the same length. *)
Fixpoint same_bytes (a b : bytes) : bool :=
  match a, b with
  | x :: a, y :: b => byte_eqb x y && same_bytes a b
  | _, _ => true
  end.

Definition is_eof (err : option error) : bool :=
  match err with
  | Some e => is_sentinel (IoSentinel EOF) e || is_sentinel (IoSentinel ErrUnexpectedEOF) e
  | None => false
  end.

Fixpoint compare_loop (fuel : nat) (w : W) (srcReader dstReader : Rd) : option (W * Rd * Rd * result error bool) :=
  match fuel with
  | 0 => None
  | S fuel' =>
      '(w, srcReader, srcBuf, srcErr) ← ReadFull fuel w srcReader compare_buffer;
      '(w, dstReader, dstBuf, dstErr) ← ReadFull fuel w dstReader compare_buffer;
      if negb (length srcBuf =? length dstBuf) then Some (w, srcReader, dstReader, Ok false)
      else if negb (same_bytes srcBuf dstBuf) then Some (w, srcReader, dstReader, Ok false)
      else
        let srcEOF := is_eof srcErr in
        let dstEOF := is_eof dstErr in
        if srcEOF && dstEOF then Some (w, srcReader, dstReader, Ok true)
        else if negb (Bool.eqb srcEOF dstEOF) then Some (w, srcReader, dstReader, Ok false)
        else
          match srcErr, dstErr with
          | Some err, _ => Some (w, srcReader, dstReader, Err err)
          | None, Some err => Some (w, srcReader, dstReader, Err err)
          | None, None => compare_loop fuel' w srcReader dstReader
          end
  end.

Definition compareContent (fuel : nat) (ctx : context) (w : W) (src dst : B)
    (srcRelPath dstRelPath srcBasePath dstBasePath : string) : option (W * result error bool) :=
  match NewReader ctx w src (Join srcBasePath srcRelPath) [] with
  | (w, Err err) => Some (w, Err err)
  | (w, Ok srcReader) =>
      match NewReader ctx w dst (Join dstBasePath dstRelPath) [] with
      | (w, Err err) => Some ((CloseReader w srcReader).1, Err err)
      | (w, Ok dstReader) =>
          '(w, srcReader, dstReader, res) ← compare_loop fuel w srcReader dstReader;
          let '(w, _) := CloseReader w dstReader in
          let '(w, _) := CloseReader w srcReader in
          Some (w, res)
      end
  end.

(** ** filesMatch

    The difference of two times saturates, and the negation of the smallest duration is itself. *)
Definition filesMatch (fuel : nat) (ctx : context) (w : W) (src dst : B) (srcFile dstFile : FileInfo)
    (srcBasePath dstBasePath : string) (opts : Options) : option (W * result error bool) :=
  if negb opts.(IgnoreSize) && negb (srcFile.(FSize) =? dstFile.(FSize))%Z then Some (w, Ok false)
  else if opts.(Checksum) && negb (bool_decide (srcFile.(FHash) = "")) && negb (bool_decide (dstFile.(FHash) = ""))
  then Some (w, Ok (bool_decide (srcFile.(FHash) = dstFile.(FHash))))
  else
    let timeDiff := Sub srcFile.(FModTime) dstFile.(FModTime) in
    let timeDiff := if (timeDiff <? 0)%Z then wrap64 (- timeDiff) else timeDiff in
    if negb opts.(IgnoreTime) && negb opts.(Checksum) && (1000000000 <? timeDiff)%Z then Some (w, Ok false)
    else if opts.(Checksum)
    then compareContent fuel ctx w src dst srcFile.(FPath) dstFile.(FPath) srcBasePath dstBasePath
    else Some (w, Ok true).

(** ** Check *)

Definition add_match (p : string) (r : CheckResult) : CheckResult :=
  mkCheckResult (r.(CMatch) ++ [p]) r.(CDiffer) r.(CSrcOnly) r.(CDstOnly) r.(CErrors).
Definition add_differ (p : string) (r : CheckResult) : CheckResult :=
  mkCheckResult r.(CMatch) (r.(CDiffer) ++ [p]) r.(CSrcOnly) r.(CDstOnly) r.(CErrors).
Definition add_src_only (p : string) (r : CheckResult) : CheckResult :=
  mkCheckResult r.(CMatch) r.(CDiffer) (r.(CSrcOnly) ++ [p]) r.(CDstOnly) r.(CErrors).
Definition add_check_error (e : FileError) (r : CheckResult) : CheckResult :=
  mkCheckResult r.(CMatch) r.(CDiffer) r.(CSrcOnly) r.(CDstOnly) (r.(CErrors) ++ [e]).

Fixpoint check_loop (fuel : nat) (ctx : context) (w : W) (src dst : B) (srcPath dstPath : string) (opts : Options)
    (srcFiles : list FileInfo) (dstMap : gmap string FileInfo) (result : CheckResult)
    : option (W * gmap string FileInfo * CheckResult) :=
  match srcFiles with
  | [] => Some (w, dstMap, result)
  | srcFile :: srcFiles =>
      if srcFile.(FIsDir) then check_loop fuel ctx w src dst srcPath dstPath opts srcFiles dstMap result
      else
        match dstMap !! srcFile.(FPath) with
        | None =>
            check_loop fuel ctx w src dst srcPath dstPath opts srcFiles dstMap (add_src_only srcFile.(FPath) result)
        | Some dstFile =>
            let dstMap := delete srcFile.(FPath) dstMap in
            '(w, same) ← filesMatch fuel ctx w src dst srcFile dstFile srcPath dstPath opts;
            check_loop fuel ctx w src dst srcPath dstPath opts srcFiles dstMap
              (match same with
               | Err err => add_check_error (mkFileError srcFile.(FPath) "compare" err) result
               | Ok true => add_match srcFile.(FPath) result
               | Ok false => add_differ srcFile.(FPath) result
               end)
        end
  end.

Definition Check_ (fuel : nat) (ctx : context) (now : time) (src dst : B) (srcPath dstPath : string) (opts : Options)
    (w : W) : option (W * result error CheckResult) :=
  match listFiles ctx now w src srcPath opts with
  | (w, Err err) => Some (w, Err err)
  | (w, Ok srcFiles) =>
      match listFiles ctx now w dst dstPath opts with
      | (w, Err err) => Some (w, Err err)
      | (w, Ok dstFiles) =>
          let dstMap := fold_left (fun m f => if f.(FIsDir) then m else <[f.(FPath) := f]> m) dstFiles ∅ in
          '(w, dstMap, r) ← check_loop fuel ctx w src dst srcPath dstPath opts srcFiles dstMap
                              (mkCheckResult [] [] [] [] []);
          Some (w, Ok (mkCheckResult r.(CMatch) r.(CDiffer) r.(CSrcOnly) (r.(CDstOnly) ++ range_keys dstMap) r.(CErrors)))
      end
  end.

(** ** Diff *)

Inductive DiffStatus := DiffStatusNew | DiffStatusModified | DiffStatusDeleted.
Record DiffEntry := mkDiffEntry { DPath : string; Status : DiffStatus }.

Definition Diff (fuel : nat) (ctx : context) (now : time) (src dst : B) (srcPath dstPath : string) (opts : Options)
    (w : W) : option (W * result error (list DiffEntry)) :=
  '(w, res) ← Check_ fuel ctx now src dst srcPath dstPath opts w;
  Some (w, match res with
           | Err err => Err err
           | Ok r => Ok (((fun p => mkDiffEntry p DiffStatusNew) <$> r.(CSrcOnly)) ++
                         ((fun p => mkDiffEntry p DiffStatusModified) <$> r.(CDiffer)) ++
                         ((fun p => mkDiffEntry p DiffStatusDeleted) <$> r.(CDstOnly)))
           end).

(** ** verify.go *)

Definition Verify (fuel : nat) (ctx : context) (now : time) (src dst : B) (srcPath dstPath : string) (opts : Options)
    (w : W) : option (W * result error bool) :=
  '(w, res) ← Check_ fuel ctx now src dst srcPath dstPath opts w;
  Some (w, match res with Err err => Err err | Ok r => Ok (InSync r) end).

(** The comparison of sizes and hashes, when both backends can be asked: [None] leaves it to
    the contents. *)
Definition verify_info (ctx : context) (w : W) (src dst : B) (srcPath dstPath : string)
    : W * option (result error bool) :=
  if AsExtended src && AsExtended dst then
    match Stat ctx w src srcPath with
    | (w, Err err) => (w, Some (Err err))
    | (w, Ok srcInfo) =>
        match Stat ctx w dst dstPath with
        | (w, Err err) => (w, Some (Err err))
        | (w, Ok dstInfo) =>
            if negb (srcInfo.(ObjectSize) =? dstInfo.(ObjectSize))%Z then (w, Some (Ok false))
            else
              let srcHash := Info_Hash srcInfo HashMD5 in
              let dstHash := Info_Hash dstInfo HashMD5 in
              if negb (bool_decide (srcHash = "")) && negb (bool_decide (dstHash = ""))
              then (w, Some (Ok (bool_decide (srcHash = dstHash)))) else (w, None)
        end
    end
  else (w, None).

Definition VerifyFile (fuel : nat) (ctx : context) (src dst : B) (srcPath dstPath : string) (w : W)
    : option (W * result error bool) :=
  match Exists ctx w src srcPath with
  | (w, Err err) => Some (w, Err err)
  | (w, Ok false) => Some (w, Err (Errorf ("source file not found: " +:+ srcPath)))
  | (w, Ok true) =>
      match Exists ctx w dst dstPath with
      | (w, Err err) => Some (w, Err err)
      | (w, Ok false) => Some (w, Ok false)
      | (w, Ok true) =>
          match verify_info ctx w src dst srcPath dstPath with
          | (w, Some res) => Some (w, res)
          | (w, None) => compareContent fuel ctx w src dst srcPath dstPath "" ""
          end
      end
  end.

Definition set_Checksum (v : bool) (o : Options) : Options :=
  mkOptions o.(DeleteExtra) o.(DryRun) v o.(IgnoreExisting) o.(IgnoreSize) o.(IgnoreTime) o.(SizeOnly)
    o.(MaxErrors) o.(Concurrency) o.(FilterOpt) o.(DeleteExcluded) o.(BandwidthLimit) o.(Retry) o.(PreserveMetadata).
Definition set_SizeOnly (v : bool) (o : Options) : Options :=
  mkOptions o.(DeleteExtra) o.(DryRun) o.(Checksum) o.(IgnoreExisting) o.(IgnoreSize) o.(IgnoreTime) v
    o.(MaxErrors) o.(Concurrency) o.(FilterOpt) o.(DeleteExcluded) o.(BandwidthLimit) o.(Retry) o.(PreserveMetadata).

Definition VerifyChecksum (fuel : nat) (ctx : context) (now : time) (src dst : B) (srcPath dstPath : string) (w : W)
    : option (W * result error bool) :=
  Verify fuel ctx now src dst srcPath dstPath (set_Checksum true zeroOptions) w.

Definition QuickVerify (fuel : nat) (ctx : context) (now : time) (src dst : B) (srcPath dstPath : string) (w : W)
    : option (W * result error bool) :=
  Verify fuel ctx now src dst srcPath dstPath (set_SizeOnly true zeroOptions) w.

Record VerifyResult := mkVerifyResult {
  Verified : bool;
  TotalFiles : Z;
  MatchingFiles : Z;
  MismatchedFiles : list string;
  MissingInDst : list string;
  ExtraInDst : list string;
  VErrors : list FileError
}.

Definition VerifyWithDetails (fuel : nat) (ctx : context) (now : time) (src dst : B) (srcPath dstPath : string)
    (opts : Options) (w : W) : option (W * result error VerifyResult) :=
  '(w, res) ← Check_ fuel ctx now src dst srcPath dstPath opts w;
  Some (w, match res with
           | Err err => Err err
           | Ok r =>
               let len l := Z.of_nat (length l) in
               Ok (mkVerifyResult (InSync r)
                     (len r.(CMatch) + len r.(CDiffer) + len r.(CSrcOnly) + len r.(CDstOnly))%Z
                     (len r.(CMatch)) r.(CDiffer) r.(CSrcOnly) r.(CDstOnly) r.(CErrors))
           end).

Definition newline : string := String (Ascii.ascii_of_nat 10) "".

Definition report_files (title : string) (files : list string) : string :=
  match files with
  | [] => ""
  | _ =>
      "  " +:+ title +:+ ": " +:+ pretty (Z.of_nat (length files)) +:+ " files" +:+ newline +:+
      fold_left (fun report f => report +:+ "    - " +:+ f +:+ newline) files ""
  end.

Definition VerifyAndReport (fuel : nat) (ctx : context) (now : time) (src dst : B) (srcPath dstPath : string)
    (opts : Options) (w : W) : option (W * result error string) :=
  '(w, res) ← VerifyWithDetails fuel ctx now src dst srcPath dstPath opts w;
  Some (w, match res with
           | Err err => Err err
           | Ok r =>
               if r.(Verified) then Ok ("Verified: " +:+ pretty r.(MatchingFiles) +:+ " files match")
               else Ok ("Verification failed:" +:+ newline +:+
                        "  Matching: " +:+ pretty r.(MatchingFiles) +:+ " files" +:+ newline +:+
                        report_files "Mismatched" r.(MismatchedFiles) +:+
                        report_files "Missing in destination" r.(MissingInDst) +:+
                        report_files "Extra in destination" r.(ExtraInDst))
           end).

(** The loop of [VerifyIntegrity]: read to the end. *)
Fixpoint integrity_loop (fuel : nat) (w : W) (r : Rd) : option (W * Rd * option error) :=
  match fuel with
  | 0 => None
  | S fuel =>
      let '(w, r, _, err) := Read w r compare_buffer in
      match err with
      | None => integrity_loop fuel w r
      | Some e => Some (w, r, if is_sentinel (IoSentinel EOF) e then None else Some e)
      end
  end.

Definition VerifyIntegrity (fuel : nat) (ctx : context) (backend : B) (filePath : string) (w : W)
    : option (W * option error) :=
  match NewReader ctx w backend filePath [] with
  | (w, Err err) => Some (w, Some (Wrapf "failed to open file: " err ""))
  | (w, Ok r) =>
      match integrity_loop fuel w r with
      | None => None
      | Some (w, r, None) => Some ((CloseReader w r).1, None)
      | Some (w, r, Some e) =>
          Some ((CloseReader w r).1, Some (Wrapf ("read error at file " +:+ filePath +:+ ": ") e ""))
      end
  end.

Fixpoint integrity_all (fuel : nat) (ctx : context) (backend : B) (basePath : string) (paths : list string) (w : W)
    : option (W * list string) :=
  match paths with
  | [] => Some (w, [])
  | p :: paths =>
      let fullPath :=
        if negb (bool_decide (basePath = "")) && bool_decide (String.length basePath < String.length p) then p
        else if negb (bool_decide (basePath = "")) then Join basePath p else p in
      '(w, err) ← VerifyIntegrity fuel ctx backend fullPath w;
      '(w, corrupted) ← integrity_all fuel ctx backend basePath paths w;
      Some (w, match err with Some _ => p :: corrupted | None => corrupted end)
  end.

Definition VerifyAllIntegrity (fuel : nat) (ctx : context) (backend : B) (basePath : string) (w : W)
    : option (W * result error (list string)) :=
  match List ctx w backend basePath with
  | (w, Err err) => Some (w, Err err)
  | (w, Ok paths) =>
      '(w, corrupted) ← integrity_all fuel ctx backend basePath paths w;
      Some (w, Ok corrupted)
  end.

End check.

(** ** Lemmas *)

#[export] Instance byte_eq_dec : EqDecision byte := Byte.byte_eq_dec.

Lemma compare_buffer_pos : 0 < compare_buffer.
Proof. apply Nat.ltb_lt. vm_compute. reflexivity. Qed.

Lemma same_bytes_spec a b : length a = length b -> same_bytes a b = true <-> a = b.
Proof.
  revert b. induction a as [|x a IH]; intros [|y b] Hl; try done. cbn [same_bytes].
  rewrite andb_true_iff, IH by (cbn in Hl; lia). unfold byte_eqb.
  assert (Byte.eqb x y = true <-> x = y) as -> by (split; [apply Byte.byte_dec_bl|apply Byte.byte_dec_lb]).
  split; [by intros [-> ->]|by intros [= -> ->]].
Qed.

Section lemmas.
Context `{LS : ListingSpec W B} `{O : MapOrder}.

(** [n] bytes when there are as many, and the end of the file otherwise. *)
Lemma read_until_spec fuel w (r : Rd) n :
  rd_open r -> length (unread r) < fuel ->
  exists r' err, read_until fuel w r n = Some (w, r', take n (unread r), err) /\
    if decide (n <= length (unread r)) then err = None /\ rd_open r' /\ unread r' = drop n (unread r)
    else err = Some (err_io EOF).
Proof.
  revert r n. induction fuel as [|fuel IH]; intros r n Ho Hf; [lia|]. destruct n as [|n].
  { cbn [read_until take drop]. exists r, None. rewrite decide_True by lia. done. }
  cbn [read_until]. pose proof (Read_spec w r (S n) ltac:(lia) Ho) as Hr. destruct (unread r) as [|x d] eqn:Hu.
  - destruct Hr as (r' & ->). exists r', (Some (err_io EOF)). rewrite decide_False by (cbn; lia). done.
  - destruct Hr as (r' & chunk & -> & Ho' & Hne & Hlen & Hsplit). rewrite Hsplit in *. rewrite length_app in Hf |- *.
    destruct chunk as [|y chunk]; [done|]. cbn [length] in *.
    destruct (IH r' (S n - S (length chunk)) Ho') as (r2 & err & -> & Hcase); [lia|]. cbn [mbind option_bind].
    exists r2, err. rewrite take_app, drop_app, (take_ge (y :: chunk)), (drop_ge (y :: chunk)) by (cbn; lia).
    cbn [length app]. split; [done|]. destruct (decide (S n - S (length chunk) <= length (unread r'))) as [Hle|Hle].
    + rewrite decide_True by lia. done.
    + rewrite decide_False by lia. done.
Qed.

Lemma ReadFull_spec fuel w (r : Rd) n :
  rd_open r -> length (unread r) < fuel ->
  exists r' err, ReadFull fuel w r n = Some (w, r', take n (unread r), err) /\
    if decide (n <= length (unread r)) then err = None /\ rd_open r' /\ unread r' = drop n (unread r)
    else is_eof err = true.
Proof.
  intros Ho Hf. unfold ReadFull. destruct (read_until_spec fuel w r n Ho Hf) as (r' & err & -> & Hcase).
  cbn [mbind option_bind]. rewrite length_take. eexists r', _. split; [done|]. destruct (decide (n <= length (unread r))).
  - rewrite bool_decide_eq_true_2 by lia. by destruct Hcase as (_ & ? & ?).
  - rewrite bool_decide_eq_false_2 by lia. subst err. by destruct (take n (unread r)).
Qed.

Lemma compare_loop_spec fuel w (rs rd : Rd) :
  rd_open rs -> rd_open rd -> length (unread rs) < fuel -> length (unread rd) < fuel ->
  exists rs' rd', compare_loop fuel w rs rd = Some (w, rs', rd', Ok (bool_decide (unread rs = unread rd))).
Proof.
  revert rs rd. induction fuel as [|fuel IH]; intros rs rd Hos Hod Hfs Hfd; [lia|].
  cbn [compare_loop]. pose proof compare_buffer_pos as Hpos. set (n := compare_buffer) in *. clearbody n.
  destruct (ReadFull_spec (S fuel) w rs n Hos Hfs) as (rs' & es & -> & Hs).
  destruct (ReadFull_spec (S fuel) w rd n Hod Hfd) as (rd' & ed & Hrd & Hd). cbn [mbind option_bind]. rewrite Hrd. cbn [mbind option_bind].
  destruct (Nat.eqb_spec (length (take n (unread rs))) (length (take n (unread rd)))) as [Hlen|Hlen]; cbn [negb].
  2: { eexists _, _. rewrite bool_decide_eq_false_2; [done|]. congruence. }
  destruct (same_bytes _ _) eqn:Hsame; cbn [negb].
  2: { eexists _, _. rewrite bool_decide_eq_false_2; [done|]. intros Heq. rewrite Heq in Hsame.
       by rewrite (proj2 (same_bytes_spec _ _ eq_refl) eq_refl) in Hsame. }
  apply same_bytes_spec in Hsame; [|done]. rewrite !length_take in Hlen.
  destruct (decide (n <= length (unread rs))) as [Hns|Hns], (decide (n <= length (unread rd))) as [Hnd|Hnd]; try lia.
  - destruct Hs as (-> & Hos' & Hus), Hd as (-> & Hod' & Hud). cbn [is_eof andb negb Bool.eqb].
    destruct (IH rs' rd' Hos' Hod') as (rs2 & rd2 & ->); [rewrite Hus, length_drop; lia|rewrite Hud, length_drop; lia|].
    exists rs2, rd2. do 3 f_equal. rewrite Hus, Hud. apply bool_decide_ext. split; [|congruence].
    intros Hdrop. by rewrite <- (take_drop n (unread rs)), <- (take_drop n (unread rd)), Hsame, Hdrop.
  - rewrite Hs, Hd. cbn [andb]. eexists _, _. rewrite bool_decide_eq_true_2; [done|].
    by rewrite !take_ge in Hsame by lia.
Qed.

Lemma compareContent_ok fuel w src dst r1 r2 b1 b2 d1 d2 :
  is_open w src -> is_open w dst -> content w src b1 r1 = Some d1 -> content w dst b2 r2 = Some d2 ->
  length d1 < fuel -> length d2 < fuel ->
  compareContent fuel None w src dst r1 r2 b1 b2 = Some (w, Ok (bool_decide (d1 = d2))).
Proof.
  unfold content. intros Hos Hod (p & Hp & H1)%bind_Some (q & Hq & H2)%bind_Some Hf1 Hf2. unfold compareContent.
  destruct (NewReader_at w src _ p d1 Hos Hp H1) as (rs & -> & Hrs & Hus).
  destruct (NewReader_at w dst _ q d2 Hod Hq H2) as (rd & -> & Hrd & Hud).
  destruct (compare_loop_spec fuel w rs rd Hrs Hrd) as (rs' & rd' & ->); [by rewrite Hus|by rewrite Hud|]. cbn [mbind option_bind].
  destruct (CloseReader w rd') as [w1 e1] eqn:E1. pose proof (CloseReader_spec w rd') as C1. rewrite E1 in C1. cbn in C1. subst w1.
  destruct (CloseReader w rs') as [w2 e2] eqn:E2. pose proof (CloseReader_spec w rs') as C2. rewrite E2 in C2. cbn in C2. subst w2.
  by rewrite Hus, Hud.
Qed.

(** What a scanned file says of its content. *)
Lemma scan_elem w b base now opts ps f :
  is_open w b -> listed w b base ps -> f ∈ scan w b base now opts ps ->
  f.(FIsDir) = false /\ exists d, content w b base f.(FPath) = Some d /\
    f.(FSize) = if AsExtended b then Z.of_nat (length d) else 0%Z.
Proof.
  intros Ho Hl [_ (p & -> & Hin)%list_elem_of_fmap]%list_elem_of_filter.
  destruct (listed_files _ _ _ _ _ Ho Hl Hin) as (_ & Ha & Hb & d & Hd). unfold stat_info, content.
  destruct (AsExtended b) eqn:He.
  - destruct (Stat_spec w b p p d Ho He Ha Hd) as (info & -> & Hdir & Hsize). cbn. split; [done|]. exists d. by rewrite Hb.
  - cbn. split; [done|]. exists d. by rewrite Hb.
Qed.

(** How the loop sorts a source file, given what it has at the destination: [same] tells
    whether two files at a path match. *)
Definition sorted_as (same : string -> bool) (D : gmap string FileInfo) (f : FileInfo) : Z :=
  match D !! f.(FPath) with None => 0%Z | Some _ => if same f.(FPath) then 1%Z else 2%Z end.

Definition sort_files (same : string -> bool) (D : gmap string FileInfo) (k : Z) (fs : list FileInfo) : list string :=
  FPath <$> filter (fun f => sorted_as same D f = k) fs.

Lemma sort_files_delete same D k f fs :
  f.(FPath) ∉ FPath <$> fs -> sort_files same (delete f.(FPath) D) k fs = sort_files same D k fs.
Proof.
  intros Hn. unfold sort_files. f_equal. apply filter_ext_elem. intros g Hg. unfold sorted_as.
  rewrite lookup_delete_ne; [done|]. intros Heq. apply Hn. rewrite Heq. by apply list_elem_of_fmap_2.
Qed.

Lemma sort_files_cons same D k f fs :
  sort_files same D k (f :: fs) =
    (if decide (sorted_as same D f = k) then [f.(FPath)] else []) ++ sort_files same D k fs.
Proof. unfold sort_files. rewrite filter_cons. by case_decide. Qed.

Lemma check_loop_ok fuel w src dst srcPath dstPath opts same fs D r :
  NoDup (FPath <$> fs) -> (forall f, f ∈ fs -> f.(FIsDir) = false) ->
  (forall f g, f ∈ fs -> D !! f.(FPath) = Some g ->
     filesMatch fuel None w src dst f g srcPath dstPath opts = Some (w, Ok (same f.(FPath)))) ->
  exists D', check_loop fuel None w src dst srcPath dstPath opts fs D r =
      Some (w, D', mkCheckResult (r.(CMatch) ++ sort_files same D 1 fs) (r.(CDiffer) ++ sort_files same D 2 fs)
                     (r.(CSrcOnly) ++ sort_files same D 0 fs) r.(CDstOnly) r.(CErrors)) /\
    forall k, D' !! k = if decide (k ∈ FPath <$> fs) then None else D !! k.
Proof.
  revert D r. induction fs as [|f fs IH]; intros D r Hnd Hdir Hmatch.
  { exists D. cbn. rewrite !app_nil_r. by destruct r. }
  rewrite fmap_cons, NoDup_cons in Hnd. destruct Hnd as [Hn Hnd]. cbn [check_loop]. rewrite (Hdir f) by left.
  assert (forall k, delete f.(FPath) D !! k = if decide (k ∈ [f.(FPath)]) then None else D !! k) as Hdel.
  { intros k. destruct (decide (k ∈ [f.(FPath)])) as [->%list_elem_of_singleton|Hk]; [apply lookup_delete_eq|].
    apply lookup_delete_ne. intros <-. apply Hk. by left. }
  destruct (D !! f.(FPath)) as [g|] eqn:Hg.
  - rewrite (Hmatch f g (list_elem_of_here _ _) Hg). cbn [mbind option_bind].
    edestruct (IH (delete f.(FPath) D)) as (D' & -> & HD'); [done|intros; apply Hdir; by right| |].
    { intros h g' Hh. rewrite lookup_delete_ne; [intros; apply Hmatch; [by right|done]|]. intros Heq. apply Hn. rewrite Heq. by apply list_elem_of_fmap_2. }
    exists D'. rewrite !sort_files_delete, !sort_files_cons by done. unfold sorted_as. rewrite Hg. split.
    + destruct (same f.(FPath)); cbn; by rewrite <- ?app_assoc.
    + intros k. rewrite HD', fmap_cons, Hdel. destruct (decide (k ∈ FPath <$> fs)) as [Hk|Hk].
      * by rewrite decide_True by by right.
      * apply decide_ext. rewrite list_elem_of_singleton, elem_of_cons. naive_solver.
  - edestruct (IH D) as (D' & -> & HD'); [done|intros; apply Hdir; by right|intros; apply Hmatch; [by right|done]|].
    exists D'. rewrite !sort_files_cons. unfold sorted_as. rewrite Hg. split.
    + cbn. by rewrite <- ?app_assoc.
    + intros k. rewrite HD', fmap_cons. destruct (decide (k ∈ FPath <$> fs)) as [Hk|Hk].
      * by rewrite decide_True by by right.
      * destruct (decide (k = f.(FPath))) as [->|Hne]; [by rewrite decide_True by left|].
        rewrite decide_False; [done|]. rewrite elem_of_cons. naive_solver.
Qed.

(** *** A check by content *)

(** Open backends, both or neither of which can stat, whose listings can be read back and carry
    no hashes; fuel for every file. *)
Record can_check (fuel : nat) (now : time) (src dst : B) (srcPath dstPath : string) (opts : Options) (w : W)
    (sps dps : list string) : Prop := {
  cc_src : is_open w src;
  cc_dst : is_open w dst;
  cc_src_listed : listed w src srcPath sps;
  cc_dst_listed : listed w dst dstPath dps;
  cc_stat : AsExtended src = AsExtended dst;
  cc_checksum : opts.(Checksum) = true;
  cc_no_hash f : f ∈ scan w src srcPath now opts sps ++ scan w dst dstPath now opts dps -> f.(FHash) = "";
  cc_src_fuel f d : f ∈ scan w src srcPath now opts sps -> content w src srcPath f.(FPath) = Some d -> length d < fuel;
  cc_dst_fuel f d : f ∈ scan w dst dstPath now opts dps -> content w dst dstPath f.(FPath) = Some d -> length d < fuel
}.

Lemma filesMatch_ok fuel now src dst srcPath dstPath opts w sps dps f g :
  can_check fuel now src dst srcPath dstPath opts w sps dps ->
  f ∈ scan w src srcPath now opts sps -> g ∈ scan w dst dstPath now opts dps -> f.(FPath) = g.(FPath) ->
  filesMatch fuel None w src dst f g srcPath dstPath opts =
    Some (w, Ok (bool_decide (content w src srcPath f.(FPath) = content w dst dstPath f.(FPath)))).
Proof.
  intros [Hos Hod Hsl Hdl Hstat Hck Hno Hfs Hfd] Hf Hg Hfg. unfold filesMatch. rewrite Hck.
  rewrite (Hno f) by (apply elem_of_app; by left). rewrite (bool_decide_eq_true_2 ("" = "")) by done. cbn [negb andb].
  rewrite andb_false_r. cbn [andb].
  destruct (scan_elem _ _ _ _ _ _ _ Hos Hsl Hf) as (_ & d1 & H1 & S1).
  destruct (scan_elem _ _ _ _ _ _ _ Hod Hdl Hg) as (_ & d2 & H2 & S2).
  assert (bool_decide (content w src srcPath f.(FPath) = content w dst dstPath f.(FPath)) = bool_decide (d1 = d2)) as ->
    by (apply bool_decide_ext; rewrite H1, Hfg, H2; split; congruence).
  rewrite S1, S2, <- Hstat. destruct (negb (IgnoreSize opts) && _) eqn:Hsize.
  - rewrite bool_decide_eq_false_2; [done|]. intros ->. rewrite Z.eqb_refl, andb_false_r in Hsize. done.
  - apply compareContent_ok; [done..|by eapply Hfs|by eapply Hfd].
Qed.

(** A tree of files, as a map from relative paths to contents. *)
Definition tree (w : W) (b : B) (base : string) (fs : list FileInfo) (rel : string) : option bytes :=
  if decide (rel ∈ FPath <$> fs) then content w b base rel else None.

Lemma elem_of_sort_files same D k fs rel :
  rel ∈ sort_files same D k fs <-> exists f, f ∈ fs /\ f.(FPath) = rel /\ sorted_as same D f = k.
Proof.
  unfold sort_files. rewrite list_elem_of_fmap. split.
  - intros (f & -> & [? ?]%list_elem_of_filter). by exists f.
  - intros (f & ? & <- & ?). exists f. split; [done|]. by apply list_elem_of_filter.
Qed.

(** What a check found. *)
Record check_report (src_tree dst_tree : string -> option bytes) (r : CheckResult) : Prop := {
  cr_errors : r.(CErrors) = [];
  cr_match rel : rel ∈ r.(CMatch) <-> exists d, src_tree rel = Some d /\ dst_tree rel = Some d;
  cr_differ rel : rel ∈ r.(CDiffer) <-> exists d d', src_tree rel = Some d /\ dst_tree rel = Some d' /\ d <> d';
  cr_src_only rel : rel ∈ r.(CSrcOnly) <-> is_Some (src_tree rel) /\ dst_tree rel = None;
  cr_dst_only rel : rel ∈ r.(CDstOnly) <-> src_tree rel = None /\ is_Some (dst_tree rel)
}.

Lemma InSync_report t u r : check_report t u r -> InSync r = true <-> forall rel, t rel = u rel.
Proof.
  intros [_ Hm Hd Hs Hx]. unfold InSync. rewrite !andb_true_iff, !bool_decide_eq_true, !length_zero_iff_nil. split.
  - intros [[Ed Es] Ex] rel. rewrite Ed in Hd. rewrite Es in Hs. rewrite Ex in Hx.
    specialize (Hd rel). specialize (Hs rel). specialize (Hx rel). rewrite elem_of_nil in *.
    destruct (t rel) as [d|], (u rel) as [d'|]; [|exfalso; apply Hs; by split; [eexists|]|exfalso; apply Hx; by split; [|eexists]|done].
    destruct (decide (d = d')) as [->|Hne]; [done|]. exfalso. apply Hd. eauto.
  - intros Heq. split_and!; apply elem_of_nil_inv; intros rel.
    + rewrite Hd, Heq. intros (d & d' & ? & ? & ?). congruence.
    + rewrite Hs, Heq. intros [[? ?] ?]. congruence.
    + rewrite Hx, Heq. intros [? [? ?]]. congruence.
Qed.

Lemma tree_Some w b base now opts ps rel d :
  is_open w b -> listed w b base ps ->
  tree w b base (scan w b base now opts ps) rel = Some d <->
  (exists f, f ∈ scan w b base now opts ps /\ f.(FPath) = rel) /\ content w b base rel = Some d.
Proof.
  intros Ho Hl. unfold tree. case_decide as Hin.
  - apply list_elem_of_fmap in Hin as (f & -> & Hf). split; [|tauto]. intros ?. split; [|done]. by exists f.
  - split; [done|]. intros [(f & Hf & <-) _]. destruct Hin. by apply list_elem_of_fmap_2.
Qed.

Lemma tree_None w b base now opts ps rel :
  is_open w b -> listed w b base ps ->
  tree w b base (scan w b base now opts ps) rel = None <-> rel ∉ FPath <$> scan w b base now opts ps.
Proof.
  intros Ho Hl. unfold tree. case_decide as Hin; [|done]. split; [|done]. intros Hnone.
  apply list_elem_of_fmap in Hin as (f & -> & Hf). destruct (scan_elem _ _ _ _ _ _ _ Ho Hl Hf) as (_ & d & Hd & _). congruence.
Qed.

(** How the comparison of contents sorts a source file, by the two trees. *)
Lemma sort_files_tree w src dst srcPath dstPath now opts sps dps k rel :
  is_open w src -> is_open w dst -> listed w src srcPath sps -> listed w dst dstPath dps ->
  let sfs := scan w src srcPath now opts sps in let dfs := scan w dst dstPath now opts dps in
  rel ∈ sort_files (fun rel => bool_decide (content w src srcPath rel = content w dst dstPath rel)) (index dfs) k sfs <->
  exists d, tree w src srcPath sfs rel = Some d /\
    k = match tree w dst dstPath dfs rel with None => 0%Z | Some d' => if decide (d = d') then 1%Z else 2%Z end.
Proof.
  intros Hos Hod Hsl Hdl sfs dfs. set (same := fun rel => bool_decide (content w src srcPath rel = content w dst dstPath rel)).
  pose proof (fun f => scan_elem w src srcPath now opts sps f Hos Hsl) as Hselem.
  pose proof (fun f => scan_elem w dst dstPath now opts dps f Hod Hdl) as Hdelem.
  destruct (scan_scanned w dst dstPath now opts dps Hod Hdl) as [Hdnd _].
  pose proof (fun rel d => tree_Some w src srcPath now opts sps rel d Hos Hsl) as Ts.
  pose proof (fun rel d => tree_Some w dst dstPath now opts dps rel d Hod Hdl) as Td.
  pose proof (fun rel => tree_None w dst dstPath now opts dps rel Hod Hdl) as Nd. fold sfs in Hselem, Ts. fold dfs in Hdelem, Hdnd, Td, Nd.
  assert (forall f, f ∈ sfs -> exists d, tree w src srcPath sfs f.(FPath) = Some d /\
    sorted_as same (index dfs) f = match tree w dst dstPath dfs f.(FPath) with None => 0%Z | Some d' => if decide (d = d') then 1%Z else 2%Z end) as Hsort.
  { intros f Hf. destruct (Hselem f Hf) as (_ & d & Hd & _). exists d. split; [apply Ts; split; [by exists f|done]|].
    unfold sorted_as, same. destruct (index dfs !! f.(FPath)) as [g|] eqn:Hg.
    - apply lookup_index in Hg as [Hg Hp]; [|done]. destruct (Hdelem g Hg) as (_ & d' & Hd' & _). rewrite Hp in Hd'.
      rewrite (proj2 (Td f.(FPath) d')) by (split; [by exists g|done]). rewrite Hd, Hd'.
      destruct (decide (d = d')) as [->|Hne]; [by rewrite bool_decide_eq_true_2|].
      rewrite bool_decide_eq_false_2; [done|]. congruence.
    - apply index_None in Hg; [|done]. by rewrite (proj2 (Nd _)). }
  rewrite elem_of_sort_files. split.
  - intros (f & Hf & <- & <-). by apply Hsort.
  - intros (d & Hd & ->). destruct (proj1 (Ts rel d) Hd) as [(f & Hf & <-) _]. exists f. split_and!; [done..|].
    destruct (Hsort f Hf) as (d2 & Hd2 & ->). rewrite Hd in Hd2. by injection Hd2 as <-.
Qed.

Lemma Check_run fuel now src dst srcPath dstPath opts w sps dps :
  can_check fuel now src dst srcPath dstPath opts w sps dps ->
  exists r, Check_ fuel None now src dst srcPath dstPath opts w = Some (w, Ok r) /\
    check_report (tree w src srcPath (scan w src srcPath now opts sps)) (tree w dst dstPath (scan w dst dstPath now opts dps)) r.
Proof.
  intros Hcan. pose proof Hcan as [Hos Hod Hsl Hdl _ _ _ _ _]. unfold Check_.
  rewrite (listFiles_ok _ _ _ _ _ _ Hos Hsl), (listFiles_ok _ _ _ _ _ _ Hod Hdl).
  pose proof (fun f => scan_elem w src srcPath now opts sps f Hos Hsl) as Hselem.
  pose proof (fun f => scan_elem w dst dstPath now opts dps f Hod Hdl) as Hdelem.
  destruct (scan_scanned w src srcPath now opts sps Hos Hsl) as [Hsnd _], (scan_scanned w dst dstPath now opts dps Hod Hdl) as [Hdnd _].
  pose proof (fun rel d => tree_Some w dst dstPath now opts dps rel d Hod Hdl) as Td.
  pose proof (fun rel => tree_None w src srcPath now opts sps rel Hos Hsl) as Ns.
  pose proof (fun f g Hf Hg => filesMatch_ok fuel now src dst srcPath dstPath opts w sps dps f g Hcan Hf Hg) as Hmatch.
  set (sfs := scan w src srcPath now opts sps) in *. set (dfs := scan w dst dstPath now opts dps) in *.
  rewrite index_no_dirs by (intros f Hf; by destruct (Hdelem f Hf)).
  set (same := fun rel => bool_decide (content w src srcPath rel = content w dst dstPath rel)).
  destruct (check_loop_ok fuel w src dst srcPath dstPath opts same sfs (index dfs) (mkCheckResult [] [] [] [] [])) as (D' & -> & HD').
  { done. }
  { intros f Hf. by destruct (Hselem f Hf). }
  { intros f g Hf [Hg Heq]%lookup_index; [|done]. by apply Hmatch. }
  cbn [mbind option_bind CMatch CDiffer CSrcOnly CDstOnly CErrors app]. eexists. split; [done|].
  pose proof (fun k rel => sort_files_tree w src dst srcPath dstPath now opts sps dps k rel Hos Hod Hsl Hdl) as Hfiles.
  cbn zeta in Hfiles. fold sfs dfs same in Hfiles.
  split; cbn [CMatch CDiffer CSrcOnly CDstOnly CErrors]; [done|..]; intros rel.
  - rewrite Hfiles. split.
    + intros (d & Hd & Hk). exists d. split; [done|]. destruct (tree w dst _ _ rel) as [d'|]; [|done]. case_decide; congruence.
    + intros (d & Hd & Hd'). exists d. split; [done|]. by rewrite Hd', decide_True.
  - rewrite Hfiles. split.
    + intros (d & Hd & Hk). destruct (tree w dst _ _ rel) as [d'|]; [|done]. exists d, d'. case_decide; [done|]. done.
    + intros (d & d' & Hd & Hd' & Hne). exists d. split; [done|]. by rewrite Hd', decide_False.
  - rewrite Hfiles. split.
    + intros (d & Hd & Hk). split; [by exists d|]. destruct (tree w dst _ _ rel) as [d'|]; [|done]. case_decide; done.
    + intros [[d Hd] Hd']. exists d. by rewrite Hd, Hd'.
  - rewrite elem_of_range_keys, HD', Ns. destruct (decide (rel ∈ FPath <$> sfs)) as [Hin|Hin].
    + split; [by intros [? ?]|]. by intros [? _].
    + split.
      * intros [g [Hg Hp]%lookup_index]; [|done]. split; [done|]. subst rel. destruct (Hdelem g Hg) as (_ & d' & Hd' & _).
        exists d'. apply Td. split; [by exists g|done].
      * intros [_ [d' [(g & Hg & Hp) _]%Td]]. exists g. by apply lookup_index.
Qed.

(** *** Integrity *)

Lemma integrity_loop_spec fuel w (r : Rd) :
  rd_open r -> length (unread r) < fuel -> exists r', integrity_loop fuel w r = Some (w, r', None).
Proof.
  revert r. induction fuel as [|fuel IH]; intros r Ho Hf; [lia|]. cbn [integrity_loop].
  pose proof (Read_spec w r compare_buffer compare_buffer_pos Ho) as Hr. destruct (unread r) as [|x d] eqn:Hu.
  - destruct Hr as (r' & ->). by exists r'.
  - destruct Hr as (r' & chunk & -> & Ho' & Hne & _ & Hsplit). apply IH; [done|].
    destruct chunk; [done|]. rewrite Hsplit, length_app in Hf. cbn in Hf. lia.
Qed.

Lemma VerifyIntegrity_ok fuel w b p q d :
  is_open w b -> path_of b p = Some q -> files w b !! q = Some d -> length d < fuel ->
  VerifyIntegrity fuel None b p w = Some (w, None).
Proof.
  intros Ho Hp Hq Hf. unfold VerifyIntegrity. destruct (NewReader_at w b p q d Ho Hp Hq) as (r & -> & Hr & Hu).
  destruct (integrity_loop_spec fuel w r Hr) as (r' & ->); [by rewrite Hu|]. by rewrite CloseReader_spec.
Qed.

Lemma VerifyIntegrity_missing fuel w b p :
  is_open w b -> path_of b p ≫= (files w b !!.) = None ->
  exists e, VerifyIntegrity fuel None b p w = Some (w, Some e).
Proof.
  intros Ho Hm. unfold VerifyIntegrity. pose proof (NewReader_spec w b p Ho) as Hr. rewrite Hm in Hr.
  destruct Hr as (e & ->). by eexists.
Qed.

End lemmas.

(** ** Properties *)

Section properties.
Context `{LS : ListingSpec W B} `{O : MapOrder}.

(** Comparing contents: for two files that exist the comparison ends, with a fuel above
    both sizes, and answers whether the contents are equal, without an error. *)
Theorem compareContent_correct fuel w src dst srcRel dstRel srcBase dstBase d1 d2 :
  is_open w src -> is_open w dst -> content w src srcBase srcRel = Some d1 -> content w dst dstBase dstRel = Some d2 ->
  length d1 < fuel -> length d2 < fuel ->
  exists b, compareContent fuel None w src dst srcRel dstRel srcBase dstBase = Some (w, Ok b) /\ (b = true <-> d1 = d2).
Proof. intros. eexists. split; [by apply compareContent_ok|]. apply bool_decide_eq_true. Qed.

(** Claim C10. A check by content of two trees changes nothing and sorts every path exactly: match
    when both have it with the same content, differ when the contents are not the same,
    source-only and destination-only; Verify then answers whether the trees are equal. *)
Theorem Check_correct fuel now src dst srcPath dstPath opts w sps dps :
  can_check fuel now src dst srcPath dstPath opts w sps dps ->
  let t := tree w src srcPath (scan w src srcPath now opts sps) in
  let u := tree w dst dstPath (scan w dst dstPath now opts dps) in
  (exists r, Check_ fuel None now src dst srcPath dstPath opts w = Some (w, Ok r) /\ check_report t u r) /\
  exists b, Verify fuel None now src dst srcPath dstPath opts w = Some (w, Ok b) /\ (b = true <-> forall rel, t rel = u rel).
Proof.
  intros Hcan t u. destruct (Check_run _ _ _ _ _ _ _ _ _ _ Hcan) as (r & Hrun & Hrep). split; [by exists r|].
  exists (InSync r). unfold Verify. rewrite Hrun. split; [done|]. by apply InSync_report.
Qed.

(** A check by size and time answers from the size and the times alone.  Its tolerance
    of one second fails for a source 292 years or more older than the destination, the zero
    time of a backend that does not know it included: the difference saturates, its negation
    is itself, and the files are taken to match; the other way round they differ. *)
Theorem filesMatch_metadata fuel ctx w src dst f g srcPath dstPath opts :
  opts.(Checksum) = false -> opts.(IgnoreTime) = false -> (opts.(IgnoreSize) = true \/ f.(FSize) = g.(FSize)) ->
  filesMatch fuel ctx w src dst f g srcPath dstPath opts =
    Some (w, Ok (bool_decide
      (f.(FModTime) - g.(FModTime) <= - two63 \/ Z.abs (f.(FModTime) - g.(FModTime)) <= Second)%Z)).
Proof.
  intros Hck Ht Hs. unfold filesMatch. rewrite Hck, Ht. cbn [negb andb].
  assert (negb (IgnoreSize opts) && negb (FSize f =? FSize g)%Z = false) as ->
    by (destruct Hs as [->| ->]; [done|by rewrite Z.eqb_refl, andb_false_r]).
  set (x := FModTime f). set (y := FModTime g).
  enough ((1000000000 <? (if Sub x y <? 0 then wrap64 (- Sub x y) else Sub x y))%Z =
    negb (bool_decide (x - y <= - two63 \/ Z.abs (x - y) <= Second)%Z)) as ->
    by (by destruct (bool_decide (x - y <= - two63 \/ Z.abs (x - y) <= Second)%Z)).
  unfold Sub, Second. destruct (Z.ltb_spec (x - y) (- two63)).
  { rewrite (proj2 (Z.ltb_lt (- two63) 0)) by (unfold two63; lia).
    replace (wrap64 (- - two63)) with (- two63)%Z by reflexivity.
    rewrite bool_decide_eq_true_2 by lia. reflexivity. }
  destruct (Z.leb_spec two63 (x - y)).
  { rewrite (proj2 (Z.ltb_ge (two63 - 1) 0)) by (unfold two63; lia).
    rewrite bool_decide_eq_false_2 by (unfold two63 in *; lia). reflexivity. }
  destruct (decide (x - y = - two63)%Z) as [->|Hmin].
  { by rewrite bool_decide_eq_true_2 by lia. }
  destruct (Z.ltb_spec (x - y) 0).
  - rewrite wrap64_id by (unfold in_int64; lia). destruct (Z.ltb_spec 1000000000 (- (x - y))).
    + rewrite bool_decide_eq_false_2 by lia. done.
    + rewrite bool_decide_eq_true_2 by lia. done.
  - destruct (Z.ltb_spec 1000000000 (x - y)).
    + rewrite bool_decide_eq_false_2 by (unfold two63 in *; lia). done.
    + rewrite bool_decide_eq_true_2 by lia. done.
Qed.

(** The integrity check reads every listed file to its end and finds nothing wrong with
    files that can be read, as long as their names are longer than the base they are listed
    under.  A base that is itself the only file it lists is joined to itself: the file is
    reported as corrupted, though it can be read. *)
Theorem VerifyAllIntegrity_correct fuel w b base :
  is_open w b -> base <> "" ->
  (forall ps, List None w b base = (w, Ok ps) ->
     (forall p, p ∈ ps -> String.length base < String.length p /\
        exists q d, path_of b p = Some q /\ files w b !! q = Some d /\ length d < fuel) ->
     VerifyAllIntegrity fuel None b base w = Some (w, Ok [])) /\
  (List None w b base = (w, Ok [base]) -> content w b base base = None ->
     VerifyAllIntegrity fuel None b base w = Some (w, Ok [base])).
Proof.
  intros Ho Hb. unfold VerifyAllIntegrity. split.
  - intros ps -> Hps. assert (integrity_all fuel None b base ps w = Some (w, [])) as ->; [|done].
    induction ps as [|p ps IH]; [done|]. cbn [integrity_all].
    destruct (Hps p (list_elem_of_here _ _)) as (Hlen & q & d & Hp & Hq & Hf).
    rewrite (bool_decide_eq_false_2 (base = "")), (bool_decide_eq_true_2 (String.length base < String.length p)) by done. cbn [negb andb].
    rewrite (VerifyIntegrity_ok fuel w b p q d) by done. cbn [mbind option_bind].
    rewrite IH; [done|]. intros; apply Hps; by right.
  - intros -> Hno. cbn [integrity_all].
    rewrite (bool_decide_eq_false_2 (base = "")), (bool_decide_eq_false_2 (String.length base < String.length base)) by (done || lia).
    cbn [negb andb]. destruct (VerifyIntegrity_missing fuel w b (Join base base) Ho Hno) as (e & ->). done.
Qed.

End properties.
