(* ===== verification/SyncCopy.v ===== *)
(** * object/sync/copy.go

    Copying single files, trees, and to and from streams, over the transfers of [Sync]. *)

From S2P Require Import Prelude GoLib Errors GoPath ObjectTypes ObjectBackend Filter SyncTypes RateLimit Sync.

Section copy.
Context `{OB : ObjectBackend W B} `{T : TSync} `{O : MapOrder} `{Sch : Schedule}.

Definition set_copied (n : Z) (r : Result) : Result :=
  mkResult n r.(Updated) r.(Deleted) r.(Skipped) r.(Errors_) r.(BytesTransferred) r.(WasDryRun).
Definition set_bytes (n : Z) (r : Result) : Result :=
  mkResult r.(Copied) r.(Updated) r.(Deleted) r.(Skipped) r.(Errors_) n r.(WasDryRun).

(** The single file's half of [Copy], once the destination has been looked at. *)
Definition copy_single (fuel : nat) (ctx : context) (now : time) (src dst : B) (srcPath dstPath : string)
    (opts : Options) (w : W) : option (W * option Result * option error) :=
  let result := emptyResult opts in
  let copied w :=
    let result := set_copied 1 result in
    if AsExtended src then
      match Stat ctx w src srcPath with
      | (w, Ok info) => Some (w, Some (set_bytes info.(ObjectSize) result), None)
      | (w, Err _) => Some (w, Some result, None)
      end
    else Some (w, Some result, None) in
  if negb opts.(DryRun) then
    match copyFile fuel ctx now src dst srcPath dstPath w with
    | None => None
    | Some (w, Some err) => Some (w, Some (add_error (mkFileError srcPath "copy" err) result), None)
    | Some (w, None) => copied w
    end
  else copied w.

Definition Copy (fuel : nat) (ctx : context) (now : time) (src dst : B) (srcPath dstPath : string) (opts : Options)
    (w : W) : option (W * option Result * option error) :=
  let result := emptyResult opts in
  match Exists ctx w src srcPath with
  | (w, Err err) => Some (w, None, Some err)
  | (w, Ok srcExists) =>
      match List ctx w src srcPath with
      | (w, Err err) => Some (w, None, Some err)
      | (w, Ok srcPaths) =>
          if srcExists && bool_decide (srcPaths = [srcPath]) then
            if opts.(IgnoreExisting) then
              match Exists ctx w dst dstPath with
              | (w, Err err) => Some (w, None, Some err)
              | (w, Ok true) => Some (w, Some (add_skipped result), None)
              | (w, Ok false) => copy_single fuel ctx now src dst srcPath dstPath opts w
              end
            else copy_single fuel ctx now src dst srcPath dstPath opts w
          else Sync fuel ctx now src dst srcPath dstPath (set_DeleteExtra false opts) w
      end
  end.

Definition CopyFile (fuel : nat) (ctx : context) (now : time) (src dst : B) (srcPath dstPath : string) (w : W)
    : option (W * option error) := copyFile fuel ctx now src dst srcPath dstPath w.

(** [MustCopy]: the panics carry the error, or the first error of the result. *)
Inductive must := MustOk (r : Result) | MustPanic (e : error) | MustPanicFile (e : FileError) | MustNil.

Definition MustCopy (fuel : nat) (ctx : context) (now : time) (src dst : B) (srcPath dstPath : string) (w : W)
    : option (W * must) :=
  match Copy fuel ctx now src dst srcPath dstPath zeroOptions w with
  | None => None
  | Some (w, _, Some err) => Some (w, MustPanic err)
  | Some (w, None, None) => Some (w, MustNil)
  | Some (w, Some result, None) =>
      Some (w, match result.(Errors_) with [] => MustOk result | e :: _ => MustPanicFile e end)
  end.

(** [copyFileWithReader], from a reader of the caller's. *)
Definition copyFileWithReader {R} (read : W -> R -> nat -> W * R * bytes * option error) (fuel : nat) (ctx : context)
    (now : time) (dst : B) (reader : R) (dstPath contentType : string) (w : W) : option (W * R * option error) :=
  let writerOpts := if bool_decide (contentType = "") then [] else [WithContentType contentType] in
  match NewWriter ctx w dst dstPath writerOpts with
  | (w, Err err) => Some (w, reader, Some err)
  | (w, Ok writer) =>
      match io_Copy read Write fuel w reader writer 0 with
      | None => None
      | Some (w, reader, writer, _, Some err) => let '(w, _) := CloseWriter now w writer in Some (w, reader, Some err)
      | Some (w, reader, writer, _, None) => let '(w, e) := CloseWriter now w writer in Some (w, reader, e)
      end
  end.

Definition CopyToPath {R} (read : W -> R -> nat -> W * R * bytes * option error) (fuel : nat) (ctx : context)
    (now : time) (dst : B) (reader : R) (dstPath contentType : string) (w : W) : option (W * R * option error) :=
  copyFileWithReader read fuel ctx now dst reader dstPath contentType w.

(** [CopyFromPath], to a writer of the caller's. *)
Definition CopyFromPath {V} (write : W -> V -> bytes -> W * V * nat * option error) (fuel : nat) (ctx : context)
    (src : B) (srcPath : string) (writer : V) (w : W) : option (W * V * Z * option error) :=
  match NewReader ctx w src srcPath [] with
  | (w, Err err) => Some (w, writer, 0%Z, Some err)
  | (w, Ok reader) =>
      match io_Copy Read write fuel w reader writer 0 with
      | None => None
      | Some (w, reader, writer, n, e) => Some ((CloseReader w reader).1, writer, n, e)
      end
  end.

Definition CopyBetweenPaths (fuel : nat) (ctx : context) (now : time) (src dst : B) (srcPath dstPath : string) (w : W)
    : option (W * option error) :=
  if bool_decide (src = dst) && AsExtended src && (Features_of w src).(FCopy)
  then Some (ObjectBackend.Copy ctx now w src srcPath dstPath)
  else copyFile fuel ctx now src dst srcPath dstPath w.

(** ** TreeCopy *)

Fixpoint tree_loop (fuel : nat) (ctx : context) (now : time) (src dst : B) (srcPath dstPath : string) (opts : Options)
    (srcPaths : list string) (w : W) (result : Result) : option (W * Result * option error) :=
  match srcPaths with
  | [] => Some (w, result, None)
  | p :: srcPaths =>
      onerr err <- ctx_err ctx return Some (w, result, Some err) else
      let fullDstPath := Join dstPath (relative srcPath p) in
      let next := tree_loop fuel ctx now src dst srcPath dstPath opts srcPaths in
      let copy w :=
        if negb opts.(DryRun) then
          match copyFile fuel ctx now src dst p fullDstPath w with
          | None => None
          | Some (w, Some err) =>
              let result := add_error (mkFileError p "copy" err) result in
              if tooManyErrors opts result then Some (w, result, None) else next w result
          | Some (w, None) => next w (set_copied (result.(Copied) + 1) result)
          end
        else next w (set_copied (result.(Copied) + 1) result) in
      if opts.(IgnoreExisting) then
        match Exists ctx w dst fullDstPath with
        | (w, Ok true) => next w (add_skipped result)
        | (w, _) => copy w
        end
      else copy w
  end.

Definition TreeCopy (fuel : nat) (ctx : context) (now : time) (src dst : B) (srcPath dstPath : string) (opts : Options)
    (w : W) : option (W * option Result * option error) :=
  match List ctx w src srcPath with
  | (w, Err err) => Some (w, None, Some err)
  | (w, Ok srcPaths) =>
      '(w, result, err) ← tree_loop fuel ctx now src dst srcPath dstPath opts srcPaths w (emptyResult opts);
      Some (w, Some result, err)
  end.

End copy.

(** ** Properties *)

Section properties.
Context `{LS : ListingSpec W B} `{T : TSync} `{O : MapOrder} `{Sch : Schedule}.

Lemma copyFile_ok fuel now w src dst sp dp p q d :
  is_open w src -> is_open w dst -> path_of src sp = Some p -> path_of dst dp = Some q ->
  files w src !! p = Some d -> length d < fuel ->
  exists w', copyFile fuel None now src dst sp dp w = Some (w', None) /\ stored_at w w' dst q d.
Proof. intros. by apply (copyFileSingle_ok fuel now _ w src dst sp dp p q d). Qed.

(** Where a tree copy puts the listed name [p]. *)
Definition tree_target (dst : B) (srcPath dstPath p : string) : option string :=
  path_of dst (Join dstPath (relative srcPath p)).

Lemma tree_loop_ok fuel now src dst srcPath dstPath opts ps w r :
  src <> dst -> opts.(DryRun) = false -> opts.(IgnoreExisting) = false -> is_open w src -> is_open w dst ->
  (forall p, p ∈ ps -> path_of src p = Some p /\ is_Some (tree_target dst srcPath dstPath p) /\
     exists d, files w src !! p = Some d /\ length d < fuel) ->
  NoDup (tree_target dst srcPath dstPath <$> ps) ->
  exists w', tree_loop fuel None now src dst srcPath dstPath opts ps w r =
      Some (w', set_copied (r.(Copied) + Z.of_nat (length ps)) r, None) /\
    (forall c, c <> dst -> files w' c = files w c) /\
    (forall p q, p ∈ ps -> tree_target dst srcPath dstPath p = Some q -> files w' dst !! q = files w src !! p) /\
    forall q, (forall p, p ∈ ps -> tree_target dst srcPath dstPath p <> Some q) -> files w' dst !! q = files w dst !! q.
Proof.
  intros Hapart Hdry Hign. revert w r. induction ps as [|p ps IH]; intros w r Hs Hd Hps Hnd.
  { exists w. split_and!; [cbn; unfold set_copied; destruct r; cbn; by rewrite Z.add_0_r|done| |done]. intros p q Hin. by apply elem_of_nil in Hin. }
  cbn [tree_loop ctx_err fmap option_fmap option_map]. rewrite Hdry, Hign. cbn [negb].
  destruct (Hps p (list_elem_of_here _ _)) as (Hp & [q Hq] & d & Hf & Hfuel).
  destruct (copyFile_ok fuel now w src dst p _ p q d Hs Hd Hp Hq Hf Hfuel) as (w1 & -> & Ho1 & Hf1).
  rewrite fmap_cons, NoDup_cons in Hnd. destruct Hnd as [Hn Hnd].
  destruct (IH w1 (set_copied (r.(Copied) + 1) r)) as (w' & -> & Hoth & Hin & Hout); [auto|auto| |done|].
  { intros p' Hp'. rewrite Hf1, decide_False by done. apply Hps. by right. }
  exists w'. split_and!.
  - do 3 f_equal. unfold set_copied. cbn [Copied length]. f_equal. lia.
  - intros c Hc. by rewrite Hoth, Hf1, decide_False.
  - intros p' q' [->|Hp']%elem_of_cons Hq'.
    + rewrite Hout; [|intros p2 Hp2 Hq2; apply Hn, list_elem_of_fmap; exists p2; by rewrite Hq'].
      rewrite Hf1, decide_True by done. rewrite Hq in Hq'. injection Hq' as <-.
      by rewrite lookup_insert_eq.
    + rewrite (Hin p' q') by done. by rewrite Hf1, decide_False.
  - intros q' Hq'. rewrite Hout by (intros; apply Hq'; by right). rewrite Hf1, decide_True by done.
    apply lookup_insert_ne. intros <-. by apply (Hq' p); [left|].
Qed.

(** Claim C39. From one open backend to another, when it is no dry run, existing files are not
    to be ignored and the targets of the listed files are distinct, TreeCopy copies every listed
    file to the place of its relative path, changes no other file and no other backend, and
    counts the files. *)
Theorem TreeCopy_correct fuel now src dst srcPath dstPath opts w ps :
  src <> dst -> opts.(DryRun) = false -> opts.(IgnoreExisting) = false -> is_open w src -> is_open w dst ->
  List None w src srcPath = (w, Ok ps) ->
  (forall p, p ∈ ps -> path_of src p = Some p /\ is_Some (tree_target dst srcPath dstPath p) /\
     exists d, files w src !! p = Some d /\ length d < fuel) ->
  NoDup (tree_target dst srcPath dstPath <$> ps) ->
  exists w' r, TreeCopy fuel None now src dst srcPath dstPath opts w = Some (w', Some r, None) /\
    r.(Copied) = Z.of_nat (length ps) /\ r.(Errors_) = [] /\
    (forall c, c <> dst -> files w' c = files w c) /\
    (forall p q, p ∈ ps -> tree_target dst srcPath dstPath p = Some q -> files w' dst !! q = files w src !! p) /\
    forall q, (forall p, p ∈ ps -> tree_target dst srcPath dstPath p <> Some q) -> files w' dst !! q = files w dst !! q.
Proof.
  intros Hapart Hdry Hign Hs Hd Hl Hps Hnd. unfold TreeCopy. rewrite Hl.
  destruct (tree_loop_ok fuel now src dst srcPath dstPath opts ps w (emptyResult opts)) as (w' & -> & H); [done..|].
  exists w'. eexists. split; [done|]. done.
Qed.

(** A writer that keeps what it is given. *)
Definition collect (w : W) (v c : bytes) : W * bytes * nat * option error := (w, v ++ c, length c, None).

(** The copy of a single file and the copies to and from streams: a file that is the only
    one its name lists is copied, and counted once; an upload stores what the reader had, a
    download gives the writer the whole content and its length. *)
Theorem single_copies fuel now src dst srcPath dstPath opts w p q d :
  is_open w src -> is_open w dst -> path_of src srcPath = Some p -> path_of dst dstPath = Some q ->
  files w src !! p = Some d -> length d < fuel ->
  (List None w src srcPath = (w, Ok [srcPath]) -> opts.(DryRun) = false -> opts.(IgnoreExisting) = false ->
   exists w' r, Copy fuel None now src dst srcPath dstPath opts w = Some (w', Some r, None) /\
     stored_at w w' dst q d /\ r.(Copied) = 1%Z /\ r.(Errors_) = []) /\
  (exists w', CopyBetweenPaths fuel None now src dst srcPath dstPath w = Some (w', None) /\ stored_at w w' dst q d) /\
  (forall (r : Rd) ct, rd_open r -> length (unread r) < fuel ->
   exists w' r', CopyToPath Read fuel None now dst r dstPath ct w = Some (w', r', None) /\
     stored_at w w' dst q (unread r)) /\
  (exists got, CopyFromPath collect fuel None src srcPath [] w =
     Some (w, got, Z.of_nat (length d), None) /\ got = d).
Proof.
  intros Hs Hd Hp Hq Hf Hfuel. split_and!.
  - intros Hl Hdry Hign. unfold Copy. rewrite (Exists_spec w src srcPath p Hs Hp) by by eexists. rewrite Hl.
    rewrite bool_decide_eq_true_2 by done. cbn [andb]. rewrite Hign. unfold copy_single. rewrite Hdry. cbn [negb].
    destruct (copyFile_ok fuel now w src dst srcPath dstPath p q d) as (w1 & -> & Hst); [done..|].
    assert (files w1 src !! p = Some d) as Hf1.
    { rewrite (proj2 Hst). case_decide as Heq; [|done]. subst dst. destruct (decide (q = p)) as [->|Hne];
        [apply lookup_insert_eq|by rewrite lookup_insert_ne]. }
    destruct (AsExtended src) eqn:He; [|by eexists w1, _].
    destruct (Stat_spec w1 src srcPath p d (proj1 Hst _ Hs) He Hp Hf1) as (info & -> & _). by eexists w1, _.
  - unfold CopyBetweenPaths. destruct (bool_decide (src = dst) && AsExtended src && _) eqn:Hserver.
    + apply andb_true_iff in Hserver as [[Heq%bool_decide_eq_true He]%andb_true_iff HC]. subst dst.
      destruct (Copy_spec now w src srcPath dstPath p q d) as (w' & -> & ? & ?); [done|by rewrite He|done..|]. by exists w'.
    + by apply (copyFile_ok fuel now w src dst srcPath dstPath p q d).
  - intros r ct Hr Hlen. unfold CopyToPath, copyFileWithReader.
    pose proof (NewWriter_spec w dst dstPath (if bool_decide (ct = "") then [] else [WithContentType ct]) Hd) as Hw.
    rewrite Hq in Hw. destruct Hw as (v & -> & Hwo & Ht & Hv).
    destruct (io_Copy_spec Write pending (writes_to dst q) fuel w r v 0) as (r' & v' & -> & Hg & Ht');
      [intros; by apply write_pending|done|done|done|].
    rewrite Hv in Hg. destruct (publish now w v' dst q _ Hd Ht' Hg) as (w' & -> & Hst). by exists w', r'.
  - unfold CopyFromPath. destruct (NewReader_at w src srcPath p d Hs Hp Hf) as (r & -> & Hro & Hr).
    destruct (io_Copy_spec collect id (fun _ => True) fuel w r [] 0)
      as (r' & v' & -> & Hg & _); [intros; eexists; done|done|done|by rewrite Hr|].
    exists v'. rewrite CloseReader_spec, Hr, Z.add_0_l. split; [done|]. by rewrite Hr in Hg.
Qed.

End properties.
