(* ===== verification/SyncMemory.v ===== *)
(** * The syncs on memory backends

    The in-memory backend meets what the syncs ask of a backend, and runs of the syncs on it
    show that the hypotheses of their theorems can hold. *)

From S2P Require Import Prelude GoLib Errors GoPath ObjectTypes ObjectBackend ObjectMemory Filter SyncTypes RateLimit Sync Bisync SyncCheck SyncCopy.
Import Mem.

#[export] Instance memory_listing `{MapOrder} : ListingSpec world nat.
Proof.
  split.
  - intros w b base [Hc Ho]. destruct (List_open (w b) base Hc) as (ps & Hl & Hnd & _). exists ps. cbn. rewrite Hl.
    split_and!; [done..|]. apply Forall_forall. intros p Hp. by apply (elem_of_List _ _ _ _ Hc Hl) in Hp as [_ ?].
  - intros w b p q d [Hc Ho] _ Hp Hd. cbn in *. unfold Stat. rewrite checks_one by done. unfold mem_path in Hp.
    destruct (validatePath p); [done|]. injection Hp as <-. destruct (contents_file _ _ _ Hd) as (o & -> & Hdir & <-).
    eexists. split; [done|]. cbn. by rewrite Hdir.
  - intros w b p q [Hc Ho] Hp [d Hd]. cbn in *. unfold Exists. rewrite checks_one by done. unfold mem_path in Hp.
    destruct (validatePath p); [done|]. injection Hp as <-. destruct (contents_file _ _ _ Hd) as (o & -> & _). done.
Qed.

(** ** Runs *)

#[local] Existing Instance tree_order.

(** Times are compared exactly; the workers take what they can and finish the newest first. *)
#[local] Instance demo_tsync : TSync := {| tsync_Equal := Z.eqb |}.
#[local] Instance demo_schedule : Schedule := {| choose n := if Nat.even n then Take else Finish 1 true |}.

Definition put (p : string) (d : bytes) (t : time) (s : Store) : Store :=
  (CloseWriter t s (mkWriter p d "text/plain" false)).1.1.

(** Backend 0 is the source, under "a"; backend 1 the destination, under "b". *)
Definition sync_world : world :=
  set_backend 0 (put "a/x" [x6e; x65; x77; x21] 10 (put "a/n" [x6e] 11 New))
    (set_backend 1 (put "b/x" [x6f; x6c; x64] 5 (put "b/z" [x7a] 6 New)) (fun _ => New)).

Definition mirror_options : Options := set_DeleteExtra true DefaultOptions.

Lemma sync_world_open b : is_open sync_world b.
Proof. destruct b as [|[|b]]; (split; [done|by eexists]). Qed.

Definition sync_sfs : list FileInfo :=
  [mkFileInfo "n" 1 11 "" false; mkFileInfo "x" 4 10 "" false].
Definition sync_dfs : list FileInfo :=
  [mkFileInfo "x" 3 5 "" false; mkFileInfo "z" 1 6 "" false].

Lemma sync_scans :
  scan sync_world 0 "a" 20 mirror_options ["a/n"; "a/x"] = sync_sfs /\
  scan sync_world 1 "b" 20 mirror_options ["b/x"; "b/z"] = sync_dfs.
Proof. split; vm_compute; reflexivity. Qed.

Lemma sync_listed : listed sync_world 0 "a" ["a/n"; "a/x"] /\ listed sync_world 1 "b" ["b/x"; "b/z"].
Proof. split; (split; [reflexivity|repeat constructor; vm_compute; reflexivity]). Qed.

Lemma sync_placed : placed 5 20 0 1 "a" "b" mirror_options sync_world ["a/n"; "a/x"] ["b/x"; "b/z"].
Proof.
  unfold placed. destruct sync_scans as [-> ->]. unfold sync_sfs, sync_dfs. split_and!.
  - intros f p d Hf. rewrite !elem_of_cons, elem_of_nil in Hf. destruct Hf as [->|[->|[]]]; vm_compute; intros [= <-] [= <-]; cbn; lia.
  - intros f Hf. rewrite !elem_of_cons, elem_of_nil in Hf. destruct Hf as [->|[->|[]]]; vm_compute; by eexists.
  - intros f g Hf Hg. rewrite !elem_of_cons, elem_of_nil in Hf. cbn [app] in Hg. rewrite !elem_of_cons, elem_of_nil in Hg.
    destruct Hf as [->|[->|[]]], Hg as [->|[->|[->|[->|[]]]]]; vm_compute; congruence.
Qed.

Lemma sync_possible : can_sync 5 20 0 1 "a" "b" mirror_options sync_world ["a/n"; "a/x"] ["b/x"; "b/z"].
Proof.
  split; [done|apply sync_world_open|apply sync_world_open|apply sync_listed|apply sync_listed|by left|apply sync_placed].
Qed.

Lemma Sync_correct_witness :
  exists w' r, Sync 5 None 20 0 1 "a" "b" mirror_options sync_world = Some (w', Some r, None) /\
    files w' 1 !! "b/x" = Some [x6e; x65; x77; x21] /\ files w' 1 !! "b/z" = None /\
    (r.(Copied), r.(Updated), r.(Deleted), r.(Skipped)) = (1, 1, 1, 0)%Z.
Proof.
  destruct (Sync_correct 5 20 0 1 "a" "b" mirror_options sync_world _ _ sync_possible eq_refl)
    as (w' & r & Hrun & (_ & _ & Hm & _) & Hc).
  exists w', r. destruct sync_scans as [Es Ed]. rewrite Es, Ed in *. split; [exact Hrun|]. split_and!.
  - etrans; [apply (Hm (mkFileInfo "x" 4 10 "" false)); [right; left|vm_compute; reflexivity]|vm_compute; reflexivity].
  - etrans; [apply (Hm (mkFileInfo "z" 1 6 "" false)); [right; right; right; left|vm_compute; reflexivity]|vm_compute; reflexivity].
  - destruct Hc as (_ & -> & -> & -> & ->). vm_compute. reflexivity.
Defined.

Lemma Sync_dry_run_witness :
  exists r, Sync 5 None 20 0 1 "a" "b" (set_DryRun true mirror_options) sync_world = Some (sync_world, Some r, None) /\
    r.(Deleted) = 1%Z.
Proof.
  destruct (Sync_dry_run 5 20 0 1 "a" "b" mirror_options sync_world _ _ sync_possible eq_refl)
    as (w' & r & r' & _ & Hrun & _ & _ & Hc & _).
  exists r. split; [exact Hrun|]. destruct sync_scans as [Es Ed]. rewrite Es, Ed in Hc. destruct Hc as (_ & _ & _ & _ & ->).
  vm_compute. reflexivity.
Defined.

Definition slow_options : Options :=
  mkOptions false false false false false false false 0 4 None false 100 None None.

Lemma copyFileSingle_correct_witness :
  (exists w', copyFileSingle 5 None 20 (mkSyncContext mirror_options (newTokenBucket 20 0)) 0 1 "a/x" "c" sync_world
     = Some (w', None) /\ files w' 1 !! "c" = Some [x6e; x65; x77; x21]) /\
  forall fuel, copyFileSingle fuel None 20 (mkSyncContext slow_options (newTokenBucket 20 100)) 0 1 "a/x" "c" sync_world = None.
Proof.
  split.
  - pose proof (copyFileSingle_correct 5 20 mirror_options 0 1 "a/x" "c" sync_world "a/x" "c" ltac:(done)
      (sync_world_open 0) (sync_world_open 1) eq_refl eq_refl) as H.
    destruct H as (w' & Hrun & _ & Hf); [cbn; lia|]. exists w'. split; [exact Hrun|]. rewrite Hf. vm_compute. reflexivity.
  - intros fuel. pose proof (copyFileSingle_correct fuel 20 slow_options 0 1 "a/x" "c" sync_world "a/x" "c" ltac:(done)
      (sync_world_open 0) (sync_world_open 1) eq_refl eq_refl) as H.
    assert (files sync_world 0 !! "a/x" = Some [x6e; x65; x77; x21]) as E by (vm_compute; reflexivity). rewrite E in H.
    rewrite decide_True in H by (unfold copy_buffer; rewrite Nat2Z.inj_mul; cbn; lia). exact H.
Defined.

(** The source's new "x" is deleted, though the destination has only its old one. *)
Lemma move_loop_deletes_witness :
  exists w', move_loop None sync_world 0 1 "a" "b" mirror_options [mkFileInfo "x" 4 10 "" false] (emptyResult mirror_options)
      = (w', emptyResult mirror_options, None) /\
    files w' 0 !! "a/x" = None /\ files w' 1 !! "b/x" = Some [x6f; x6c; x64].
Proof.
  destruct (move_loop_deletes sync_world 0 1 "a" "b" mirror_options [mkFileInfo "x" 4 10 "" false] (emptyResult mirror_options))
    as (w' & Hrun & Hin & _ & Hoth); [done|apply sync_world_open|apply sync_world_open| |].
  - intros f ->%list_elem_of_singleton. split; [done|]. split; [by eexists|]. exists "b/x". split; [done|]. vm_compute. by eexists.
  - exists w'. split; [exact Hrun|]. split; [by apply (Hin (mkFileInfo "x" 4 10 "" false)); [left|]|].
    rewrite Hoth by done. vm_compute. reflexivity.
Defined.

(** ** Checks and copies *)

Definition checksum_options : Options := set_Checksum true zeroOptions.

Lemma compareContent_correct_witness :
  exists b, compareContent 5 None sync_world 0 1 "x" "x" "a" "b" = Some (sync_world, Ok b) /\ b <> true.
Proof.
  destruct (compareContent_correct 5 sync_world 0 1 "x" "x" "a" "b" [x6e; x65; x77; x21] [x6f; x6c; x64]
    (sync_world_open 0) (sync_world_open 1)) as (b & Hb & Hiff);
    [vm_compute; reflexivity|vm_compute; reflexivity|cbn; lia|cbn; lia|].
  exists b. split; [exact Hb|]. by rewrite Hiff.
Defined.

Lemma check_scans :
  scan sync_world 0 "a" 20 checksum_options ["a/n"; "a/x"] = sync_sfs /\
  scan sync_world 1 "b" 20 checksum_options ["b/x"; "b/z"] = sync_dfs.
Proof. split; vm_compute; reflexivity. Qed.

Lemma check_possible : can_check 5 20 0 1 "a" "b" checksum_options sync_world ["a/n"; "a/x"] ["b/x"; "b/z"].
Proof.
  destruct check_scans as [Es Ed].
  split; [apply sync_world_open|apply sync_world_open|apply sync_listed|apply sync_listed|done|done| | |]; rewrite ?Es, ?Ed.
  - intros f Hf. unfold sync_sfs, sync_dfs in Hf. cbn [app] in Hf. rewrite !elem_of_cons, elem_of_nil in Hf.
    by destruct Hf as [->|[->|[->|[->|[]]]]].
  - intros f d Hf. unfold sync_sfs in Hf. rewrite !elem_of_cons, elem_of_nil in Hf.
    destruct Hf as [->|[->|[]]]; vm_compute; intros [= <-]; cbn; lia.
  - intros f d Hf. unfold sync_dfs in Hf. rewrite !elem_of_cons, elem_of_nil in Hf.
    destruct Hf as [->|[->|[]]]; vm_compute; intros [= <-]; cbn; lia.
Qed.

Lemma Check_correct_witness :
  exists r, Check_ 5 None 20 0 1 "a" "b" checksum_options sync_world = Some (sync_world, Ok r) /\
    "x" ∈ r.(CDiffer) /\ "z" ∈ r.(CDstOnly).
Proof.
  destruct (Check_correct 5 20 0 1 "a" "b" checksum_options sync_world _ _ check_possible) as [(r & Hr & Hrep) _].
  exists r. split; [exact Hr|]. destruct check_scans as [Es Ed]. rewrite Es, Ed in Hrep. split.
  - apply (cr_differ _ _ _ Hrep). exists [x6e; x65; x77; x21], [x6f; x6c; x64]. split_and!; [vm_compute; reflexivity..|done].
  - apply (cr_dst_only _ _ _ Hrep). split; [vm_compute; reflexivity|vm_compute; by eexists].
Defined.

(** A source that does not know its times matches a destination written in 2024, not the
    other way round. *)
Lemma filesMatch_metadata_witness :
  let old := mkFileInfo "x" 3 zero_time "" false in
  let new := mkFileInfo "x" 3 63840000000000000000 "" false in
  filesMatch 1 None sync_world 0 1 old new "a" "b" zeroOptions = Some (sync_world, Ok true) /\
  filesMatch 1 None sync_world 0 1 new old "a" "b" zeroOptions = Some (sync_world, Ok false).
Proof.
  cbv zeta. rewrite !filesMatch_metadata by (reflexivity || (right; reflexivity)). split; vm_compute; reflexivity.
Defined.

Lemma VerifyAllIntegrity_correct_witness :
  VerifyAllIntegrity 5 None 0 "a" sync_world = Some (sync_world, Ok []) /\
  VerifyAllIntegrity 5 None 0 "a/x" sync_world = Some (sync_world, Ok ["a/x"]).
Proof.
  split.
  - apply (proj1 (VerifyAllIntegrity_correct 5 sync_world 0 "a" (sync_world_open 0) ltac:(done)) ["a/n"; "a/x"]); [reflexivity|].
    intros p Hp. rewrite !elem_of_cons, elem_of_nil in Hp. destruct Hp as [->|[->|[]]]; (split; [cbn; lia|]);
      eexists _, _; (split; [vm_compute; reflexivity|]); (split; [vm_compute; reflexivity|]); cbn; lia.
  - apply (proj2 (VerifyAllIntegrity_correct 5 sync_world 0 "a/x" (sync_world_open 0) ltac:(done))); [reflexivity|vm_compute; reflexivity].
Defined.

Lemma TreeCopy_correct_witness :
  exists w' r, TreeCopy 5 None 20 0 1 "a" "c" zeroOptions sync_world = Some (w', Some r, None) /\
    r.(Copied) = 2%Z /\ files w' 1 !! "c/n" = Some [x6e] /\ files w' 1 !! "b/z" = Some [x7a].
Proof.
  destruct (TreeCopy_correct 5 20 0 1 "a" "c" zeroOptions sync_world ["a/n"; "a/x"])
    as (w' & r & Hrun & Hc & _ & _ & Hin & Hout); [done|done|done|apply sync_world_open|apply sync_world_open|reflexivity| | |].
  - intros p Hp. rewrite !elem_of_cons, elem_of_nil in Hp. destruct Hp as [->|[->|[]]];
      (split; [reflexivity|]); (split; [by eexists|]); eexists; (split; [vm_compute; reflexivity|]); cbn; lia.
  - vm_compute. repeat constructor; rewrite ?elem_of_cons, ?elem_of_nil; naive_solver.
  - exists w', r. split; [exact Hrun|]. split; [exact Hc|]. split.
    + etrans; [apply (Hin "a/n"); [left|reflexivity]|vm_compute; reflexivity].
    + etrans; [apply Hout|vm_compute; reflexivity]. intros p Hp. rewrite !elem_of_cons, elem_of_nil in Hp.
      destruct Hp as [->|[->|[]]]; vm_compute; congruence.
Defined.

Lemma single_copies_witness :
  (exists w' r, SyncCopy.Copy 5 None 20 0 1 "a/x" "c" zeroOptions sync_world = Some (w', Some r, None) /\
    files w' 1 !! "c" = Some [x6e; x65; x77; x21] /\ r.(Copied) = 1%Z) /\
  exists got, CopyFromPath collect 5 None 0 "a/x" [] sync_world = Some (sync_world, got, 4%Z, None) /\
    got = [x6e; x65; x77; x21].
Proof.
  destruct (single_copies 5 20 0 1 "a/x" "c" zeroOptions sync_world "a/x" "c" [x6e; x65; x77; x21])
    as (H1 & _ & _ & H4); [apply sync_world_open|apply sync_world_open|reflexivity|reflexivity|vm_compute; reflexivity|cbn; lia|].
  split; [|exact H4]. destruct H1 as (w' & r & Hrun & [_ Hf] & Hc & _); [reflexivity|done|done|].
  exists w', r. split; [exact Hrun|]. split; [|exact Hc]. rewrite Hf. vm_compute. reflexivity.
Defined.

(** ** Bidirectional syncs *)

#[local] Instance demo_text : TimeText := {| time_text t := pretty t |}.

(** The defaults, dry or not. *)
Definition bisync_options (dry : bool) : BisyncOptions :=
  mkBisyncOptions ConflictNewerWins ".conflict" dry false false 0 4 None 0 None None.

Lemma bisync_scans dry :
  scan sync_world 0 "a" 20 (scan_options (bisync_options dry)) ["a/n"; "a/x"] = sync_sfs /\
  scan sync_world 1 "b" 20 (scan_options (bisync_options dry)) ["b/x"; "b/z"] = sync_dfs.
Proof. split; vm_compute; reflexivity. Qed.

Lemma bisync_possible dry :
  can_bisync 5 20 0 1 "a" "b" (bisync_options dry) sync_world
    ["a/n"; "a/x"] ["b/x"; "b/z"].
Proof.
  destruct (bisync_scans dry) as [E1 E2].
  split; [done|apply sync_world_open|apply sync_world_open|apply sync_listed|apply sync_listed|done|by left| | |]; rewrite E1, E2.
  - intros rel s Hin. unfold sync_sfs, sync_dfs in Hin. cbn in Hin. rewrite !elem_of_cons, elem_of_nil in Hin.
    destruct Hin as [->|[->|[->|[->|[]]]]], s; vm_compute; by eexists.
  - intros r1 r2 s H1 H2. unfold sync_sfs, sync_dfs in H1, H2. cbn in H1, H2. rewrite !elem_of_cons, elem_of_nil in H1, H2.
    destruct H1 as [->|[->|[->|[->|[]]]]], H2 as [->|[->|[->|[->|[]]]]], s; vm_compute; congruence.
  - intros rel s d Hin. unfold sync_sfs, sync_dfs in Hin. cbn in Hin. rewrite !elem_of_cons, elem_of_nil in Hin.
    destruct Hin as [->|[->|[->|[->|[]]]]], s; vm_compute; try done; intros [= <-]; cbn; lia.
Qed.

(** The newer "x" goes to backend 1, "n" too, and "z" comes back. *)
Lemma Bisync_correct_witness :
  exists w' r, Bisync 5 None 20 0 1 "a" "b" (bisync_options false) sync_world = Some (w', Some r, None) /\
    content w' 1 "b" "x" = Some [x6e; x65; x77; x21] /\ content w' 0 "a" "z" = Some [x7a] /\
    content w' 0 "a" "x" = content w' 1 "b" "x" /\
    (r.(CopiedToPath2), r.(CopiedToPath1), r.(UpdatedInPath2), r.(UpdatedInPath1), r.(BSkipped)) = (1, 1, 1, 0, 0)%Z.
Proof.
  destruct (Bisync_correct 5 20 0 1 "a" "b" (bisync_options false) sync_world _ _ (bisync_possible false) eq_refl)
    as (w' & r & Hrun & (_ & _ & Hin & _) & Hagree & Hc).
  destruct (bisync_scans false) as [E1 E2]. exists w', r. split; [exact Hrun|]. split_and!.
  - etrans; [apply (Hin "x" true); rewrite E1, E2; vm_compute; repeat constructor|vm_compute; reflexivity].
  - etrans; [apply (Hin "z" false); rewrite E1, E2; vm_compute; repeat constructor|vm_compute; reflexivity].
  - apply (Hagree "x" true). vm_compute. reflexivity.
  - rewrite E1, E2 in Hc. destruct Hc as (_ & -> & -> & -> & -> & _ & _ & -> & _). vm_compute. reflexivity.
Defined.

Lemma Bisync_dry_run_witness :
  exists r, Bisync 5 None 20 0 1 "a" "b" (bisync_options true)
      sync_world = Some (sync_world, Some r, None) /\ r.(CopiedToPath2) = 1%Z /\ r.(UpdatedInPath2) = 0%Z.
Proof.
  destruct (Bisync_dry_run 5 20 0 1 "a" "b" _ sync_world _ _ (bisync_possible true) eq_refl) as (r & Hrun & _ & H2 & Hc).
  destruct (bisync_scans true) as [E1 E2]. exists r. split; [exact Hrun|]. split; [|exact H2].
  rewrite E1, E2 in Hc. destruct Hc as (_ & -> & _). vm_compute. reflexivity.
Defined.

Definition keep_both_options : BisyncOptions :=
  mkBisyncOptions ConflictKeepBoth ".conflict" false false false 0 4 None 0 None None.

Lemma keep_both_correct_witness :
  exists w', resolveConflict 5 None 20 0 1 "a" "b" (mkSyncContext (transfer_options keep_both_options) None)
      (mkFileInfo "x" 4 10 "" false) (mkFileInfo "x" 3 5 "" false) keep_both_options sync_world
      = Some (w', "keep-both", "both", None) /\
    files w' 0 !! "a/x.conflict" = Some [x6f; x6c; x64] /\ files w' 1 !! "b/x" = Some [x6e; x65; x77; x21].
Proof.
  destruct (keep_both_correct 5 20 0 1 "a" "b" (mkSyncContext (transfer_options keep_both_options) None)
    (mkFileInfo "x" 4 10 "" false) (mkFileInfo "x" 3 5 "" false) keep_both_options sync_world "a/x" "b/x" "a/x.conflict" "b/x.conflict"
    [x6e; x65; x77; x21] [x6f; x6c; x64]) as (w' & Hrun & _ & _ & H1 & H2);
    [done|apply sync_world_open|apply sync_world_open|done|done|done|done|vm_compute; reflexivity|vm_compute; reflexivity
    |vm_compute; reflexivity|vm_compute; reflexivity|done|done|vm_compute; reflexivity|vm_compute; reflexivity|cbn; lia|cbn; lia|].
  exists w'. split; [exact Hrun|]. rewrite H1, H2. split; vm_compute; reflexivity.
Defined.

Lemma conflict_errors_unlimited_witness :
  exists r', action_loop 5 None 20 0 1 "a" "b" (mkSyncContext (transfer_options keep_both_options) None)
      (mkBisyncOptions ConflictError ".conflict" false false false 1 4 None 0 None None)
      [InConflict (mkFileInfo "x" 4 10 "" false) (mkFileInfo "x" 3 5 "" false);
       InConflict (mkFileInfo "y" 4 10 "" false) (mkFileInfo "y" 3 5 "" false)] sync_world (emptyBisyncResult false)
      = Some (sync_world, r', None) /\ length r'.(BErrors) = 2.
Proof.
  destruct (conflict_errors_unlimited 5 20 0 1 "a" "b" (mkSyncContext (transfer_options keep_both_options) None)
      (mkBisyncOptions ConflictError ".conflict" false false false 1 4 None 0 None None)
      [InConflict (mkFileInfo "x" 4 10 "" false) (mkFileInfo "x" 3 5 "" false);
       InConflict (mkFileInfo "y" 4 10 "" false) (mkFileInfo "y" 3 5 "" false)] sync_world (emptyBisyncResult false))
    as (r' & Hrun & He & _); [done|by repeat constructor|].
  exists r'. split; [exact Hrun|]. rewrite <- (length_fmap ErrPath), He. done.
Defined.
